(** * An in-memory B+ tree (b+tree.c): shallow embedding and properties

    The embedding follows [b+tree.c] function by function.  Node blocks
    are arrays of 512 machine words living in a store of mapped pages;
    the tree handle, the path array and the cursors are records.  Every
    function that dereferences a pointer is partial: it yields [None]
    where the C program would touch an unmapped page, a null pointer or
    an array slot that was never allocated. *)

From stdpp Require Import base numbers option list gmap sorting.

Open Scope Z_scope.

(** ** Machine integers *)

(** [unsigned char], [unsigned] and [unsigned long] arithmetic wraps. *)
Definition u8 (z : Z) : Z := z mod 256.
Definition u32 (z : Z) : Z := z mod 4294967296.
Definition u64 (z : Z) : Z := z mod 18446744073709551616.

(** ** Blocks: [union word words[512]] *)

Definition block := list Z.

Definition zero_block : block := replicate 512%nat 0.

(** layout of a block *)
Abbreviation ORDER := 256 (only parsing).
Abbreviation LHALF := 128 (only parsing).
Abbreviation RHALF := 128 (only parsing).
Abbreviation HEADER := 0 (only parsing).
Abbreviation KEY_0 := 1 (only parsing).
Abbreviation FIELD_0 := 256 (only parsing).
Abbreviation NEXT := 511 (only parsing).

(** [b->words[i]] read and written as a whole word *)
Definition rd (b : block) (i : Z) : Z := default 0 (b !! Z.to_nat i).
Definition wr (b : block) (i : Z) (v : Z) : block := <[Z.to_nat i := v]> b.

(** the words [s .. s+n) of [src] laid over [dst] from [d] on; the source
    words are read before any is written, as [memmove] guarantees *)
Definition blit (dst : block) (d : Z) (src : block) (s : Z) (n : Z) : block :=
  take (Z.to_nat d) dst
    ++ take (Z.to_nat n) (drop (Z.to_nat s) src)
    ++ drop (Z.to_nat (d + n)) dst.

(** block accessor functions *)
Definition num_keys (b : block) : Z := u8 (rd b HEADER).
Definition set_num_keys (b : block) (n : Z) : block := wr b HEADER (u8 n).
Definition get_key (b : block) (i : Z) : Z := rd b (KEY_0 + i).
Definition get_child (b : block) (i : Z) : Z := rd b (FIELD_0 + i).
Definition get_value (b : block) (i : Z) : Z := rd b (FIELD_0 + i).
Definition next_leaf (b : block) : Z := rd b NEXT.

(** [for (i = 0; i < nk && k > get_key(b, i); i++);] *)
Fixpoint scan_leaf_loop (fuel : nat) (b : block) (k nk i : Z) : Z :=
  match fuel with
  | O => i
  | S fuel' =>
      if (i <? nk) && (get_key b i <? k)
      then scan_leaf_loop fuel' b k nk (i + 1)
      else i
  end.

Definition scan_leaf_keys (b : block) (k : Z) : Z :=
  let nk := num_keys b in
  scan_leaf_loop (Z.to_nat nk) b k nk 0.

(** [for (i = 0; i < nk && k >= get_key(b, i); i++);] *)
Fixpoint scan_index_loop (fuel : nat) (b : block) (k nk i : Z) : Z :=
  match fuel with
  | O => i
  | S fuel' =>
      if (i <? nk) && (get_key b i <=? k)
      then scan_index_loop fuel' b k nk (i + 1)
      else i
  end.

Definition scan_index_keys (b : block) (k : Z) : Z :=
  let nk := num_keys b in
  scan_index_loop (Z.to_nat nk) b k nk 0.

(** ** Records of the program *)

Inductive bplus_error := OK | NOTFOUND | NOMEM.

#[global] Instance bplus_error_eq_dec : EqDecision bplus_error.
Proof. solve_decision. Defined.

(** [struct path_node] *)
Record path_node := PathNode {
  pn_node : Z;      (* node in path *)
  pn_num_keys : Z;  (* number of keys in node *)
  pn_pos : Z;       (* index of path child to split node after *)
  pn_split : Z      (* new node allocated to split full node into *)
}.

(** [struct bplus]; [path] is [None] for a null pointer, else the array *)
Record bplus := Bplus {
  root : Z;
  leaves : Z;
  depth : Z;
  cursor_list : Z;
  num_recs : Z;
  num_blks : Z;
  num_crsrs : Z;
  path_length : Z;
  path : option (list path_node);
  new_root : Z
}.

(** [struct bplus_cursor]; [bc_tree] is the handle of its tree or 0 *)
Record bplus_cursor := Cursor {
  bc_tree : Z;
  bc_next : Z;
  bc_leaf : Z;
  bc_pos : Z;
  bc_invalid : Z
}.

(** The memory the library works on: the mapped node pages, the cursor
    structs, one tree handle, and the environment's answers to the
    allocation requests still to come ([false]: refused; when the list
    is used up every request is granted). *)
Record world := World {
  pages : gmap Z block;
  next_page : Z;
  cursors : gmap Z bplus_cursor;
  next_cursor : Z;
  oracle : list bool;
  tree : bplus
}.

(** the one tree handle of a world *)
Abbreviation THE_TREE := 1 (only parsing).

Definition with_pages (w : world) (h : gmap Z block) : world :=
  World h (next_page w) (cursors w) (next_cursor w) (oracle w) (tree w).
Definition with_cursors (w : world) (cs : gmap Z bplus_cursor) : world :=
  World (pages w) (next_page w) cs (next_cursor w) (oracle w) (tree w).
Definition with_tree (w : world) (t : bplus) : world :=
  World (pages w) (next_page w) (cursors w) (next_cursor w) (oracle w) t.

Definition set_root (t : bplus) (x : Z) : bplus :=
  Bplus x (leaves t) (depth t) (cursor_list t) (num_recs t) (num_blks t)
        (num_crsrs t) (path_length t) (path t) (new_root t).
Definition set_depth (t : bplus) (x : Z) : bplus :=
  Bplus (root t) (leaves t) x (cursor_list t) (num_recs t) (num_blks t)
        (num_crsrs t) (path_length t) (path t) (new_root t).
Definition set_cursor_list (t : bplus) (x : Z) : bplus :=
  Bplus (root t) (leaves t) (depth t) x (num_recs t) (num_blks t)
        (num_crsrs t) (path_length t) (path t) (new_root t).
Definition set_num_recs (t : bplus) (x : Z) : bplus :=
  Bplus (root t) (leaves t) (depth t) (cursor_list t) x (num_blks t)
        (num_crsrs t) (path_length t) (path t) (new_root t).
Definition set_num_blks (t : bplus) (x : Z) : bplus :=
  Bplus (root t) (leaves t) (depth t) (cursor_list t) (num_recs t) x
        (num_crsrs t) (path_length t) (path t) (new_root t).
Definition set_num_crsrs (t : bplus) (x : Z) : bplus :=
  Bplus (root t) (leaves t) (depth t) (cursor_list t) (num_recs t) (num_blks t)
        x (path_length t) (path t) (new_root t).
Definition set_path (t : bplus) (n : Z) (p : option (list path_node)) : bplus :=
  Bplus (root t) (leaves t) (depth t) (cursor_list t) (num_recs t) (num_blks t)
        (num_crsrs t) n p (new_root t).
Definition set_new_root (t : bplus) (x : Z) : bplus :=
  Bplus (root t) (leaves t) (depth t) (cursor_list t) (num_recs t) (num_blks t)
        (num_crsrs t) (path_length t) (path t) x.

(** ** Memory primitives *)

(** [p->words[i]] *)
Definition load (w : world) (p i : Z) : option Z :=
  b ← pages w !! p; Some (rd b i).

(** [p->words[i] = v] *)
Definition store (w : world) (p i v : Z) : option world :=
  b ← pages w !! p; Some (with_pages w (<[p := wr b i v]> (pages w))).

(** [p->words[HEADER].header.num_keys = n] *)
Definition store_num_keys (w : world) (p n : Z) : option world :=
  b ← pages w !! p; Some (with_pages w (<[p := set_num_keys b n]> (pages w))).

(** [wrdmove(dp->words + d, sp->words + s, n)]; [wrdcpy] is the same
    function on the non-overlapping ranges it is called with *)
Definition wrdmove (w : world) (dp d sp s n : Z) : option world :=
  db ← pages w !! dp;
  sb ← pages w !! sp;
  Some (with_pages w (<[dp := blit db d sb s n]> (pages w))).

Definition wrdcpy := wrdmove.

(** the environment's answer to the next allocation request *)
Definition grant (w : world) : bool * world :=
  match oracle w with
  | [] => (true, w)
  | a :: o =>
      (a, World (pages w) (next_page w) (cursors w) (next_cursor w) o (tree w))
  end.

(** Pages are named by their number; page [p] stands for the address
    [4096 * p], so that a 64-bit address space has [2^52] of them. *)
Abbreviation PAGE_LIMIT := 4503599627370496 (only parsing).

(** [mmap] reports a failure by [MAP_FAILED], the address with all bits
    set, and not by the null pointer.  It is no page's address; it is
    written -1 here, and no page is ever mapped there. *)
Abbreviation MAP_FAILED := (-1) (only parsing).

(** [mmap] of one anonymous page: a zero-filled page at an address not
    handed out before, or [MAP_FAILED] when the environment refuses or
    no address is left (the source is compiled with [USE_MMAP_ANON]; no
    caller tests for [MAP_FAILED], their tests are against null) *)
Definition alloc_page_for_block (w : world) : Z * world :=
  let '(ok, w) := grant w in
  if ok && (next_page w <? PAGE_LIMIT) then
    let a := next_page w in
    (a, World (<[a := zero_block]> (pages w)) (a + 1) (cursors w)
              (next_cursor w) (oracle w) (tree w))
  else (MAP_FAILED, w).

(** [munmap]: unmapping an address that is not mapped changes nothing *)
Definition free_page_for_block (w : world) (p : Z) : world :=
  with_pages w (base.delete p (pages w)).

Definition new_index_block := alloc_page_for_block.
Definition new_leaf_block := alloc_page_for_block.
Definition free_index_block := free_page_for_block.
Definition free_leaf_block := free_page_for_block.

(** [b->path[d]]: the path must be allocated and [d] inside it *)
Definition path_at (w : world) (d : Z) : option path_node :=
  l ← path (tree w); l !! Z.to_nat d.

Definition path_update (w : world) (d : Z) (f : path_node → path_node)
  : option world :=
  l ← path (tree w);
  pn ← l !! Z.to_nat d;
  Some (with_tree w (set_path (tree w) (path_length (tree w))
                              (Some (<[Z.to_nat d := f pn]> l)))).

Definition load_num_keys (w : world) (p : Z) : option Z :=
  b ← pages w !! p; Some (num_keys b).

(** ** Cursor registry *)

(** [for (bc = b->cursor_list; bc != NULL; bc = bc->next) body(bc);]
    The registry is a linked list through [bc_next]; a list of more
    links than there are cursors is cyclic and the loop does not end. *)
Fixpoint for_cursors_from (fuel : nat) (body : world → bplus_cursor → option bplus_cursor)
    (bc : Z) (w : world) : option world :=
  if bc =? 0 then Some w
  else match fuel with
    | O => None
    | S fuel' =>
        c ← cursors w !! bc;
        c' ← body w c;
        for_cursors_from fuel' body (bc_next c')
          (with_cursors w (<[bc := c']> (cursors w)))
    end.

Definition for_cursors (body : world → bplus_cursor → option bplus_cursor)
    (w : world) : option world :=
  for_cursors_from (size (cursors w)) body (cursor_list (tree w)) w.

Definition set_bc_pos (c : bplus_cursor) (p : Z) : bplus_cursor :=
  Cursor (bc_tree c) (bc_next c) (bc_leaf c) p (bc_invalid c).
Definition set_bc_leaf (c : bplus_cursor) (l : Z) : bplus_cursor :=
  Cursor (bc_tree c) (bc_next c) l (bc_pos c) (bc_invalid c).
Definition set_bc_invalid (c : bplus_cursor) (x : Z) : bplus_cursor :=
  Cursor (bc_tree c) (bc_next c) (bc_leaf c) (bc_pos c) x.
Definition set_bc_tree (c : bplus_cursor) (x : Z) : bplus_cursor :=
  Cursor x (bc_next c) (bc_leaf c) (bc_pos c) (bc_invalid c).
Definition set_bc_next (c : bplus_cursor) (x : Z) : bplus_cursor :=
  Cursor (bc_tree c) x (bc_leaf c) (bc_pos c) (bc_invalid c).

(** make a cursor for tree and thread into tree's list of cursors *)
Definition make_bplus_cursor (w : world) (leaf pos : Z) : Z * world :=
  let '(ok, w) := grant w in
  if ok then
    let c := next_cursor w in
    let t := tree w in
    let t' := set_cursor_list (set_num_crsrs t (u64 (num_crsrs t + 1))) c in
    (c, World (pages w) (next_page w)
              (<[c := Cursor THE_TREE (cursor_list t) leaf pos 0]> (cursors w))
              (c + 1) (oracle w) t')
  else (0, w).

(** ** Tree creation *)

(** make a new bplus tree: the world that holds nothing but the tree.
    There is none when the handle is refused (the call answers null),
    and none when the root page is refused: its pointer is [MAP_FAILED]
    then, the test against null lets it pass, and the key count is
    written through it. *)
Definition new_bplus_tree (answers : list bool) : option world :=
  let w0 := World ∅ 1 ∅ 1 answers (Bplus 0 0 0 0 0 0 0 0 None 0) in
  let '(ok, w) := grant w0 in  (* malloc(sizeof(struct bplus)) *)
  if ok then
    let '(r, w) := new_leaf_block w in
    if r =? 0 then None
    else
      w ← store_num_keys w r 0;
      w ← store w r NEXT 0;
      Some (with_tree w (Bplus r r 0 0 0 1 0 0 None 0))
  else None.

(** reserve a path record sufficient for current depth of index; the
    frames of a fresh array hold no meaningful data and are modelled as
    zero *)
Definition path_reserved (w : world) : bplus_error * world :=
  let t := tree w in
  if path_length t <? depth t then
    let '(ok, w) := grant w in
    if ok then
      (OK, with_tree w (set_path t (depth t)
             (Some (replicate (Z.to_nat (depth t)) (PathNode 0 0 0 0)))))
    else (NOMEM, with_tree w (set_path t (depth t) None))
  else (OK, w).

(** ** Preallocation *)

Fixpoint free_splits_loop (n : nat) (d : Z) (w : world) : option world :=
  match n with
  | O => Some w
  | S n' =>
      pn ← path_at w d;
      free_splits_loop n' (d + 1) (free_index_block w (pn_split pn))
  end.

(** undo preallocations if incomplete *)
Definition free_preallocated_splits (w : world) (d : Z) : option world :=
  let w := if (d =? 0) && negb (new_root (tree w) =? 0)
           then free_index_block w (new_root (tree w)) else w in
  free_splits_loop (Z.to_nat (depth (tree w) - d)) d w.

Definition set_pn_split (a : Z) (pn : path_node) : path_node :=
  PathNode (pn_node pn) (pn_num_keys pn) (pn_pos pn) a.

(** How a stretch of [preallocate_splits] ends: the function has
    returned the null leaf ([Abort]), or control goes on with the local
    variables [d] and [n_allocs]. *)
Inductive prealloc := Abort | Go (d n_allocs : Z).

(** [for (d = b->depth; d != 0 && b->path[--d].num_keys == ORDER - 1;)]:
    the argument [n] is the value of [d] when the condition is tested. *)
Fixpoint preallocate_loop (n : nat) (n_allocs : Z) (w : world)
  : option (prealloc * world) :=
  match n with
  | O => Some (Go 0 n_allocs, w)
  | S n' =>
      let d := Z.of_nat n' in
      pn ← path_at w d;
      if pn_num_keys pn =? ORDER - 1 then
        let '(a, w) := new_index_block w in
        w ← path_update w d (set_pn_split a);
        if a =? 0 then
          w ← free_preallocated_splits w (d + 1);
          Some (Abort, w)
        else preallocate_loop n' (n_allocs + 1) w
      else Some (Go d n_allocs, w)
  end.

(** if either no index or reached top node which is full *)
Definition preallocate_top (d n_allocs : Z) (w : world)
  : option (prealloc * world) :=
  full ← (if depth (tree w) =? 0 then Some true
          else if d =? 0 then
            pn ← path_at w d; Some (pn_num_keys pn =? ORDER - 1)
          else Some false);
  if full : bool then
    '(r, w) ← (if negb (depth (tree w) =? 0) then
                 let '(a, w) := new_index_block w in
                 w ← path_update w d (set_pn_split a);
                 if a =? 0 then
                   w ← free_preallocated_splits w (d + 1);
                   Some (Abort, w)
                 else Some (Go d (n_allocs + 1), w)
               else Some (Go d n_allocs, w));
    match r with
    | Abort => Some (Abort, w)
    | Go d n_allocs =>
        let '(a, w) := new_index_block w in
        let w := with_tree w (set_new_root (tree w) a) in
        if a =? 0 then
          w ← free_preallocated_splits w d;
          Some (Abort, w)
        else Some (Go d (n_allocs + 1), w)
    end
  else Some (Go d n_allocs, w).

(** To avoid need to allocate (which can fail) do all allocation for
    splitting leaf and index nodes; returns the new leaf or 0 *)
Definition preallocate_splits (w : world) : option (Z * world) :=
  let w := with_tree w (set_new_root (tree w) 0) in
  '(r, w) ← preallocate_loop (Z.to_nat (depth (tree w))) 0 w;
  match r with
  | Abort => Some (0, w)
  | Go d n_allocs =>
      '(r, w) ← preallocate_top d n_allocs w;
      match r with
      | Abort => Some (0, w)
      | Go d n_allocs =>
          let '(split_leaf, w) := new_leaf_block w in
          if split_leaf =? 0 then
            w ← free_preallocated_splits w d;
            Some (split_leaf, w)
          else
            let t := tree w in
            Some (split_leaf,
                  with_tree w (set_num_blks t (u64 (num_blks t + (n_allocs + 1)))))
      end
  end.

(** ** Search *)

Definition set_pn_visit (node nk pos : Z) (pn : path_node) : path_node :=
  PathNode node nk pos (pn_split pn).

(** [for (unsigned d = 0; d < b->depth; d++)] of [find_leaf], with [n]
    levels still to go *)
Fixpoint find_leaf_loop (n : nat) (d node k : Z) (w : world)
  : option (Z * world) :=
  match n with
  | O => Some (node, w)
  | S n' =>
      nb ← pages w !! node;
      let i := scan_index_keys nb k in
      w ← path_update w d (set_pn_visit node (num_keys nb) i);
      find_leaf_loop n' (d + 1) (get_child nb i) k w
  end.

(** find leaf which should contain key and position that should contain key *)
Definition find_leaf (k : Z) (w : world) : option (Z * world) :=
  find_leaf_loop (Z.to_nat (depth (tree w))) 0 (root (tree w)) k w.

(** find leaf node and value corresponding to key or fail with not found;
    the value is what [*v] is set to *)
Definition find (k : Z) (w : world) : option (bplus_error * option Z * world) :=
  if negb (root (tree w) =? 0) then
    let '(ok, w) := path_reserved w in
    if decide (ok = OK) then
      '(leaf, w) ← find_leaf k w;
      lb ← pages w !! leaf;
      let i := scan_leaf_keys lb k in
      if k =? get_key lb i then Some (OK, Some (get_value lb i), w)
      else Some (NOTFOUND, None, w)
    else Some (ok, None, w)
  else Some (NOTFOUND, None, w).

(** ** Insertion *)

(** insert key and value into leaf at insertion point i, moving remaining keys *)
Definition insert_into_leaf (w : world) (leaf i key v : Z) : option world :=
  nk ← load_num_keys w leaf;
  w ← (if negb (u32 (nk - i) =? 0) then
         w ← wrdmove w leaf (KEY_0 + i + 1) leaf (KEY_0 + i) (u32 (nk - i));
         wrdmove w leaf (FIELD_0 + i + 1) leaf (FIELD_0 + i) (u32 (nk - i))
       else Some w);
  w ← store w leaf (KEY_0 + i) key;
  w ← store w leaf (FIELD_0 + i) v;
  w ← store_num_keys w leaf (nk + 1);
  (* adjust cursors pointing after this *)
  for_cursors (λ _ bc,
    Some (if (bc_leaf bc =? leaf) && (i <=? bc_pos bc)
          then set_bc_pos bc (u32 (bc_pos bc + 1)) else bc)) w.

(** insert splitting key and child node into node AFTER split child's key
    at i - 1, moving remaining keys *)
Definition insert_split_into_index (w : world) (node i key child : Z)
  : option world :=
  nk ← load_num_keys w node;
  w ← (if negb (u32 (nk - i) =? 0) then
         w ← wrdmove w node (KEY_0 + i + 1) node (KEY_0 + i) (u32 (nk - i));
         wrdmove w node (FIELD_0 + i + 2) node (FIELD_0 + i + 1) (u32 (nk - i))
       else Some w);
  w ← store w node (KEY_0 + i) key;
  w ← store w node (FIELD_0 + i + 1) child;
  store_num_keys w node (nk + 1).

(** [if (j-- == 0) { dnode = parent; j = LHALF; }] *)
Definition step_target (parent dnode j : Z) : Z * Z :=
  if j =? 0 then (parent, LHALF) else (dnode, u32 (j - 1)).

(** careful copy of children to right node, with insert at pos:
    [for (unsigned i = ORDER; i-- > 0;)], [n] being [i] before the test *)
Fixpoint split_index_children (n : nat) (parent new pos dnode j : Z) (w : world)
  : option world :=
  match n with
  | O => Some w
  | S n' =>
      let i := Z.of_nat n' in
      if (i <? pos) && (i <? LHALF + 1) then Some w
      else
        x ← load w parent (FIELD_0 + i);
        w ← store w dnode (FIELD_0 + j) x;
        let '(dnode, j) := step_target parent dnode j in
        '(dnode, j, w) ←
          (if i =? u32 (pos + 1) then
             w ← store w dnode (FIELD_0 + j) new;
             Some (step_target parent dnode j, w)
           else Some (dnode, j, w));
        split_index_children n' parent new pos dnode j w
  end.

(** careful copy of keys to right node, with insert at pos:
    [for (unsigned i = ORDER - 1; i-- > 0;)] *)
Fixpoint split_index_keys (n : nat) (parent k pos dnode j : Z) (w : world)
  : option world :=
  match n with
  | O => Some w
  | S n' =>
      let i := Z.of_nat n' in
      if (i <? pos) && (i <? LHALF) then Some w
      else
        x ← load w parent (KEY_0 + i);
        w ← store w dnode (KEY_0 + j) x;
        let '(dnode, j) := step_target parent dnode j in
        '(dnode, j, w) ←
          (if i =? pos then
             w ← store w dnode (KEY_0 + j) k;
             Some (step_target parent dnode j, w)
           else Some (dnode, j, w));
        split_index_keys n' parent k pos dnode j w
  end.

(** Splits index node parent adding peer newp; returns the new
    splitting key with the world.  (The [CAREFUL] variant, which is the
    one compiled.) *)
Definition split_index (w : world) (parent newp pos k new : Z)
  : option (Z * world) :=
  w ← store_num_keys w parent LHALF;
  w ← store_num_keys w newp (RHALF - 1);
  '(j, w) ← (if pos =? ORDER - 1 then
               w ← store w newp (FIELD_0 + RHALF - 1) new;
               Some (u32 (RHALF - 1 - 1), w)
             else Some (RHALF - 1, w));
  w ← split_index_children (Z.to_nat ORDER) parent new pos newp j w;
  '(j, w) ← (if pos =? ORDER - 1 then
               w ← store w newp (KEY_0 + RHALF - 2) k;
               Some (u32 (RHALF - 2 - 1), w)
             else Some (RHALF - 2, w));
  w ← split_index_keys (Z.to_nat (ORDER - 1)) parent k pos newp j w;
  k' ← load w parent (KEY_0 + LHALF);
  Some (k', w).

(** the cursor fix-up loop at the end of [split_leaf] *)
Definition split_leaf_fix (leaf i : Z) (bc : bplus_cursor) : bplus_cursor :=
  if bc_leaf bc =? leaf then
    let bc := if i <=? bc_pos bc then set_bc_pos bc (u32 (bc_pos bc + 1)) else bc in
    if LHALF <=? bc_pos bc then set_bc_pos bc (u32 (bc_pos bc - LHALF)) else bc
  else bc.

(** split the full leaf into [leaf] and [new], placing (k, v) at index i of
    the combined sequence; returns the key promoted to the parent *)
Definition split_leaf (w : world) (leaf new i k v : Z) : option (Z * world) :=
  w ← store_num_keys w leaf LHALF;
  w ← store_num_keys w new RHALF;
  nl ← load w leaf NEXT;
  w ← store w new NEXT nl;
  w ← store w leaf NEXT new;
  w ← (if i <? LHALF then
         w ← wrdcpy w new KEY_0 leaf (KEY_0 + LHALF - 1) RHALF;
         w ← wrdcpy w new FIELD_0 leaf (FIELD_0 + LHALF - 1) RHALF;
         w ← (if negb (u32 (LHALF - 1 - i) =? 0) then
                w ← wrdmove w leaf (KEY_0 + i + 1) leaf (KEY_0 + i) (u32 (LHALF - 1 - i));
                wrdmove w leaf (FIELD_0 + i + 1) leaf (FIELD_0 + i) (u32 (LHALF - 1 - i))
              else Some w);
         w ← store w leaf (KEY_0 + i) k;
         store w leaf (FIELD_0 + i) v
       else
         w ← (if LHALF <? i then
                w ← wrdcpy w new KEY_0 leaf (KEY_0 + LHALF) (u32 (i - LHALF));
                wrdcpy w new FIELD_0 leaf (FIELD_0 + LHALF) (u32 (i - LHALF))
              else Some w);
         w ← store w new (KEY_0 + i - LHALF) k;
         w ← store w new (FIELD_0 + i - LHALF) v;
         if negb (u32 (ORDER - 1 - i) =? 0) then
           w ← wrdcpy w new (KEY_0 + i + 1 - LHALF) leaf (KEY_0 + i) (u32 (ORDER - 1 - i));
           wrdcpy w new (FIELD_0 + i + 1 - LHALF) leaf (FIELD_0 + i) (u32 (ORDER - 1 - i))
         else Some w);
  (* promote leftmost key in new leaf to parent *)
  k' ← load w new KEY_0;
  w ← for_cursors (λ _ bc, Some (split_leaf_fix leaf i bc)) w;
  Some (k', w).

Definition add_root_block (w : world) (left_child k right_child : Z)
  : option world :=
  let new := new_root (tree w) in
  w ← store_num_keys w new 1;
  w ← store w new KEY_0 k;
  w ← store w new FIELD_0 left_child;
  w ← store w new (FIELD_0 + 1) right_child;
  let t := tree w in
  Some (with_tree w (set_depth (set_root t new) (u32 (depth t + 1)))).

(** insert new into parent chain, splitting nodes as needed:
    [for (unsigned d = b->depth; d != 0;)], [n] being [d] at the test *)
Fixpoint insert_new_leaf_loop (n : nat) (new k : Z) (w : world) : option world :=
  match n with
  | O =>
      (* having split root, must add a node above the current root *)
      add_root_block w (root (tree w)) k new
  | S n' =>
      let d := Z.of_nat n' in
      pn ← path_at w d;
      let parent := pn_node pn in
      let i := pn_pos pn in
      nk ← load_num_keys w parent;
      if nk <? ORDER - 1 then
        insert_split_into_index w parent i k new
      else
        '(k, w) ← split_index w parent (pn_split pn) i k new;
        insert_new_leaf_loop n' (pn_split pn) k w
  end.

Definition insert_new_leaf (w : world) (new k : Z) : option world :=
  insert_new_leaf_loop (Z.to_nat (depth (tree w))) new k w.

(** insert new key value pair into B+ tree *)
Definition insert (k v : Z) (w : world) : option (bplus_error * world) :=
  let '(ok, w) := path_reserved w in
  if decide (ok = OK) then
    '(leaf, w) ← find_leaf k w;
    lb ← pages w !! leaf;
    let nk := num_keys lb in
    let i := scan_leaf_keys lb k in
    if (i <? nk) && (get_key lb i =? k) then
      (* key is already present: update value *)
      w ← store w leaf (FIELD_0 + i) v;
      Some (ok, w)
    else if nk <? ORDER - 1 then
      w ← insert_into_leaf w leaf i k v;
      Some (ok, with_tree w (set_num_recs (tree w) (u64 (num_recs (tree w) + 1))))
    else
      (* must split leaf, preallocate all needed memory *)
      '(split, w) ← preallocate_splits w;
      if split =? 0 then Some (NOMEM, w)
      else
        '(k', w) ← split_leaf w leaf split i k v;
        w ← insert_new_leaf w split k';
        Some (ok, with_tree w (set_num_recs (tree w) (u64 (num_recs (tree w) + 1))))
  else Some (ok, w).

(** ** Deletion *)

(** fix cursors after rotating one item from right peer to leaf *)
Definition fix_cursor_rotate_left (w : world) (leaf rpeer : Z) : option world :=
  for_cursors (λ w bc,
    if bc_leaf bc =? rpeer then
      if bc_pos bc =? 0 then
        nk ← load_num_keys w leaf;
        Some (set_bc_pos (set_bc_leaf bc leaf) (u32 (nk - 1)))
      else Some (set_bc_pos bc (u32 (bc_pos bc - 1)))
    else Some bc) w.

(** fix cursors after rotating one item from left peer to leaf *)
Definition fix_cursor_rotate_right (w : world) (lpeer leaf : Z) : option world :=
  for_cursors (λ w bc,
    if bc_leaf bc =? leaf then Some (set_bc_pos bc (u32 (bc_pos bc + 1)))
    else if bc_leaf bc =? lpeer then
      nk ← load_num_keys w lpeer;
      Some (if bc_pos bc =? nk then set_bc_pos (set_bc_leaf bc leaf) 0 else bc)
    else Some bc) w.

(** merging leaf and rightward peer deletes peer, so correct cursors to
    peer (the function also prints a line for each cursor it moves) *)
Definition fix_cursor_merge (w : world) (leaf peer nkl : Z) : option world :=
  for_cursors (λ _ bc,
    Some (if bc_leaf bc =? peer
          then set_bc_pos (set_bc_leaf bc leaf) (u32 (bc_pos bc + nkl))
          else bc)) w.

Definition dec_num_blks (w : world) : world :=
  with_tree w (set_num_blks (tree w) (u64 (num_blks (tree w) - 1))).

Definition merge_index_nodes (w : world) (l r s : Z) : option world :=
  nkl ← load_num_keys w l;
  nkr ← load_num_keys w r;
  w ← store w l (KEY_0 + nkl) s;
  w ← wrdmove w l (KEY_0 + nkl + 1) r KEY_0 nkr;
  w ← wrdmove w l (FIELD_0 + nkl + 1) r FIELD_0 (nkr + 1);
  n ← load_num_keys w l;
  w ← store_num_keys w l (n + (nkr + 1));
  Some (dec_num_blks (free_index_block w r)).

(** restore the invariant for the index node [inode] below path level
    [d] by rotation or merge; returns whether it merged, and the slot of
    the parent to remove *)
Definition index_underflow (w : world) (d inode pos0 : Z)
  : option (bool * Z * world) :=
  pn ← path_at w d;
  let parent := pn_node pn in
  let pos := pn_pos pn in
  let nkp := pn_num_keys pn in
  nki ← load_num_keys w inode;
  (* the right peer, when there is one, and whether it was rotated from *)
  '(rotated, rpeer, w) ←
    (if pos <? nkp then
       rpeer ← load w parent (FIELD_0 + pos + 1);
       nkr ← load_num_keys w rpeer;
       if ORDER - 2 <? u32 (nki + nkr) then
         (* rotate rpeer key through its splitting key in parent *)
         x ← load w parent (KEY_0 + pos);
         w ← store w inode (KEY_0 + nki) x;
         x ← load w rpeer KEY_0;
         w ← store w parent (KEY_0 + pos) x;
         x ← load w rpeer FIELD_0;
         w ← store w inode (FIELD_0 + nki + 1) x;
         w ← wrdmove w rpeer KEY_0 rpeer (KEY_0 + 1) (u32 (nkr - 1));
         w ← wrdmove w rpeer FIELD_0 rpeer (FIELD_0 + 1) nkr;
         n ← load_num_keys w inode;
         w ← store_num_keys w inode (n + 1);
         n ← load_num_keys w rpeer;
         w ← store_num_keys w rpeer (n - 1);
         Some (true, rpeer, w)
       else Some (false, rpeer, w)
     else Some (false, 0, w));
  if rotated : bool then Some (false, pos0, w)
  else if 0 <? pos then
    lpeer ← load w parent (FIELD_0 + pos - 1);
    nkl ← load_num_keys w lpeer;
    if ORDER - 2 <? u32 (nkl + nki) then
      (* rotate from left through parent *)
      w ← wrdmove w inode (KEY_0 + 1) inode KEY_0 nki;
      w ← wrdmove w inode (FIELD_0 + 1) inode FIELD_0 (nki + 1);
      x ← load w parent (KEY_0 + pos - 1);
      w ← store w inode KEY_0 x;
      x ← load w lpeer (KEY_0 + nkl - 1);
      w ← store w parent (KEY_0 + pos - 1) x;
      x ← load w lpeer (FIELD_0 + nkl);
      w ← store w inode FIELD_0 x;
      n ← load_num_keys w inode;
      w ← store_num_keys w inode (n + 1);
      n ← load_num_keys w lpeer;
      w ← store_num_keys w lpeer (n - 1);
      Some (false, pos0, w)
    else
      (* merge into the left peer and delete inode *)
      s ← load w parent (KEY_0 + pos - 1);
      w ← merge_index_nodes w lpeer inode s;
      Some (true, pos, w)
  else
    (* pos == 0, so merge right peer into inode *)
    s ← load w parent (KEY_0 + pos);
    w ← merge_index_nodes w inode rpeer s;
    Some (true, u32 (pos + 1), w).

(** the root lost its last key: promote the remaining child *)
Definition delete_root (w : world) (inode : Z) : option world :=
  c ← load w inode FIELD_0;
  let t := tree w in
  let w := with_tree w (set_depth (set_root t c) (u32 (depth t - 1))) in
  let w := dec_num_blks (free_index_block w inode) in
  if depth (tree w) =? 0 then
    (* when tree has no index nodes, clean up path *)
    Some (with_tree w (set_path (tree w) 0 None))
  else Some w.

(** recurse over path removing node at pos: remove child from index node
    layer d at pos *)
Fixpoint shrink_index_ancestors (d : nat) (pos : Z) (w : world) : option world :=
  pn ← path_at w (Z.of_nat d);
  let inode := pn_node pn in
  let nk := pn_num_keys pn in
  w ← (if 0 <? u32 (nk - pos) then
         (* slide down key,child pairs after pos *)
         w ← wrdmove w inode (KEY_0 + pos - 1) inode (KEY_0 + pos) (u32 (nk - pos));
         wrdmove w inode (FIELD_0 + pos) inode (FIELD_0 + pos + 1) (u32 (nk - pos))
       else Some w);
  let nk := u32 (nk - 1) in
  w ← store_num_keys w inode nk;
  match d with
  | O =>
      (* this is the root *)
      if nk =? 0 then delete_root w inode else Some w
  | S d' =>
      if nk <? LHALF then
        (* handle underflow by rotation or merge of inode and either peer *)
        '(merged, pos, w) ← index_underflow w (Z.of_nat d') inode pos;
        if merged : bool then shrink_index_ancestors d' pos w else Some w
      else Some w
  end.

Definition merge_leaf_nodes (w : world) (l r : Z) : option world :=
  nkl ← load_num_keys w l;
  nkr ← load_num_keys w r;
  w ← wrdmove w l (KEY_0 + nkl) r KEY_0 nkr;
  w ← wrdmove w l (FIELD_0 + nkl) r FIELD_0 nkr;
  n ← load_num_keys w l;
  w ← store_num_keys w l (n + nkr);
  x ← load w r NEXT;
  w ← store w l NEXT x;
  w ← fix_cursor_merge w l r nkl;
  Some (dec_num_blks (free_leaf_block w r)).

(** restore the invariant for a leaf that is not the root and has fallen
    below LHALF keys *)
Definition leaf_underflow (w : world) (leaf : Z) : option world :=
  let d := u32 (depth (tree w) - 1) in
  pn ← path_at w d;
  let parent := pn_node pn in
  let pos := pn_pos pn in
  let nk := pn_num_keys pn in
  '(rotated, rpeer, w) ←
    (if pos <? nk then
       rpeer ← load w parent (FIELD_0 + pos + 1);
       nkr ← load_num_keys w rpeer;
       if LHALF <? nkr then
         (* rotate from right and fix split in parent *)
         x ← load w rpeer KEY_0;
         w ← store w leaf (KEY_0 + LHALF - 1) x;
         x ← load w rpeer FIELD_0;
         w ← store w leaf (FIELD_0 + LHALF - 1) x;
         n ← load_num_keys w rpeer;
         w ← wrdmove w rpeer KEY_0 rpeer (KEY_0 + 1) (u32 (n - 1));
         n ← load_num_keys w rpeer;
         w ← wrdmove w rpeer FIELD_0 rpeer (FIELD_0 + 1) (u32 (n - 1));
         n ← load_num_keys w leaf;
         w ← store_num_keys w leaf (n + 1);
         n ← load_num_keys w rpeer;
         w ← store_num_keys w rpeer (n - 1);
         x ← load w rpeer KEY_0;
         w ← store w parent (KEY_0 + pos) x;
         w ← fix_cursor_rotate_left w leaf rpeer;
         Some (true, rpeer, w)
       else Some (false, rpeer, w)
     else Some (false, 0, w));
  if rotated : bool then Some w
  else if 0 <? pos then
    lpeer ← load w parent (FIELD_0 + pos - 1);
    nkl ← load_num_keys w lpeer;
    if LHALF <? nkl then
      (* rotate from left, fixing split key in parent *)
      n ← load_num_keys w leaf;
      w ← wrdmove w leaf (KEY_0 + 1) leaf KEY_0 n;
      n ← load_num_keys w leaf;
      w ← wrdmove w leaf (FIELD_0 + 1) leaf FIELD_0 n;
      n ← load_num_keys w lpeer;
      x ← load w lpeer (KEY_0 + n - 1);
      w ← store w leaf KEY_0 x;
      n ← load_num_keys w lpeer;
      x ← load w lpeer (FIELD_0 + n - 1);
      w ← store w leaf FIELD_0 x;
      n ← load_num_keys w leaf;
      w ← store_num_keys w leaf (n + 1);
      n ← load_num_keys w lpeer;
      w ← store_num_keys w lpeer (n - 1);
      x ← load w leaf KEY_0;
      w ← store w parent (KEY_0 + pos - 1) x;
      fix_cursor_rotate_right w lpeer leaf
    else
      (* merge with the left peer and delete leaf *)
      w ← merge_leaf_nodes w lpeer leaf;
      shrink_index_ancestors (Z.to_nat (u32 (depth (tree w) - 1))) pos w
  else
    (* pos == 0, so merge with right peer *)
    w ← merge_leaf_nodes w leaf rpeer;
    shrink_index_ancestors (Z.to_nat (u32 (depth (tree w) - 1))) (u32 (pos + 1)) w.

(** the cursor fix-up loop of [delete] *)
Definition delete_fix (leaf i : Z) (bc : bplus_cursor) : bplus_cursor :=
  if bc_leaf bc =? leaf then
    if bc_pos bc =? i then set_bc_invalid bc 1
    else if i <? bc_pos bc then set_bc_pos bc (u32 (bc_pos bc - 1))
    else bc
  else bc.

Definition delete (k : Z) (w : world) : option (bplus_error * world) :=
  let '(ok, w) := path_reserved w in
  if decide (ok = OK) then
    '(leaf, w) ← find_leaf k w;
    lb ← pages w !! leaf;
    let nk := num_keys lb in
    let i := scan_leaf_keys lb k in
    if (i <? nk) && (get_key lb i =? k) then
      (* key k was found in leaf, remove record (key, value) *)
      let sfx_count := u32 (nk - i - 1) in
      w ← (if negb (sfx_count =? 0) then
             w ← wrdmove w leaf (KEY_0 + i) leaf (KEY_0 + i + 1) sfx_count;
             wrdmove w leaf (FIELD_0 + i) leaf (FIELD_0 + i + 1) sfx_count
           else Some w);
      w ← store_num_keys w leaf (nk - 1);
      let w := with_tree w (set_num_recs (tree w) (u64 (num_recs (tree w) - 1))) in
      (* adjust all cursors pointing at leaf, at position i or after *)
      w ← for_cursors (λ _ bc, Some (delete_fix leaf i bc)) w;
      (* if new leaf size (nk - 1) < min size, handle this underflow *)
      w ← (if (0 <? depth (tree w)) && (nk <=? LHALF)
           then leaf_underflow w leaf else Some w);
      Some (ok, w)
    else Some (NOTFOUND, w)
  else Some (ok, w).

(** ** Teardown *)

(** [for (unsigned i = 0; i <= num_keys(blk); i++) rec(child i)], the
    key count being read again at every test *)
Fixpoint free_children (rec : Z → world → option world) (fuel : nat)
    (blk i : Z) (w : world) : option world :=
  match fuel with
  | O => Some w
  | S fuel' =>
      nk ← load_num_keys w blk;
      if i <=? nk then
        c ← load w blk (FIELD_0 + i);
        w ← rec c w;
        free_children rec fuel' blk (i + 1) w
      else Some w
  end.

(** [free_index_subtree(b, d, blk)] with [n = b->depth - d] levels of
    index nodes from [blk] down *)
Fixpoint free_index_subtree (n : nat) (blk : Z) (w : world) : option world :=
  match n with
  | O => Some (dec_num_blks (free_leaf_block w blk))
  | S n' =>
      w ← free_children (free_index_subtree n') 257 blk 0 w;
      Some (dec_num_blks (free_index_block w blk))
  end.

Definition free_bplus_tree (w : world) : option world :=
  (* deactivate all cursors of tree *)
  w ← for_cursors (λ _ bc, Some (set_bc_tree bc 0)) w;
  w ← free_index_subtree (Z.to_nat (depth (tree w))) (root (tree w)) w;
  (* free(b->path) *)
  Some (with_tree w (set_path (tree w) (path_length (tree w)) None)).

(** ** Cursor operations *)

Definition get_active_storage (w : world) : Z * Z * Z :=
  (num_recs (tree w), num_blks (tree w), num_crsrs (tree w)).

Definition first_record (w : world) : Z * world :=
  make_bplus_cursor w (leaves (tree w)) 0.

(** the cursor struct [c] points to, put back after [f] *)
Definition cursor_update (w : world) (c : Z) (f : bplus_cursor → bplus_cursor)
  : option world :=
  bc ← cursors w !! c;
  Some (with_cursors w (<[c := f bc]> (cursors w))).

Definition next_record (c : Z) (w : world) : option (bplus_error * world) :=
  bc ← cursors w !! c;
  let l := bc_leaf bc in
  w ← (if negb (bc_invalid bc =? 0)
       then cursor_update w c (λ bc, set_bc_invalid bc 0)
       else cursor_update w c (λ bc, set_bc_pos bc (u32 (bc_pos bc + 1))));
  nk ← load_num_keys w l;
  bc ← cursors w !! c;
  if nk <=? bc_pos bc then
    l ← load w l NEXT;
    w ← cursor_update w c (λ bc, set_bc_pos (set_bc_leaf bc l) 0);
    Some (if negb (l =? 0) then OK else NOTFOUND, w)
  else Some (OK, w).

Definition find_record (k : Z) (w : world) : option (Z * world) :=
  if negb (root (tree w) =? 0) then
    let '(ok, w) := path_reserved w in
    if decide (ok = OK) then
      '(leaf, w) ← find_leaf k w;
      lb ← pages w !! leaf;
      let i := scan_leaf_keys lb k in
      Some (make_bplus_cursor w leaf i)
    else Some (0, w)
  else Some (0, w).

(** the guard shared by [get_record] and [update_record]:
    [!c->invalid && l != NULL && num_keys(l) > p], evaluated left to right *)
Definition cursor_on_record (w : world) (bc : bplus_cursor) : option bool :=
  if negb (bc_invalid bc =? 0) then Some false
  else if bc_leaf bc =? 0 then Some false
  else nk ← load_num_keys w (bc_leaf bc); Some (bc_pos bc <? nk).

Definition get_record (c : Z) (w : world) : option (bplus_error * option (Z * Z)) :=
  bc ← cursors w !! c;
  let l := bc_leaf bc in
  let p := bc_pos bc in
  live ← cursor_on_record w bc;
  if live : bool then
    k ← load w l (KEY_0 + p);
    v ← load w l (FIELD_0 + p);
    Some (OK, Some (k, v))
  else Some (NOTFOUND, None).

Definition update_record (c v : Z) (w : world) : option (bplus_error * world) :=
  bc ← cursors w !! c;
  let l := bc_leaf bc in
  let p := bc_pos bc in
  live ← cursor_on_record w bc;
  if live : bool then
    w ← store w l (FIELD_0 + p) v;
    Some (OK, w)
  else Some (NOTFOUND, w).

(** the link [l] points to: [l = &b->cursor_list] is [None] and
    [l = &x->next] is [Some x] *)
Definition link_read (w : world) (l : option Z) : option Z :=
  match l with
  | None => Some (cursor_list (tree w))
  | Some x => bc ← cursors w !! x; Some (bc_next bc)
  end.

Definition link_write (w : world) (l : option Z) (v : Z) : option world :=
  match l with
  | None => Some (with_tree w (set_cursor_list (tree w) v))
  | Some x => cursor_update w x (λ bc, set_bc_next bc v)
  end.

(** the unlinking loop of [free_cursor]: follow the links until the one
    that holds [c], and make it hold [c->next] *)
Fixpoint unlink_loop (fuel : nat) (l : option Z) (c : Z) (w : world)
  : option world :=
  x ← link_read w l;
  if x =? 0 then Some w
  else if x =? c then
    bc ← cursors w !! c;
    link_write w l (bc_next bc)
  else match fuel with
    | O => None
    | S fuel' => unlink_loop fuel' (Some x) c w
    end.

(** a tree handle can be dereferenced when it is the handle of the tree *)
Definition tree_at (w : world) (b : Z) : option bplus :=
  if b =? THE_TREE then Some (tree w) else None.

Definition free_cursor (c : Z) (w : world) : option world :=
  bc ← cursors w !! c;
  let b := bc_tree bc in
  (* if tree still exists remove cursor from tree's cursor list *)
  w ← (if negb (b =? 0) then
         _ ← tree_at w b;
         unlink_loop (size (cursors w)) None c w
       else Some w);
  (* free(c) *)
  let w := with_cursors w (base.delete c (cursors w)) in
  (* b->num_crsrs -= 1 *)
  t ← tree_at w b;
  Some (with_tree w (set_num_crsrs t (u64 (num_crsrs t - 1)))).

Definition get_tree (c : Z) (w : world) : option Z :=
  bc ← cursors w !! c; Some (bc_tree bc).

(** ** Scripts of operations *)

(** [insert] of the pairs of a list, in order, each required to succeed *)
Fixpoint insert_all (kvs : list (Z * Z)) (w : world) : option world :=
  match kvs with
  | [] => Some w
  | (k, v) :: kvs' =>
      '(r, w) ← insert k v w;
      if decide (r = OK) then insert_all kvs' w else None
  end.

(** the keys [a, a+1, ..., a+n-1], each with the value [key + 1000] *)
Definition records (a : Z) (n : nat) : list (Z * Z) :=
  (λ i, (a + Z.of_nat i, a + Z.of_nat i + 1000)) <$> seq 0 n.

Fixpoint delete_all (ks : list Z) (w : world) : option world :=
  match ks with
  | [] => Some w
  | k :: ks' =>
      '(r, w) ← delete k w;
      if decide (r = OK) then delete_all ks' w else None
  end.

(** a call of [insert] or of [delete] *)
Inductive operation := Insert (k v : Z) | Delete (k : Z).

Definition perform (o : operation) (w : world) : option (bplus_error * world) :=
  match o with
  | Insert k v => insert k v w
  | Delete k => delete k w
  end.

(** the calls of a list, in order, whatever they answer *)
Fixpoint perform_all (os : list operation) (w : world) : option world :=
  match os with
  | [] => Some w
  | o :: os' => '(_, w) ← perform o w; perform_all os' w
  end.

(** ** What a walk over the tree observes *)

(** [enumerate]: the records the visitor is called with, in order *)
Fixpoint enumerate_from (fuel : nat) (bk : Z) (w : world) : option (list (Z * Z)) :=
  if bk =? 0 then Some []
  else match fuel with
    | O => None
    | S fuel' =>
        b ← pages w !! bk;
        rest ← enumerate_from fuel' (next_leaf b) w;
        Some (((λ i, (get_key b i, get_value b i)) <$> seqZ 0 (num_keys b)) ++ rest)
    end.

Definition enumerate (w : world) : option (list (Z * Z)) :=
  enumerate_from (size (pages w)) (leaves (tree w)) w.

(** the number of nodes of the subtree of [n] index levels at [p] *)
Fixpoint count_nodes (h : gmap Z block) (n : nat) (p : Z) : option Z :=
  b ← h !! p;
  match n with
  | O => Some 1
  | S n' =>
      cs ← mapM (λ i, count_nodes h n' (get_child b i)) (seqZ 0 (num_keys b + 1));
      Some (1 + foldr Z.add 0 cs)
  end.

Definition tree_size (w : world) : option Z :=
  count_nodes (pages w) (Z.to_nat (depth (tree w))) (root (tree w)).

(** the cursors threaded on the registry *)
Fixpoint registry_from (fuel : nat) (bc : Z) (w : world) : option (list Z) :=
  if bc =? 0 then Some []
  else match fuel with
    | O => None
    | S fuel' =>
        c ← cursors w !! bc;
        rest ← registry_from fuel' (bc_next c) w;
        Some (bc :: rest)
    end.

Definition registry (w : world) : option (list Z) :=
  registry_from (size (cursors w)) (cursor_list (tree w)) w.

(** the three counters of the handle are exact *)
Definition counters_exact (w : world) : bool :=
  bool_decide (Z.of_nat ∘ length <$> enumerate w = Some (num_recs (tree w)))
  && bool_decide (tree_size w = Some (num_blks (tree w)))
  && bool_decide (Z.of_nat ∘ length <$> registry w = Some (num_crsrs (tree w))).

(** ** Sample worlds *)

(** the next allocation request will be refused *)
Definition refuse (w : world) : world :=
  World (pages w) (next_page w) (cursors w) (next_cursor w) [false] (tree w).

(** The tree that holds the keys 1, 2, ..., 32895, inserted in this
    order into a new tree, each with the value [key + 1000]: a root
    with 255 keys on page 2 over 256 leaves, of which the last one, on
    page 257, is full.  The leaves that were split keep the records that
    moved to their right sibling in the slots past their key count. *)
Definition leaf_page (j : Z) : Z := if j =? 0 then 1 else j + 2.

Definition left_leaf (j : Z) : block :=
  [128] ++ ((λ s, 128 * j + 1 + s) <$> seqZ 0 255)
        ++ ((λ s, 128 * j + 1 + s + 1000) <$> seqZ 0 255)
        ++ [leaf_page (j + 1)].

Definition last_leaf : block :=
  [255] ++ ((λ s, 32641 + s) <$> seqZ 0 255)
        ++ ((λ s, 32641 + s + 1000) <$> seqZ 0 255)
        ++ [0].

Definition full_root : block :=
  [255] ++ ((λ j, 128 * (j + 1) + 1) <$> seqZ 0 255)
        ++ (leaf_page <$> seqZ 0 256).

Definition full_root_world : world :=
  World (<[2 := full_root]> (<[257 := last_leaf]>
           (list_to_map ((λ j, (leaf_page j, left_leaf j)) <$> seqZ 0 255))))
        258 ∅ 1 []
        (Bplus 2 1 1 0 32895 257 0 1 (Some [PathNode 2 255 255 0]) 0).

(** * Basic facts *)

(** what an operation that only used the scratch path has left alone *)
Definition same_contents (w w' : world) : Prop :=
  pages w' = pages w ∧ cursors w' = cursors w
  ∧ root (tree w') = root (tree w) ∧ leaves (tree w') = leaves (tree w)
  ∧ depth (tree w') = depth (tree w)
  ∧ cursor_list (tree w') = cursor_list (tree w)
  ∧ num_recs (tree w') = num_recs (tree w)
  ∧ num_blks (tree w') = num_blks (tree w)
  ∧ num_crsrs (tree w') = num_crsrs (tree w).

Lemma same_contents_refl w : same_contents w w.
Proof. repeat split. Qed.

Lemma same_contents_trans w1 w2 w3 :
  same_contents w1 w2 → same_contents w2 w3 → same_contents w1 w3.
Proof.
  unfold same_contents. intros (?&?&?&?&?&?&?&?&?) (?&?&?&?&?&?&?&?&?).
  repeat split; congruence.
Qed.

Lemma grant_same w : same_contents w (grant w).2.
Proof. unfold grant. destruct (oracle w); repeat split. Qed.

Lemma path_reserved_same w : same_contents w (path_reserved w).2.
Proof.
  unfold path_reserved. case_match; [|apply same_contents_refl].
  pose proof (grant_same w) as Hg. destruct (grant w) as [ok w1]. simpl in Hg.
  destruct ok; simpl; destruct Hg as (?&?&?&?&?&?&?&?&?); repeat split; simpl; try done.
Qed.

Lemma path_reserved_nomem w :
  (path_reserved w).1 = NOMEM
  ↔ path_length (tree w) < depth (tree w) ∧ (grant w).1 = false.
Proof.
  unfold path_reserved. case_match eqn:Hlt.
  - apply Z.ltb_lt in Hlt. destruct (grant w) as [[] w1]; simpl; split; try done.
    + intros [_ ?]. done.
  - apply Z.ltb_ge in Hlt. simpl. split; [done|]. intros [? _]. lia.
Qed.

Lemma path_update_same w d f w' :
  path_update w d f = Some w' → same_contents w w'.
Proof.
  unfold path_update. intros H. simplify_option_eq. repeat split.
Qed.

Lemma find_leaf_loop_same n : ∀ d node k w leaf w',
  find_leaf_loop n d node k w = Some (leaf, w') → same_contents w w'.
Proof.
  induction n as [|n IH]; simpl; intros d node k w leaf w' H.
  - simplify_eq. apply same_contents_refl.
  - apply bind_Some in H as (nb & Hnb & H).
    apply bind_Some in H as (w1 & Hw1 & H).
    eapply same_contents_trans; [eapply path_update_same, Hw1|].
    eapply IH, H.
Qed.

Lemma find_leaf_same k w leaf w' :
  find_leaf k w = Some (leaf, w') → same_contents w w'.
Proof. apply find_leaf_loop_same. Qed.

(** * Blocks as arrays *)

(** a block has its 512 words *)
Definition blk (b : block) : Prop := length b = 512%nat.

Lemma rd_wr_eq b i v :
  0 ≤ i → (Z.to_nat i < length b)%nat → rd (wr b i v) i = v.
Proof.
  intros Hi Hl. unfold rd, wr, block in *. by rewrite list_lookup_insert_eq.
Qed.

Lemma rd_wr_ne b i j v :
  0 ≤ i → 0 ≤ j → i ≠ j → rd (wr b i v) j = rd b j.
Proof.
  intros Hi Hj Hne. unfold rd, wr, block in *. rewrite list_lookup_insert_ne; [done|lia].
Qed.

Lemma rd_wr b i j v :
  blk b → 0 ≤ i < 512 → 0 ≤ j →
  rd (wr b i v) j = if decide (j = i) then v else rd b j.
Proof.
  intros Hb Hi Hj. case_decide as Hd.
  - subst j. apply rd_wr_eq; [lia|]. rewrite Hb. lia.
  - apply rd_wr_ne; lia.
Qed.

Lemma blk_wr b i v : blk b → blk (wr b i v).
Proof. unfold blk, wr, block in *. by rewrite length_insert. Qed.

Lemma blk_set_num_keys b n : blk b → blk (set_num_keys b n).
Proof. apply blk_wr. Qed.

Lemma blk_zero : blk zero_block.
Proof. reflexivity. Qed.

Lemma rd_zero j : rd zero_block j = 0.
Proof.
  unfold rd, zero_block, block in *.
  destruct (replicate 512 0 !! Z.to_nat j) as [x|] eqn:E; [|done].
  apply lookup_replicate in E as [-> _]. done.
Qed.

Lemma blk_blit dst d src s n :
  blk dst → blk src → 0 ≤ d → 0 ≤ s → 0 ≤ n → d + n ≤ 512 → s + n ≤ 512 →
  blk (blit dst d src s n).
Proof.
  unfold blk, blit, block in *. intros Hd Hs ? ? ? ? ?.
  rewrite !length_app, !length_take, !length_drop, Hd, Hs. lia.
Qed.

Lemma rd_blit dst d src s n j :
  blk dst → blk src → 0 ≤ d → 0 ≤ s → 0 ≤ n → d + n ≤ 512 → s + n ≤ 512 →
  0 ≤ j →
  rd (blit dst d src s n) j
  = if decide (d ≤ j < d + n) then rd src (s + (j - d)) else rd dst j.
Proof.
  unfold blk, blit, rd, block in *. intros Hd Hs ? ? ? ? ? ?.
  destruct (decide (j < d)).
  - rewrite lookup_app_l by (rewrite length_take; lia).
    rewrite lookup_take_lt by lia. case_decide; [lia|done].
  - rewrite lookup_app_r by (rewrite length_take; lia).
    rewrite length_take, Hd.
    destruct (decide (j < d + n)).
    + rewrite lookup_app_l by (rewrite length_take, length_drop; lia).
      rewrite lookup_take_lt by lia. rewrite lookup_drop.
      case_decide; [|lia]. do 2 f_equal. lia.
    + rewrite lookup_app_r by (rewrite length_take, length_drop; lia).
      rewrite length_take, length_drop, Hs, lookup_drop.
      case_decide; [lia|]. do 2 f_equal. lia.
Qed.

Lemma u8_range z : 0 ≤ u8 z < 256.
Proof. unfold u8. apply Z.mod_pos_bound. lia. Qed.

Lemma u8_small z : 0 ≤ z < 256 → u8 z = z.
Proof. unfold u8. intros. by apply Z.mod_small. Qed.

Lemma u32_small z : 0 ≤ z < 4294967296 → u32 z = z.
Proof. unfold u32. intros. by apply Z.mod_small. Qed.

Lemma u64_small z : 0 ≤ z < 18446744073709551616 → u64 z = z.
Proof. unfold u64. intros. by apply Z.mod_small. Qed.

Lemma num_keys_range b : 0 ≤ num_keys b < 256.
Proof. apply u8_range. Qed.

Lemma num_keys_set b n : blk b → 0 ≤ n < 256 → num_keys (set_num_keys b n) = n.
Proof.
  intros Hb Hn. unfold num_keys, set_num_keys.
  rewrite rd_wr_eq; [|lia|rewrite Hb; lia].
  rewrite (u8_small n) by done. by apply u8_small.
Qed.

Lemma rd_set_num_keys b n j : 0 < j → rd (set_num_keys b n) j = rd b j.
Proof. intros. unfold set_num_keys. apply rd_wr_ne; lia. Qed.

Lemma num_keys_wr b i v : 0 < i → num_keys (wr b i v) = num_keys b.
Proof. intros. unfold num_keys. f_equal. apply rd_wr_ne; lia. Qed.

Lemma num_keys_blit dst d src s n :
  blk dst → blk src → 0 < d → 0 ≤ s → 0 ≤ n → d + n ≤ 512 → s + n ≤ 512 →
  num_keys (blit dst d src s n) = num_keys dst.
Proof.
  intros. unfold num_keys. f_equal. rewrite rd_blit by first [done|lia].
  case_decide; [lia|done].
Qed.

Lemma blit_nothing dst d src s : blk dst → 0 ≤ d ≤ 512 → blit dst d src s 0 = dst.
Proof.
  intros Hb Hd. unfold blit. rewrite Z.add_0_r. simpl.
  apply take_drop.
Qed.

Create HintDb blk discriminated.
#[global] Hint Resolve blk_wr blk_set_num_keys blk_zero : blk.
#[global] Hint Extern 2 (blk (blit _ _ _ _ _)) =>
  apply blk_blit; [| |lia|lia|lia|lia|lia] : blk.

Ltac blk_tac := solve [eauto 60 with blk].

(** reading through a stack of writes: every index is settled by [lia] *)
Ltac rd_step :=
  first
    [ rewrite rd_set_num_keys by lia
    | rewrite rd_wr by (first [lia | blk_tac])
    | rewrite rd_blit by (first [lia | blk_tac])
    | rewrite rd_zero ].

Ltac rd_simpl :=
  unfold get_key, get_child, get_value, next_leaf in *;
  repeat first [rd_step | case_decide; try lia].

Ltac nk_step :=
  first
    [ rewrite num_keys_set by (first [lia | blk_tac])
    | rewrite num_keys_wr by lia
    | rewrite num_keys_blit by (first [lia | blk_tac]) ].

Ltac nk_simpl := repeat nk_step.

(** ** The scans *)

Lemma scan_leaf_loop_spec fuel b k nk i :
  0 ≤ i → i + Z.of_nat fuel = nk ∨ (nk < i + Z.of_nat fuel) →
  let r := scan_leaf_loop fuel b k nk i in
  i ≤ r ∧ (r ≤ nk ∨ r = i)
  ∧ (∀ j, i ≤ j < r → get_key b j < k)
  ∧ (r < nk → k ≤ get_key b r).
Proof.
  revert i. induction fuel as [|fuel IH]; intros i Hi Hf; simpl.
  - split; [lia|]. split; [lia|]. split; [intros; lia|]. lia.
  - destruct (i <? nk) eqn:Hlt; simpl.
    + apply Z.ltb_lt in Hlt. destruct (get_key b i <? k) eqn:Hk.
      * apply Z.ltb_lt in Hk. specialize (IH (i + 1)).
        destruct IH as (H1 & H2 & H3 & H4); [lia|lia|].
        split; [lia|]. split; [lia|]. split; [|done].
        intros j Hj. destruct (decide (j = i)) as [->|]; [done|]. apply H3. lia.
      * apply Z.ltb_ge in Hk.
        split; [lia|]. split; [lia|]. split; [intros; lia|]. done.
    + apply Z.ltb_ge in Hlt.
      split; [lia|]. split; [lia|]. split; [intros; lia|]. lia.
Qed.

(** the scan of a leaf stops at the first key that is not below [k] *)
Lemma scan_leaf_keys_spec b k :
  let r := scan_leaf_keys b k in
  0 ≤ r ≤ num_keys b
  ∧ (∀ j, 0 ≤ j < r → get_key b j < k)
  ∧ (r < num_keys b → k ≤ get_key b r).
Proof.
  unfold scan_leaf_keys. pose proof (num_keys_range b).
  pose proof (scan_leaf_loop_spec (Z.to_nat (num_keys b)) b k (num_keys b) 0) as H1.
  simpl in H1. destruct H1 as (? & ? & ? & ?); [lia|lia|].
  repeat split; try done; lia.
Qed.

Lemma scan_index_loop_spec fuel b k nk i :
  0 ≤ i → i + Z.of_nat fuel = nk ∨ (nk < i + Z.of_nat fuel) →
  let r := scan_index_loop fuel b k nk i in
  i ≤ r ∧ (r ≤ nk ∨ r = i)
  ∧ (∀ j, i ≤ j < r → get_key b j ≤ k)
  ∧ (r < nk → k < get_key b r).
Proof.
  revert i. induction fuel as [|fuel IH]; intros i Hi Hf; simpl.
  - split; [lia|]. split; [lia|]. split; [intros; lia|]. lia.
  - destruct (i <? nk) eqn:Hlt; simpl.
    + apply Z.ltb_lt in Hlt. destruct (get_key b i <=? k) eqn:Hk.
      * apply Z.leb_le in Hk. specialize (IH (i + 1)).
        destruct IH as (H1 & H2 & H3 & H4); [lia|lia|].
        split; [lia|]. split; [lia|]. split; [|done].
        intros j Hj. destruct (decide (j = i)) as [->|]; [done|]. apply H3. lia.
      * apply Z.leb_gt in Hk.
        split; [lia|]. split; [lia|]. split; [intros; lia|]. done.
    + apply Z.ltb_ge in Hlt.
      split; [lia|]. split; [lia|]. split; [intros; lia|]. lia.
Qed.

(** the scan of an index node stops at the first key above [k] *)
Lemma scan_index_keys_spec b k :
  let r := scan_index_keys b k in
  0 ≤ r ≤ num_keys b
  ∧ (∀ j, 0 ≤ j < r → get_key b j ≤ k)
  ∧ (r < num_keys b → k < get_key b r).
Proof.
  unfold scan_index_keys. pose proof (num_keys_range b).
  pose proof (scan_index_loop_spec (Z.to_nat (num_keys b)) b k (num_keys b) 0) as H1.
  simpl in H1. destruct H1 as (? & ? & ? & ?); [lia|lia|].
  repeat split; try done; lia.
Qed.

(** a scan is settled by the keys below the key count *)
Lemma scan_leaf_keys_unique b k r :
  0 ≤ r ≤ num_keys b →
  (∀ j, 0 ≤ j < r → get_key b j < k) →
  (r < num_keys b → k ≤ get_key b r) →
  scan_leaf_keys b k = r.
Proof.
  intros Hr Hlo Hhi.
  destruct (scan_leaf_keys_spec b k) as (Hr' & Hlo' & Hhi').
  set (r' := scan_leaf_keys b k) in *.
  destruct (Z.lt_trichotomy r r') as [Hlt|[->|Hlt]]; [|done|].
  - specialize (Hlo' r). specialize (Hhi ltac:(lia)). lia.
  - specialize (Hlo r'). specialize (Hhi' ltac:(lia)). lia.
Qed.

Lemma scan_index_keys_unique b k r :
  0 ≤ r ≤ num_keys b →
  (∀ j, 0 ≤ j < r → get_key b j ≤ k) →
  (r < num_keys b → k < get_key b r) →
  scan_index_keys b k = r.
Proof.
  intros Hr Hlo Hhi.
  destruct (scan_index_keys_spec b k) as (Hr' & Hlo' & Hhi').
  set (r' := scan_index_keys b k) in *.
  destruct (Z.lt_trichotomy r r') as [Hlt|[->|Hlt]]; [|done|].
  - specialize (Hlo' r). specialize (Hhi ltac:(lia)). lia.
  - specialize (Hlo r'). specialize (Hhi' ltac:(lia)). lia.
Qed.

(** * Running the memory primitives *)

Lemma load_at w p i b : pages w !! p = Some b → load w p i = Some (rd b i).
Proof. intros H. unfold load. by rewrite H. Qed.

Lemma load_num_keys_at w p b :
  pages w !! p = Some b → load_num_keys w p = Some (num_keys b).
Proof. intros H. unfold load_num_keys. by rewrite H. Qed.

Lemma store_at w p i v b :
  pages w !! p = Some b →
  store w p i v = Some (with_pages w (<[p := wr b i v]> (pages w))).
Proof. intros H. unfold store. by rewrite H. Qed.

Lemma store_num_keys_at w p n b :
  pages w !! p = Some b →
  store_num_keys w p n = Some (with_pages w (<[p := set_num_keys b n]> (pages w))).
Proof. intros H. unfold store_num_keys. by rewrite H. Qed.

Lemma wrdmove_at w dp d sp s n db sb :
  pages w !! dp = Some db → pages w !! sp = Some sb →
  wrdmove w dp d sp s n
  = Some (with_pages w (<[dp := blit db d sb s n]> (pages w))).
Proof. intros H1 H2. unfold wrdmove. by rewrite H1, H2. Qed.

Lemma wrdcpy_at w dp d sp s n db sb :
  pages w !! dp = Some db → pages w !! sp = Some sb →
  wrdcpy w dp d sp s n
  = Some (with_pages w (<[dp := blit db d sb s n]> (pages w))).
Proof. apply wrdmove_at. Qed.

Lemma with_pages_pages w h : pages (with_pages w h) = h.
Proof. done. Qed.

Lemma with_pages_twice w h1 h2 : with_pages (with_pages w h1) h2 = with_pages w h2.
Proof. done. Qed.

Lemma with_pages_id w : with_pages w (pages w) = w.
Proof. by destruct w. Qed.

Lemma insert_skip1 (m : gmap Z block) i j x y z :
  i ≠ j → <[i:=x]> (<[j:=y]> (<[i:=z]> m)) = <[i:=x]> (<[j:=y]> m).
Proof.
  intros. rewrite (insert_insert_ne m j i) by done. by rewrite insert_insert_eq.
Qed.

Lemma insert_skip2 (m : gmap Z block) i j k x y y' z :
  i ≠ j → i ≠ k →
  <[i:=x]> (<[j:=y]> (<[k:=y']> (<[i:=z]> m))) = <[i:=x]> (<[j:=y]> (<[k:=y']> m)).
Proof.
  intros. rewrite (insert_insert_ne m k i) by done.
  by rewrite insert_skip1.
Qed.

(** the lookup of a page in a store built by updates *)
Ltac page_lookup :=
  simpl;
  repeat first
    [ rewrite lookup_insert_eq
    | rewrite lookup_insert_ne by (first [assumption | congruence | lia])
    | rewrite lookup_delete_ne by (first [assumption | congruence | lia]) ];
  first [eassumption | reflexivity].

(** run the next memory primitive of the goal *)
Ltac run1 :=
  first
    [ erewrite load_at by page_lookup
    | erewrite load_num_keys_at by page_lookup
    | erewrite store_at by page_lookup
    | erewrite store_num_keys_at by page_lookup
    | erewrite wrdmove_at by page_lookup
    | erewrite wrdcpy_at by page_lookup ];
  simpl; rewrite ?with_pages_twice;
  repeat first
    [ rewrite insert_insert_eq
    | rewrite insert_skip1 by (first [assumption | congruence | lia])
    | rewrite insert_skip2 by (first [assumption | congruence | lia]) ].

Ltac run := repeat run1.

(** ** The cursor loop leaves the tree alone *)

Lemma for_cursors_from_only fuel body : ∀ bc w w',
  for_cursors_from fuel body bc w = Some w' →
  w' = with_cursors w (cursors w').
Proof.
  induction fuel as [|fuel IH]; intros bc w w'; simpl.
  - destruct (bc =? 0); [|done]. intros [= <-]. by destruct w.
  - destruct (bc =? 0); [intros [= <-]; by destruct w|].
    intros H. apply bind_Some in H as (c & Hc & H).
    apply bind_Some in H as (c' & Hc' & H).
    apply IH in H. rewrite H. by destruct w.
Qed.

Lemma for_cursors_only body w w' :
  for_cursors body w = Some w' → w' = with_cursors w (cursors w').
Proof. apply for_cursors_from_only. Qed.

Lemma for_cursors_none body w :
  cursor_list (tree w) = 0 → for_cursors body w = Some w.
Proof.
  intros H. unfold for_cursors. rewrite H. by destruct (size (cursors w)).
Qed.

(** ** The children and the keys of a node, as lists *)

Definition kids (b : block) : list Z := get_child b <$> seqZ 0 (num_keys b + 1).
Definition keys (b : block) : list Z := get_key b <$> seqZ 0 (num_keys b).

Lemma length_kids b : length (kids b) = Z.to_nat (num_keys b + 1).
Proof. unfold kids. by rewrite length_fmap, length_seqZ. Qed.

Lemma length_keys b : length (keys b) = Z.to_nat (num_keys b).
Proof. unfold keys. by rewrite length_fmap, length_seqZ. Qed.

Lemma lookup_kids b i :
  (i < Z.to_nat (num_keys b + 1))%nat → kids b !! i = Some (get_child b (Z.of_nat i)).
Proof.
  intros Hi. unfold kids. rewrite list_lookup_fmap.
  rewrite lookup_seqZ_lt by lia. simpl. do 2 f_equal.
Qed.

Lemma elem_of_kids b c :
  c ∈ kids b ↔ ∃ i, 0 ≤ i ≤ num_keys b ∧ c = get_child b i.
Proof.
  unfold kids. rewrite list_elem_of_fmap. split.
  - intros (i & -> & Hi). apply elem_of_seqZ in Hi. exists i. split; [lia|done].
  - intros (i & Hi & ->). exists i. split; [done|]. apply elem_of_seqZ. lia.
Qed.

(** reading lists by integer position *)
Lemma rd_app (l1 l2 : list Z) i :
  0 ≤ i →
  rd (l1 ++ l2) i
  = if decide (i < Z.of_nat (length l1)) then rd l1 i else rd l2 (i - Z.of_nat (length l1)).
Proof.
  intros Hi. unfold rd, block in *. case_decide.
  - by rewrite lookup_app_l by lia.
  - rewrite lookup_app_r by lia. do 2 f_equal. lia.
Qed.

Lemma rd_cons (x : Z) l i :
  0 ≤ i → rd (x :: l) i = if decide (i = 0) then x else rd l (i - 1).
Proof.
  intros Hi. unfold rd, block in *. case_decide as Hd.
  - by subst.
  - replace (Z.to_nat i) with (S (Z.to_nat (i - 1))) by lia. done.
Qed.

Lemma rd_nil i : rd [] i = 0.
Proof. unfold rd, block in *. by rewrite lookup_nil. Qed.

Lemma rd_take n (l : list Z) i :
  0 ≤ i → rd (take n l) i = if decide (i < Z.of_nat n) then rd l i else 0.
Proof.
  intros Hi. unfold rd, block in *. case_decide.
  - by rewrite lookup_take_lt by lia.
  - by rewrite lookup_take_ge by lia.
Qed.

Lemma rd_drop n (l : list Z) i :
  0 ≤ i → rd (drop n l) i = rd l (Z.of_nat n + i).
Proof.
  intros Hi. unfold rd, block in *. rewrite lookup_drop. do 2 f_equal. lia.
Qed.

Lemma rd_kids b i :
  0 ≤ i → rd (kids b) i = if decide (i ≤ num_keys b) then get_child b i else 0.
Proof.
  intros Hi. pose proof (num_keys_range b). unfold rd at 1; unfold block in *. case_decide.
  - rewrite lookup_kids by lia. simpl. f_equal. lia.
  - rewrite lookup_ge_None_2; [done|]. rewrite length_kids. lia.
Qed.

Lemma rd_keys b i :
  0 ≤ i → rd (keys b) i = if decide (i < num_keys b) then get_key b i else 0.
Proof.
  intros Hi. pose proof (num_keys_range b). unfold rd at 1, keys; unfold block in *. case_decide.
  - rewrite list_lookup_fmap, lookup_seqZ_lt by lia. simpl. f_equal. lia.
  - rewrite lookup_ge_None_2; [done|]. rewrite length_fmap, length_seqZ. lia.
Qed.

(** two lists of integers with the same length and the same reads are equal *)
Lemma list_eq_rd (l1 l2 : list Z) :
  length l1 = length l2 →
  (∀ i, 0 ≤ i < Z.of_nat (length l1) → rd l1 i = rd l2 i) →
  l1 = l2.
Proof.
  intros Hl H. apply list_eq_same_length with (length l1); [done|done|].
  intros i x y Hi Hx Hy. specialize (H (Z.of_nat i) ltac:(lia)).
  unfold rd, block in H. rewrite Nat2Z.id, Hx, Hy in H. done.
Qed.

(** * What the node operations do to the blocks *)

(** ** [insert_into_leaf] *)

Definition blk_insert_into_leaf (b : block) (i key v : Z) : block :=
  let nk := num_keys b in
  let b1 := blit b (KEY_0 + i + 1) b (KEY_0 + i) (nk - i) in
  let b2 := blit b1 (FIELD_0 + i + 1) b1 (FIELD_0 + i) (nk - i) in
  set_num_keys (wr (wr b2 (KEY_0 + i) key) (FIELD_0 + i) v) (nk + 1).

Definition insert_into_leaf_fix (leaf i : Z) (bc : bplus_cursor) : bplus_cursor :=
  if (bc_leaf bc =? leaf) && (i <=? bc_pos bc)
  then set_bc_pos bc (u32 (bc_pos bc + 1)) else bc.

Lemma insert_into_leaf_run w leaf i key v b :
  pages w !! leaf = Some b → blk b → 0 ≤ i ≤ num_keys b →
  insert_into_leaf w leaf i key v
  = for_cursors (λ _ bc, Some (insert_into_leaf_fix leaf i bc))
      (with_pages w (<[leaf := blk_insert_into_leaf b i key v]> (pages w))).
Proof.
  intros Hb Hblk Hi. pose proof (num_keys_range b).
  unfold insert_into_leaf, blk_insert_into_leaf. run.
  rewrite u32_small by lia.
  destruct (num_keys b - i =? 0) eqn:E; simpl.
  - apply Z.eqb_eq in E. rewrite E. run.
    rewrite !blit_nothing by (first [done|lia|blk_tac]). done.
  - run. done.
Qed.

Lemma blk_insert_into_leaf_spec b i key v :
  blk b → 0 ≤ i ≤ num_keys b → num_keys b < 255 →
  let b' := blk_insert_into_leaf b i key v in
  blk b' ∧ num_keys b' = num_keys b + 1
  ∧ (∀ j, 0 ≤ j ≤ num_keys b →
       get_key b' j = if decide (j < i) then get_key b j
                      else if decide (j = i) then key else get_key b (j - 1))
  ∧ (∀ j, 0 ≤ j ≤ num_keys b →
       get_value b' j = if decide (j < i) then get_value b j
                        else if decide (j = i) then v else get_value b (j - 1))
  ∧ next_leaf b' = next_leaf b.
Proof.
  intros Hb Hi Hnk. unfold blk_insert_into_leaf. simpl.
  split; [blk_tac|].
  split; [nk_simpl; lia|].
  split; [|split].
  - intros j Hj. rd_simpl; f_equal; lia.
  - intros j Hj. rd_simpl; f_equal; lia.
  - rd_simpl; done.
Qed.

(** ** [split_leaf] *)

(** the record at [j] of the 256 records of a full leaf with (k, v)
    placed at [i] *)
Definition with_key (b : block) (i k j : Z) : Z :=
  if decide (j < i) then get_key b j
  else if decide (j = i) then k else get_key b (j - 1).

Definition with_value (b : block) (i v j : Z) : Z :=
  if decide (j < i) then get_value b j
  else if decide (j = i) then v else get_value b (j - 1).

Definition blk_split_leaf_left (lb : block) (new i k v : Z) : block :=
  let l2 := wr (set_num_keys lb LHALF) NEXT new in
  if i <? LHALF then
    let l3 := blit l2 (KEY_0 + i + 1) l2 (KEY_0 + i) (LHALF - 1 - i) in
    let l4 := blit l3 (FIELD_0 + i + 1) l3 (FIELD_0 + i) (LHALF - 1 - i) in
    wr (wr l4 (KEY_0 + i) k) (FIELD_0 + i) v
  else l2.

Definition blk_split_leaf_right (lb nb : block) (new i k v : Z) : block :=
  let l2 := wr (set_num_keys lb LHALF) NEXT new in
  let n2 := wr (set_num_keys nb RHALF) NEXT (rd lb NEXT) in
  if i <? LHALF then
    let n3 := blit n2 KEY_0 l2 (KEY_0 + LHALF - 1) RHALF in
    blit n3 FIELD_0 l2 (FIELD_0 + LHALF - 1) RHALF
  else
    let n3 := blit n2 KEY_0 l2 (KEY_0 + LHALF) (i - LHALF) in
    let n4 := blit n3 FIELD_0 l2 (FIELD_0 + LHALF) (i - LHALF) in
    let n6 := wr (wr n4 (KEY_0 + i - LHALF) k) (FIELD_0 + i - LHALF) v in
    let n7 := blit n6 (KEY_0 + i + 1 - LHALF) l2 (KEY_0 + i) (ORDER - 1 - i) in
    blit n7 (FIELD_0 + i + 1 - LHALF) l2 (FIELD_0 + i) (ORDER - 1 - i).

Lemma split_leaf_run w leaf new i k v lb nb :
  pages w !! leaf = Some lb → pages w !! new = Some nb → leaf ≠ new →
  blk lb → blk nb → 0 ≤ i ≤ 255 →
  split_leaf w leaf new i k v
  = w' ← for_cursors (λ _ bc, Some (split_leaf_fix leaf i bc))
           (with_pages w
              (<[leaf := blk_split_leaf_left lb new i k v]>
                 (<[new := blk_split_leaf_right lb nb new i k v]> (pages w))));
    Some (get_key (blk_split_leaf_right lb nb new i k v) 0, w').
Proof.
  intros Hl Hn Hne Hlb Hnb Hi.
  unfold split_leaf, blk_split_leaf_left, blk_split_leaf_right. run.
  rewrite rd_set_num_keys by lia.
  destruct (i <? 128) eqn:E; simpl.
  - apply Z.ltb_lt in E. run. rewrite (u32_small (128 - 1 - i)) by lia.
    destruct (128 - 1 - i =? 0) eqn:E2; simpl.
    + apply Z.eqb_eq in E2. rewrite E2. run.
      rewrite !blit_nothing by (first [done|lia|blk_tac]). done.
    + run. done.
  - apply Z.ltb_ge in E. rewrite (u32_small (i - 128)), (u32_small (256 - 1 - i)) by lia.
    destruct (128 <? i) eqn:E2; simpl.
    + run. destruct (256 - 1 - i =? 0) eqn:E3; simpl.
      * apply Z.eqb_eq in E3. rewrite E3. run.
        rewrite !blit_nothing by (first [done|lia|blk_tac]).
        rewrite (insert_insert_ne _ new leaf) by done. done.
      * run. rewrite (insert_insert_ne _ new leaf) by done. done.
    + apply Z.ltb_ge in E2. assert (i = 128) as -> by lia. simpl. run.
      rewrite !blit_nothing by (first [done|lia|blk_tac]).
      rewrite (insert_insert_ne _ new leaf) by done. done.
Qed.

Lemma blk_split_leaf_spec lb nb new i k v :
  blk lb → blk nb → 0 ≤ i ≤ 255 →
  let L := blk_split_leaf_left lb new i k v in
  let R := blk_split_leaf_right lb nb new i k v in
  blk L ∧ blk R ∧ num_keys L = 128 ∧ num_keys R = 128
  ∧ (∀ j, 0 ≤ j < 128 →
       get_key L j = with_key lb i k j ∧ get_value L j = with_value lb i v j)
  ∧ (∀ j, 0 ≤ j < 128 →
       get_key R j = with_key lb i k (128 + j)
       ∧ get_value R j = with_value lb i v (128 + j))
  ∧ next_leaf L = new ∧ next_leaf R = next_leaf lb.
Proof.
  intros Hlb Hnb Hi. unfold blk_split_leaf_left, blk_split_leaf_right.
  unfold with_key, with_value. simpl.
  destruct (i <? 128) eqn:E; [apply Z.ltb_lt in E|apply Z.ltb_ge in E].
  - split; [blk_tac|]. split; [blk_tac|].
    split; [nk_simpl; lia|]. split; [nk_simpl; lia|].
    split; [|split; [|split]].
    + intros j Hj. split; rd_simpl; try done; f_equal; lia.
    + intros j Hj. split; rd_simpl; try done; f_equal; lia.
    + rd_simpl; done.
    + rd_simpl; done.
  - split; [blk_tac|]. split; [blk_tac|].
    split; [nk_simpl; lia|]. split; [nk_simpl; lia|].
    split; [|split; [|split]].
    + intros j Hj. split; rd_simpl; try done; f_equal; lia.
    + intros j Hj. split; rd_simpl; try done; f_equal; lia.
    + rd_simpl; done.
    + rd_simpl; done.
Qed.

(** ** [insert_split_into_index] *)

Definition blk_insert_split_into_index (b : block) (i key child : Z) : block :=
  let nk := num_keys b in
  let b1 := blit b (KEY_0 + i + 1) b (KEY_0 + i) (nk - i) in
  let b2 := blit b1 (FIELD_0 + i + 2) b1 (FIELD_0 + i + 1) (nk - i) in
  set_num_keys (wr (wr b2 (KEY_0 + i) key) (FIELD_0 + i + 1) child) (nk + 1).

Lemma insert_split_into_index_run w node i key child b :
  pages w !! node = Some b → blk b → 0 ≤ i ≤ num_keys b → num_keys b < 255 →
  insert_split_into_index w node i key child
  = Some (with_pages w (<[node := blk_insert_split_into_index b i key child]> (pages w))).
Proof.
  intros Hb Hblk Hi Hnk. pose proof (num_keys_range b).
  unfold insert_split_into_index, blk_insert_split_into_index. run.
  rewrite u32_small by lia.
  destruct (num_keys b - i =? 0) eqn:E; simpl.
  - apply Z.eqb_eq in E. rewrite E. run.
    rewrite !blit_nothing by (first [done|lia|blk_tac]). done.
  - run. done.
Qed.

(** the keys and the children of a node with a key placed at [i] and a
    child at [i + 1] *)
Definition with_child (b : block) (i c j : Z) : Z :=
  if decide (j ≤ i) then get_child b j
  else if decide (j = i + 1) then c else get_child b (j - 1).

Lemma blk_insert_split_into_index_spec b i key child :
  blk b → 0 ≤ i ≤ num_keys b → num_keys b < 255 →
  let b' := blk_insert_split_into_index b i key child in
  blk b' ∧ num_keys b' = num_keys b + 1
  ∧ (∀ j, 0 ≤ j ≤ num_keys b → get_key b' j = with_key b i key j)
  ∧ (∀ j, 0 ≤ j ≤ num_keys b + 1 → get_child b' j = with_child b i child j).
Proof.
  intros Hb Hi Hnk. unfold blk_insert_split_into_index, with_key, with_child. simpl.
  split; [blk_tac|].
  split; [nk_simpl; lia|].
  split.
  - intros j Hj. rd_simpl; try done; f_equal; lia.
  - intros j Hj. rd_simpl; try done; f_equal; lia.
Qed.

(** ** [split_index] *)

(** Both loops of [split_index] copy the words [base + i] of the parent,
    from the last one down, to the place of their index in the sequence
    that has [val] inserted at [ins]: index [X] of that sequence lives
    at word [base + X] of the parent when [X <= LHALF] and at word
    [base + X - LHALF - 1] of the new node otherwise. *)
Fixpoint split_loop (base ins : Z) (brk : Z → bool) (n : nat)
    (parent val dnode j : Z) (w : world) : option world :=
  match n with
  | O => Some w
  | S n' =>
      let i := Z.of_nat n' in
      if brk i then Some w
      else
        x ← load w parent (base + i);
        w ← store w dnode (base + j) x;
        let '(dnode, j) := step_target parent dnode j in
        '(dnode, j, w) ←
          (if i =? ins then
             w ← store w dnode (base + j) val;
             Some (step_target parent dnode j, w)
           else Some (dnode, j, w));
        split_loop base ins brk n' parent val dnode j w
  end.

Lemma split_index_children_loop n parent new pos dnode j w :
  split_index_children n parent new pos dnode j w
  = split_loop FIELD_0 (u32 (pos + 1)) (λ i, (i <? pos) && (i <? LHALF + 1))
      n parent new dnode j w.
Proof.
  revert dnode j w. induction n as [|n IH]; intros dnode j w; [reflexivity|].
  simpl. destruct (_ && _); [done|].
  apply option_bind_ext_fun. intros x. apply option_bind_ext_fun. intros w1.
  destruct (step_target parent dnode j) as [d1 j1].
  apply option_bind_ext; [|done]. intros [[d2 j2] w2]. apply IH.
Qed.

Lemma split_index_keys_loop n parent k pos dnode j w :
  split_index_keys n parent k pos dnode j w
  = split_loop KEY_0 pos (λ i, (i <? pos) && (i <? LHALF))
      n parent k dnode j w.
Proof.
  revert dnode j w. induction n as [|n IH]; intros dnode j w; [reflexivity|].
  simpl. destruct (_ && _); [done|].
  apply option_bind_ext_fun. intros x. apply option_bind_ext_fun. intros w1.
  destruct (step_target parent dnode j) as [d1 j1].
  apply option_bind_ext; [|done]. intros [[d2 j2] w2]. apply IH.
Qed.

Section split_loop.
Context (base ins M : Z) (brk : Z → bool) (parent newp val : Z).
Hypothesis Hbase : 0 ≤ base.
Hypothesis HM : base + M ≤ 512.
Hypothesis HM' : 130 ≤ M.
Hypothesis Hins : 0 ≤ ins ≤ M.
Hypothesis Hbrk : ∀ i, 0 ≤ i → brk i = true → i < ins ∧ i < 129.
Hypothesis Hne : parent ≠ newp.

(** the index a source index gets in the sequence with the insertion *)
Definition ci (i : Z) : Z := if decide (i < ins) then i else i + 1.

(** the node and slot of an index of the sequence *)
Definition dst (T : Z) : Z * Z :=
  if decide (129 ≤ T) then (newp, T - 129) else (parent, T).

(** the value at an index of the sequence, read from the parent *)
Definition cv (P : block) (X : Z) : Z :=
  if decide (X < ins) then rd P (base + X)
  else if decide (X = ins) then val else rd P (base + X - 1).

Definition put (PN : block * block) (T v : Z) : block * block :=
  if decide (129 ≤ T) then (PN.1, wr PN.2 (base + (T - 129)) v)
  else (wr PN.1 (base + T) v, PN.2).

Definition both (w : world) (PN : block * block) : world :=
  with_pages w (<[parent := PN.1]> (<[newp := PN.2]> (pages w))).

Lemma both_id w P N :
  pages w !! parent = Some P → pages w !! newp = Some N → both w (P, N) = w.
Proof.
  intros HP HN. unfold both. simpl.
  rewrite (insert_id _ newp) by done. rewrite insert_id by done.
  apply with_pages_id.
Qed.

Lemma both_both w PN PN' : both (both w PN) PN' = both w PN'.
Proof.
  unfold both. simpl. rewrite with_pages_twice. f_equal.
  rewrite insert_skip1 by done. by rewrite insert_insert_eq.
Qed.

Lemma both_parent w PN : pages (both w PN) !! parent = Some PN.1.
Proof. unfold both. simpl. by rewrite lookup_insert_eq. Qed.

Lemma both_newp w PN : pages (both w PN) !! newp = Some PN.2.
Proof.
  unfold both. simpl. rewrite lookup_insert_ne by done. by rewrite lookup_insert_eq.
Qed.

Lemma store_dst w PN T v :
  store (both w PN) (dst T).1 (base + (dst T).2) v = Some (both w (put PN T v)).
Proof.
  unfold dst, put. destruct PN as [P N]. case_decide; simpl.
  - erewrite store_at by apply both_newp. simpl.
    unfold both. simpl. rewrite with_pages_twice. f_equal.
    rewrite insert_skip1 by done. by rewrite (insert_insert_ne _ newp parent) by done.
  - erewrite store_at by apply both_parent. simpl.
    unfold both. simpl. rewrite with_pages_twice. f_equal.
    by rewrite insert_insert_eq.
Qed.

Lemma store_dst' w PN T d j v :
  (d, j) = dst T →
  store (both w PN) d (base + j) v = Some (both w (put PN T v)).
Proof. intros H. pose proof (store_dst w PN T v) as Hs. by rewrite <- H in Hs. Qed.

Lemma step_dst T d j :
  (d, j) = dst T → 1 ≤ T ≤ M → step_target parent d j = dst (T - 1).
Proof.
  unfold step_target, dst. intros Hd HT.
  repeat case_decide; simplify_eq; simpl; try lia.
  - destruct (T - 129 =? 0) eqn:E; [apply Z.eqb_eq in E; lia|].
    apply Z.eqb_neq in E. rewrite u32_small by lia. f_equal. lia.
  - destruct (T - 129 =? 0) eqn:E; [|apply Z.eqb_neq in E; lia].
    apply Z.eqb_eq in E. f_equal. lia.
  - destruct (T =? 0) eqn:E; [apply Z.eqb_eq in E; lia|].
    by rewrite u32_small by lia.
Qed.

Lemma put_blk PN T v : 0 ≤ T ≤ M → blk PN.1 → blk PN.2 →
  blk (put PN T v).1 ∧ blk (put PN T v).2.
Proof. intros. unfold put. case_decide; simpl; split; blk_tac. Qed.

Lemma put_rd1 PN T v y : 0 ≤ T ≤ M → blk PN.1 → 0 ≤ y →
  rd (put PN T v).1 y = if decide (T ≤ 128 ∧ y = base + T) then v else rd PN.1 y.
Proof.
  intros HT HP Hy. unfold put. destruct (decide (129 ≤ T)); simpl.
  - rewrite decide_False by lia. done.
  - rewrite rd_wr by (first [done|lia]).
    destruct (decide (y = base + T)).
    + rewrite decide_True by lia. done.
    + rewrite decide_False by lia. done.
Qed.

Lemma put_rd2 PN T v y : 0 ≤ T ≤ M → blk PN.2 → 0 ≤ y →
  rd (put PN T v).2 y
  = if decide (129 ≤ T ∧ y = base + (T - 129)) then v else rd PN.2 y.
Proof.
  intros HT HP Hy. unfold put. destruct (decide (129 ≤ T)); simpl.
  - rewrite rd_wr by (first [done|lia]).
    destruct (decide (y = base + (T - 129))).
    + rewrite decide_True by lia. done.
    + rewrite decide_False by lia. done.
  - rewrite decide_False by lia. done.
Qed.

(** the index still to be written when [n] source words are left *)
Definition todo (n : nat) : Z :=
  match n with O => -1 | S n' => ci (Z.of_nat n') end.

Lemma split_loop_spec n : ∀ PN w dnode j,
  Z.of_nat n ≤ M → blk PN.1 → blk PN.2 →
  (n ≠ O → (dnode, j) = dst (todo n)) →
  ∃ PN',
    split_loop base ins brk n parent val dnode j (both w PN) = Some (both w PN')
    ∧ blk PN'.1 ∧ blk PN'.2
    ∧ (∀ X, 0 ≤ X ≤ todo n → X ≤ 128 → rd PN'.1 (base + X) = cv PN.1 X)
    ∧ (∀ X, 129 ≤ X ≤ todo n → rd PN'.2 (base + (X - 129)) = cv PN.1 X)
    ∧ (∀ y, 0 ≤ y → ¬ (base ≤ y ≤ base + 128 ∧ y - base ≤ todo n) →
         rd PN'.1 y = rd PN.1 y)
    ∧ (∀ y, 0 ≤ y → ¬ (base ≤ y ∧ y - base + 129 ≤ todo n) →
         rd PN'.2 y = rd PN.2 y).
Proof.
  induction n as [|n IH]; intros PN w dnode j Hn HP HN Hd.
  - exists PN. simpl. repeat split; try done; intros; lia.
  - specialize (Hd ltac:(done)). simpl in Hd.
    simpl. set (i := Z.of_nat n) in *.
    destruct (brk i) eqn:Eb.
    + apply Hbrk in Eb as [Hb1 Hb2]; [|lia].
      exists PN. unfold ci. rewrite decide_True by done.
      split; [done|]. split; [done|]. split; [done|].
      split; [|split; [|split]]; try done.
      * intros X HX _. unfold cv. rewrite decide_True by lia. done.
      * intros; lia.
    + set (T := ci i) in *.
      assert (HT : 0 ≤ T ≤ M ∧ i ≤ T ≤ i + 1) by (unfold T, ci; case_decide; lia).
      erewrite load_at by apply both_parent. simpl.
      rewrite (store_dst' _ _ T) by done. simpl.
      set (PN1 := put PN T (rd PN.1 (base + i))).
      destruct (put_blk PN T (rd PN.1 (base + i))) as [HP1 HN1]; [lia|done|done|].
      fold PN1 in HP1, HN1.
      destruct (step_target parent dnode j) as [d1 j1] eqn:Ed1.
      destruct (i =? ins) eqn:Ei; [apply Z.eqb_eq in Ei|apply Z.eqb_neq in Ei].
      * (* the value is inserted before this word *)
        assert (HTi : T = i + 1) by (unfold T, ci; case_decide; lia).
        rewrite (step_dst T) in Ed1 by (first [done|lia]).
        rewrite (store_dst' _ _ (T - 1)) by done. simpl.
        set (PN2 := put PN1 (T - 1) val).
        destruct (put_blk PN1 (T - 1) val) as [HP2 HN2]; [lia|done|done|].
        fold PN2 in HP2, HN2.
        destruct (step_target parent d1 j1) as [d2 j2] eqn:Ed2.
        destruct (IH PN2 w d2 j2)
          as (PN' & Hrun & HP' & HN' & H1 & H2 & H3 & H4);
          [lia|done|done| |].
        { intros Hn0. destruct n as [|n']; [done|]. simpl.
          rewrite <- Ed2. rewrite (step_dst (T - 1)) by (first [done|lia]).
          f_equal. unfold ci. rewrite decide_True by lia. lia. }
        exists PN'. split; [exact Hrun|]. split; [done|]. split; [done|].
        assert (Htodo : todo n = i - 1).
        { destruct n as [|n']; simpl; [lia|]. unfold ci.
          rewrite decide_True by lia. lia. }
        rewrite Htodo in H1, H2, H3, H4.
        assert (Hcv : ∀ X, 0 ≤ X ≤ i - 1 → cv PN2.1 X = cv PN.1 X).
        { intros X HX. unfold cv. rewrite !decide_True by lia.
          unfold PN2. rewrite put_rd1 by (first [done|lia]).
          rewrite decide_False by lia.
          unfold PN1. rewrite put_rd1 by (first [done|lia]).
          rewrite decide_False by lia. done. }
        split; [|split; [|split]].
        -- intros X HX HX'.
           destruct (decide (X ≤ i - 1)); [rewrite H1, Hcv by lia; done|].
           rewrite H3 by lia. unfold PN2. rewrite put_rd1 by (first [done|lia]).
           unfold cv. destruct (decide (X = i)).
           ++ rewrite decide_True by lia. rewrite decide_False by lia.
              rewrite decide_True by lia. done.
           ++ rewrite decide_False by lia. unfold PN1.
              rewrite put_rd1 by (first [done|lia]).
              rewrite decide_True by lia. rewrite decide_False by lia.
              rewrite decide_False by lia. f_equal. lia.
        -- intros X HX.
           destruct (decide (X ≤ i - 1)); [rewrite H2, Hcv by lia; done|].
           rewrite H4 by lia. unfold PN2. rewrite put_rd2 by (first [done|lia]).
           unfold cv. destruct (decide (X = i)).
           ++ rewrite decide_True by lia. rewrite decide_False by lia.
              rewrite decide_True by lia. done.
           ++ rewrite decide_False by lia. unfold PN1.
              rewrite put_rd2 by (first [done|lia]).
              rewrite decide_True by lia. rewrite decide_False by lia.
              rewrite decide_False by lia. f_equal. lia.
        -- intros y Hy Hny. rewrite H3 by lia. unfold PN2.
           rewrite put_rd1 by (first [done|lia]). rewrite decide_False by lia.
           unfold PN1. rewrite put_rd1 by (first [done|lia]).
           rewrite decide_False by lia. done.
        -- intros y Hy Hny. rewrite H4 by lia. unfold PN2.
           rewrite put_rd2 by (first [done|lia]). rewrite decide_False by lia.
           unfold PN1. rewrite put_rd2 by (first [done|lia]).
           rewrite decide_False by lia. done.
      * simpl.
        destruct (IH PN1 w d1 j1)
          as (PN' & Hrun & HP' & HN' & H1 & H2 & H3 & H4);
          [lia|done|done| |].
        { intros Hn0. destruct n as [|n']; [done|]. simpl.
          rewrite <- Ed1. rewrite (step_dst T) by (first [done|lia]).
          f_equal. unfold T, ci, i. repeat case_decide; lia. }
        exists PN'. split; [exact Hrun|]. split; [done|]. split; [done|].
        assert (Htodo : todo n = T - 1).
        { destruct n as [|n']; simpl; [unfold T, ci, i; case_decide; lia|].
          unfold T, ci, i. repeat case_decide; lia. }
        rewrite Htodo in H1, H2, H3, H4.
        assert (Hcv : ∀ X, 0 ≤ X ≤ T - 1 → cv PN1.1 X = cv PN.1 X).
        { intros X HX. unfold cv, PN1.
          destruct (decide (X < ins)); [|destruct (decide (X = ins)); [done|]].
          - rewrite put_rd1 by (first [done|lia]). rewrite decide_False by lia. done.
          - rewrite put_rd1 by (first [done|lia]). rewrite decide_False by lia. done. }
        assert (HcvT : rd PN.1 (base + i) = cv PN.1 T).
        { unfold cv, T, ci. destruct (decide (i < ins)).
          - rewrite decide_True by lia. done.
          - rewrite decide_False by lia. rewrite decide_False by lia. f_equal. lia. }
        split; [|split; [|split]].
        -- intros X HX HX'.
           destruct (decide (X ≤ T - 1)); [rewrite H1, Hcv by lia; done|].
           rewrite H3 by lia. unfold PN1.
           rewrite put_rd1 by (first [done|lia]).
           rewrite decide_True by lia. assert (X = T) as -> by lia. done.
        -- intros X HX.
           destruct (decide (X ≤ T - 1)); [rewrite H2, Hcv by lia; done|].
           rewrite H4 by lia. unfold PN1.
           rewrite put_rd2 by (first [done|lia]).
           rewrite decide_True by lia. assert (X = T) as -> by lia. done.
        -- intros y Hy Hny. rewrite H3 by lia. unfold PN1.
           rewrite put_rd1 by (first [done|lia]). rewrite decide_False by lia. done.
        -- intros y Hy Hny. rewrite H4 by lia. unfold PN1.
           rewrite put_rd2 by (first [done|lia]). rewrite decide_False by lia. done.
Qed.

(** the store before the loop, when the insertion is at the very end *)
Lemma split_phase PN w (c : bool) a j1 j2 :
  blk PN.1 → blk PN.2 → (c = true ↔ ins = M) →
  a = base + (M - 129) → j1 = M - 129 - 1 → j2 = M - 129 →
  ∃ PN' j0 w0,
    (if c then
       w' ← store (both w PN) newp a val; Some (j1, w')
     else Some (j2, both w PN)) = Some (j0, w0)
    ∧ split_loop base ins brk (Z.to_nat M) parent val newp j0 w0
      = Some (both w PN')
    ∧ blk PN'.1 ∧ blk PN'.2
    ∧ (∀ X, 0 ≤ X ≤ 128 → rd PN'.1 (base + X) = cv PN.1 X)
    ∧ (∀ X, 129 ≤ X ≤ M → rd PN'.2 (base + (X - 129)) = cv PN.1 X)
    ∧ (∀ y, 0 ≤ y → ¬ (base ≤ y ≤ base + 128) → rd PN'.1 y = rd PN.1 y)
    ∧ (∀ y, 0 ≤ y → ¬ (base ≤ y ≤ base + (M - 129)) → rd PN'.2 y = rd PN.2 y).
Proof.
  intros HP HN Hc -> -> ->.
  assert (Htodo : todo (Z.to_nat M) = ci (M - 1)).
  { destruct (Z.to_nat M) as [|m] eqn:Em; [lia|]. simpl. f_equal. lia. }
  destruct c.
  - assert (ins = M) as Hi by (by apply Hc).
    assert (Hci : ci (M - 1) = M - 1) by (unfold ci; rewrite decide_True by lia; done).
    rewrite (store_dst' _ _ M) by (unfold dst; rewrite decide_True by lia; done).
    simpl.
    set (PN1 := put PN M val).
    destruct (put_blk PN M val) as [HP1 HN1]; [lia|done|done|]. fold PN1 in HP1, HN1.
    destruct (split_loop_spec (Z.to_nat M) PN1 w newp (M - 129 - 1))
      as (PN' & Hrun & HP' & HN' & H1 & H2 & H3 & H4); [lia|done|done| |].
    { intros _. rewrite Htodo, Hci. unfold dst. rewrite decide_True by lia.
      f_equal. lia. }
    rewrite Htodo, Hci in H1, H2, H3, H4.
    assert (Hcv : ∀ X, 0 ≤ X ≤ M - 1 → cv PN1.1 X = cv PN.1 X).
    { intros X HX. unfold cv, PN1. rewrite !decide_True by lia.
      rewrite put_rd1 by (first [done|lia]). rewrite decide_False by lia. done. }
    exists PN', (M - 129 - 1), (both w PN1).
    split; [done|]. split; [exact Hrun|]. split; [done|]. split; [done|].
    split; [|split; [|split]].
    + intros X HX. rewrite H1, Hcv by lia. done.
    + intros X HX. destruct (decide (X = M)) as [->|].
      * rewrite H4 by lia. unfold PN1. rewrite put_rd2 by (first [done|lia]).
        rewrite decide_True by lia. unfold cv. rewrite decide_False by lia.
        rewrite decide_True by lia. done.
      * rewrite H2, Hcv by lia. done.
    + intros y Hy Hny. rewrite H3 by lia. unfold PN1.
      rewrite put_rd1 by (first [done|lia]). rewrite decide_False by lia. done.
    + intros y Hy Hny. rewrite H4 by lia. unfold PN1.
      rewrite put_rd2 by (first [done|lia]). rewrite decide_False by lia. done.
  - assert (ins ≠ M) as Hi by (intros ?; by apply Hc in H).
    assert (Hci : ci (M - 1) = M) by (unfold ci; rewrite decide_False by lia; lia).
    destruct (split_loop_spec (Z.to_nat M) PN w newp (M - 129))
      as (PN' & Hrun & HP' & HN' & H1 & H2 & H3 & H4); [lia|done|done| |].
    { intros _. rewrite Htodo, Hci. unfold dst. rewrite decide_True by lia. done. }
    rewrite Htodo, Hci in H1, H2, H3, H4.
    exists PN', (M - 129), (both w PN).
    split; [done|]. split; [exact Hrun|]. split; [done|]. split; [done|].
    split; [|split; [|split]].
    + intros X HX. apply H1; lia.
    + intros X HX. apply H2; lia.
    + intros y Hy Hny. apply H3; lia.
    + intros y Hy Hny. apply H4; lia.
Qed.
End split_loop.

Lemma bind_assoc_Some {A B C} (m : option A) (f : A → option B)
    (g : B → option C) y :
  m ≫= f = Some y → m ≫= (λ x, f x ≫= g) = g y.
Proof. intros H. destruct m as [x|]; [|done]. simpl in *. by rewrite H. Qed.

#[global] Arguments split_loop : simpl never.
#[global] Arguments split_index_children : simpl never.
#[global] Arguments split_index_keys : simpl never.

Lemma split_index_spec w parent newp pos k new P N :
  pages w !! parent = Some P → pages w !! newp = Some N → parent ≠ newp →
  blk P → blk N → 0 ≤ pos ≤ 255 →
  ∃ P' N',
    split_index w parent newp pos k new
    = Some (with_key P pos k 128,
            with_pages w (<[parent := P']> (<[newp := N']> (pages w))))
    ∧ blk P' ∧ blk N' ∧ num_keys P' = 128 ∧ num_keys N' = 127
    ∧ (∀ j, 0 ≤ j < 128 → get_key P' j = with_key P pos k j)
    ∧ (∀ j, 0 ≤ j < 127 → get_key N' j = with_key P pos k (129 + j))
    ∧ (∀ j, 0 ≤ j ≤ 128 → get_child P' j = with_child P pos new j)
    ∧ (∀ j, 0 ≤ j ≤ 127 → get_child N' j = with_child P pos new (129 + j)).
Proof.
  intros HP HN Hne HbP HbN Hpos.
  unfold split_index.
  erewrite store_num_keys_at by page_lookup. cbn [mbind option_bind].
  erewrite store_num_keys_at by page_lookup. cbn [mbind option_bind].
  rewrite with_pages_twice. cbn [pages with_pages].
  rewrite (insert_insert_ne _ newp parent) by done.
  set (PN0 := (set_num_keys P 128, set_num_keys N (128 - 1))).
  change (with_pages w (<[parent:=set_num_keys P 128]> _))
    with (both parent newp w PN0).
  (* the children *)
  assert (Hu : u32 (pos + 1) = pos + 1) by (rewrite u32_small by lia; done).
  unshelve epose proof (split_phase 256 (u32 (pos + 1)) 256
              (λ i, (i <? pos) && (i <? 128 + 1)) parent newp new _ _ _ _ _ _
              PN0 w (pos =? 256 - 1) (256 + 128 - 1) (u32 (128 - 1 - 1)) (128 - 1)
              _ _ _ _ _ _) as Hph.
  { lia. } { lia. } { lia. } { lia. }
  { intros i Hi Hb. apply andb_true_iff in Hb as [H1 H2].
    apply Z.ltb_lt in H1, H2. lia. }
  { done. }
  { unfold PN0. simpl. blk_tac. }
  { unfold PN0. simpl. blk_tac. }
  { rewrite Z.eqb_eq. lia. }
  { done. } { done. } { done. }
  destruct Hph as (PN1 & j1 & w1 & HX1 & Hloop1 & HP1 & HN1 & Hc1 & Hc2 & Hf1 & Hf2).
  rewrite HX1. cbn [mbind option_bind].
  rewrite split_index_children_loop.
  rewrite Hloop1. cbn [mbind option_bind].
  (* the keys *)
  unshelve epose proof (split_phase 1 pos 255
              (λ i, (i <? pos) && (i <? 128)) parent newp k _ _ _ _ _ _
              PN1 w (pos =? 256 - 1) (1 + 128 - 2) (u32 (128 - 2 - 1)) (128 - 2)
              _ _ _ _ _ _) as Hph.
  { lia. } { lia. } { lia. } { lia. }
  { intros i Hi Hb. apply andb_true_iff in Hb as [H1 H2].
    apply Z.ltb_lt in H1, H2. lia. }
  { done. } { done. } { done. }
  { rewrite Z.eqb_eq. lia. }
  { done. } { done. } { done. }
  destruct Hph as (PN2 & j2 & w2 & HX2 & Hloop2 & HP2 & HN2 & Hk1 & Hk2 & Hg1 & Hg2).
  rewrite HX2. cbn [mbind option_bind].
  rewrite split_index_keys_loop.
  change (Z.to_nat (256 - 1)) with (Z.to_nat 255).
  rewrite Hloop2. cbn [mbind option_bind].
  erewrite load_at by apply both_parent. cbn [mbind option_bind].
  exists PN2.1, PN2.2. unfold both.
  assert (HkP : ∀ y, 1 ≤ y ≤ 255 → rd PN1.1 y = rd P y).
  { intros y Hy. rewrite Hf1 by lia. unfold PN0. simpl. rd_simpl. done. }
  assert (HcP : ∀ y, 256 ≤ y ≤ 511 → rd PN0.1 y = rd P y).
  { intros y Hy. unfold PN0. simpl. rd_simpl. done. }
  split; [|split; [done|split; [done|split; [|split; [|split; [|split; [|split]]]]]]].
  - f_equal. f_equal. rewrite (Hk1 128) by lia. unfold cv, with_key, get_key.
    repeat case_decide; try lia; try done; rewrite HkP by lia; f_equal; lia.
  - unfold num_keys. rewrite Hg1, Hf1 by lia. unfold PN0. simpl.
    fold (num_keys (set_num_keys P 128)). nk_simpl. done.
  - unfold num_keys. rewrite Hg2, Hf2 by lia. unfold PN0. simpl.
    fold (num_keys (set_num_keys N (128 - 1))). nk_simpl. done.
  - intros j Hj. unfold get_key. rewrite (Hk1 j) by lia. unfold cv, with_key, get_key.
    repeat case_decide; try lia; try done; rewrite HkP by lia; f_equal; lia.
  - intros j Hj. unfold get_key.
    replace (1 + j) with (1 + (129 + j - 129)) by lia.
    rewrite (Hk2 (129 + j)) by lia. unfold cv, with_key, get_key.
    repeat case_decide; try lia; try done; rewrite HkP by lia; f_equal; lia.
  - intros j Hj. unfold get_child. rewrite Hg1 by lia. rewrite (Hc1 j) by lia.
    unfold cv, with_child, get_child. rewrite Hu.
    repeat case_decide; try lia; try done; rewrite HcP by lia; f_equal; lia.
  - intros j Hj. unfold get_child. rewrite Hg2 by lia.
    replace (256 + j) with (256 + (129 + j - 129)) by lia.
    rewrite (Hc2 (129 + j)) by lia.
    unfold cv, with_child, get_child. rewrite Hu.
    repeat case_decide; try lia; try done; rewrite HcP by lia; f_equal; lia.
Qed.

(** ** [add_root_block] *)

Definition blk_root (b : block) (left_child k right_child : Z) : block :=
  wr (wr (wr (set_num_keys b 1) KEY_0 k) FIELD_0 left_child) (FIELD_0 + 1) right_child.

Lemma add_root_block_run w left_child k right_child b :
  pages w !! new_root (tree w) = Some b →
  add_root_block w left_child k right_child
  = Some (with_tree
            (with_pages w (<[new_root (tree w) := blk_root b left_child k right_child]>
                             (pages w)))
            (set_depth (set_root (tree w) (new_root (tree w)))
                       (u32 (depth (tree w) + 1)))).
Proof.
  intros Hb. unfold add_root_block, blk_root. run. done.
Qed.

Lemma blk_root_spec b l k r :
  blk b →
  let b' := blk_root b l k r in
  blk b' ∧ num_keys b' = 1 ∧ get_key b' 0 = k
  ∧ get_child b' 0 = l ∧ get_child b' 1 = r.
Proof.
  intros Hb. unfold blk_root. simpl.
  split; [blk_tac|]. split; [nk_simpl; lia|].
  repeat split; rd_simpl; done.
Qed.

(** ** The children lists after the index operations *)

Lemma kids_eq b (l : list Z) :
  length l = Z.to_nat (num_keys b + 1) →
  (∀ i, 0 ≤ i ≤ num_keys b → rd l i = get_child b i) →
  kids b = l.
Proof.
  intros Hl H. pose proof (num_keys_range b). apply list_eq_rd.
  - by rewrite length_kids.
  - intros i Hi. rewrite length_kids in Hi. rewrite rd_kids by lia.
    rewrite decide_True by lia. symmetry. apply H. lia.
Qed.

Lemma kids_insert_split b i key child :
  blk b → 0 ≤ i ≤ num_keys b → num_keys b < 255 →
  kids (blk_insert_split_into_index b i key child)
  = take (Z.to_nat (i + 1)) (kids b) ++ child :: drop (Z.to_nat (i + 1)) (kids b).
Proof.
  intros Hb Hi Hnk.
  destruct (blk_insert_split_into_index_spec b i key child) as (_ & Hn & _ & Hc);
    [done..|].
  pose proof (num_keys_range b).
  apply kids_eq.
  - rewrite Hn. rewrite length_app, length_take. simpl. rewrite length_drop, length_kids. lia.
  - intros j Hj. rewrite Hn in Hj. rewrite Hc by lia. unfold with_child.
    rewrite rd_app by lia. rewrite length_take, length_kids.
    repeat case_decide; try lia.
    + rewrite rd_take by lia. rewrite decide_True by lia. rewrite rd_kids by lia.
      by rewrite decide_True by lia.
    + rewrite rd_cons by lia. rewrite decide_True by lia. done.
    + rewrite rd_cons by lia. rewrite decide_False by lia.
      rewrite rd_drop by lia. rewrite rd_kids by lia. rewrite decide_True by lia.
      f_equal. lia.
Qed.

(** the 257 children of a full node with [new] placed after child [pos] *)
Definition combined_kids (P : block) (pos new : Z) : list Z :=
  take (Z.to_nat (pos + 1)) (kids P) ++ new :: drop (Z.to_nat (pos + 1)) (kids P).

Lemma rd_combined_kids P pos new j :
  num_keys P = 255 → 0 ≤ pos ≤ 255 → 0 ≤ j ≤ 256 →
  rd (combined_kids P pos new) j = with_child P pos new j.
Proof.
  intros HP Hpos Hj. unfold combined_kids, with_child.
  rewrite rd_app by lia. rewrite length_take, length_kids, HP.
  repeat case_decide; try lia.
  - rewrite rd_take by lia. rewrite decide_True by lia. rewrite rd_kids by lia.
    by rewrite decide_True by lia.
  - rewrite rd_cons by lia. rewrite decide_True by lia. done.
  - rewrite rd_cons by lia. rewrite decide_False by lia.
    rewrite rd_drop by lia. rewrite rd_kids by lia. rewrite decide_True by lia.
    f_equal. lia.
Qed.

Lemma length_combined_kids P pos new :
  num_keys P = 255 → 0 ≤ pos ≤ 255 → length (combined_kids P pos new) = 257%nat.
Proof.
  intros HP Hpos. unfold combined_kids.
  rewrite length_app, length_take. simpl. rewrite length_drop, length_kids, HP. lia.
Qed.

Lemma kids_split_index P P' N' pos new :
  num_keys P = 255 → 0 ≤ pos ≤ 255 →
  num_keys P' = 128 → num_keys N' = 127 →
  (∀ j, 0 ≤ j ≤ 128 → get_child P' j = with_child P pos new j) →
  (∀ j, 0 ≤ j ≤ 127 → get_child N' j = with_child P pos new (129 + j)) →
  kids P' = take 129 (combined_kids P pos new)
  ∧ kids N' = drop 129 (combined_kids P pos new).
Proof.
  intros HP Hpos HP' HN' H1 H2. split.
  - apply kids_eq.
    + rewrite length_take, length_combined_kids, HP' by done. lia.
    + intros j Hj. rewrite HP' in Hj. rewrite rd_take by lia.
      rewrite decide_True by lia. rewrite rd_combined_kids by lia.
      symmetry. apply H1. lia.
  - apply kids_eq.
    + rewrite length_drop, length_combined_kids, HN' by done. lia.
    + intros j Hj. rewrite HN' in Hj. rewrite rd_drop by lia.
      rewrite rd_combined_kids by lia.
      symmetry. replace (Z.of_nat 129 + j) with (129 + j) by lia. apply H2. lia.
Qed.

(** * The shape of the tree *)

(** The invariant is stated with a ghost map [G] from the pages that are
    nodes of the tree to their height (0 for the leaves).  While a child
    is being removed from a node the slot it had is a hole: the children
    of the node are those of its other slots. *)
Definition ekids (hole : option (Z * nat)) (a : Z) (b : block) : list Z :=
  match hole with
  | Some (a0, i0) => if decide (a = a0) then base.delete i0 (kids b) else kids b
  | None => kids b
  end.

(** the least number of keys of a node that is not the root *)
Definition min_keys (n : nat) : Z := match n with O => 128 | S _ => 127 end.

Record tree_inv (h : gmap Z block) (rt : Z) (dep : nat) (G : gmap Z nat)
    (hole : option (Z * nat)) : Prop := {
  ti_root : G !! rt = Some dep;
  ti_top : ∀ a n, G !! a = Some n → (n ≤ dep)%nat;
  ti_blk : ∀ a n, G !! a = Some n → ∃ b, h !! a = Some b ∧ blk b;
  ti_kids : ∀ a n b c,
    G !! a = Some (S n) → h !! a = Some b → c ∈ ekids hole a b → G !! c = Some n;
  ti_nodup : ∀ a n b,
    G !! a = Some (S n) → h !! a = Some b → NoDup (ekids hole a b);
  ti_disj : ∀ a a' n n' b b' c,
    G !! a = Some (S n) → G !! a' = Some (S n') →
    h !! a = Some b → h !! a' = Some b' →
    c ∈ ekids hole a b → c ∈ ekids hole a' b' → a = a';
  ti_min : ∀ a n b,
    G !! a = Some n → h !! a = Some b → a ≠ rt → min_keys n ≤ num_keys b;
  ti_rootmin : ∀ b, h !! rt = Some b → dep ≠ 0%nat → 1 ≤ num_keys b
}.

Lemma min_keys_pos n : 127 ≤ min_keys n.
Proof. destruct n; simpl; lia. Qed.

Section tree_facts.
Context {h : gmap Z block} {rt : Z} {dep : nat} {G : gmap Z nat}.
Hypothesis HT : tree_inv h rt dep G None.

Lemma ti_child a n b i :
  G !! a = Some (S n) → h !! a = Some b → 0 ≤ i ≤ num_keys b →
  G !! get_child b i = Some n.
Proof.
  intros Ha Hb Hi. eapply (ti_kids _ _ _ _ _ HT); [done..|].
  simpl. apply elem_of_kids. eauto.
Qed.

Lemma ti_child_inj a n b i j :
  G !! a = Some (S n) → h !! a = Some b →
  0 ≤ i ≤ num_keys b → 0 ≤ j ≤ num_keys b →
  get_child b i = get_child b j → i = j.
Proof.
  intros Ha Hb Hi Hj Heq.
  pose proof (ti_nodup _ _ _ _ _ HT a n b Ha Hb) as Hnd. simpl in Hnd.
  pose proof (num_keys_range b).
  assert (Z.to_nat i = Z.to_nat j); [|lia].
  eapply NoDup_lookup; [exact Hnd| |].
  - rewrite lookup_kids by lia. reflexivity.
  - rewrite lookup_kids by lia. rewrite !Z2Nat.id by lia. by rewrite Heq.
Qed.

Lemma ti_at_least_two a n b :
  G !! a = Some (S n) → h !! a = Some b → 1 ≤ num_keys b.
Proof.
  intros Ha Hb. destruct (decide (a = rt)) as [->|Hne].
  - apply (ti_rootmin _ _ _ _ _ HT); [done|].
    pose proof (ti_root _ _ _ _ _ HT). intros ->. congruence.
  - pose proof (ti_min _ _ _ _ _ HT a (S n) b Ha Hb Hne). simpl in *. lia.
Qed.

(** [x] is [n] levels below [a] *)
Fixpoint below (n : nat) (a x : Z) : Prop :=
  match n with
  | O => x = a
  | S n' => ∃ b c, h !! a = Some b ∧ c ∈ kids b ∧ below n' c x
  end.

Lemma below_unique n : ∀ a a' x,
  G !! a = Some n → G !! a' = Some n → below n a x → below n a' x → a = a'.
Proof.
  induction n as [|n IH]; intros a a' x Ha Ha'; simpl.
  - congruence.
  - intros (b & c & Hb & Hc & Hx) (b' & c' & Hb' & Hc' & Hx').
    assert (c = c').
    { eapply IH; [| |exact Hx|exact Hx'].
      - exact (ti_kids _ _ _ _ _ HT a n b c Ha Hb Hc).
      - exact (ti_kids _ _ _ _ _ HT a' n b' c' Ha' Hb' Hc'). }
    subst c'. exact (ti_disj _ _ _ _ _ HT a a' n n b b' c Ha Ha' Hb Hb' Hc Hc').
Qed.

(** a node of height [n] has at least [2^n] leaves below it *)
Lemma leaves_below n : ∀ a,
  G !! a = Some n →
  ∃ l : list Z, NoDup l ∧ length l = (2 ^ n)%nat
    ∧ ∀ x, x ∈ l → G !! x = Some O ∧ below n a x.
Proof.
  induction n as [|n IH]; intros a Ha.
  - exists [a]. split; [apply NoDup_singleton|]. split; [done|].
    intros x Hx. apply list_elem_of_singleton in Hx. by subst.
  - destruct (ti_blk _ _ _ _ _ HT a _ Ha) as (b & Hb & Hblk).
    pose proof (ti_at_least_two a n b Ha Hb) as Hnk.
    pose proof (ti_child a n b 0 Ha Hb ltac:(lia)) as H0.
    pose proof (ti_child a n b 1 Ha Hb ltac:(lia)) as H1.
    destruct (IH _ H0) as (l0 & Hnd0 & Hl0 & Hin0).
    destruct (IH _ H1) as (l1 & Hnd1 & Hl1 & Hin1).
    exists (l0 ++ l1). split; [|split].
    + apply NoDup_app. split; [done|]. split; [|done].
      intros x Hx0 Hx1.
      apply Hin0 in Hx0 as [_ Hx0]. apply Hin1 in Hx1 as [_ Hx1].
      pose proof (below_unique n _ _ x H0 H1 Hx0 Hx1) as Heq.
      apply (ti_child_inj a n b 0 1 Ha Hb) in Heq; lia.
    + rewrite length_app, Hl0, Hl1. simpl. lia.
    + intros x Hx. apply elem_of_app in Hx as [Hx|Hx].
      * apply Hin0 in Hx as [? ?]. split; [done|].
        exists b, (get_child b 0). split; [done|]. split; [|done].
        apply elem_of_kids. exists 0. split; [lia|done].
      * apply Hin1 in Hx as [? ?]. split; [done|].
        exists b, (get_child b 1). split; [done|]. split; [|done].
        apply elem_of_kids. exists 1. split; [lia|done].
Qed.
End tree_facts.

Arguments below : clear implicits.

(** in an address space of [N] pages the tree has fewer than [N] leaves *)
Lemma tree_depth_bound h rt dep G N :
  tree_inv h rt dep G None →
  (∀ a b, h !! a = Some b → 0 < a < N) →
  2 ^ Z.of_nat dep < N.
Proof.
  intros HT Hpages.
  destruct (leaves_below HT dep rt (ti_root _ _ _ _ _ HT)) as (l & Hnd & Hlen & Hin).
  assert (Hsub : l ⊆+ seqZ 1 (N - 1)).
  { apply NoDup_submseteq; [done|]. intros x Hx.
    apply Hin in Hx as [Hx _].
    destruct (ti_blk _ _ _ _ _ HT x _ Hx) as (b & Hb & _).
    apply Hpages in Hb. apply elem_of_seqZ. lia. }
  apply submseteq_length in Hsub. rewrite length_seqZ, Hlen in Hsub.
  assert (Z.of_nat (2 ^ dep) = 2 ^ Z.of_nat dep) as <-.
  { rewrite Nat2Z.inj_pow. done. }
  destruct (decide (0 < N)); [lia|].
  destruct l as [|x l]; [simpl in Hlen; pose proof (Nat.pow_nonzero 2 dep); lia|].
  assert (Hx : x ∈ x :: l) by apply list_elem_of_here.
  apply Hin in Hx as [Hx _].
  destruct (ti_blk _ _ _ _ _ HT x _ Hx) as (b & Hb & _).
  apply Hpages in Hb. lia.
Qed.

Lemma pow2_bound d N : 0 ≤ d → 2 ^ d < N → N ≤ 4503599627370496 → d < 52.
Proof.
  intros Hd H1 H2. destruct (decide (d < 52)); [done|].
  assert (2 ^ 52 ≤ 2 ^ d) by (apply Z.pow_le_mono_r; lia).
  change (2 ^ 52) with 4503599627370496 in *. lia.
Qed.

(** ** The invariant of a world *)

Definition path_ok (t : bplus) : Prop :=
  0 ≤ path_length t
  ∧ match path t with
    | Some l => Z.of_nat (length l) = path_length t
    | None => path_length t = 0
    end.

Record Inv (w : world) (G : gmap Z nat) : Prop := {
  inv_tree : tree_inv (pages w) (root (tree w)) (Z.to_nat (depth (tree w))) G None;
  inv_depth : 0 ≤ depth (tree w);
  inv_pages : ∀ a b, pages w !! a = Some b → 0 < a < next_page w;
  inv_next : next_page w ≤ PAGE_LIMIT;
  inv_path : path_ok (tree w)
}.

Lemma Inv_depth_small w G : Inv w G → depth (tree w) < 52.
Proof.
  intros [HT Hd Hp Hn _].
  pose proof (tree_depth_bound _ _ _ _ _ HT Hp) as Hb.
  rewrite Z2Nat.id in Hb by done.
  eapply pow2_bound; done.
Qed.

(** ** The descent *)

(** the node of level [d] of a recorded path that ends in [leaf] *)
Definition pnode (l : list path_node) (leaf : Z) (dep d : nat) : Z :=
  if decide (d = dep) then leaf else default 0 (pn_node <$> l !! d).

Definition frame_ok (h : gmap Z block) (G : gmap Z nat) (dep : nat) (k : Z)
    (l : list path_node) (leaf : Z) (d : nat) : Prop :=
  ∃ pn b, l !! d = Some pn ∧ h !! pn_node pn = Some b
    ∧ G !! pn_node pn = Some (dep - d)%nat
    ∧ pn_num_keys pn = num_keys b
    ∧ pn_pos pn = scan_index_keys b k
    ∧ get_child b (pn_pos pn) = pnode l leaf dep (S d).

Definition frames_ok (h : gmap Z block) (G : gmap Z nat) (rt : Z) (dep : nat)
    (k : Z) (l : list path_node) (leaf : Z) : Prop :=
  (∀ d, (d < dep)%nat → frame_ok h G dep k l leaf d)
  ∧ pnode l leaf dep 0 = rt
  ∧ G !! leaf = Some O.

Definition with_path (w : world) (l : list path_node) : world :=
  with_tree w (set_path (tree w) (path_length (tree w)) (Some l)).

Lemma path_update_at w l d f pn :
  path (tree w) = Some l → l !! d = Some pn →
  path_update w (Z.of_nat d) f = Some (with_path w (<[d := f pn]> l)).
Proof.
  intros Hl Hd. unfold path_update. rewrite Hl. simpl.
  rewrite Nat2Z.id, Hd. done.
Qed.

Lemma path_at_at w l d :
  path (tree w) = Some l → path_at w (Z.of_nat d) = l !! d.
Proof. intros Hl. unfold path_at. rewrite Hl. simpl. by rewrite Nat2Z.id. Qed.

Lemma with_path_twice w l l' : with_path (with_path w l) l' = with_path w l'.
Proof. done. Qed.

Lemma find_leaf_loop_spec h rt dep0 G k n : ∀ d node w l,
  tree_inv h rt dep0 G None → pages w = h →
  G !! node = Some n → path (tree w) = Some l → (d + n ≤ length l)%nat →
  ∃ leaf l',
    find_leaf_loop n (Z.of_nat d) node k w = Some (leaf, with_path w l')
    ∧ length l' = length l
    ∧ (∀ j, (j < d)%nat → l' !! j = l !! j)
    ∧ (∀ j, pn_split <$> l' !! j = pn_split <$> l !! j)
    ∧ G !! leaf = Some O
    ∧ (if n is O then leaf = node else pn_node <$> l' !! d = Some node)
    ∧ (∀ j, (d ≤ j < d + n)%nat →
         ∃ pn b, l' !! j = Some pn ∧ h !! pn_node pn = Some b
           ∧ G !! pn_node pn = Some (d + n - j)%nat
           ∧ pn_num_keys pn = num_keys b
           ∧ pn_pos pn = scan_index_keys b k
           ∧ get_child b (pn_pos pn) = pnode l' leaf (d + n) (S j)).
Proof.
  induction n as [|n IH]; intros d node w l HT Hh Hnode Hl Hlen.
  - exists node, l. simpl.
    assert (with_path w l = w) as ->.
    { unfold with_path. destruct w as [? ? ? ? ? t]. simpl in *.
      f_equal. destruct t. simpl in *. by subst. }
    repeat split; try done. intros j Hj. lia.
  - simpl. destruct (ti_blk _ _ _ _ _ HT node _ Hnode) as (b & Hb & Hblk).
    rewrite Hh, Hb. simpl.
    destruct (lookup_lt_is_Some_2 l d ltac:(lia)) as [pn0 Hpn0].
    erewrite path_update_at by done. simpl.
    destruct (scan_index_keys_spec b k) as (Hpos & _).
    set (pos := scan_index_keys b k) in *.
    set (l1 := <[d := set_pn_visit node (num_keys b) pos pn0]> l).
    pose proof (ti_child HT node n b pos Hnode Hb Hpos) as Hc.
    replace (Z.of_nat d + 1) with (Z.of_nat (S d)) by lia.
    destruct (IH (S d) (get_child b pos) (with_path w l1) l1 HT)
      as (leaf & l' & Hrun & Hlen' & Hpre & Hsplit & Hleaf & Hfirst & Hfr);
      [done|done|done|unfold l1; rewrite length_insert; lia|].
    exists leaf, l'. rewrite with_path_twice in Hrun.
    split; [exact Hrun|].
    split; [rewrite Hlen'; unfold l1; by rewrite length_insert|].
    assert (Hd : l' !! d = Some (set_pn_visit node (num_keys b) pos pn0)).
    { rewrite Hpre by lia. unfold l1. apply list_lookup_insert_eq. lia. }
    split; [|split; [|split; [done|split]]].
    + intros j Hj. rewrite Hpre by lia. unfold l1.
      apply list_lookup_insert_ne. lia.
    + intros j. rewrite Hsplit. unfold l1.
      destruct (decide (j = d)) as [->|].
      * rewrite list_lookup_insert_eq by lia. rewrite Hpn0. done.
      * by rewrite list_lookup_insert_ne by lia.
    + rewrite Hd. done.
    + intros j Hj. destruct (decide (j = d)) as [->|].
      * exists (set_pn_visit node (num_keys b) pos pn0), b.
        split; [done|]. simpl. split; [done|].
        split; [rewrite Hnode; f_equal; lia|].
        split; [done|]. split; [done|].
        unfold pnode. case_decide.
        -- destruct n; [|lia]. done.
        -- destruct n; [lia|]. rewrite Hfirst. done.
      * destruct (Hfr j ltac:(lia)) as (pn & b' & H1 & H2 & H3 & H4 & H5 & H6).
        exists pn, b'. split; [done|]. split; [done|].
        split; [rewrite H3; f_equal; lia|].
        split; [done|]. split; [done|].
        rewrite H6. unfold pnode.
        replace (S d + n)%nat with (d + S n)%nat by lia. done.
Qed.

(** ** Local changes that keep the shape *)

(** [o] is the child of no node *)
Definition orphan (h : gmap Z block) (G : gmap Z nat) (o : Z) : Prop :=
  ∀ a n b, G !! a = Some (S n) → h !! a = Some b → o ∉ kids b.

Lemma not_in_tree_orphan h rt dep G o :
  tree_inv h rt dep G None → G !! o = None → orphan h G o.
Proof.
  intros HT Ho a n b Ha Hb Hin.
  pose proof (ti_kids _ _ _ _ _ HT a n b o Ha Hb Hin). congruence.
Qed.

Lemma root_orphan h rt dep G :
  tree_inv h rt dep G None → orphan h G rt.
Proof.
  intros HT a n b Ha Hb Hin.
  pose proof (ti_kids _ _ _ _ _ HT a n b rt Ha Hb Hin) as H1.
  pose proof (ti_root _ _ _ _ _ HT) as H2.
  pose proof (ti_top _ _ _ _ _ HT a _ Ha). simplify_eq. lia.
Qed.

(** a node gets a new block with the same children *)
Lemma tree_inv_update h rt dep G a b b' n :
  tree_inv h rt dep G None → G !! a = Some n → h !! a = Some b → blk b' →
  (n ≠ O → kids b' = kids b) →
  (a ≠ rt → min_keys n ≤ num_keys b') →
  (a = rt → dep ≠ O → 1 ≤ num_keys b') →
  tree_inv (<[a := b']> h) rt dep G None.
Proof.
  intros HT Ha Hb Hblk Hk Hmin Hrmin.
  assert (Hek : ∀ a0 m b0, G !! a0 = Some (S m) → <[a:=b']> h !! a0 = Some b0 →
            ∃ b1, h !! a0 = Some b1 ∧ kids b0 = kids b1).
  { intros a0 m b0 Ha0 Hb0. destruct (decide (a0 = a)) as [->|Hne].
    - rewrite lookup_insert_eq in Hb0. simplify_eq. exists b. split; [done|].
      apply Hk. done.
    - rewrite lookup_insert_ne in Hb0 by done. eauto. }
  split.
  - apply HT.
  - apply HT.
  - intros a0 m Ha0. destruct (decide (a0 = a)) as [->|Hne].
    + rewrite lookup_insert_eq. eauto.
    + rewrite lookup_insert_ne by done. eapply ti_blk; done.
  - intros a0 m b0 c Ha0 Hb0 Hc. simpl in *.
    destruct (Hek _ _ _ Ha0 Hb0) as (b1 & Hb1 & Hk1). rewrite Hk1 in Hc.
    exact (ti_kids _ _ _ _ _ HT a0 m b1 c Ha0 Hb1 Hc).
  - intros a0 m b0 Ha0 Hb0. simpl.
    destruct (Hek _ _ _ Ha0 Hb0) as (b1 & Hb1 & Hk1). rewrite Hk1.
    exact (ti_nodup _ _ _ _ _ HT a0 m b1 Ha0 Hb1).
  - intros a0 a1 m m' b0 b1 c Ha0 Ha1 Hb0 Hb1 Hc0 Hc1. simpl in *.
    destruct (Hek _ _ _ Ha0 Hb0) as (b0' & Hb0' & Hk0). rewrite Hk0 in Hc0.
    destruct (Hek _ _ _ Ha1 Hb1) as (b1' & Hb1' & Hk1). rewrite Hk1 in Hc1.
    exact (ti_disj _ _ _ _ _ HT a0 a1 m m' b0' b1' c Ha0 Ha1 Hb0' Hb1' Hc0 Hc1).
  - intros a0 m b0 Ha0 Hb0 Hne. destruct (decide (a0 = a)) as [->|Hne'].
    + rewrite lookup_insert_eq in Hb0. simplify_eq. by apply Hmin.
    + rewrite lookup_insert_ne in Hb0 by done. eapply ti_min; done.
  - intros b0 Hb0 Hd. destruct (decide (rt = a)) as [->|Hne'].
    + rewrite lookup_insert_eq in Hb0. simplify_eq. by apply Hrmin.
    + rewrite lookup_insert_ne in Hb0 by done. eapply ti_rootmin; done.
Qed.

(** an index node gets a new list of children, each one a child it had
    or an orphan *)
Lemma tree_inv_rekid h rt dep G a b b' n :
  tree_inv h rt dep G None → G !! a = Some (S n) → h !! a = Some b → blk b' →
  NoDup (kids b') →
  (∀ c, c ∈ kids b' → G !! c = Some n ∧ (c ∈ kids b ∨ orphan h G c)) →
  (a ≠ rt → 127 ≤ num_keys b') →
  (a = rt → 1 ≤ num_keys b') →
  tree_inv (<[a := b']> h) rt dep G None.
Proof.
  intros HT Ha Hb Hblk Hnd Hk Hmin Hrmin.
  split.
  - apply HT.
  - apply HT.
  - intros a0 m Ha0. destruct (decide (a0 = a)) as [->|Hne].
    + rewrite lookup_insert_eq. eauto.
    + rewrite lookup_insert_ne by done. eapply ti_blk; done.
  - intros a0 m b0 c Ha0 Hb0 Hc. simpl in *.
    destruct (decide (a0 = a)) as [->|Hne].
    + rewrite lookup_insert_eq in Hb0. simplify_eq. by apply Hk.
    + rewrite lookup_insert_ne in Hb0 by done.
      exact (ti_kids _ _ _ _ _ HT a0 m b0 c Ha0 Hb0 Hc).
  - intros a0 m b0 Ha0 Hb0. simpl.
    destruct (decide (a0 = a)) as [->|Hne].
    + rewrite lookup_insert_eq in Hb0. by simplify_eq.
    + rewrite lookup_insert_ne in Hb0 by done.
      exact (ti_nodup _ _ _ _ _ HT a0 m b0 Ha0 Hb0).
  - intros a0 a1 m m' b0 b1 c Ha0 Ha1 Hb0 Hb1 Hc0 Hc1. simpl in *.
    destruct (decide (a0 = a)) as [->|Hne0]; destruct (decide (a1 = a)) as [->|Hne1];
      [done| | |].
    + rewrite lookup_insert_eq in Hb0. rewrite lookup_insert_ne in Hb1 by done.
      simplify_eq. destruct (Hk c Hc0) as [_ [Hc|Hc]].
      * symmetry.
        exact (ti_disj _ _ _ _ _ HT a1 a m' n b1 b c Ha1 Ha Hb1 Hb Hc1 Hc).
      * exfalso. exact (Hc a1 m' b1 Ha1 Hb1 Hc1).
    + rewrite lookup_insert_eq in Hb1. rewrite lookup_insert_ne in Hb0 by done.
      simplify_eq. destruct (Hk c Hc1) as [_ [Hc|Hc]].
      * exact (ti_disj _ _ _ _ _ HT a0 a m n b0 b c Ha0 Ha Hb0 Hb Hc0 Hc).
      * exfalso. exact (Hc a0 m b0 Ha0 Hb0 Hc0).
    + rewrite lookup_insert_ne in Hb0 by done; rewrite lookup_insert_ne in Hb1 by done.
      exact (ti_disj _ _ _ _ _ HT a0 a1 m m' b0 b1 c Ha0 Ha1 Hb0 Hb1 Hc0 Hc1).
  - intros a0 m b0 Ha0 Hb0 Hne. destruct (decide (a0 = a)) as [->|Hne'].
    + rewrite lookup_insert_eq in Hb0. simplify_eq. simpl. by apply Hmin.
    + rewrite lookup_insert_ne in Hb0 by done. eapply ti_min; done.
  - intros b0 Hb0 Hd. destruct (decide (rt = a)) as [->|Hne'].
    + rewrite lookup_insert_eq in Hb0. simplify_eq. by apply Hrmin.
    + rewrite lookup_insert_ne in Hb0 by done. eapply ti_rootmin; done.
Qed.

(** a page that is not in the tree joins it as an orphan *)
Lemma tree_inv_add_node h rt dep G new nb n :
  tree_inv h rt dep G None → G !! new = None → blk nb →
  (n ≤ dep)%nat →
  min_keys n ≤ num_keys nb →
  (∀ m, n = S m → NoDup (kids nb)
                  ∧ ∀ c, c ∈ kids nb → G !! c = Some m ∧ orphan h G c) →
  tree_inv (<[new := nb]> h) rt dep (<[new := n]> G) None
  ∧ orphan (<[new := nb]> h) (<[new := n]> G) new.
Proof.
  intros HT Hnew Hblk Hn Hmin Hk.
  assert (Hrt : new ≠ rt).
  { intros ->. pose proof (ti_root _ _ _ _ _ HT). congruence. }
  assert (Hin : ∀ a m b, <[new:=n]> G !! a = Some (S m) → <[new:=nb]> h !! a = Some b →
            ∀ c, c ∈ kids b → G !! c = Some m).
  { intros a m b Ha Hb c Hc. destruct (decide (a = new)) as [->|Hne].
    - rewrite lookup_insert_eq in Ha; rewrite lookup_insert_eq in Hb. simplify_eq.
      by apply (Hk m eq_refl).
    - rewrite lookup_insert_ne in Ha by done; rewrite lookup_insert_ne in Hb by done.
      exact (ti_kids _ _ _ _ _ HT a m b c Ha Hb Hc). }
  split; [split|].
  - rewrite lookup_insert_ne by done. apply HT.
  - intros a m Ha. destruct (decide (a = new)) as [->|Hne].
    + rewrite lookup_insert_eq in Ha. by simplify_eq.
    + rewrite lookup_insert_ne in Ha by done. eapply ti_top; done.
  - intros a m Ha. destruct (decide (a = new)) as [->|Hne].
    + rewrite lookup_insert_eq. eauto.
    + rewrite lookup_insert_ne in Ha by done. rewrite lookup_insert_ne by done.
      eapply ti_blk; done.
  - intros a m b c Ha Hb Hc. simpl in *.
    pose proof (Hin a m b Ha Hb c Hc) as HG.
    rewrite lookup_insert_ne; [done|]. intros ->. congruence.
  - intros a m b Ha Hb. simpl. destruct (decide (a = new)) as [->|Hne].
    + rewrite lookup_insert_eq in Ha; rewrite lookup_insert_eq in Hb. simplify_eq. by apply (Hk m eq_refl).
    + rewrite lookup_insert_ne in Ha by done; rewrite lookup_insert_ne in Hb by done.
      exact (ti_nodup _ _ _ _ _ HT a m b Ha Hb).
  - intros a0 a1 m m' b0 b1 c Ha0 Ha1 Hb0 Hb1 Hc0 Hc1. simpl in *.
    destruct (decide (a0 = new)) as [->|Hne0]; destruct (decide (a1 = new)) as [->|Hne1];
      [done| | |].
    + rewrite lookup_insert_eq in Ha0; rewrite lookup_insert_eq in Hb0. rewrite lookup_insert_ne in Ha1 by done; rewrite lookup_insert_ne in Hb1 by done.
      simplify_eq. destruct (Hk m eq_refl) as [_ Hk'].
      destruct (Hk' c Hc0) as [_ Hor]. exfalso. exact (Hor a1 m' b1 Ha1 Hb1 Hc1).
    + rewrite lookup_insert_eq in Ha1; rewrite lookup_insert_eq in Hb1. rewrite lookup_insert_ne in Ha0 by done; rewrite lookup_insert_ne in Hb0 by done.
      simplify_eq. destruct (Hk m' eq_refl) as [_ Hk'].
      destruct (Hk' c Hc1) as [_ Hor]. exfalso. exact (Hor a0 m b0 Ha0 Hb0 Hc0).
    + rewrite lookup_insert_ne in Ha0 by done; rewrite lookup_insert_ne in Ha1 by done; rewrite lookup_insert_ne in Hb0 by done; rewrite lookup_insert_ne in Hb1 by done.
      exact (ti_disj _ _ _ _ _ HT a0 a1 m m' b0 b1 c Ha0 Ha1 Hb0 Hb1 Hc0 Hc1).
  - intros a m b Ha Hb Hne. destruct (decide (a = new)) as [->|Hne'].
    + rewrite lookup_insert_eq in Ha; rewrite lookup_insert_eq in Hb. by simplify_eq.
    + rewrite lookup_insert_ne in Ha by done; rewrite lookup_insert_ne in Hb by done. eapply ti_min; done.
  - intros b Hb Hd. rewrite lookup_insert_ne in Hb by done. eapply ti_rootmin; done.
  - intros a m b Ha Hb Hc.
    pose proof (Hin a m b Ha Hb new Hc). congruence.
Qed.

(** a fresh root over the old root and its orphan sibling *)
Lemma tree_inv_add_root h rt dep G o R rb brt :
  tree_inv h rt dep G None → orphan h G o → G !! o = Some dep → o ≠ rt →
  G !! R = None → blk rb → num_keys rb = 1 →
  get_child rb 0 = rt → get_child rb 1 = o →
  h !! rt = Some brt → min_keys dep ≤ num_keys brt →
  tree_inv (<[R := rb]> h) R (S dep) (<[R := S dep]> G) None.
Proof.
  intros HT Hor Ho Hort HR Hblk Hnk Hc0 Hc1 Hbrt Hmin.
  assert (HRrt : R ≠ rt).
  { intros ->. pose proof (ti_root _ _ _ _ _ HT). congruence. }
  assert (Hkids : kids rb = [rt; o]).
  { unfold kids. rewrite Hnk. change (seqZ 0 (1 + 1)) with [0; 1]. simpl.
    by rewrite Hc0, Hc1. }
  split.
  - by rewrite lookup_insert_eq.
  - intros a m Ha. destruct (decide (a = R)) as [->|Hne].
    + rewrite lookup_insert_eq in Ha. simplify_eq. lia.
    + rewrite lookup_insert_ne in Ha by done.
      pose proof (ti_top _ _ _ _ _ HT a m Ha). lia.
  - intros a m Ha. destruct (decide (a = R)) as [->|Hne].
    + rewrite lookup_insert_eq. eauto.
    + rewrite lookup_insert_ne in Ha by done. rewrite lookup_insert_ne by done.
      eapply ti_blk; done.
  - intros a m b c Ha Hb Hc. simpl in *. destruct (decide (a = R)) as [->|Hne].
    + rewrite lookup_insert_eq in Ha; rewrite lookup_insert_eq in Hb. simplify_eq. rewrite Hkids in Hc.
      apply elem_of_cons in Hc as [->|Hc].
      * rewrite lookup_insert_ne by done. apply HT.
      * apply list_elem_of_singleton in Hc as ->.
        rewrite lookup_insert_ne; [done|]. intros ->. congruence.
    + rewrite lookup_insert_ne in Ha by done; rewrite lookup_insert_ne in Hb by done.
      pose proof (ti_kids _ _ _ _ _ HT a m b c Ha Hb Hc) as HG.
      rewrite lookup_insert_ne; [done|]. intros ->. congruence.
  - intros a m b Ha Hb. simpl. destruct (decide (a = R)) as [->|Hne].
    + rewrite lookup_insert_eq in Ha; rewrite lookup_insert_eq in Hb. simplify_eq. rewrite Hkids.
      apply NoDup_cons. split; [|apply NoDup_singleton].
      intros Hin. apply list_elem_of_singleton in Hin. done.
    + rewrite lookup_insert_ne in Ha by done; rewrite lookup_insert_ne in Hb by done.
      exact (ti_nodup _ _ _ _ _ HT a m b Ha Hb).
  - intros a0 a1 m m' b0 b1 c Ha0 Ha1 Hb0 Hb1 Hc0' Hc1'. simpl in *.
    assert (Haux : ∀ a2 m2 b2, a2 ≠ R → G !! a2 = Some (S m2) → h !! a2 = Some b2 →
              c ∈ kids b2 → c ∈ [rt; o] → False).
    { intros a2 m2 b2 Hne Ha Hb Hc Hc'.
      apply elem_of_cons in Hc' as [->|Hc'].
      - exact (root_orphan _ _ _ _ HT a2 m2 b2 Ha Hb Hc).
      - apply list_elem_of_singleton in Hc' as ->. exact (Hor a2 m2 b2 Ha Hb Hc). }
    destruct (decide (a0 = R)) as [->|Hne0]; destruct (decide (a1 = R)) as [->|Hne1];
      [done| | |].
    + rewrite lookup_insert_eq in Ha0; rewrite lookup_insert_eq in Hb0. rewrite lookup_insert_ne in Ha1 by done; rewrite lookup_insert_ne in Hb1 by done.
      simplify_eq. rewrite Hkids in Hc0'. exfalso. eapply Haux; done.
    + rewrite lookup_insert_eq in Ha1; rewrite lookup_insert_eq in Hb1. rewrite lookup_insert_ne in Ha0 by done; rewrite lookup_insert_ne in Hb0 by done.
      simplify_eq. rewrite Hkids in Hc1'. exfalso. eapply Haux; done.
    + rewrite lookup_insert_ne in Ha0 by done; rewrite lookup_insert_ne in Ha1 by done; rewrite lookup_insert_ne in Hb0 by done; rewrite lookup_insert_ne in Hb1 by done.
      exact (ti_disj _ _ _ _ _ HT a0 a1 m m' b0 b1 c Ha0 Ha1 Hb0 Hb1 Hc0' Hc1').
  - intros a m b Ha Hb Hne. rewrite lookup_insert_ne in Ha by done; rewrite lookup_insert_ne in Hb by done.
    destruct (decide (a = rt)) as [->|Hne'].
    + pose proof (ti_root _ _ _ _ _ HT). simplify_eq. done.
    + eapply ti_min; done.
  - intros b Hb _. rewrite lookup_insert_eq in Hb. simplify_eq. lia.
Qed.

(** * The order of the keys *)

(** Every node of the tree has a range of keys, from a lower bound that
    belongs to it to an upper bound that does not; a missing bound is
    infinite.  The ranges are kept in a second ghost map [B]. *)
Abbreviation bounds := (option Z * option Z)%type (only parsing).

Definition lo_le (lo : option Z) (x : Z) : Prop :=
  match lo with Some l => l ≤ x | None => True end.
Definition lo_lt (lo : option Z) (x : Z) : Prop :=
  match lo with Some l => l < x | None => True end.
Definition lt_hi (x : Z) (hi : option Z) : Prop :=
  match hi with Some u => x < u | None => True end.
Definition range_ok (lo hi : option Z) : Prop :=
  match lo, hi with Some l, Some u => l < u | _, _ => True end.

(** the keys of a node ascend *)
Definition sorted_blk (b : block) : Prop :=
  ∀ i j, 0 ≤ i → i < j → j < num_keys b → get_key b i < get_key b j.

(** the range of child [i] of a node with the keys [K 0 .. K (nk - 1)] *)
Definition kbound (K : Z → Z) (nk : Z) (lo hi : option Z) (i : Z) : bounds :=
  (if decide (i = 0) then lo else Some (K (i - 1)),
   if decide (i = nk) then hi else Some (K i)).

Definition cbound (b : block) (lo hi : option Z) (i : Z) : bounds :=
  kbound (get_key b) (num_keys b) lo hi i.

(** the block of a node of height [n] with the range from [lo] to [hi]:
    its keys ascend within the range; the children of an index node have
    the ranges that its keys cut out, and the keys of an index node are
    above its lower bound; a leaf is followed by the leaf whose range
    starts where its own ends *)
Definition blk_ok (G : gmap Z nat) (B : gmap Z bounds) (n : nat) (b : block)
    (lo hi : option Z) : Prop :=
  range_ok lo hi ∧ sorted_blk b
  ∧ (∀ j, 0 ≤ j < num_keys b → lo_le lo (get_key b j) ∧ lt_hi (get_key b j) hi)
  ∧ match n with
    | O => match hi with
           | None => next_leaf b = 0
           | Some u => G !! next_leaf b = Some O
                       ∧ ∃ hi', B !! next_leaf b = Some (Some u, hi')
           end
    | S _ => (∀ j, 0 ≤ j < num_keys b → lo_lt lo (get_key b j))
             ∧ (∀ i, 0 ≤ i ≤ num_keys b →
                  B !! get_child b i = Some (cbound b lo hi i))
    end.

(** [a] is a child of a node of the tree *)
Definition has_parent (h : gmap Z block) (G : gmap Z nat) (a : Z) (n : nat) : Prop :=
  ∃ p b, G !! p = Some (S n) ∧ h !! p = Some b ∧ a ∈ kids b.

(** the order of the tree with the root [rt] and the first leaf [first] *)
Record ord_inv (h : gmap Z block) (rt : Z) (G : gmap Z nat) (B : gmap Z bounds)
    (first : Z) : Prop := {
  oi_root : B !! rt = Some (None, None);
  oi_node : ∀ a n, G !! a = Some n →
    ∃ lo hi b, B !! a = Some (lo, hi) ∧ h !! a = Some b ∧ blk_ok G B n b lo hi;
  oi_parent : ∀ a n, G !! a = Some n → a = rt ∨ has_parent h G a n;
  oi_first : G !! first = Some O ∧ ∃ hi, B !! first = Some (None, hi)
}.

(** the order while the node [c] has been split and its new peer [new]
    with the key [sep] waits to be put behind it: the two have the two
    parts of the range of [c], which the parent of [c] has in one *)
Record ord_pending (h : gmap Z block) (rt : Z) (G : gmap Z nat) (B : gmap Z bounds)
    (first c new sep : Z) : Prop := {
  op_root : B !! rt = Some (None, None);
  op_node : ∀ a n, G !! a = Some n → a ≠ c → a ≠ new →
    ∃ lo hi b, B !! a = Some (lo, hi) ∧ h !! a = Some b ∧ blk_ok G B n b lo hi;
  op_split : ∃ lo hi n bc bn,
    B !! c = Some (lo, hi) ∧ B !! new = Some (Some sep, hi)
    ∧ G !! c = Some n ∧ G !! new = Some n
    ∧ h !! c = Some bc ∧ h !! new = Some bn
    ∧ blk_ok G B n bc lo (Some sep) ∧ blk_ok G B n bn (Some sep) hi;
  op_parent : ∀ a n, G !! a = Some n → a ≠ new → a = rt ∨ has_parent h G a n;
  op_first : G !! first = Some O ∧ ∃ hi, B !! first = Some (None, hi)
}.

(** the records of the leaves *)
Definition stored (h : gmap Z block) (G : gmap Z nat) (k v : Z) : Prop :=
  ∃ a b j, G !! a = Some O ∧ h !! a = Some b ∧ 0 ≤ j < num_keys b
    ∧ get_key b j = k ∧ get_value b j = v.

(** ** Bounds *)

Lemma lo_lt_le lo x : lo_lt lo x → lo_le lo x.
Proof. destruct lo; simpl; lia. Qed.

Lemma lo_le_trans lo x y : lo_le lo x → x ≤ y → lo_le lo y.
Proof. destruct lo; simpl; lia. Qed.

Lemma lo_lt_trans lo x y : lo_lt lo x → x ≤ y → lo_lt lo y.
Proof. destruct lo; simpl; lia. Qed.

Lemma lo_le_lt lo x y : lo_le lo x → x < y → lo_lt lo y.
Proof. destruct lo; simpl; lia. Qed.

Lemma lt_hi_trans x y hi : lt_hi y hi → x ≤ y → lt_hi x hi.
Proof. destruct hi; simpl; lia. Qed.

Lemma range_ok_lo lo x : lo_lt lo x → range_ok lo (Some x).
Proof. by destruct lo. Qed.

Lemma range_ok_hi x hi : lt_hi x hi → range_ok (Some x) hi.
Proof. by destruct hi. Qed.

Lemma range_ok_mid lo hi x : lo_le lo x → lt_hi x hi → range_ok lo hi.
Proof. destruct lo, hi; simpl; lia. Qed.

(** ** The keys with one more *)

Lemma with_key_sorted b pos sep :
  sorted_blk b → 0 ≤ pos ≤ num_keys b →
  (0 < pos → get_key b (pos - 1) < sep) →
  (pos < num_keys b → sep < get_key b pos) →
  ∀ i j, 0 ≤ i → i < j → j ≤ num_keys b →
    with_key b pos sep i < with_key b pos sep j.
Proof.
  intros Hs Hpos Hlo Hhi i j Hi Hij Hj. unfold with_key.
  repeat case_decide; try lia.
  - apply Hs; lia.
  - subst j. destruct (decide (i = pos - 1)) as [->|]; [apply Hlo; lia|].
    assert (get_key b i < get_key b (pos - 1)) by (apply Hs; lia). lia.
  - destruct (decide (i = j - 1)) as [->|]; [lia|]. apply Hs; lia.
  - subst i. destruct (decide (j - 1 = pos)) as [->|]; [apply Hhi; lia|].
    assert (get_key b pos < get_key b (j - 1)) by (apply Hs; lia). lia.
  - apply Hs; lia.
Qed.

Lemma kids_inj b i j :
  NoDup (kids b) → 0 ≤ i ≤ num_keys b → 0 ≤ j ≤ num_keys b →
  get_child b i = get_child b j → i = j.
Proof.
  intros Hnd Hi Hj Heq. pose proof (num_keys_range b).
  assert (Z.to_nat i = Z.to_nat j); [|lia].
  eapply NoDup_lookup; [exact Hnd| |].
  - rewrite lookup_kids by lia. reflexivity.
  - rewrite lookup_kids by lia. rewrite !Z2Nat.id by lia. by rewrite Heq.
Qed.

Lemma get_child_kids b i : 0 ≤ i ≤ num_keys b → get_child b i ∈ kids b.
Proof. intros Hi. apply elem_of_kids. eauto. Qed.

(** what [blk_ok] reads of the ghost maps *)
Lemma blk_ok_stable G B G' B' n b lo hi :
  blk_ok G B n b lo hi →
  (∀ m x, n = S m → x ∈ kids b → B' !! x = B !! x) →
  (n = O → G !! next_leaf b = Some O → G' !! next_leaf b = Some O) →
  (n = O → G !! next_leaf b = Some O →
     ∀ u hi', B !! next_leaf b = Some (Some u, hi') →
       ∃ hi'', B' !! next_leaf b = Some (Some u, hi'')) →
  blk_ok G' B' n b lo hi.
Proof.
  intros (Hr & Hs & Hk & Hn) Hkid HG Hnext.
  split; [done|]. split; [done|]. split; [done|].
  destruct n as [|m].
  - destruct hi as [u|]; [|done]. destruct Hn as [H1 (hi' & H2)].
    split; [by apply HG|]. by apply (Hnext eq_refl H1 u hi').
  - destruct Hn as [H1 H2]. split; [done|]. intros i Hi.
    rewrite (Hkid m _ eq_refl (get_child_kids b i Hi)). by apply H2.
Qed.

(** the ranges of the children of an index node that takes the key
    [sep] at [pos] and the child [new] behind it *)
Lemma with_child_bounds (B : gmap Z bounds) b lo hi pos sep new :
  0 ≤ pos ≤ num_keys b → NoDup (kids b) → new ∉ kids b →
  (∀ i, 0 ≤ i ≤ num_keys b → B !! get_child b i = Some (cbound b lo hi i)) →
  B !! new = Some (Some sep, (cbound b lo hi pos).2) →
  ∀ j, 0 ≤ j ≤ num_keys b + 1 →
    <[get_child b pos := ((cbound b lo hi pos).1, Some sep)]> B
      !! with_child b pos new j
    = Some (kbound (with_key b pos sep) (num_keys b + 1) lo hi j).
Proof.
  intros Hpos Hnd Hnew Hkids HBnew j Hj.
  destruct (decide (j ≤ pos)) as [Hle|Hgt].
  - assert (with_child b pos new j = get_child b j) as ->
      by (unfold with_child; by rewrite decide_True by lia).
    destruct (decide (j = pos)) as [->|Hne].
    + rewrite lookup_insert_eq. unfold cbound, kbound, with_key. simpl.
      f_equal. f_equal; repeat case_decide; try lia; done.
    + rewrite lookup_insert_ne.
      2:{ intros Heq. apply kids_inj in Heq; [lia|done|lia|lia]. }
      rewrite Hkids by lia. unfold cbound, kbound, with_key.
      f_equal. f_equal; repeat case_decide; try lia; done.
  - destruct (decide (j = pos + 1)) as [->|Hne].
    + assert (with_child b pos new (pos + 1) = new) as ->.
      { unfold with_child. rewrite decide_False by lia. by rewrite decide_True. }
      rewrite lookup_insert_ne.
      2:{ intros Heq. apply Hnew. rewrite <- Heq. apply get_child_kids. lia. }
      etrans; [exact HBnew|]. unfold cbound, kbound, with_key. simpl.
      f_equal. f_equal; repeat case_decide; try lia; try done.
      do 2 f_equal. lia.
    + assert (with_child b pos new j = get_child b (j - 1)) as ->.
      { unfold with_child. by rewrite !decide_False by lia. }
      rewrite lookup_insert_ne.
      2:{ intros Heq. apply kids_inj in Heq; [lia|done|lia|lia]. }
      rewrite Hkids by lia. unfold cbound, kbound, with_key.
      f_equal. f_equal; repeat case_decide; try lia; try done.
Qed.

(** a part of an index node that has taken one more key and child: the
    keys from [off] on and the children between them *)
Lemma blk_ok_window G B m b lo hi pos sep new X off cnt :
  blk_ok G B (S m) b lo hi → 0 ≤ pos ≤ num_keys b →
  NoDup (kids b) → new ∉ kids b →
  B !! new = Some (Some sep, (cbound b lo hi pos).2) →
  lo_lt (cbound b lo hi pos).1 sep → lt_hi sep (cbound b lo hi pos).2 →
  0 ≤ off → 0 ≤ cnt → off + cnt ≤ num_keys b + 1 →
  num_keys X = cnt →
  (∀ j, 0 ≤ j < cnt → get_key X j = with_key b pos sep (off + j)) →
  (∀ j, 0 ≤ j ≤ cnt → get_child X j = with_child b pos new (off + j)) →
  blk_ok G (<[get_child b pos := ((cbound b lo hi pos).1, Some sep)]> B) (S m) X
    (if decide (off = 0) then lo else Some (with_key b pos sep (off - 1)))
    (if decide (off + cnt = num_keys b + 1) then hi
     else Some (with_key b pos sep (off + cnt))).
Proof.
  intros (Hr & Hs & Hk & Hlt & Hkids) Hpos Hnd Hnew HBnew Hlo Hhi Hoff Hcnt Hsum
    HnX HkX HcX.
  set (wk := with_key b pos sep).
  assert (Hlo' : 0 < pos → get_key b (pos - 1) < sep).
  { intros H0. unfold cbound, kbound in Hlo. simpl in Hlo.
    rewrite decide_False in Hlo by lia. done. }
  assert (Hhi' : pos < num_keys b → sep < get_key b pos).
  { intros H0. unfold cbound, kbound in Hhi. simpl in Hhi.
    rewrite decide_False in Hhi by lia. done. }
  assert (Hsorted : ∀ i j, 0 ≤ i → i < j → j ≤ num_keys b → wk i < wk j)
    by (by apply with_key_sorted).
  assert (Hsep : lo_lt lo sep ∧ lt_hi sep hi).
  { unfold cbound, kbound in Hlo, Hhi. simpl in Hlo, Hhi. split.
    - destruct (decide (pos = 0)); [done|].
      eapply lo_lt_trans; [apply (Hlt (pos - 1)); lia|]. simpl in Hlo. lia.
    - destruct (decide (pos = num_keys b)); [done|].
      eapply lt_hi_trans; [apply (Hk pos); lia|]. simpl in Hhi. lia. }
  assert (Hall : ∀ j, 0 ≤ j ≤ num_keys b → lo_lt lo (wk j) ∧ lt_hi (wk j) hi).
  { intros j Hj. unfold wk, with_key. repeat case_decide; try done.
    - split; [apply Hlt; lia|apply Hk; lia].
    - split; [apply Hlt; lia|apply Hk; lia]. }
  set (loX := if decide (off = 0) then lo else Some (wk (off - 1))).
  set (hiX := if decide (off + cnt = num_keys b + 1) then hi else Some (wk (off + cnt))).
  assert (HloX : ∀ j, 0 ≤ j < cnt → lo_lt loX (wk (off + j))).
  { intros j Hj. unfold loX. case_decide.
    - apply Hall. lia.
    - simpl. apply Hsorted; lia. }
  assert (HhiX : ∀ j, 0 ≤ j < cnt → lt_hi (wk (off + j)) hiX).
  { intros j Hj. unfold hiX. case_decide.
    - apply Hall. lia.
    - simpl. apply Hsorted; lia. }
  split; [|split; [|split; [|split]]].
  - unfold loX, hiX. repeat case_decide.
    + done.
    + apply range_ok_lo. apply Hall. lia.
    + apply range_ok_hi. apply Hall. lia.
    + simpl. apply Hsorted; lia.
  - intros i j Hi Hij Hj. rewrite HnX in Hj. rewrite !HkX by lia.
    apply Hsorted; lia.
  - intros j Hj. rewrite HnX in Hj. rewrite HkX by lia.
    split; [apply lo_lt_le, HloX; lia|apply HhiX; lia].
  - intros j Hj. rewrite HnX in Hj. rewrite HkX by lia. apply HloX. lia.
  - intros j Hj. rewrite HnX in Hj. rewrite HcX by lia.
    rewrite (with_child_bounds B b lo hi pos sep new) by (done || lia).
    f_equal. unfold cbound, kbound. rewrite HnX. fold wk. f_equal.
    + unfold loX. repeat case_decide; try lia; try done.
      all: try (rewrite HkX by lia; fold wk); do 2 f_equal; lia.
    + unfold hiX. repeat case_decide; try lia; try done.
      all: try (rewrite HkX by lia; fold wk); do 2 f_equal; lia.
Qed.

(** ** Leaves *)

(** a block with the same keys, children and successor *)
Lemma blk_ok_same G B n b b' lo hi :
  blk_ok G B n b lo hi → num_keys b' = num_keys b →
  (∀ j, 0 ≤ j < num_keys b → get_key b' j = get_key b j) →
  (n = O → next_leaf b' = next_leaf b) →
  (n ≠ O → ∀ i, 0 ≤ i ≤ num_keys b → get_child b' i = get_child b i) →
  blk_ok G B n b' lo hi.
Proof.
  intros (Hr & Hs & Hk & Hn) Hnk Hkeys Hnext Hkids.
  split; [done|]. split; [|split].
  - intros i j Hi Hij Hj. rewrite Hnk in Hj. rewrite !Hkeys by lia. apply Hs; lia.
  - intros j Hj. rewrite Hnk in Hj. rewrite Hkeys by lia. by apply Hk.
  - destruct n as [|m].
    + by rewrite Hnext.
    + destruct Hn as [H1 H2]. split.
      * intros j Hj. rewrite Hnk in Hj. rewrite Hkeys by lia. by apply H1.
      * intros i Hi. rewrite Hnk in Hi. rewrite Hkids by (done || lia).
        rewrite H2 by done. f_equal. unfold cbound, kbound. rewrite Hnk.
        f_equal; repeat case_decide; try done; rewrite Hkeys by lia; done.
Qed.

(** the value of a record replaced *)
Lemma blk_ok_set_value G B b lo hi i v :
  blk b → blk_ok G B O b lo hi → 0 ≤ i < num_keys b →
  blk_ok G B O (wr b (256 + i) v) lo hi.
Proof.
  intros Hb Hok Hi. pose proof (num_keys_range b).
  apply (blk_ok_same G B O b); [done| | | |done].
  - apply num_keys_wr. lia.
  - intros j Hj. unfold get_key. apply rd_wr_ne; lia.
  - intros _. unfold next_leaf. apply rd_wr_ne; lia.
Qed.

(** a record put into a leaf with room *)
Lemma blk_ok_insert_into_leaf G B lb lo hi k v :
  blk lb → blk_ok G B O lb lo hi → num_keys lb < 255 →
  ¬ (scan_leaf_keys lb k < num_keys lb ∧ get_key lb (scan_leaf_keys lb k) = k) →
  lo_le lo k → lt_hi k hi →
  blk_ok G B O (blk_insert_into_leaf lb (scan_leaf_keys lb k) k v) lo hi.
Proof.
  intros Hb (Hr & Hs & Hk & Hn) Hroom Hnf Hlo Hhi.
  destruct (scan_leaf_keys_spec lb k) as (Hi & Hbelow & Habove).
  set (i := scan_leaf_keys lb k) in *.
  destruct (blk_insert_into_leaf_spec lb i k v Hb Hi Hroom)
    as (_ & Hnk & Hkeys & _ & Hnext).
  set (lb' := blk_insert_into_leaf lb i k v) in *.
  assert (Hsorted : ∀ x y, 0 ≤ x → x < y → y ≤ num_keys lb →
            with_key lb i k x < with_key lb i k y).
  { apply with_key_sorted; [done|done| |].
    - intros H0. apply Hbelow. lia.
    - intros H0. specialize (Habove H0).
      destruct (decide (get_key lb i = k)); [|lia]. exfalso. by apply Hnf. }
  assert (Hwk : ∀ j, 0 ≤ j ≤ num_keys lb → get_key lb' j = with_key lb i k j).
  { intros j Hj. rewrite Hkeys by lia. done. }
  split; [done|]. split; [|split].
  - intros x y Hx Hxy Hy. rewrite Hnk in Hy. rewrite !Hwk by lia.
    apply Hsorted; lia.
  - intros j Hj. rewrite Hnk in Hj. rewrite Hwk by lia. unfold with_key.
    repeat case_decide; try done; apply Hk; lia.
  - by rewrite Hnext.
Qed.

(** a full leaf split around a new record *)
Lemma blk_ok_split_leaf G B lb nb a lo hi k v :
  blk lb → blk nb → blk_ok G B O lb lo hi → num_keys lb = 255 →
  ¬ (scan_leaf_keys lb k < num_keys lb ∧ get_key lb (scan_leaf_keys lb k) = k) →
  lo_le lo k → lt_hi k hi → G !! a = None →
  let L := blk_split_leaf_left lb a (scan_leaf_keys lb k) k v in
  let R := blk_split_leaf_right lb nb a (scan_leaf_keys lb k) k v in
  let G1 := <[a := O]> G in
  let B1 := <[a := (Some (get_key R 0), hi)]> B in
  blk_ok G1 B1 O L lo (Some (get_key R 0))
  ∧ blk_ok G1 B1 O R (Some (get_key R 0)) hi.
Proof.
  intros Hb Hnb (Hr & Hs & Hk & Hn) Hfull Hnf Hlo Hhi Ha L R G1 B1.
  destruct (scan_leaf_keys_spec lb k) as (Hi & Hbelow & Habove).
  set (i := scan_leaf_keys lb k) in *.
  destruct (blk_split_leaf_spec lb nb a i k v Hb Hnb ltac:(lia))
    as (_ & _ & HnL & HnR & HkL & HkR & HxL & HxR). fold L R in HnL, HnR, HkL, HkR, HxL, HxR.
  assert (Hsorted : ∀ x y, 0 ≤ x → x < y → y ≤ num_keys lb →
            with_key lb i k x < with_key lb i k y).
  { apply with_key_sorted; [done|done| |].
    - intros H0. apply Hbelow. lia.
    - intros H0. specialize (Habove H0).
      destruct (decide (get_key lb i = k)); [|lia]. exfalso. by apply Hnf. }
  assert (Hall : ∀ j, 0 ≤ j ≤ 255 →
            lo_le lo (with_key lb i k j) ∧ lt_hi (with_key lb i k j) hi).
  { intros j Hj. unfold with_key. repeat case_decide; try done; apply Hk; lia. }
  assert (Hsep : get_key R 0 = with_key lb i k 128).
  { destruct (HkR 0 ltac:(lia)) as [-> _]. done. }
  rewrite Hsep. split.
  - split; [|split; [|split]].
    + eapply range_ok_lo, lo_le_lt; [apply (Hall 0); lia|]. apply Hsorted; lia.
    + intros x y Hx Hxy Hy. rewrite HnL in Hy.
      destruct (HkL x ltac:(lia)) as [-> _]. destruct (HkL y ltac:(lia)) as [-> _].
      apply Hsorted; lia.
    + intros j Hj. rewrite HnL in Hj. destruct (HkL j ltac:(lia)) as [-> _].
      split; [apply Hall; lia|]. simpl. apply Hsorted; lia.
    + rewrite HxL. unfold G1, B1. rewrite !lookup_insert_eq, Hsep. eauto.
  - split; [|split; [|split]].
    + apply range_ok_hi. apply Hall. lia.
    + intros x y Hx Hxy Hy. rewrite HnR in Hy.
      destruct (HkR x ltac:(lia)) as [-> _]. destruct (HkR y ltac:(lia)) as [-> _].
      apply Hsorted; lia.
    + intros j Hj. rewrite HnR in Hj. destruct (HkR j ltac:(lia)) as [-> _].
      split; [|apply Hall; lia]. simpl.
      destruct (decide (j = 0)) as [->|]; [done|].
      assert (with_key lb i k 128 < with_key lb i k (128 + j)); [|lia].
      apply Hsorted; lia.
    + rewrite HxR. destruct hi as [u|]; [|done].
      destruct Hn as [H1 (hi' & H2)].
      assert (next_leaf lb ≠ a) by congruence.
      unfold G1, B1. rewrite !lookup_insert_ne by done. eauto.
Qed.

(** ** The order of the tree, kept *)

Lemma has_parent_same h h' G a n :
  has_parent h G a n → (∀ x m, G !! x = Some (S m) → h' !! x = h !! x) →
  has_parent h' G a n.
Proof.
  intros (p & b & Hp & Hb & Ha) Hsame. exists p, b.
  split; [done|]. split; [|done]. by rewrite (Hsame p n Hp).
Qed.

(** the order reads the pages of the nodes only *)
Lemma ord_inv_ext h h' rt G B first :
  ord_inv h rt G B first → (∀ a n, G !! a = Some n → h' !! a = h !! a) →
  ord_inv h' rt G B first.
Proof.
  intros [H1 H2 H3 H4] Hsame. split; [done| | |done].
  - intros a n Ha. destruct (H2 a n Ha) as (lo & hi & b & ? & ? & ?).
    exists lo, hi, b. by rewrite (Hsame a n Ha).
  - intros a n Ha. destruct (H3 a n Ha) as [?|Hp]; [by left|right].
    eapply has_parent_same; [done|]. intros x m Hx. by eapply Hsame.
Qed.

(** a node gets a block that is in order with the same children *)
Lemma ord_inv_update h rt G B first a n b' :
  ord_inv h rt G B first → G !! a = Some n →
  (∀ lo hi b, B !! a = Some (lo, hi) → h !! a = Some b → blk_ok G B n b lo hi →
     blk_ok G B n b' lo hi ∧ (n ≠ O → kids b' = kids b)) →
  ord_inv (<[a := b']> h) rt G B first.
Proof.
  intros [H1 H2 H3 H4] Ha Hnew. split; [done| | |done].
  - intros x m Hx. destruct (H2 x m Hx) as (lo & hi & b & HB & Hb & Hok).
    destruct (decide (x = a)) as [->|Hne].
    + assert (m = n) as -> by congruence.
      exists lo, hi, b'. rewrite lookup_insert_eq.
      split; [done|]. split; [done|]. by apply (Hnew lo hi b).
    + exists lo, hi, b. by rewrite lookup_insert_ne.
  - intros x m Hx. destruct (H3 x m Hx) as [?|(p & b & Hp & Hb & Hin)]; [by left|right].
    destruct (decide (p = a)) as [->|Hne].
    + assert (n = S m) as -> by congruence.
      destruct (H2 a (S m) Ha) as (lo & hi & b0 & HB & Hb0 & Hok).
      assert (b0 = b) as -> by congruence.
      destruct (Hnew lo hi b HB Hb Hok) as [_ Hk].
      exists a, b'. rewrite lookup_insert_eq. split; [done|]. split; [done|].
      by rewrite Hk.
    + exists p, b. by rewrite lookup_insert_ne.
Qed.

(** a full leaf has been split *)
Lemma ord_pending_split_leaf h rt G B first leaf a lb nb lo hi k v :
  ord_inv h rt G B first → orphan h G a → is_Some (G !! rt) →
  G !! leaf = Some O → h !! leaf = Some lb → B !! leaf = Some (lo, hi) →
  G !! a = None → blk lb → blk nb → num_keys lb = 255 →
  ¬ (scan_leaf_keys lb k < num_keys lb ∧ get_key lb (scan_leaf_keys lb k) = k) →
  lo_le lo k → lt_hi k hi →
  let L := blk_split_leaf_left lb a (scan_leaf_keys lb k) k v in
  let R := blk_split_leaf_right lb nb a (scan_leaf_keys lb k) k v in
  ord_pending (<[leaf := L]> (<[a := R]> h)) rt (<[a := O]> G)
    (<[a := (Some (get_key R 0), hi)]> B) first leaf a (get_key R 0).
Proof.
  intros [H1 H2 H3 H4] Hor [dr Hdr] HG Hlb HB Ha Hblk Hnb Hfull Hnf Hlo Hhi L R.
  destruct (H2 leaf O HG) as (lo0 & hi0 & b0 & HB0 & Hb0 & Hok).
  assert (b0 = lb) as -> by congruence.
  assert (lo0 = lo ∧ hi0 = hi) as [-> ->] by (split; congruence).
  destruct (blk_ok_split_leaf G B lb nb a lo hi k v Hblk Hnb Hok Hfull Hnf Hlo Hhi Ha)
    as [HL HR]. fold L R in HL, HR.
  assert (Hla : leaf ≠ a) by congruence.
  assert (Hrt : rt ≠ a) by congruence.
  split.
  - by rewrite lookup_insert_ne.
  - intros x n Hx Hx1 Hx2. rewrite lookup_insert_ne in Hx by done.
    destruct (H2 x n Hx) as (lo1 & hi1 & b1 & HB1 & Hb1 & Hok1).
    exists lo1, hi1, b1. rewrite !lookup_insert_ne by done.
    split; [done|]. split; [done|].
    eapply blk_ok_stable; [exact Hok1| | |].
    + intros m y -> Hy. apply lookup_insert_ne. intros <-.
      by apply (Hor x m b1).
    + intros -> Hn. rewrite lookup_insert_ne; [done|]. congruence.
    + intros -> Hg u hi' Hn. exists hi'.
      rewrite lookup_insert_ne; [done|]. congruence.
  - assert (Hal : a ≠ leaf) by congruence.
    exists lo, hi, O, L, R.
    split; [by rewrite lookup_insert_ne|]. split; [by rewrite lookup_insert_eq|].
    split; [by rewrite lookup_insert_ne|]. split; [by rewrite lookup_insert_eq|].
    split; [by rewrite lookup_insert_eq|].
    split; [by rewrite lookup_insert_ne, lookup_insert_eq|]. done.
  - intros x n Hx Hxa. rewrite lookup_insert_ne in Hx by done.
    destruct (H3 x n Hx) as [?|(p & b & Hp & Hb & Hin)]; [by left|right].
    exists p, b. assert (p ≠ a) by congruence. assert (p ≠ leaf) by congruence.
    rewrite !lookup_insert_ne by done. done.
  - destruct H4 as [Hf (hi1 & HBf)]. assert (first ≠ a) by congruence.
    rewrite !lookup_insert_ne by done. eauto.
Qed.

Lemma range_ok_lo_inv lo x : range_ok lo (Some x) → lo_lt lo x.
Proof. by destruct lo. Qed.

Lemma range_ok_hi_inv x hi : range_ok (Some x) hi → lt_hi x hi.
Proof. by destruct hi. Qed.

(** the upper bound of a node that is no child of the block lowered *)
Lemma blk_ok_rebound G (B : gmap Z bounds) n b lo hi c loc hic hic' :
  blk_ok G B n b lo hi → B !! c = Some (loc, hic) → (n ≠ O → c ∉ kids b) →
  blk_ok G (<[c := (loc, hic')]> B) n b lo hi.
Proof.
  intros Hok HBc Hc. eapply blk_ok_stable; [exact Hok| |done|].
  - intros m y -> Hy. apply lookup_insert_ne. intros <-. by apply Hc.
  - intros -> Hg u hi' Hn. destruct (decide (next_leaf b = c)) as [Heq|Hne].
    + rewrite Heq in Hn |- *.
      assert (Some (loc, hic) = Some (Some u, hi')) as [= -> ->]
        by (etrans; [symmetry; exact HBc|exact Hn]).
      rewrite lookup_insert_eq. by exists hic'.
    + rewrite lookup_insert_ne by done. eauto.
Qed.

(** a page that is not in the tree becomes a node *)
Lemma blk_ok_add G (B : gmap Z bounds) n b lo hi s m x :
  blk_ok G B n b lo hi → G !! s = None →
  (n ≠ O → ∀ y, y ∈ kids b → is_Some (G !! y)) →
  blk_ok (<[s := m]> G) (<[s := x]> B) n b lo hi.
Proof.
  intros Hok Hs Hk. eapply blk_ok_stable; [exact Hok| | |].
  - intros k y -> Hy. apply lookup_insert_ne. intros <-.
    destruct (Hk ltac:(done) s Hy). congruence.
  - intros -> Hg. rewrite lookup_insert_ne; [done|]. congruence.
  - intros -> Hg u hi' Hn. exists hi'. rewrite lookup_insert_ne; [done|]. congruence.
Qed.

Section absorb.
Context (h : gmap Z block) (rt : Z) (dep : nat) (G : gmap Z nat) (B : gmap Z bounds).
Context (first p : Z) (m : nat) (b : block) (pos sep new : Z).
Hypothesis HT : tree_inv h rt dep G None.
Hypothesis HP : ord_pending h rt G B first (get_child b pos) new sep.
Hypothesis Hp : G !! p = Some (S m).
Hypothesis Hb : h !! p = Some b.
Hypothesis Hpos : 0 ≤ pos ≤ num_keys b.
Hypothesis Hor : orphan h G new.
Hypothesis Hnew : G !! new = Some m.

(** the facts about the parent [p] of the node that was split *)
Lemma absorb_facts :
  ∃ lo hi loc hic bc bn,
    B !! p = Some (lo, hi) ∧ blk_ok G B (S m) b lo hi
    ∧ cbound b lo hi pos = (loc, hic)
    ∧ B !! get_child b pos = Some (loc, hic) ∧ B !! new = Some (Some sep, hic)
    ∧ G !! get_child b pos = Some m
    ∧ h !! get_child b pos = Some bc ∧ h !! new = Some bn
    ∧ blk_ok G B m bc loc (Some sep) ∧ blk_ok G B m bn (Some sep) hic
    ∧ lo_lt loc sep ∧ lt_hi sep hic
    ∧ NoDup (kids b) ∧ (new ∉ kids b)
    ∧ p ≠ get_child b pos ∧ p ≠ new ∧ rt ≠ get_child b pos ∧ new ≠ get_child b pos
    ∧ blk b.
Proof.
  destruct HP as [P1 P2 P3 P4 P5].
  destruct P3 as (loc & hic & n & bc & bn & HBc & HBn & HGc & HGn & Hhc & Hhn
                  & Hokc & Hokn).
  assert (HGc' : G !! get_child b pos = Some m) by (eapply (ti_child HT); done).
  assert (n = m) as -> by congruence.
  assert (Hpc : p ≠ get_child b pos).
  { intros Heq. rewrite <- Heq in HGc'. rewrite Hp in HGc'. injection HGc'. lia. }
  assert (Hpn : p ≠ new).
  { intros Heq. rewrite <- Heq in Hnew. rewrite Hp in Hnew. injection Hnew. lia. }
  destruct (ti_blk _ _ _ _ _ HT p _ Hp) as (b0 & Hb0 & Hblk).
  assert (b0 = b) as -> by congruence.
  destruct (P2 p (S m) Hp Hpc Hpn) as (lo & hi & b1 & HBp & Hb1 & Hokp).
  assert (b1 = b) as -> by congruence.
  pose proof Hokp as (Hr & Hs & Hk & Hlt & Hkids).
  assert (Hcb : cbound b lo hi pos = (loc, hic)).
  { specialize (Hkids pos Hpos). congruence. }
  exists lo, hi, loc, hic, bc, bn.
  split; [done|]. split; [done|]. split; [done|]. split; [done|].
  split; [done|]. split; [done|]. split; [done|]. split; [done|].
  split; [done|]. split; [done|].
  split; [apply range_ok_lo_inv, Hokc|]. split; [apply range_ok_hi_inv, Hokn|].
  split; [exact (ti_nodup _ _ _ _ _ HT p m b Hp Hb)|].
  split; [exact (Hor p m b Hp Hb)|].
  split; [done|]. split; [done|]. split; [|split; [|done]].
  - intros Heq. apply (root_orphan _ _ _ _ HT p m b Hp Hb). rewrite Heq.
    by apply get_child_kids.
  - intros Heq. apply (Hor p m b Hp Hb). rewrite Heq. by apply get_child_kids.
Qed.

(** the other nodes after the range of the node that was split has
    been cut *)
Lemma absorb_others loc hic a n :
  B !! get_child b pos = Some (loc, hic) →
  G !! a = Some n → a ≠ p →
  ∃ lo hi ba, <[get_child b pos := (loc, Some sep)]> B !! a = Some (lo, hi)
    ∧ h !! a = Some ba
    ∧ blk_ok G (<[get_child b pos := (loc, Some sep)]> B) n ba lo hi.
Proof.
  intros HBc Ha Hap.
  destruct absorb_facts as (lo & hi & loc' & hic' & bc & bn & HBp & Hokp & Hcb & HBc'
    & HBn & HGc & Hhc & Hhn & Hokc & Hokn & Hlo & Hhi & Hnd & Hnk & Hpc & Hpn & Hrc
    & Hnc & Hblk).
  assert (loc' = loc ∧ hic' = hic) as [-> ->] by (split; congruence).
  assert (Hnot : ∀ ba, h !! a = Some ba → n ≠ O → get_child b pos ∉ kids ba).
  { intros ba Hba Hn Hin. destruct n as [|n]; [done|]. apply Hap.
    eapply (ti_disj _ _ _ _ _ HT a p n m ba b (get_child b pos)); try done.
    by apply get_child_kids. }
  destruct HP as [P1 P2 P3 P4 P5].
  destruct (decide (a = get_child b pos)) as [->|Hac].
  { assert (n = m) as -> by congruence.
    exists loc, (Some sep), bc. rewrite lookup_insert_eq.
    split; [done|]. split; [done|].
    eapply blk_ok_rebound; [done..|]. by apply Hnot. }
  destruct (decide (a = new)) as [->|Han].
  { assert (n = m) as -> by congruence.
    exists (Some sep), hic, bn. rewrite lookup_insert_ne by done.
    split; [done|]. split; [done|].
    eapply blk_ok_rebound; [done..|]. by apply Hnot. }
  destruct (P2 a n Ha Hac Han) as (lo1 & hi1 & b1 & HB1 & Hb1 & Hok1).
  exists lo1, hi1, b1. rewrite lookup_insert_ne by done.
  split; [done|]. split; [done|].
  eapply blk_ok_rebound; [done..|]. by apply Hnot.
Qed.

(** the new peer put into a parent with room *)
Lemma ord_insert_child :
  num_keys b < 255 →
  ∃ B', ord_inv (<[p := blk_insert_split_into_index b pos sep new]> h) rt G B' first.
Proof.
  intros Hroom.
  destruct absorb_facts as (lo & hi & loc & hic & bc & bn & HBp & Hokp & Hcb & HBc
    & HBn & HGc & Hhc & Hhn & Hokc & Hokn & Hlo & Hhi & Hnd & Hnk & Hpc & Hpn & Hrc
    & Hnc & Hblk).
  set (c := get_child b pos) in *.
  set (B' := <[c := (loc, Some sep)]> B).
  set (b' := blk_insert_split_into_index b pos sep new).
  destruct (blk_insert_split_into_index_spec b pos sep new Hblk Hpos Hroom)
    as (Hblk' & Hnk' & Hkeys' & Hch'). fold b' in Hblk', Hnk', Hkeys', Hch'.
  pose proof (kids_insert_split b pos sep new Hblk Hpos Hroom) as Hkk. fold b' in Hkk.
  assert (Hokp' : blk_ok G B' (S m) b' lo hi).
  { pose proof (blk_ok_window G B m b lo hi pos sep new b' 0 (num_keys b + 1)
                  Hokp Hpos Hnd Hnk) as Hw.
    rewrite Hcb in Hw. cbn [fst snd] in Hw.
    rewrite !decide_True in Hw by lia.
    apply Hw; try done; try lia;
      intros j Hj; rewrite ?Z.add_0_l; first [apply Hkeys'|apply Hch']; lia. }
  destruct HP as [P1 P2 P3 P4 P5].
  exists B'. split.
  - unfold B'. by rewrite lookup_insert_ne.
  - intros a n Ha. destruct (decide (a = p)) as [->|Hap].
    + assert (n = S m) as -> by congruence.
      exists lo, hi, b'. rewrite lookup_insert_eq. unfold B'.
      rewrite lookup_insert_ne by done. done.
    + destruct (absorb_others loc hic a n HBc Ha Hap) as (lo1 & hi1 & b1 & ? & ? & ?).
      exists lo1, hi1, b1. rewrite lookup_insert_ne by done. done.
  - intros a n Ha.
    assert (Hin : ∀ x, x ∈ kids b → x ∈ kids b').
    { intros x Hx. rewrite Hkk.
      rewrite <- (take_drop (Z.to_nat (pos + 1)) (kids b)) in Hx.
      apply elem_of_app in Hx as [Hx|Hx]; apply elem_of_app; [by left|right].
      by apply elem_of_cons; right. }
    destruct (decide (a = new)) as [->|Han].
    { right. assert (n = m) as -> by congruence. exists p, b'.
      rewrite lookup_insert_eq. split; [done|]. split; [done|].
      rewrite Hkk. apply elem_of_app. right. by apply elem_of_cons; left. }
    destruct (P4 a n Ha Han) as [?|(q & bq & Hq & Hbq & Hinq)]; [by left|right].
    destruct (decide (q = p)) as [->|Hqp].
    + assert (bq = b) as -> by congruence. assert (n = m) as -> by congruence.
      exists p, b'. rewrite lookup_insert_eq. split; [done|]. split; [done|].
      by apply Hin.
    + exists q, bq. rewrite lookup_insert_ne by done. done.
  - destruct P5 as [Hf (hif & HBf)]. split; [done|].
    unfold B'. destruct (decide (first = c)) as [->|Hfc].
    + assert (Some (loc, hic) = Some (None, hif)) as [= -> ->]
        by (etrans; [symmetry; exact HBc|exact HBf]).
      rewrite lookup_insert_eq. by exists (Some sep).
    + rewrite lookup_insert_ne by done. eauto.
Qed.
(** the new peer put into a full parent, which is split *)
Lemma ord_split_index s P' N' :
  num_keys b = 255 → G !! s = None →
  num_keys P' = 128 → num_keys N' = 127 →
  (∀ j, 0 ≤ j < 128 → get_key P' j = with_key b pos sep j) →
  (∀ j, 0 ≤ j < 127 → get_key N' j = with_key b pos sep (129 + j)) →
  (∀ j, 0 ≤ j ≤ 128 → get_child P' j = with_child b pos new j) →
  (∀ j, 0 ≤ j ≤ 127 → get_child N' j = with_child b pos new (129 + j)) →
  ∃ B1, ord_pending (<[p := P']> (<[s := N']> h)) rt (<[s := S m]> G) B1 first
          p s (with_key b pos sep 128).
Proof.
  intros Hfull Hs HnP HnN HkP HkN HcP HcN.
  destruct absorb_facts as (lo & hi & loc & hic & bc & bn & HBp & Hokp & Hcb & HBc
    & HBn & HGc & Hhc & Hhn & Hokc & Hokn & Hlo & Hhi & Hnd & Hnk & Hpc & Hpn & Hrc
    & Hnc & Hblk).
  set (c := get_child b pos) in *.
  set (B' := <[c := (loc, Some sep)]> B).
  set (sep' := with_key b pos sep 128).
  set (B1 := <[s := (Some sep', hi)]> B').
  set (h1 := <[p := P']> (<[s := N']> h)).
  set (G1 := <[s := S m]> G).
  assert (Hps : p ≠ s) by congruence.
  assert (Hcs : c ≠ s) by congruence.
  assert (Hrs : rt ≠ s).
  { pose proof (ti_root _ _ _ _ _ HT). congruence. }
  assert (Hwc : ∀ j, 0 ≤ j ≤ 256 → is_Some (G !! with_child b pos new j)).
  { intros j Hj. unfold with_child. repeat case_decide.
    - exists m. eapply (ti_child HT); [done..|lia].
    - eauto.
    - exists m. eapply (ti_child HT); [done..|lia]. }
  assert (HkidsP : ∀ y, y ∈ kids P' → is_Some (G !! y)).
  { intros y Hy. apply elem_of_kids in Hy as (j & Hj & ->). rewrite HnP in Hj.
    rewrite HcP by lia. apply Hwc. lia. }
  assert (HkidsN : ∀ y, y ∈ kids N' → is_Some (G !! y)).
  { intros y Hy. apply elem_of_kids in Hy as (j & Hj & ->). rewrite HnN in Hj.
    rewrite HcN by lia. apply Hwc. lia. }
  assert (HokP : blk_ok G1 B1 (S m) P' lo (Some sep')).
  { pose proof (blk_ok_window G B m b lo hi pos sep new P' 0 128
                  Hokp Hpos Hnd Hnk) as Hw.
    rewrite Hcb in Hw. cbn [fst snd] in Hw.
    assert (E1 : (if decide (0 = 0) then lo else Some (with_key b pos sep (0 - 1)))
                 = lo) by done.
    assert (E2 : (if decide (0 + 128 = num_keys b + 1) then hi
                  else Some (with_key b pos sep (0 + 128))) = Some sep')
      by (by rewrite decide_False by lia).
    rewrite E1, E2 in Hw.
    apply blk_ok_add; [|done|by intros _].
    apply Hw; try done; try lia;
      intros j Hj; rewrite ?Z.add_0_l; first [apply HkP|apply HcP]; lia. }
  assert (HokN : blk_ok G1 B1 (S m) N' (Some sep') hi).
  { pose proof (blk_ok_window G B m b lo hi pos sep new N' 129 127
                  Hokp Hpos Hnd Hnk) as Hw.
    rewrite Hcb in Hw. cbn [fst snd] in Hw.
    assert (E1 : (if decide (129 = 0) then lo
                  else Some (with_key b pos sep (129 - 1))) = Some sep') by done.
    assert (E2 : (if decide (129 + 127 = num_keys b + 1) then hi
                  else Some (with_key b pos sep (129 + 127))) = hi)
      by (by rewrite decide_True by lia).
    rewrite E1, E2 in Hw.
    apply blk_ok_add; [|done|by intros _].
    apply Hw; try done; try lia. }
  destruct HP as [P1 P2 P3 P4 P5].
  exists B1. split.
  - unfold B1, B'. by rewrite !lookup_insert_ne.
  - intros a n Ha Hap Has. unfold G1 in Ha. rewrite lookup_insert_ne in Ha by done.
    destruct (absorb_others loc hic a n HBc Ha Hap) as (lo1 & hi1 & b1 & HB1 & Hb1 & Hok1).
    exists lo1, hi1, b1. unfold B1, h1. rewrite !lookup_insert_ne by done.
    split; [done|]. split; [done|].
    apply blk_ok_add; [done|done|].
    intros Hn y Hy. destruct n as [|n]; [done|]. exists n.
    exact (ti_kids _ _ _ _ _ HT a n b1 y Ha Hb1 Hy).
  - exists lo, hi, (S m), P', N'. unfold B1, B', G1, h1.
    split; [by rewrite !lookup_insert_ne|]. split; [by rewrite lookup_insert_eq|].
    split; [by rewrite lookup_insert_ne|]. split; [by rewrite lookup_insert_eq|].
    split; [by rewrite lookup_insert_eq|].
    split; [by rewrite lookup_insert_ne, lookup_insert_eq|]. done.
  - intros a n Ha Has. unfold G1 in Ha. rewrite lookup_insert_ne in Ha by done.
    assert (Hdist : ∀ j, 0 ≤ j ≤ 256 → n = m →
              has_parent h1 G1 (with_child b pos new j) n).
    { intros j Hj ->. destruct (decide (j ≤ 128)).
      - exists p, P'. unfold G1, h1. rewrite lookup_insert_ne by done.
        rewrite lookup_insert_eq. split; [done|]. split; [done|].
        rewrite <- HcP by lia. apply get_child_kids. lia.
      - exists s, N'. unfold G1, h1. rewrite lookup_insert_eq.
        rewrite lookup_insert_ne, lookup_insert_eq by done.
        split; [done|]. split; [done|].
        replace j with (129 + (j - 129)) by lia.
        rewrite <- HcN by lia. apply get_child_kids. lia. }
    destruct (decide (a = new)) as [->|Han].
    { right. assert (n = m) as -> by congruence.
      assert (with_child b pos new (pos + 1) = new) as <-.
      { unfold with_child. rewrite decide_False by lia. by rewrite decide_True. }
      apply Hdist; [lia|done]. }
    destruct (P4 a n Ha Han) as [?|(q & bq & Hq & Hbq & Hinq)]; [by left|right].
    destruct (decide (q = p)) as [->|Hqp].
    + assert (bq = b) as -> by congruence. assert (n = m) as -> by congruence.
      apply elem_of_kids in Hinq as (i & Hi & ->).
      destruct (decide (i ≤ pos)).
      * assert (with_child b pos new i = get_child b i) as <-
          by (unfold with_child; by rewrite decide_True by lia).
        apply Hdist; [lia|done].
      * assert (with_child b pos new (i + 1) = get_child b i) as <-.
        { unfold with_child. rewrite !decide_False by lia. f_equal. lia. }
        apply Hdist; [lia|done].
    + exists q, bq. assert (q ≠ s) by congruence.
      unfold G1, h1. rewrite !lookup_insert_ne by done. done.
  - destruct P5 as [Hf (hif & HBf)]. unfold G1, B1, B'.
    assert (first ≠ s) by congruence.
    split; [by rewrite lookup_insert_ne|]. rewrite lookup_insert_ne by done.
    destruct (decide (first = c)) as [->|Hfc].
    + assert (Some (loc, hic) = Some (None, hif)) as [= -> ->]
        by (etrans; [symmetry; exact HBc|exact HBf]).
      rewrite lookup_insert_eq. by exists (Some sep).
    + rewrite lookup_insert_ne by done. eauto.
Qed.
End absorb.

(** the new peer of the root and the root put under a new root *)
Lemma ord_add_root h rt dep G B first new sep nr rb :
  tree_inv h rt dep G None → ord_pending h rt G B first rt new sep →
  G !! nr = None →
  num_keys rb = 1 → get_key rb 0 = sep → get_child rb 0 = rt → get_child rb 1 = new →
  ∃ B', ord_inv (<[nr := rb]> h) nr (<[nr := S dep]> G) B' first.
Proof.
  intros HT [P1 P2 P3 P4 P5] Hnr Hnk Hkey Hc0 Hc1.
  destruct P3 as (loc & hic & n & bc & bn & HBc & HBn & HGc & HGn & Hhc & Hhn
                  & Hokc & Hokn).
  assert (loc = None ∧ hic = None) as [-> ->] by (split; congruence).
  pose proof (ti_root _ _ _ _ _ HT) as Hroot.
  assert (n = dep) as -> by congruence.
  assert (Hnrt : nr ≠ rt) by congruence.
  assert (Hnn : nr ≠ new) by congruence.
  assert (Hrn : rt ≠ new) by congruence.
  set (B0 := <[rt := (None, Some sep)]> B).
  set (B' := <[nr := (None, None)]> B0).
  set (G' := <[nr := S dep]> G).
  assert (Hlift : ∀ a k ba lo hi, G !! a = Some k → h !! a = Some ba →
            blk_ok G B k ba lo hi → blk_ok G' B' k ba lo hi).
  { intros a k ba lo hi Ha Hba Hok. apply blk_ok_add; [|done|].
    - eapply blk_ok_rebound; [done..|]. intros Hk Hin.
      destruct k as [|k]; [done|].
      exact (root_orphan _ _ _ _ HT a k ba Ha Hba Hin).
    - intros Hk y Hy. destruct k as [|k]; [done|]. exists k.
      exact (ti_kids _ _ _ _ _ HT a k ba y Ha Hba Hy). }
  exists B'. split.
  - unfold B'. by rewrite lookup_insert_eq.
  - intros a k Ha. unfold G' in Ha.
    destruct (decide (a = nr)) as [->|Han].
    { rewrite lookup_insert_eq in Ha. injection Ha as <-.
      exists None, None, rb. unfold B'. rewrite !lookup_insert_eq.
      split; [done|]. split; [done|].
      split; [done|]. split; [intros i j Hi Hij Hj; lia|].
      split; [done|]. split; [done|].
      intros i Hi. rewrite Hnk in Hi. unfold cbound, kbound. rewrite Hnk.
      assert (i = 0 ∨ i = 1) as [->| ->] by lia.
      - rewrite Hc0. unfold B0. rewrite lookup_insert_ne by done.
        rewrite lookup_insert_eq. simpl. congruence.
      - rewrite Hc1. unfold B0. rewrite !lookup_insert_ne by done.
        rewrite HBn. simpl. change (1 - 1) with 0. congruence. }
    rewrite lookup_insert_ne in Ha by done.
    destruct (decide (a = rt)) as [->|Hart].
    { assert (k = dep) as -> by congruence.
      exists None, (Some sep), bc. unfold B', B0.
      rewrite lookup_insert_ne, lookup_insert_eq by done.
      rewrite lookup_insert_ne by done.
      split; [done|]. split; [done|]. by apply (Hlift rt). }
    destruct (decide (a = new)) as [->|Hanew].
    { assert (k = dep) as -> by congruence.
      exists (Some sep), None, bn. unfold B', B0.
      rewrite !lookup_insert_ne by done.
      split; [done|]. split; [done|]. by apply (Hlift new). }
    destruct (P2 a k Ha Hart Hanew) as (lo1 & hi1 & b1 & HB1 & Hb1 & Hok1).
    exists lo1, hi1, b1. unfold B', B0. rewrite !lookup_insert_ne by done.
    split; [done|]. split; [done|]. by apply (Hlift a).
  - intros a k Ha. unfold G' in Ha.
    assert (Hkids : ∀ i, 0 ≤ i ≤ 1 → get_child rb i ∈ kids rb).
    { intros i Hi. apply get_child_kids. lia. }
    destruct (decide (a = nr)) as [->|Han]; [by left|right].
    rewrite lookup_insert_ne in Ha by done.
    destruct (decide (a = rt)) as [->|Hart].
    { assert (k = dep) as -> by congruence. exists nr, rb. unfold G'.
      rewrite !lookup_insert_eq. split; [done|]. split; [done|].
      rewrite <- Hc0. apply Hkids. lia. }
    destruct (decide (a = new)) as [->|Hanew].
    { assert (k = dep) as -> by congruence. exists nr, rb. unfold G'.
      rewrite !lookup_insert_eq. split; [done|]. split; [done|].
      rewrite <- Hc1. apply Hkids. lia. }
    destruct (P4 a k Ha Hanew) as [?|(q & bq & Hq & Hbq & Hinq)]; [done|].
    exists q, bq. assert (q ≠ nr) by congruence. unfold G'.
    rewrite !lookup_insert_ne by done. done.
  - destruct P5 as [Hf (hif & HBf)]. unfold G', B', B0.
    assert (first ≠ nr) by congruence.
    split; [by rewrite lookup_insert_ne|]. rewrite lookup_insert_ne by done.
    destruct (decide (first = rt)) as [->|Hfc].
    + rewrite lookup_insert_eq. eauto.
    + rewrite lookup_insert_ne by done. eauto.
Qed.

(** ** A leaf gets the block of an operation that splits nothing *)

Lemma ord_inv_update_leaf h rt G B first leaf lb lb' :
  ord_inv h rt G B first → G !! leaf = Some O → h !! leaf = Some lb →
  (∀ lo hi, B !! leaf = Some (lo, hi) → blk_ok G B O lb lo hi →
     blk_ok G B O lb' lo hi) →
  ord_inv (<[leaf := lb']> h) rt G B first.
Proof.
  intros HO HG Hlb Hok. eapply ord_inv_update; [done..|].
  intros lo hi b HB Hb Hokb. assert (b = lb) as -> by congruence.
  split; [by apply Hok|done].
Qed.

(** * Insertion *)

(** the path array as a list; a null array has no frames *)
Definition cur_path (w : world) : list path_node := default [] (path (tree w)).

Lemma path_at_cur w d : (0 ≤ d) → path_at w d = cur_path w !! Z.to_nat d.
Proof.
  intros Hd. unfold path_at, cur_path. destruct (path (tree w)); simpl; done.
Qed.

Lemma Inv_same w w' G :
  Inv w G → pages w' = pages w → root (tree w') = root (tree w) →
  depth (tree w') = depth (tree w) → next_page w' = next_page w →
  path_ok (tree w') → Inv w' G.
Proof.
  intros [HT Hd Hp Hn Hpath] Hpg Hr Hdep Hnp Hpo.
  split; rewrite ?Hpg, ?Hr, ?Hdep, ?Hnp; done.
Qed.

Lemma grant_fields w :
  pages (grant w).2 = pages w ∧ next_page (grant w).2 = next_page w
  ∧ cursors (grant w).2 = cursors w ∧ tree (grant w).2 = tree w.
Proof. unfold grant. destruct (oracle w); done. Qed.

(** the path is long enough after a successful reservation *)
Lemma path_reserved_ok w G :
  Inv w G →
  ∃ e w', path_reserved w = (e, w') ∧ same_contents w w'
    ∧ next_page w' = next_page w
    ∧ (e = NOMEM
       ∨ e = OK ∧ Inv w' G ∧ depth (tree w') ≤ path_length (tree w')).
Proof.
  intros HI. pose proof (path_reserved_same w) as Hs.
  destruct (path_reserved w) as [e w'] eqn:E. exists e, w'.
  split; [done|]. split; [done|].
  unfold path_reserved in E.
  destruct (path_length (tree w) <? depth (tree w)) eqn:Hlt.
  - destruct (grant_fields w) as (Hg1 & Hg2 & Hg3 & Hg4).
    destruct (grant w) as [ok w1]. simpl in *.
    destruct ok; injection E as <- <-; simpl; (split; [done|]); [right|by left].
    split; [done|]. split; [|lia].
    eapply Inv_same; [done|done..|]. simpl.
    destruct HI as [_ Hd _ _ _]. unfold path_ok. simpl. split; [done|].
    rewrite length_replicate. lia.
  - apply Z.ltb_ge in Hlt. injection E as <- <-. split; [done|]. right. done.
Qed.

Lemma find_leaf_loop_descend_pages n : ∀ d node k w leaf w',
  find_leaf_loop n d node k w = Some (leaf, w') → next_page w' = next_page w
  ∧ path_length (tree w') = path_length (tree w)
  ∧ new_root (tree w') = new_root (tree w) ∧ oracle w' = oracle w.
Proof.
  induction n as [|n IH]; simpl; intros d node k w leaf w' H.
  - by simplify_eq.
  - apply bind_Some in H as (nb & Hnb & H).
    apply bind_Some in H as (w1 & Hw1 & H).
    apply IH in H as (-> & -> & -> & ->).
    unfold path_update in Hw1.
    apply bind_Some in Hw1 as (l & Hl & Hw1).
    apply bind_Some in Hw1 as (pn & Hpn & Hw1). by simplify_eq.
Qed.

(** the descent records the frames of the path to the leaf of [k] *)
Lemma find_leaf_spec w G k :
  Inv w G → depth (tree w) ≤ path_length (tree w) →
  ∃ leaf w', find_leaf k w = Some (leaf, w') ∧ Inv w' G ∧ same_contents w w'
    ∧ next_page w' = next_page w
    ∧ path_length (tree w') = path_length (tree w)
    ∧ frames_ok (pages w) G (root (tree w)) (Z.to_nat (depth (tree w))) k
        (cur_path w') leaf.
Proof.
  intros HI Hlen. pose proof HI as [HT Hd Hp Hn Hpath].
  unfold find_leaf.
  destruct (decide (depth (tree w) = 0)) as [Hz|Hnz].
  - rewrite Hz. simpl. exists (root (tree w)), w.
    split; [done|]. split; [done|]. split; [apply same_contents_refl|].
    split; [done|]. split; [done|].
    rewrite Hz in HT. simpl in HT.
    split; [intros; lia|]. split; [done|]. apply HT.
  - destruct Hpath as [Hpl Hpath].
    destruct (path (tree w)) as [l|] eqn:El; simpl in Hpath; [|lia].
    destruct (find_leaf_loop_spec (pages w) (root (tree w))
                (Z.to_nat (depth (tree w))) G k (Z.to_nat (depth (tree w)))
                0%nat (root (tree w)) w l HT eq_refl (ti_root _ _ _ _ _ HT) El)
      as (leaf & l' & Hrun & Hlen' & Hpre & Hsp & Hleaf & Hnode & Hfr); [lia|].
    simpl in Hrun. exists leaf, (with_path w l').
    split; [done|].
    split; [eapply Inv_same; [done|done..|]; unfold path_ok; simpl; split; [done|lia]|].
    split; [done|]. split; [done|]. split; [done|].
    unfold cur_path. simpl. split; [|split; [|done]].
    + intros d Hdl. destruct (Hfr d ltac:(lia)) as (pn & b & H1 & H2 & H3 & H4 & H5 & H6).
      exists pn, b. simpl in *. done.
    + unfold pnode. destruct (Z.to_nat (depth (tree w))) eqn:En; [lia|].
      rewrite decide_False by lia. rewrite Hnode. done.
Qed.

(** ** The descent as a function of the pages *)

Fixpoint descend (h : gmap Z block) (n : nat) (a k : Z) : option Z :=
  match n with
  | O => Some a
  | S n' => b ← h !! a; descend h n' (get_child b (scan_index_keys b k)) k
  end.

Lemma find_leaf_loop_descend n : ∀ d node k w leaf w',
  find_leaf_loop n d node k w = Some (leaf, w') →
  descend (pages w) n node k = Some leaf.
Proof.
  induction n as [|n IH]; simpl; intros d node k w leaf w' H.
  - by simplify_eq.
  - apply bind_Some in H as (nb & Hnb & H).
    apply bind_Some in H as (w1 & Hw1 & H).
    rewrite Hnb. simpl. apply IH in H.
    apply path_update_same in Hw1 as (Hpg & _). by rewrite Hpg in H.
Qed.

(** the descent from a node reads nodes that are not higher than it *)
Lemma descend_stable h h' rt dep G k n : ∀ a,
  tree_inv h rt dep G None → G !! a = Some n →
  (∀ x m, G !! x = Some m → (m ≤ n)%nat → h' !! x = h !! x) →
  descend h' n a k = descend h n a k.
Proof.
  induction n as [|n IH]; intros a HT Ha Hsame; simpl; [done|].
  rewrite (Hsame a (S n) Ha) by lia.
  destruct (ti_blk _ _ _ _ _ HT a _ Ha) as (b & Hb & _). rewrite Hb. simpl.
  apply IH; [done| |].
  - eapply (ti_child HT); [done..|].
    pose proof (scan_index_keys_spec b k) as (? & _). done.
  - intros x m Hx Hm. apply (Hsame x m Hx). lia.
Qed.

Lemma pnode_frame h G dep k l leaf d :
  frame_ok h G dep k l leaf d → (d < dep)%nat →
  ∃ pn b, l !! d = Some pn ∧ pnode l leaf dep d = pn_node pn
    ∧ h !! pn_node pn = Some b ∧ G !! pn_node pn = Some (dep - d)%nat
    ∧ pn_num_keys pn = num_keys b ∧ pn_pos pn = scan_index_keys b k
    ∧ get_child b (pn_pos pn) = pnode l leaf dep (S d).
Proof.
  intros (pn & b & H1 & H2 & H3 & H4 & H5 & H6) Hd. exists pn, b.
  split; [done|]. split; [|done].
  unfold pnode. rewrite decide_False by lia. by rewrite H1.
Qed.

(** down the recorded frames *)
Lemma descend_frames h G dep k l leaf n :
  (∀ j, (j < n)%nat → frame_ok h G dep k l leaf j) → (n ≤ dep)%nat →
  descend h dep (pnode l leaf dep 0) k
  = descend h (dep - n) (pnode l leaf dep n) k.
Proof.
  induction n as [|n IH]; intros Hfr Hn.
  - by rewrite Nat.sub_0_r.
  - rewrite IH; [|intros; apply Hfr; lia|lia].
    destruct (pnode_frame _ _ _ _ _ _ _ (Hfr n ltac:(lia)) ltac:(lia))
      as (pn & b & H1 & H2 & H3 & H4 & H5 & H6 & H7).
    replace (dep - n)%nat with (S (dep - S n)) by lia. simpl.
    rewrite H2, H3. simpl. by rewrite <- H6, H7.
Qed.

(** frames above the part of the tree that changes stay good *)
Lemma frame_ok_stable h h' G G' dep k l leaf n j :
  frame_ok h G dep k l leaf j → (j < n)%nat → (n ≤ dep)%nat →
  (∀ a m, G !! a = Some m → (dep - n < m)%nat →
          h' !! a = h !! a ∧ G' !! a = Some m) →
  frame_ok h' G' dep k l leaf j.
Proof.
  intros (pn & b & H1 & H2 & H3 & H4 & H5 & H6) Hj Hn Hsame.
  destruct (Hsame _ _ H3 ltac:(lia)) as [Hh HG].
  exists pn, b. rewrite Hh. done.
Qed.

(** ** The pages set aside for a split *)

Definition fresh (h : gmap Z block) (G : gmap Z nat) (a : Z) : Prop :=
  G !! a = None ∧ ∃ b, h !! a = Some b ∧ blk b.

(** The frames of the levels [d] to [n - 1] hold what [mmap] has
    answered for the split of their node: a new page, or an address
    where no page is (the request has failed); the node of level [d - 1]
    has room; when [d] is 0 there is such an answer for the new root as
    well. *)
Record stock_ok (h : gmap Z block) (G : gmap Z nat) (l : list path_node)
    (d n : nat) (nr : Z) : Prop := {
  st_le : (d ≤ n)%nat;
  st_fresh : ∀ j pn, (d ≤ j < n)%nat → l !! j = Some pn →
    h !! pn_split pn = None ∨ fresh h G (pn_split pn);
  st_inj : ∀ j j' pn pn', (d ≤ j < n)%nat → (d ≤ j' < n)%nat →
    l !! j = Some pn → l !! j' = Some pn' → is_Some (h !! pn_split pn) →
    pn_split pn = pn_split pn' → j = j';
  st_stop : ∀ pn b, (0 < d)%nat → l !! (d - 1)%nat = Some pn →
    h !! pn_node pn = Some b → num_keys b < 255;
  st_root : d = 0%nat →
    (h !! nr = None ∨ fresh h G nr)
    ∧ ∀ j pn, (j < n)%nat → l !! j = Some pn → is_Some (h !! nr) →
        pn_split pn ≠ nr
}.

(** every one of these requests has been granted *)
Definition stock_mapped (h : gmap Z block) (l : list path_node) (d n : nat)
    (nr : Z) : Prop :=
  (∀ j pn, (d ≤ j < n)%nat → l !! j = Some pn → is_Some (h !! pn_split pn))
  ∧ (d = 0%nat → is_Some (h !! nr)).

(** a write through the answer of a request that has failed *)
Lemma split_index_unmapped w parent newp pos k new :
  pages w !! newp = None → split_index w parent newp pos k new = None.
Proof.
  intros Hn. unfold split_index, store_num_keys.
  destruct (pages w !! parent) as [b|] eqn:E; simpl; [|done].
  rewrite lookup_insert_ne by (intros <-; congruence). rewrite Hn. done.
Qed.

Lemma add_root_block_unmapped w l k r :
  pages w !! new_root (tree w) = None → add_root_block w l k r = None.
Proof. intros Hn. unfold add_root_block, store_num_keys. rewrite Hn. done. Qed.

Lemma split_leaf_unmapped w leaf new i k v :
  pages w !! new = None → split_leaf w leaf new i k v = None.
Proof.
  intros Hn. unfold split_leaf, store_num_keys.
  destruct (pages w !! leaf) as [b|] eqn:E; simpl; [|done].
  rewrite lookup_insert_ne by (intros <-; congruence). rewrite Hn. done.
Qed.

Lemma NoDup_insert_middle {A} (l : list A) (x : A) (i : nat) :
  NoDup l → x ∉ l → NoDup (take i l ++ x :: drop i l).
Proof.
  intros Hnd Hx. rewrite <- Permutation_middle, take_drop.
  by apply NoDup_cons.
Qed.

Lemma elem_of_insert_middle {A} (l : list A) (x y : A) (i : nat) :
  y ∈ take i l ++ x :: drop i l → y = x ∨ y ∈ l.
Proof.
  rewrite <- Permutation_middle, take_drop. by intros ?%elem_of_cons.
Qed.

Lemma elem_of_take_app {A} (l : list A) (y : A) (i : nat) :
  y ∈ take i l → y ∈ l.
Proof. intros H. rewrite <- (take_drop i l). apply elem_of_app. by left. Qed.

Lemma elem_of_drop_app {A} (l : list A) (y : A) (i : nat) :
  y ∈ drop i l → y ∈ l.
Proof. intros H. rewrite <- (take_drop i l). apply elem_of_app. by right. Qed.

Lemma NoDup_take_drop {A} (l : list A) (y : A) (i : nat) :
  NoDup l → y ∈ take i l → y ∈ drop i l → False.
Proof.
  intros Hnd H1 H2. rewrite <- (take_drop i l) in Hnd.
  apply NoDup_app in Hnd as (_ & Hd & _). by apply (Hd y).
Qed.

(** ** One level of the way up *)

(** a node with room takes the new child *)
Lemma shape_insert_child h rt dep G p m b pos sep new :
  tree_inv h rt dep G None → G !! p = Some (S m) → h !! p = Some b →
  0 ≤ pos ≤ num_keys b → num_keys b < 255 →
  orphan h G new → G !! new = Some m →
  tree_inv (<[p := blk_insert_split_into_index b pos sep new]> h) rt dep G None.
Proof.
  intros HT Hp Hb Hpos Hnk Hor Hnew.
  destruct (ti_blk _ _ _ _ _ HT p _ Hp) as (b0 & Hb0 & Hblk).
  assert (b0 = b) as -> by congruence. clear Hb0.
  destruct (blk_insert_split_into_index_spec b pos sep new Hblk Hpos Hnk)
    as (Hblk' & Hnk' & _ & _).
  pose proof (kids_insert_split b pos sep new Hblk Hpos Hnk) as Hk.
  pose proof (num_keys_range b) as Hr.
  eapply tree_inv_rekid; [done..| | | |].
  - rewrite Hk. apply NoDup_insert_middle.
    + exact (ti_nodup _ _ _ _ _ HT p m b Hp Hb).
    + exact (Hor p m b Hp Hb).
  - intros c Hc. rewrite Hk in Hc.
    apply elem_of_insert_middle in Hc as [->|Hc].
    + split; [done|]. by right.
    + split; [|by left]. exact (ti_kids _ _ _ _ _ HT p m b c Hp Hb Hc).
  - intros Hne. pose proof (ti_min _ _ _ _ _ HT p _ b Hp Hb Hne) as Hmin.
    simpl in Hmin. lia.
  - intros _. lia.
Qed.

(** a full node is split in two, the new peer being an orphan *)
Lemma shape_split_index h rt dep G p m b pos new s P' N' :
  tree_inv h rt dep G None → G !! p = Some (S m) → h !! p = Some b →
  num_keys b = 255 → 0 ≤ pos ≤ 255 →
  orphan h G new → G !! new = Some m → G !! s = None →
  blk P' → blk N' → num_keys P' = 128 → num_keys N' = 127 →
  (∀ j, 0 ≤ j ≤ 128 → get_child P' j = with_child b pos new j) →
  (∀ j, 0 ≤ j ≤ 127 → get_child N' j = with_child b pos new (129 + j)) →
  tree_inv (<[p := P']> (<[s := N']> h)) rt dep (<[s := S m]> G) None
  ∧ orphan (<[p := P']> (<[s := N']> h)) (<[s := S m]> G) s.
Proof.
  intros HT Hp Hb Hnk Hpos Hor Hnew Hs HbP HbN HnP HnN HcP HcN.
  destruct (kids_split_index b P' N' pos new Hnk Hpos HnP HnN HcP HcN) as [HkP HkN].
  assert (Hps : p ≠ s) by congruence.
  assert (HndC : NoDup (combined_kids b pos new)).
  { apply NoDup_insert_middle.
    - exact (ti_nodup _ _ _ _ _ HT p m b Hp Hb).
    - exact (Hor p m b Hp Hb). }
  assert (HinC : ∀ c, c ∈ combined_kids b pos new →
            G !! c = Some m ∧ (c ∈ kids b ∨ orphan h G c)).
  { intros c Hc. apply elem_of_insert_middle in Hc as [->|Hc].
    - split; [done|]. by right.
    - split; [|by left]. exact (ti_kids _ _ _ _ _ HT p m b c Hp Hb Hc). }
  assert (HT1 : tree_inv (<[p := P']> h) rt dep G None).
  { eapply tree_inv_rekid; [done..| | | |].
    - rewrite HkP. rewrite <- (take_drop 129 (combined_kids b pos new)) in HndC.
      by apply NoDup_app in HndC as (? & _).
    - intros c Hc. rewrite HkP in Hc. apply HinC. by eapply elem_of_take_app.
    - intros _. lia.
    - intros _. lia. }
  rewrite insert_insert_ne by done.
  apply tree_inv_add_node; [done|done|done| | |].
  - pose proof (ti_top _ _ _ _ _ HT p _ Hp). done.
  - simpl. lia.
  - intros m' [= <-]. rewrite HkN. split.
    + rewrite <- (take_drop 129 (combined_kids b pos new)) in HndC.
      by apply NoDup_app in HndC as (_ & _ & ?).
    + intros c Hc. split; [apply HinC; by eapply elem_of_drop_app|].
      intros a n ba Ha Hba Hin.
      destruct (decide (a = p)) as [->|Hne].
      * rewrite lookup_insert_eq in Hba. simplify_eq. rewrite HkP in Hin.
        by eapply NoDup_take_drop.
      * rewrite lookup_insert_ne in Hba by done.
        destruct (HinC c) as [_ [Hc'|Hc']]; [by eapply elem_of_drop_app| |].
        -- apply Hne.
           exact (ti_disj _ _ _ _ _ HT a p n m ba b c Ha Hp Hba Hb Hin Hc').
        -- exact (Hc' a n ba Ha Hba Hin).
Qed.

(** where the descent for [k] goes in the node that took the child [new]
    with the key [sep] behind the slot [pos] of the descent *)
Lemma scan_insert_child b k sep new :
  blk b → num_keys b < 255 →
  let pos := scan_index_keys b k in
  let b' := blk_insert_split_into_index b pos sep new in
  get_child b' (scan_index_keys b' k)
  = if decide (k < sep) then get_child b pos else new.
Proof.
  intros Hblk Hnk pos b'.
  destruct (scan_index_keys_spec b k) as (Hpos & Hlo & Hhi). fold pos in Hpos, Hlo, Hhi.
  destruct (blk_insert_split_into_index_spec b pos sep new Hblk Hpos Hnk)
    as (_ & Hnk' & Hkeys & Hkids). fold b' in Hnk', Hkeys, Hkids.
  assert (scan_index_keys b' k = if decide (k < sep) then pos else pos + 1) as ->.
  { apply scan_index_keys_unique.
    - case_decide; lia.
    - intros j Hj. rewrite Hkeys by (case_decide; lia). unfold with_key.
      destruct (decide (j < pos)); [apply Hlo; lia|].
      destruct (decide (k < sep)); [lia|]. rewrite decide_True by lia. lia.
    - intros Hlt. destruct (decide (k < sep)).
      + rewrite Hkeys by lia. unfold with_key.
        rewrite decide_False, decide_True by lia. done.
      + rewrite Hkeys by lia. unfold with_key.
        rewrite decide_False, decide_False by lia.
        replace (pos + 1 - 1) with pos by lia. apply Hhi. lia. }
  destruct (decide (k < sep)).
  - rewrite Hkids by lia. unfold with_child. by rewrite decide_True by lia.
  - rewrite Hkids by lia. unfold with_child.
    by rewrite decide_False, decide_True by lia.
Qed.

(** where it goes after the split of a full node: left of the promoted
    key in the old node, else in the new peer *)
Lemma scan_split_index b P' N' k sep new :
  num_keys b = 255 →
  let pos := scan_index_keys b k in
  (∀ i, pos ≤ i < 255 → k < get_key b i) →
  num_keys P' = 128 → num_keys N' = 127 →
  (∀ j, 0 ≤ j < 128 → get_key P' j = with_key b pos sep j) →
  (∀ j, 0 ≤ j < 127 → get_key N' j = with_key b pos sep (129 + j)) →
  (∀ j, 0 ≤ j ≤ 128 → get_child P' j = with_child b pos new j) →
  (∀ j, 0 ≤ j ≤ 127 → get_child N' j = with_child b pos new (129 + j)) →
  let goal := if decide (k < sep) then get_child b pos else new in
  (k < with_key b pos sep 128 → get_child P' (scan_index_keys P' k) = goal)
  ∧ (with_key b pos sep 128 ≤ k → get_child N' (scan_index_keys N' k) = goal).
Proof.
  intros Hnk pos Hsuf HnP HnN HkP HkN HcP HcN goal.
  destruct (scan_index_keys_spec b k) as (Hpos & Hlo & _). fold pos in Hpos, Hlo.
  set (p := if decide (k < sep) then pos else pos + 1).
  assert (Hp : 0 ≤ p ≤ 256) by (unfold p; case_decide; lia).
  assert (F1 : ∀ j, 0 ≤ j < p → with_key b pos sep j ≤ k).
  { intros j Hj. unfold with_key, p in *.
    destruct (decide (j < pos)); [apply Hlo; lia|].
    destruct (decide (k < sep)); [lia|]. rewrite decide_True by lia. lia. }
  assert (F2 : ∀ j, p ≤ j ≤ 255 → k < with_key b pos sep j).
  { intros j Hj. unfold with_key, p in *.
    destruct (decide (k < sep)).
    - rewrite decide_False by lia.
      destruct (decide (j = pos)); [done|]. apply Hsuf. lia.
    - rewrite decide_False, decide_False by lia. apply Hsuf. lia. }
  assert (Hgoal : with_child b pos new p = goal).
  { unfold with_child, p, goal. destruct (decide (k < sep)).
    - by rewrite decide_True by lia.
    - by rewrite decide_False, decide_True by lia. }
  split; intros Hsep.
  - assert (p ≤ 128).
    { destruct (decide (p ≤ 128)); [done|]. specialize (F1 128). lia. }
    assert (scan_index_keys P' k = p) as ->.
    { apply scan_index_keys_unique.
      - lia.
      - intros j Hj. rewrite HkP by lia. apply F1. lia.
      - intros Hlt. rewrite HkP by lia. apply F2. lia. }
    rewrite HcP by lia. done.
  - assert (129 ≤ p).
    { destruct (decide (129 ≤ p)); [done|]. specialize (F2 128). lia. }
    assert (scan_index_keys N' k = p - 129) as ->.
    { apply scan_index_keys_unique.
      - lia.
      - intros j Hj. rewrite HkN by lia. apply F1. lia.
      - intros Hlt. rewrite HkN by lia.
        replace (129 + (p - 129)) with p by lia. apply F2. lia. }
    rewrite HcN by lia. replace (129 + (p - 129)) with p by lia. done.
Qed.

Lemma scan_root b l k sep r :
  blk b →
  let b' := blk_root b l sep r in
  get_child b' (scan_index_keys b' k) = if decide (k < sep) then l else r.
Proof.
  intros Hblk b'.
  destruct (blk_root_spec b l sep r Hblk) as (_ & Hnk & Hk & Hc0 & Hc1).
  fold b' in Hnk, Hk, Hc0, Hc1.
  assert (scan_index_keys b' k = if decide (k < sep) then 0 else 1) as ->.
  { apply scan_index_keys_unique.
    - case_decide; lia.
    - intros j Hj. destruct (decide (k < sep)); [lia|].
      assert (j = 0) as -> by lia. lia.
    - intros Hlt. destruct (decide (k < sep)); [|lia]. lia. }
  by case_decide.
Qed.

Lemma min_keys_le n : min_keys n ≤ 128.
Proof. destruct n; simpl; lia. Qed.

Lemma is_Some_insert2 (h : gmap Z block) p s P' N' a :
  is_Some (h !! p) → is_Some (h !! s) →
  is_Some (<[p := P']> (<[s := N']> h) !! a) ↔ is_Some (h !! a).
Proof.
  intros Hp Hs. destruct (decide (a = p)) as [->|Hne].
  - rewrite lookup_insert_eq. split; [done|]. eauto.
  - rewrite lookup_insert_ne by done. destruct (decide (a = s)) as [->|Hne'].
    + rewrite lookup_insert_eq. split; [done|]. eauto.
    + by rewrite lookup_insert_ne by done.
Qed.

Lemma is_Some_insert1 (h : gmap Z block) p P' a :
  is_Some (h !! p) → is_Some (<[p := P']> h !! a) ↔ is_Some (h !! a).
Proof.
  intros Hp. destruct (decide (a = p)) as [->|Hne].
  - rewrite lookup_insert_eq. split; [done|]. eauto.
  - by rewrite lookup_insert_ne by done.
Qed.

(** ** The way up *)

Section grow.
Context (k T c0 : Z).

(** the new node [new] with its key [sep] waits to be put behind the
    node [c]: the descent for [k] ends in [T] from the one of the two
    that will be on its way *)
Definition pending (h : gmap Z block) (m : nat) (c new sep : Z) : Prop :=
  (k < sep → descend h m c k = Some T) ∧ (sep ≤ k → descend h m new k = Some T).

(** the keys from the slot of the descent on are greater than [k] *)
Definition suffix_ok (h : gmap Z block) (l : list path_node) (n : nat) : Prop :=
  ∀ j pn b i, (j < n)%nat → l !! j = Some pn → h !! pn_node pn = Some b →
    pn_pos pn ≤ i < num_keys b → k < get_key b i.

Lemma insert_new_leaf_loop_spec n : ∀ w G new sep d h dep rt l,
  pages w = h → depth (tree w) = Z.of_nat dep → root (tree w) = rt →
  cur_path w = l → (dep < 52)%nat → (n ≤ dep)%nat →
  tree_inv h rt dep G None →
  (∀ j, (j < n)%nat → frame_ok h G dep k l c0 j) →
  pnode l c0 dep 0 = rt →
  orphan h G new → G !! new = Some (dep - n)%nat →
  new ≠ pnode l c0 dep n →
  G !! pnode l c0 dep n = Some (dep - n)%nat →
  (∀ b, h !! pnode l c0 dep n = Some b → min_keys (dep - n) ≤ num_keys b) →
  stock_ok h G l d n (new_root (tree w)) →
  insert_new_leaf_loop n new sep w = None
    ∧ ¬ stock_mapped h l d n (new_root (tree w))
  ∨ ∃ w' G' rt' dep',
    insert_new_leaf_loop n new sep w = Some w'
    ∧ tree w' = set_depth (set_root (tree w) rt') (Z.of_nat dep')
    ∧ cursors w' = cursors w ∧ next_page w' = next_page w
    ∧ oracle w' = oracle w
    ∧ (∀ a, is_Some (pages w' !! a) ↔ is_Some (h !! a))
    ∧ (∀ a, G !! a = Some O → pages w' !! a = h !! a)
    ∧ (dep ≤ dep' ≤ dep + 1)%nat
    ∧ tree_inv (pages w') rt' dep' G' None
    ∧ (pending h (dep - n) (pnode l c0 dep n) new sep → suffix_ok h l n →
       descend (pages w') dep' rt' k = Some T)
    ∧ (∀ a, G' !! a = Some O ↔ G !! a = Some O)
    ∧ (∀ B first, ord_pending h rt G B first (pnode l c0 dep n) new sep →
       ∃ B', ord_inv (pages w') rt' G' B' first).
Proof.
  induction n as [|n IH];
    intros w G new sep d h dep rt l Hpg Hdep Hrt Hl H52 Hn HT Hfr Hp0 Hor Hnew
      Hne Hc Hmin Hst.
  - (* the root was split: a new root *)
    rewrite Nat.sub_0_r in *. rewrite Hp0 in *.
    assert (Hd0 : d = 0%nat) by (pose proof (st_le _ _ _ _ _ _ Hst); lia).
    destruct (st_root _ _ _ _ _ _ Hst Hd0) as [[Hun|[HnrG (sb & Hsb & Hblk)]] _].
    { left. split.
      - simpl. apply add_root_block_unmapped. by rewrite Hpg.
      - intros [_ Hm]. destruct (Hm Hd0) as [? ?]. congruence. }
    right.
    set (nr := new_root (tree w)) in *.
    destruct (ti_blk _ _ _ _ _ HT rt _ Hc) as (brt & Hbrt & _).
    destruct (blk_root_spec sb rt sep new Hblk) as (Hblk' & Hnk' & Hk0 & Hc0 & Hc1).
    simpl. rewrite Hrt.
    rewrite (add_root_block_run w rt sep new sb) by (fold nr; by rewrite Hpg).
    fold nr. rewrite Hpg, Hdep.
    rewrite u32_small by lia.
    eexists _, (<[nr := S dep]> G), nr, (S dep).
    split; [done|]. simpl.
    split; [f_equal; lia|]. split; [done|]. split; [done|]. split; [done|].
    split; [intros a; apply is_Some_insert1; eauto|].
    split.
    { intros a Ha. apply lookup_insert_ne. intros <-. congruence. }
    split; [lia|].
    split.
    { eapply tree_inv_add_root; [done..|]. by apply Hmin. }
    split; [|split].
    { intros [Hq1 Hq2] _. simpl. rewrite lookup_insert_eq. simpl.
      rewrite scan_root by done.
      assert (Hsame : ∀ x m, G !! x = Some m → (m ≤ dep)%nat →
                <[nr:=blk_root sb rt sep new]> h !! x = h !! x).
      { intros x m Hx _. apply lookup_insert_ne. intros <-. congruence. }
      destruct (decide (k < sep)).
      + rewrite (descend_stable h _ rt dep G k dep rt HT Hc Hsame). by apply Hq1.
      + rewrite (descend_stable h _ rt dep G k dep new HT Hnew Hsame).
        apply Hq2. lia. }
    { intros a. destruct (decide (a = nr)) as [->|Hanr].
      - rewrite lookup_insert_eq, HnrG. split; intros [=].
      - by rewrite lookup_insert_ne. }
    { intros B first HP.
      by apply (ord_add_root h rt dep G B first new sep nr (blk_root sb rt sep new)). }
  - (* the node of level [n] takes the new child *)
    destruct (pnode_frame _ _ _ _ _ _ _ (Hfr n ltac:(lia)) ltac:(lia))
      as (pn & b & Hln & Hpn & Hb & HGp & Hnkp & Hpos & Hchild).
    set (p := pn_node pn) in *. set (pos := pn_pos pn) in *.
    replace (dep - n)%nat with (S (dep - S n)) in HGp by lia.
    destruct (ti_blk _ _ _ _ _ HT p _ HGp) as (b0 & Hb0 & Hblk).
    assert (b0 = b) as -> by congruence. clear Hb0.
    pose proof (num_keys_range b) as Hrange.
    destruct (scan_index_keys_spec b k) as (Hposr & _). rewrite <- Hpos in Hposr.
    pose proof Hc as HGc.
    simpl. rewrite path_at_cur, Nat2Z.id, Hl, Hln by lia. simpl.
    fold p pos. rewrite (load_num_keys_at w p b) by (by rewrite Hpg). simpl.
    change (256 - 1) with 255.
    destruct (num_keys b <? 255) eqn:E.
    + (* there is room *)
      apply Z.ltb_lt in E.
      rewrite (insert_split_into_index_run w p pos sep new b)
        by (rewrite ?Hpg; done).
      rewrite Hpg.
      set (h' := <[p:=blk_insert_split_into_index b pos sep new]> h).
      right. eexists _, G, rt, dep. split; [done|]. simpl.
      split; [rewrite <- Hrt, <- Hdep; by destruct (tree w)|].
      split; [done|]. split; [done|]. split; [done|].
      split; [intros a; apply is_Some_insert1; eauto|].
      split.
      { intros a Ha. apply lookup_insert_ne. intros <-. congruence. }
      split; [lia|].
      split; [by eapply shape_insert_child|].
      split; [|split; [done|]].
      2:{ intros B first HP. rewrite <- Hchild in HP.
          by apply (ord_insert_child h rt dep G B first p (dep - S n) b pos sep new). }
      intros [Hq1 Hq2] Hsuf.
      assert (Hfr' : ∀ j, (j < n)%nat → frame_ok h' G dep k l c0 j).
      { intros j Hj. eapply (frame_ok_stable h h' G G dep k l c0 n);
          [apply Hfr; lia|done|lia|].
        intros a m Ha Hm. split; [|done].
        apply lookup_insert_ne. intros <-. rewrite HGp in Ha. simplify_eq. lia. }
      rewrite <- Hp0.
      rewrite (descend_frames h' G dep k l c0 n Hfr') by lia.
      rewrite Hpn. replace (dep - n)%nat with (S (dep - S n)) by lia.
      assert (Hh'p : h' !! p = Some (blk_insert_split_into_index b pos sep new))
        by apply lookup_insert_eq.
      simpl. rewrite Hh'p. simpl.
      rewrite Hpos. rewrite scan_insert_child by done. rewrite <- Hpos. fold pos.
      assert (Hsame : ∀ x m, G !! x = Some m → (m ≤ dep - S n)%nat →
                h' !! x = h !! x).
      { intros x m Hx Hm. apply lookup_insert_ne. intros <-.
        rewrite HGp in Hx. simplify_eq. lia. }
      destruct (decide (k < sep)).
      * rewrite Hchild.
        rewrite (descend_stable h h' rt dep G k _ _ HT HGc Hsame). by apply Hq1.
      * rewrite (descend_stable h h' rt dep G k _ _ HT Hnew Hsame).
        apply Hq2. lia.
    + (* the node is full and is split *)
      apply Z.ltb_ge in E. assert (Hfull : num_keys b = 255) by lia.
      assert (Hdn : (d ≤ n)%nat).
      { pose proof (st_le _ _ _ _ _ _ Hst).
        destruct (decide (d = S n)) as [->|]; [|lia].
        pose proof (st_stop _ _ _ _ _ _ Hst pn b ltac:(lia)) as Hs.
        replace (S n - 1)%nat with n in Hs by lia.
        specialize (Hs Hln Hb). lia. }
      destruct (st_fresh _ _ _ _ _ _ Hst n pn ltac:(lia) Hln)
        as [Hun|(HGs & sb & Hsb & Hblks)].
      { left. split.
        - rewrite split_index_unmapped by (by rewrite Hpg). done.
        - intros [Hm _]. destruct (Hm n pn ltac:(lia) Hln) as [? ?]. congruence. }
      set (s := pn_split pn) in *.
      assert (Hps : p ≠ s) by congruence.
      destruct (split_index_spec w p s pos sep new b sb)
        as (P' & N' & Hrun & HbP & HbN & HnP & HnN & HkP & HkN & HcP & HcN);
        [by rewrite Hpg|by rewrite Hpg|done|done|done|lia|].
      rewrite Hrun. simpl. rewrite Hpg.
      set (h1 := <[p:=P']> (<[s:=N']> h)).
      set (G1 := <[s:=S (dep - S n)]> G).
      destruct (shape_split_index h rt dep G p (dep - S n) b pos new s P' N')
        as [HT1 Hor1]; [done|done|done|done|lia|done..|].
      fold h1 G1 in HT1, Hor1.
      assert (Hkeep : ∀ a m, G !! a = Some m →
                G1 !! a = Some m ∧ (a ≠ p → h1 !! a = h !! a)).
      { intros a m Ha. assert (a ≠ s) by congruence. split.
        - unfold G1. by rewrite lookup_insert_ne.
        - intros Hap. unfold h1. by rewrite !lookup_insert_ne. }
      assert (Habove : ∀ a m, G !! a = Some m → (dep - n < m)%nat →
                h1 !! a = h !! a ∧ G1 !! a = Some m).
      { intros a m Ha Hm. destruct (Hkeep a m Ha) as [H1 H2].
        split; [|done]. apply H2. intros ->. rewrite HGp in Ha.
        simplify_eq. lia. }
      assert (Hdom : ∀ a, is_Some (h1 !! a) ↔ is_Some (h !! a)).
      { intros a. apply is_Some_insert2; eauto. }
      assert (Hnone : ∀ a, h !! a = None → h1 !! a = None).
      { intros a Ha. apply eq_None_not_Some. rewrite Hdom. by rewrite Ha; intros [? ?]. }
      destruct (IH (with_pages w h1) G1 s (with_key b pos sep 128) d h1 dep rt l)
        as [[Hloop Hnm]|(w' & G' & rt' & dep' & Hloop & Htree & Hcs & Hnp & Hor' & Hsome
            & Hleaf & Hdep' & HT' & Hkey & HGleaf & Hord)]; try done; try lia.
      * intros j Hj. eapply (frame_ok_stable h h1 G G1 dep k l c0 n);
          [apply Hfr; lia|done|lia|done].
      * unfold G1. rewrite lookup_insert_eq. f_equal. lia.
      * rewrite Hpn. fold p. destruct (Hkeep p _ HGp) as [-> _]. f_equal. lia.
      * rewrite Hpn. fold p. intros b1 Hb1. unfold h1 in Hb1.
        rewrite lookup_insert_eq in Hb1. simplify_eq. rewrite HnP.
        apply min_keys_le.
      * simpl. split.
        -- done.
        -- intros j pn' Hj Hlj.
           destruct (st_fresh _ _ _ _ _ _ Hst j pn' ltac:(lia) Hlj)
             as [Hun'|(HG' & sb' & Hsb' & Hblk')]; [left; by apply Hnone|right].
           assert (pn_split pn' ≠ s).
           { intros Heq.
             pose proof (st_inj _ _ _ _ _ _ Hst j n pn' pn ltac:(lia) ltac:(lia)
                           Hlj Hln ltac:(eauto) Heq). lia. }
           assert (pn_split pn' ≠ p) by congruence.
           split; [unfold G1; by rewrite lookup_insert_ne|].
           exists sb'. split; [|done]. unfold h1. by rewrite !lookup_insert_ne.
        -- intros j j' pn1 pn2 Hj Hj' Hl1 Hl2 Hm1.
           apply (st_inj _ _ _ _ _ _ Hst j j' pn1 pn2); try done; try lia.
           by apply Hdom.
        -- intros pn' b' Hd Hlj Hb'.
           destruct (pnode_frame _ _ _ _ _ _ _ (Hfr (d - 1)%nat ltac:(lia)) ltac:(lia))
             as (pn2 & b2 & Hl2 & _ & Hb2 & HG2 & _).
           assert (pn2 = pn') as -> by congruence.
           destruct (Habove _ _ HG2 ltac:(lia)) as [Hh1 _].
           rewrite Hh1 in Hb'.
           exact (st_stop _ _ _ _ _ _ Hst pn' b' Hd Hlj Hb').
        -- intros Hd0.
           destruct (st_root _ _ _ _ _ _ Hst Hd0) as [Hfr0 Hrne].
           split.
           ++ destruct Hfr0 as [Hun'|[HGr (rb & Hrb & Hblkr)]];
                [left; by apply Hnone|right].
              assert (new_root (tree w) ≠ s).
              { intros Heq. apply (Hrne n pn ltac:(lia) Hln); [eauto|done]. }
              assert (new_root (tree w) ≠ p) by congruence.
              split; [unfold G1; by rewrite lookup_insert_ne|].
              exists rb. split; [|done]. unfold h1. by rewrite !lookup_insert_ne.
           ++ intros j pn' Hj Hlj Hm1. apply (Hrne j pn'); [lia|done|]. by apply Hdom.
      * left. split; [done|]. intros [Hm1 Hm2]. apply Hnm. split.
        -- intros j pn' Hj Hlj. apply Hdom. apply (Hm1 j pn'); [lia|done].
        -- intros Hd0. apply Hdom. by apply Hm2.
      * right. exists w', G', rt', dep'. split; [done|].
        split; [done|]. split; [done|]. split; [done|]. split; [done|].
        split.
        { intros a. rewrite Hsome. apply is_Some_insert2; eauto. }
        split.
        { intros a Ha. destruct (Hkeep a _ Ha) as [H1 H2].
          rewrite Hleaf by done. apply H2. intros ->. congruence. }
        split; [done|]. split; [done|].
        split; [|split].
        2:{ intros a. rewrite HGleaf. unfold G1.
            destruct (decide (a = s)) as [->|Has].
            - rewrite lookup_insert_eq, HGs. split; intros [=].
            - by rewrite lookup_insert_ne. }
        2:{ intros B first HP. rewrite <- Hchild in HP.
            destruct (ord_split_index h rt dep G B first p (dep - S n) b pos sep new
                        HT HP HGp Hb Hposr Hor Hnew s P' N')
              as (B1 & HP1); try done.
            apply (Hord B1 first). rewrite Hpn. exact HP1. }
        intros [Hq1 Hq2] Hsuf. apply Hkey.
        -- rewrite Hpn. fold p.
           assert (Hsame : ∀ x m, G !! x = Some m → (m ≤ dep - S n)%nat →
                     h1 !! x = h !! x).
           { intros x m Hx Hm. destruct (Hkeep x m Hx) as [_ H2]. apply H2.
             intros ->. rewrite HGp in Hx. simplify_eq. lia. }
           destruct (scan_split_index b P' N' k sep new Hfull) as [Hgo1 Hgo2];
             try done.
           { rewrite <- Hpos. fold pos. intros i Hi.
             apply (Hsuf n pn b i); [lia|done|done|]. fold pos. lia. }
           { by rewrite <- Hpos. }
           { by rewrite <- Hpos. }
           { by rewrite <- Hpos. }
           { by rewrite <- Hpos. }
           rewrite <- Hpos in Hgo1, Hgo2. fold pos in Hgo1, Hgo2.
           assert (Hgoal : descend h1 (dep - S n)
                     (if decide (k < sep) then get_child b pos else new) k = Some T).
           { destruct (decide (k < sep)).
             - rewrite Hchild.
               rewrite (descend_stable h h1 rt dep G k _ _ HT HGc Hsame).
               by apply Hq1.
             - rewrite (descend_stable h h1 rt dep G k _ _ HT Hnew Hsame).
               apply Hq2. lia. }
           replace (dep - n)%nat with (S (dep - S n)) by lia.
           split; intros Hsep; simpl.
           ++ assert (h1 !! p = Some P') as -> by apply lookup_insert_eq.
              simpl. rewrite Hgo1 by done. done.
           ++ assert (h1 !! s = Some N') as ->.
              { unfold h1. rewrite lookup_insert_ne by done.
                apply lookup_insert_eq. }
              simpl. rewrite Hgo2 by done. done.
        -- intros j pn' b' i Hj Hlj Hb' Hi.
           destruct (pnode_frame _ _ _ _ _ _ _ (Hfr j ltac:(lia)) ltac:(lia))
             as (pn2 & b2 & Hl2 & _ & Hb2 & HG2 & _).
           assert (pn2 = pn') as -> by congruence.
           destruct (Habove _ _ HG2 ltac:(lia)) as [Hh1 _].
           rewrite Hh1 in Hb'.
           apply (Hsuf j pn' b' i); [lia|done..].
Qed.
End grow.

(** ** Setting pages aside *)

(** all mapped pages lie below the next address, which is in range *)
Definition bounded (w : world) : Prop :=
  (∀ a b, pages w !! a = Some b → 0 < a < next_page w)
  ∧ 0 < next_page w ≤ 4503599627370496.

Definition same_frame (pn pn0 : path_node) : Prop :=
  pn_node pn = pn_node pn0 ∧ pn_num_keys pn = pn_num_keys pn0
  ∧ pn_pos pn = pn_pos pn0.

(** [w] is [w0] with more pages and other pages noted for the splits *)
Record ext (w0 w : world) : Prop := {
  ext_old : ∀ a b, pages w0 !! a = Some b → pages w !! a = Some b;
  ext_new : ∀ a b, pages w !! a = Some b → pages w0 !! a = None →
    blk b ∧ next_page w0 ≤ a;
  ext_next : next_page w0 ≤ next_page w;
  ext_cursors : cursors w = cursors w0;
  ext_root : root (tree w) = root (tree w0);
  ext_depth : depth (tree w) = depth (tree w0);
  ext_cursor_list : cursor_list (tree w) = cursor_list (tree w0);
  ext_num_recs : num_recs (tree w) = num_recs (tree w0);
  ext_leaves : leaves (tree w) = leaves (tree w0);
  ext_path_length : path_length (tree w) = path_length (tree w0);
  ext_path : Forall2 same_frame (cur_path w) (cur_path w0);
  ext_path_ok : path_ok (tree w0) → path_ok (tree w)
}.

Lemma same_frame_refl pn : same_frame pn pn.
Proof. done. Qed.

Lemma same_frame_trans a b c : same_frame a b → same_frame b c → same_frame a c.
Proof. intros (?&?&?) (?&?&?). repeat split; congruence. Qed.

Lemma ext_refl w : ext w w.
Proof.
  split; try done.
  - intros a b H1 H2. congruence.
  - apply Forall2_same_length_lookup. split; [done|].
    intros i x y Hx Hy. assert (x = y) as -> by congruence. done.
Qed.

Lemma ext_trans w0 w1 w2 :
  bounded w0 → ext w0 w1 → ext w1 w2 → ext w0 w2.
Proof.
  intros [Hb0 _] H1 H2. split.
  - intros a b Ha. apply (ext_old _ _ H2), (ext_old _ _ H1), Ha.
  - intros a b Ha Hn. destruct (pages w1 !! a) as [b1|] eqn:E1.
    + pose proof (ext_old _ _ H2 a b1 E1) as Ha'.
      assert (b1 = b) as -> by congruence.
      exact (ext_new _ _ H1 a b E1 Hn).
    + destruct (ext_new _ _ H2 a b Ha E1) as [? ?]. split; [done|].
      pose proof (ext_next _ _ H1). lia.
  - pose proof (ext_next _ _ H1). pose proof (ext_next _ _ H2). lia.
  - rewrite (ext_cursors _ _ H2). apply H1.
  - rewrite (ext_root _ _ H2). apply H1.
  - rewrite (ext_depth _ _ H2). apply H1.
  - rewrite (ext_cursor_list _ _ H2). apply H1.
  - rewrite (ext_num_recs _ _ H2). apply H1.
  - rewrite (ext_leaves _ _ H2). apply H1.
  - rewrite (ext_path_length _ _ H2). apply H1.
  - pose proof (ext_path _ _ H1) as F1. pose proof (ext_path _ _ H2) as F2.
    apply Forall2_same_length_lookup. split.
    + apply Forall2_length in F1, F2. congruence.
    + intros i x z Hx Hz.
      destruct (Forall2_lookup_l _ _ _ _ _ F2 Hx) as (y & Hy & Hxy).
      destruct (Forall2_lookup_l _ _ _ _ _ F1 Hy) as (z' & Hz' & Hyz).
      assert (z' = z) as -> by congruence.
      by eapply same_frame_trans.
  - intros Hp. apply (ext_path_ok _ _ H2), (ext_path_ok _ _ H1), Hp.
Qed.

Lemma ext_same w w' :
  pages w' = pages w → next_page w' = next_page w → cursors w' = cursors w →
  tree w' = tree w → ext w w'.
Proof.
  intros H1 H2 H3 H4. split; rewrite ?H1, ?H2, ?H3, ?H4; try done.
  - intros a b Ha Hn. congruence.
  - unfold cur_path. rewrite H4.
    apply Forall2_same_length_lookup. split; [done|].
    intros i x y Hx Hy. assert (x = y) as -> by congruence. done.
Qed.

(** every request of the environment still to come is granted *)
Definition all_granted (w : world) : Prop := Forall (λ a, a = true) (oracle w).

(** ... and there are addresses left for [n] more pages *)
Definition granted (w : world) (n : nat) : Prop :=
  all_granted w ∧ next_page w + Z.of_nat n ≤ 4503599627370496.

Lemma grant_granted w :
  all_granted w → (grant w).1 = true ∧ all_granted (grant w).2.
Proof.
  unfold all_granted, grant. destruct (oracle w) as [|a o] eqn:E; simpl.
  - rewrite E. done.
  - intros H. apply Forall_cons in H as [-> H]. done.
Qed.

Lemma granted_le w n m : granted w n → (m ≤ n)%nat → granted w m.
Proof. intros [H1 H2] Hm. split; [done|lia]. Qed.

(** no page is at the address that stands for a failed [mmap] *)
Lemma bounded_failed w : bounded w → pages w !! (-1) = None.
Proof.
  intros [Hb _]. destruct (pages w !! (-1)) as [b|] eqn:E; [|done].
  apply Hb in E. lia.
Qed.

(** one allocation: the page is new, or the request has failed *)
Lemma alloc_page_spec w :
  bounded w →
  ∃ a w', alloc_page_for_block w = (a, w') ∧ ext w w' ∧ bounded w'
    ∧ tree w' = tree w ∧ a ≠ 0
    ∧ next_page w' ≤ next_page w + 1
    ∧ (all_granted w → all_granted w')
    ∧ (a = -1 ∧ pages w' = pages w
         ∧ ¬ (all_granted w ∧ next_page w < 4503599627370496)
       ∨ a = next_page w ∧ pages w !! a = None
         ∧ pages w' = <[a := zero_block]> (pages w)
         ∧ next_page w' = next_page w + 1).
Proof.
  intros [Hb Hn]. unfold alloc_page_for_block.
  destruct (grant_fields w) as (Hg1 & Hg2 & Hg3 & Hg4).
  pose proof (grant_granted w) as Hgg.
  destruct (grant w) as [ok w1]. simpl in *.
  assert (Hnone : pages w !! next_page w = None).
  { destruct (pages w !! next_page w) as [b|] eqn:E; [|done].
    apply Hb in E. lia. }
  assert (Hfail : ¬ (all_granted w ∧ next_page w < 4503599627370496) →
            ext w w1 ∧ bounded w1 ∧ tree w1 = tree w ∧ -1 ≠ 0
            ∧ next_page w1 ≤ next_page w + 1
            ∧ (all_granted w → all_granted w1)
            ∧ (-1 = -1 ∧ pages w1 = pages w
                 ∧ ¬ (all_granted w ∧ next_page w < 4503599627370496)
               ∨ -1 = next_page w ∧ pages w !! (-1) = None
                 ∧ pages w1 = <[-1 := zero_block]> (pages w)
                 ∧ next_page w1 = next_page w + 1)).
  { intros Hng. split; [by apply ext_same|]. split.
    { split; rewrite ?Hg1, ?Hg2; done. }
    split; [done|]. split; [done|]. split; [lia|].
    split; [intros Hg; by apply Hgg|]. left. done. }
  destruct ok; simpl.
  2:{ eexists _, _. split; [done|]. apply Hfail. intros [Hg _].
      by destruct (Hgg Hg). }
  destruct (next_page w1 <? 4503599627370496) eqn:E.
  2:{ eexists _, _. split; [done|]. apply Hfail. intros [_ Hlt].
      apply Z.ltb_ge in E. lia. }
  apply Z.ltb_lt in E. eexists _, _. split; [done|]. simpl.
  rewrite ?Hg1, ?Hg2, ?Hg3, ?Hg4.
  split; [|split; [|split; [done|split; [lia|split; [lia|split]]]]].
  - split; simpl; try done; try lia.
    + intros a b Ha. rewrite lookup_insert_ne; [done|]. intros <-. congruence.
    + intros a b Ha Hnn. destruct (decide (a = next_page w)) as [->|Hne].
      * rewrite lookup_insert_eq in Ha. simplify_eq.
        split; [apply blk_zero|lia].
      * rewrite lookup_insert_ne in Ha by done. congruence.
    + unfold cur_path. simpl.
      apply Forall2_same_length_lookup. split; [done|].
      intros i x y Hx Hy. assert (x = y) as -> by congruence. done.
  - split; simpl; [|lia]. intros a b Ha.
    destruct (decide (a = next_page w)) as [->|Hne]; [lia|].
    rewrite lookup_insert_ne in Ha by done. apply Hb in Ha. lia.
  - intros Hg. by apply Hgg.
  - right. done.
Qed.

Lemma ext_with_tree w t :
  root t = root (tree w) → depth t = depth (tree w) →
  cursor_list t = cursor_list (tree w) → num_recs t = num_recs (tree w) →
  path_length t = path_length (tree w) → path t = path (tree w) →
  leaves t = leaves (tree w) →
  ext w (with_tree w t).
Proof.
  intros H1 H2 H3 H4 H5 H6 H7. split; simpl; try done.
  - intros a b Ha Hn. congruence.
  - unfold cur_path. simpl. rewrite H6.
    apply Forall2_same_length_lookup. split; [done|].
    intros i x y Hx Hy. assert (x = y) as -> by congruence. done.
  - unfold path_ok. by rewrite H5, H6.
Qed.

Lemma cur_path_lookup w j pn :
  cur_path w !! j = Some pn → path (tree w) = Some (cur_path w).
Proof.
  unfold cur_path. destruct (path (tree w)); simpl; [done|].
  by rewrite lookup_nil.
Qed.

(** noting a page in a frame *)
Lemma set_split_spec w j pn a :
  cur_path w !! j = Some pn →
  ∃ w', path_update w (Z.of_nat j) (set_pn_split a) = Some w'
    ∧ ext w w' ∧ pages w' = pages w ∧ next_page w' = next_page w
    ∧ new_root (tree w') = new_root (tree w)
    ∧ oracle w' = oracle w
    ∧ cur_path w' = <[j := set_pn_split a pn]> (cur_path w).
Proof.
  intros Hj. pose proof (cur_path_lookup _ _ _ Hj) as Hp.
  rewrite (path_update_at w _ j _ pn Hp Hj).
  eexists. split; [done|]. split; [|done].
  split; simpl; try done.
  - intros b c H1 H2. congruence.
  - unfold cur_path at 1. simpl.
    apply Forall2_same_length_lookup. split; [by rewrite length_insert|].
    intros i x y Hx Hy. destruct (decide (i = j)) as [->|Hne].
    + rewrite list_lookup_insert_eq in Hx by (by eapply lookup_lt_Some).
      simplify_eq. done.
    + rewrite list_lookup_insert_ne in Hx by done.
      assert (x = y) as -> by congruence. done.
  - unfold path_ok. simpl. rewrite Hp. by rewrite length_insert.
Qed.

(** The frames of the levels [n] and deeper hold what [mmap] has
    answered: an address that was not mapped in [w0], which is the mark
    of failure or a page of [w], a different page each. *)
Definition splits_fresh (w0 w : world) (n dep : nat) : Prop :=
  (∀ j pn, (n ≤ j < dep)%nat → cur_path w !! j = Some pn →
     pages w0 !! pn_split pn = None
     ∧ (pn_split pn = -1 ∨ is_Some (pages w !! pn_split pn)))
  ∧ (∀ j j' pn pn', (n ≤ j < dep)%nat → (n ≤ j' < dep)%nat →
       cur_path w !! j = Some pn → cur_path w !! j' = Some pn' →
       is_Some (pages w !! pn_split pn) →
       pn_split pn = pn_split pn' → j = j').

(** no request for these levels has failed *)
Definition splits_mapped (w : world) (n dep : nat) : Prop :=
  ∀ j pn, (n ≤ j < dep)%nat → cur_path w !! j = Some pn →
    is_Some (pages w !! pn_split pn).

(** what [mmap] has answered for level [n] on top of the answers for
    the deeper levels *)
Lemma splits_fresh_step w0 w w2 n dep pn a :
  bounded w0 → bounded w → ext w0 w → splits_fresh w0 w (S n) dep →
  cur_path w !! n = Some pn →
  (a = -1 ∧ pages w2 = pages w
   ∨ a = next_page w ∧ pages w2 = <[a := zero_block]> (pages w)) →
  cur_path w2 = <[n := set_pn_split a pn]> (cur_path w) →
  splits_fresh w0 w2 n dep.
Proof.
  intros Hb0 Hb Hext [Hf Hi] Hn Hp2 Hc2.
  pose proof (bounded_failed _ Hb0) as Hm0. pose proof (bounded_failed _ Hb) as Hm.
  destruct Hb0 as [Hb0 _]. pose proof Hb as [Hbp Hbn].
  assert (Hlt : (n < length (cur_path w))%nat) by (by eapply lookup_lt_Some).
  assert (Hnew : pages w0 !! next_page w = None).
  { destruct (pages w0 !! next_page w) as [b|] eqn:E; [|done].
    apply (ext_old _ _ Hext) in E. apply Hbp in E. lia. }
  assert (Hold : ∀ j pn', (S n ≤ j < dep)%nat → cur_path w !! j = Some pn' →
            pn_split pn' ≠ next_page w).
  { intros j pn' Hj Hl Heq. destruct (Hf j pn' Hj Hl) as [_ [H1|[b Hb']]]; [lia|].
    apply Hbp in Hb'. lia. }
  assert (Hgrow : ∀ x, is_Some (pages w !! x) → is_Some (pages w2 !! x)).
  { intros x Hx. destruct Hp2 as [[_ ->]|[-> ->]]; [done|].
    destruct (decide (x = next_page w)) as [->|Hne].
    - rewrite lookup_insert_eq. eauto.
    - by rewrite lookup_insert_ne. }
  assert (Hback : ∀ x, x ≠ a → is_Some (pages w2 !! x) → is_Some (pages w !! x)).
  { intros x Hx. destruct Hp2 as [[_ ->]|[-> ->]]; [done|].
    by rewrite lookup_insert_ne. }
  assert (Ha : pages w0 !! a = None) by (destruct Hp2 as [[-> _]|[-> _]]; done).
  assert (Hamap : is_Some (pages w2 !! a) → a = next_page w).
  { destruct Hp2 as [[-> Hp2]|[-> _]]; [|done]. rewrite Hp2, Hm. by intros [? ?]. }
  split.
  - intros j pn' Hj Hl. rewrite Hc2 in Hl.
    destruct (decide (j = n)) as [->|Hne].
    + rewrite list_lookup_insert_eq in Hl by done. simplify_eq. simpl.
      split; [done|]. destruct Hp2 as [[-> _]|[-> ->]]; [by left|right].
      rewrite lookup_insert_eq. eauto.
    + rewrite list_lookup_insert_ne in Hl by done.
      destruct (Hf j pn' ltac:(lia) Hl) as [H1 H2]. split; [done|].
      destruct H2 as [H2|H2]; [by left|right]. by apply Hgrow.
  - intros j j' pn1 pn2 Hj Hj' Hl Hl' Hmap Heq. rewrite Hc2 in Hl, Hl'.
    destruct (decide (j = n)) as [->|Hne]; destruct (decide (j' = n)) as [->|Hne'];
      [done| | |].
    + rewrite list_lookup_insert_eq in Hl by done.
      rewrite list_lookup_insert_ne in Hl' by done. simplify_eq. simpl in *.
      exfalso. apply (Hold j' pn2 ltac:(lia) Hl'). rewrite <- Heq. by apply Hamap.
    + rewrite list_lookup_insert_eq in Hl' by done.
      rewrite list_lookup_insert_ne in Hl by done. simplify_eq. simpl in *.
      exfalso. apply (Hold j pn1 ltac:(lia) Hl). rewrite Heq. apply Hamap.
      by rewrite <- Heq.
    + rewrite list_lookup_insert_ne in Hl, Hl' by done.
      apply (Hi j j' pn1 pn2); try done; try lia.
      apply Hback; [|done]. intros Hx. apply (Hold j pn1 ltac:(lia) Hl).
      rewrite Hx. apply Hamap. by rewrite <- Hx.
Qed.

Lemma splits_mapped_step w w2 n dep pn a :
  splits_mapped w (S n) dep → cur_path w !! n = Some pn →
  pages w2 = <[a := zero_block]> (pages w) →
  cur_path w2 = <[n := set_pn_split a pn]> (cur_path w) →
  splits_mapped w2 n dep.
Proof.
  intros Hm Hn Hp2 Hc2 j pn' Hj Hl. rewrite Hc2 in Hl. rewrite Hp2.
  assert (Hlt : (n < length (cur_path w))%nat) by (by eapply lookup_lt_Some).
  destruct (decide (j = n)) as [->|Hne].
  - rewrite list_lookup_insert_eq in Hl by done. simplify_eq. simpl.
    rewrite lookup_insert_eq. eauto.
  - rewrite list_lookup_insert_ne in Hl by done.
    destruct (decide (pn_split pn' = a)) as [->|Hna].
    + rewrite lookup_insert_eq. eauto.
    + rewrite lookup_insert_ne by done. apply (Hm j pn'); [lia|done].
Qed.

Lemma splits_fresh_below w0 w ds dep j pn :
  bounded w → splits_fresh w0 w ds dep → (ds ≤ j < dep)%nat →
  cur_path w !! j = Some pn → pn_split pn ≠ next_page w.
Proof.
  intros [Hb Hn] [Hf _] Hj Hl Heq. destruct (Hf j pn Hj Hl) as [_ [H1|[b Hb']]].
  - lia.
  - apply Hb in Hb'. lia.
Qed.

(** a new page that is none of those of the frames *)
Lemma splits_fresh_mono w0 w w' ds dep :
  bounded w → splits_fresh w0 w ds dep → cur_path w' = cur_path w →
  (pages w' = pages w ∨ pages w' = <[next_page w := zero_block]> (pages w)) →
  splits_fresh w0 w' ds dep.
Proof.
  intros Hb Hsf Hc Hp. pose proof Hsf as [Hf Hi]. split.
  - intros j pn Hj Hl. rewrite Hc in Hl. destruct (Hf j pn Hj Hl) as [H1 H2].
    split; [done|]. destruct H2 as [H2|H2]; [by left|right].
    destruct Hp as [->| ->]; [done|].
    rewrite lookup_insert_ne; [done|]. apply not_eq_sym.
    exact (splits_fresh_below w0 w ds dep j pn Hb Hsf Hj Hl).
  - intros j j' pn pn' Hj Hj' Hl Hl' Hmap. rewrite Hc in Hl, Hl'.
    apply (Hi j j' pn pn' Hj Hj' Hl Hl').
    destruct Hp as [Hp|Hp]; rewrite Hp in Hmap; [done|].
    rewrite lookup_insert_ne in Hmap; [done|]. apply not_eq_sym.
    exact (splits_fresh_below w0 w ds dep j pn Hb Hsf Hj Hl).
Qed.

Lemma splits_mapped_mono w w' ds dep :
  splits_mapped w ds dep → cur_path w' = cur_path w →
  (∀ a, is_Some (pages w !! a) → is_Some (pages w' !! a)) →
  splits_mapped w' ds dep.
Proof.
  intros Hm Hc Hp j pn Hj Hl. rewrite Hc in Hl. by apply Hp, (Hm j pn).
Qed.

Lemma bounded_same w w' :
  bounded w → pages w' = pages w → next_page w' = next_page w → bounded w'.
Proof. intros [H1 H2] Hp Hn. split; rewrite ?Hp, ?Hn; done. Qed.

Lemma fresh_in_old w0 w :
  bounded w0 → bounded w → ext w0 w → pages w0 !! next_page w = None.
Proof.
  intros [Hb0 _] [Hb _] Hext.
  destruct (pages w0 !! next_page w) as [b|] eqn:E; [|done].
  apply (ext_old _ _ Hext) in E. apply Hb in E. lia.
Qed.

(** The loop of [preallocate_splits] never aborts: [mmap] does not
    answer null.  It notes an answer in the frame of every full level
    from the deepest on; with every request granted they are pages. *)
Lemma preallocate_loop_spec w0 dep n : ∀ acc w,
  bounded w0 → depth (tree w0) = Z.of_nat dep →
  ext w0 w → bounded w → splits_fresh w0 w n dep →
  (n ≤ dep)%nat → (dep ≤ length (cur_path w))%nat →
  ((n < dep)%nat → ∃ pn, cur_path w !! n = Some pn ∧ pn_num_keys pn = 255) →
  ∃ d acc' w', preallocate_loop n acc w = Some (Go (Z.of_nat d) acc', w')
    ∧ ext w0 w' ∧ bounded w'
    ∧ new_root (tree w') = new_root (tree w)
    ∧ (dep ≤ length (cur_path w'))%nat
    ∧ next_page w' ≤ next_page w + Z.of_nat n
    ∧ (all_granted w → all_granted w')
    ∧ ∃ ds,
        (d = 0%nat ∧ ds = 0%nat
           ∧ ((0 < dep)%nat →
              ∃ pn, cur_path w' !! 0%nat = Some pn ∧ pn_num_keys pn = 255)
         ∨ ds = S d ∧ (S d ≤ dep)%nat
           ∧ ∃ pn, cur_path w' !! d = Some pn ∧ pn_num_keys pn ≠ 255)
        ∧ splits_fresh w0 w' ds dep
        ∧ (∀ m, granted w (n + m) → splits_mapped w n dep →
             granted w' m ∧ splits_mapped w' ds dep).
Proof.
  induction n as [|n IH]; intros acc w Hb0 Hdep Hext Hb Hsf Hn Hlen Hfull.
  - simpl. exists 0%nat, acc, w. split; [done|]. split; [done|]. split; [done|].
    split; [done|]. split; [done|]. split; [lia|]. split; [done|].
    exists 0%nat. split; [left; done|]. split; [done|]. intros m Hg Hm. done.
  - simpl. rewrite path_at_cur by lia. rewrite Nat2Z.id.
    destruct (lookup_lt_is_Some_2 (cur_path w) n) as [pn Hpn]; [lia|].
    rewrite Hpn. simpl. change (256 - 1) with 255.
    destruct (pn_num_keys pn =? 255) eqn:E.
    + apply Z.eqb_eq in E.
      destruct (alloc_page_spec w Hb)
        as (a & w1 & Ha & Hext1 & Hb1 & Ht1 & Ha0 & Hnp1 & Hag1 & Hcase).
      unfold new_index_block. rewrite Ha.
      assert (Hc1 : cur_path w1 = cur_path w) by (unfold cur_path; by rewrite Ht1).
      destruct (set_split_spec w1 n pn a)
        as (w2 & Hpu & Hext2 & Hpg2 & Hnp2 & Hnr2 & Hor2 & Hcp2);
        [by rewrite Hc1|].
      rewrite Hpu. simpl. rewrite (proj2 (Z.eqb_neq _ _) Ha0).
      assert (Hlen2 : length (cur_path w2) = length (cur_path w)).
      { by rewrite Hcp2, length_insert, Hc1. }
      assert (Hext02 : ext w0 w2).
      { eapply ext_trans; [done| |done]. eapply ext_trans; done. }
      assert (Hsf2 : splits_fresh w0 w2 n dep).
      { eapply (splits_fresh_step w0 w w2 n dep pn a); try done.
        - destruct Hcase as [(-> & Hpg1 & _)|(-> & _ & Hpg1 & _)];
            [left|right]; (split; [done|]); congruence.
        - by rewrite Hcp2, Hc1. }
      destruct (IH (acc + 1) w2) as (d & acc' & w' & Hrun & H1 & H2 & H3 & H4 & H5 & H6
                                      & ds & Hds & Hsf' & Hmap); try done; try lia.
      * eapply bounded_same; [exact Hb1|done..].
      * intros _. exists (set_pn_split a pn).
        rewrite Hcp2, Hc1. rewrite list_lookup_insert_eq by lia. done.
      * exists d, acc', w'. split; [done|]. split; [done|]. split; [done|].
        split; [rewrite H3, Hnr2; by rewrite Ht1|]. split; [done|].
        split; [lia|].
        split. { intros Hg. apply H6. unfold all_granted. rewrite Hor2. by apply Hag1. }
        exists ds. split; [done|]. split; [done|].
        intros m [Hg Hroom] Hm.
        destruct Hcase as [(-> & _ & Hng)|(-> & Hnone & Hpg1 & Hnp1')].
        { destruct Hng. split; [done|lia]. }
        apply Hmap.
        -- split; [unfold all_granted; rewrite Hor2; by apply Hag1|]. lia.
        -- apply (splits_mapped_step w w2 n dep pn (next_page w) Hm Hpn).
           ++ congruence.
           ++ by rewrite Hcp2, Hc1.
    + apply Z.eqb_neq in E. exists n, acc, w. split; [done|].
      split; [done|]. split; [done|]. split; [done|]. split; [done|].
      split; [lia|]. split; [done|].
      exists (S n). split; [right; split; [done|]; split; [lia|]; eauto|].
      split; [done|]. intros m Hg Hm. split; [|done].
      eapply granted_le; [done|lia].
Qed.

(** the answers of [mmap] when the preallocation has gone through: one
    in the frame of each level from [ds] on, the level above having
    room, and one for a new root when all levels split *)
Definition stocked (w0 w : world) (dep ds : nat) : Prop :=
  ext w0 w ∧ bounded w ∧ (dep ≤ length (cur_path w))%nat
  ∧ splits_fresh w0 w ds dep ∧ (ds ≤ dep)%nat
  ∧ ((0 < ds)%nat →
     ∃ pn, cur_path w !! (ds - 1)%nat = Some pn ∧ pn_num_keys pn ≠ 255)
  ∧ (ds = 0%nat →
     pages w0 !! new_root (tree w) = None
     ∧ (new_root (tree w) = -1 ∨ is_Some (pages w !! new_root (tree w)))
     ∧ ∀ j pn, (j < dep)%nat → cur_path w !! j = Some pn →
         is_Some (pages w !! new_root (tree w)) →
         pn_split pn ≠ new_root (tree w)).

Lemma alloc_new_root w0 w dep :
  bounded w0 → depth (tree w0) = Z.of_nat dep → ext w0 w → bounded w →
  (dep ≤ length (cur_path w))%nat → splits_fresh w0 w 0 dep → ∀ d acc,
  (d ≤ dep)%nat →
  ∃ w',
    (let '(a, w) := new_index_block w in
     let w := with_tree w (set_new_root (tree w) a) in
     if a =? 0 then w ← free_preallocated_splits w (Z.of_nat d); Some (Abort, w)
     else Some (Go (Z.of_nat d) (acc + 1), w)) = Some (Go (Z.of_nat d) (acc + 1), w')
    ∧ stocked w0 w' dep 0
    ∧ next_page w' ≤ next_page w + 1
    ∧ (all_granted w → all_granted w')
    ∧ (∀ m, granted w (S m) → splits_mapped w 0 dep →
         granted w' m ∧ splits_mapped w' 0 dep
         ∧ is_Some (pages w' !! new_root (tree w'))).
Proof.
  intros Hb0 Hdep Hext Hb Hlen Hsf d acc Hd.
  destruct (alloc_page_spec w Hb)
    as (a & w1 & Ha & Hext1 & Hb1 & Ht1 & Ha0 & Hnp1 & Hag1 & Hcase).
  unfold new_index_block. rewrite Ha.
  assert (Hc1 : cur_path w1 = cur_path w) by (unfold cur_path; by rewrite Ht1).
  set (w2 := with_tree w1 (set_new_root (tree w1) a)).
  assert (Hc2 : cur_path w2 = cur_path w) by (rewrite <- Hc1; done).
  assert (Hext2 : ext w0 w2).
  { eapply ext_trans; [done| |by apply ext_with_tree].
    eapply ext_trans; done. }
  rewrite (proj2 (Z.eqb_neq _ _) Ha0).
  exists w2. split; [done|].
  assert (Hpg : pages w2 = pages w ∨ pages w2 = <[next_page w := zero_block]> (pages w)).
  { destruct Hcase as [(_ & Hpg1 & _)|(-> & _ & Hpg1 & _)]; [by left|by right]. }
  split; [|split; [done|split; [done|]]].
  - split; [done|]. split; [by eapply bounded_same|].
    split; [by rewrite Hc2|].
    split; [exact (splits_fresh_mono w0 w w2 0 dep Hb Hsf Hc2 Hpg)|].
    split; [lia|]. split; [lia|]. intros _. simpl.
    destruct Hcase as [(-> & Hpg1 & _)|(-> & Hnone & Hpg1 & _)].
    + split; [by apply bounded_failed|]. split; [by left|].
      intros j pn Hj Hl [b Hb']. rewrite Hpg1 in Hb'.
      rewrite (bounded_failed _ Hb) in Hb'. done.
    + split; [by eapply fresh_in_old|].
      split; [right; rewrite Hpg1, lookup_insert_eq; eauto|].
      intros j pn Hj Hl _. rewrite Hc2 in Hl.
      eapply splits_fresh_below; [exact Hb|done| |done]. lia.
  - intros m [Hg Hroom] Hm.
    destruct Hcase as [(-> & _ & Hng)|(-> & Hnone & Hpg1 & Hnp1')].
    { destruct Hng. split; [done|lia]. }
    split; [split; [by apply Hag1|simpl; lia]|].
    split.
    + eapply splits_mapped_mono; [done|done|]. intros x Hx. simpl. rewrite Hpg1.
      destruct (decide (x = next_page w)) as [->|Hne].
      * rewrite lookup_insert_eq. eauto.
      * by rewrite lookup_insert_ne.
    + simpl. rewrite Hpg1, lookup_insert_eq. eauto.
Qed.

Lemma preallocate_top_spec w0 dep d acc w ds0 :
  bounded w0 → depth (tree w0) = Z.of_nat dep →
  ext w0 w → bounded w → (dep ≤ length (cur_path w))%nat →
  (d = 0%nat ∧ ds0 = 0%nat
     ∧ ((0 < dep)%nat →
        ∃ pn, cur_path w !! 0%nat = Some pn ∧ pn_num_keys pn = 255)
   ∨ ds0 = S d ∧ (S d ≤ dep)%nat
     ∧ ∃ pn, cur_path w !! d = Some pn ∧ pn_num_keys pn ≠ 255) →
  splits_fresh w0 w ds0 dep →
  ∃ d' acc' w' ds, preallocate_top (Z.of_nat d) acc w = Some (Go (Z.of_nat d') acc', w')
    ∧ (d' ≤ dep)%nat ∧ stocked w0 w' dep ds
    ∧ next_page w' ≤ next_page w + 2
    ∧ (all_granted w → all_granted w')
    ∧ (∀ m, granted w (2 + m) → splits_mapped w ds0 dep →
         granted w' m ∧ splits_mapped w' ds dep
         ∧ (ds = 0%nat → is_Some (pages w' !! new_root (tree w')))).
Proof.
  intros Hb0 Hdep Hext Hb Hlen Hcase Hsf. unfold preallocate_top.
  rewrite (ext_depth _ _ Hext), Hdep. change (256 - 1) with 255.
  destruct Hcase as [(-> & -> & Hfull)|(-> & Hd & pn & Hpn & Hnf)].
  - destruct dep as [|dep'].
    + simpl.
      destruct (alloc_new_root w0 w 0 Hb0 Hdep Hext Hb Hlen Hsf 0%nat acc)
        as (w' & Hrun & Hst & Hnp & Hag & Hmap); [lia|].
      simpl in Hrun. rewrite Hrun.
      exists 0%nat, (acc + 1), w', 0%nat. split; [done|]. split; [done|].
      split; [done|]. split; [lia|]. split; [done|].
      intros m Hg Hm. destruct (Hmap (S m)) as (G1 & G2 & G3); [|done|].
      { eapply granted_le; [done|lia]. }
      split; [eapply granted_le; [done|lia]|]. done.
    + destruct (Hfull ltac:(lia)) as (pn & Hpn & Hf).
      rewrite (proj2 (Z.eqb_neq _ _)) by lia. simpl.
      rewrite path_at_cur by lia. rewrite Nat2Z.id.
      rewrite Hpn. simpl. rewrite Hf. simpl.
      destruct (alloc_page_spec w Hb)
        as (a & w1 & Ha & Hext1 & Hb1 & Ht1 & Ha0 & Hnp1 & Hag1 & Hcase).
      change (new_index_block w) with (alloc_page_for_block w). rewrite Ha.
      assert (Hc1 : cur_path w1 = cur_path w) by (unfold cur_path; by rewrite Ht1).
      destruct (set_split_spec w1 0 pn a)
        as (w2 & Hpu & Hext2 & Hpg2 & Hnp2 & Hnr2 & Hor2 & Hcp2);
        [by rewrite Hc1|].
      rewrite Hpu. simpl. rewrite (proj2 (Z.eqb_neq _ _) Ha0). simpl.
      assert (Hlen2 : length (cur_path w2) = length (cur_path w)).
      { by rewrite Hcp2, length_insert, Hc1. }
      assert (Hext02 : ext w0 w2).
      { eapply ext_trans; [done| |done]. eapply ext_trans; done. }
      assert (Hb2 : bounded w2) by (eapply bounded_same; [exact Hb1|done..]).
      assert (Hsf1 : splits_fresh w0 w 1 (S dep')).
      { destruct Hsf as [Hf1 Hf2]. split.
        - intros j pn' Hj. apply Hf1. lia.
        - intros j j' pn1 pn2 Hj Hj'. apply Hf2; lia. }
      assert (Hsf2 : splits_fresh w0 w2 0 (S dep')).
      { eapply (splits_fresh_step w0 w w2 0 (S dep') pn a); try done.
        - destruct Hcase as [(-> & Hpg1 & _)|(-> & _ & Hpg1 & _)];
            [left|right]; (split; [done|]); congruence.
        - by rewrite Hcp2, Hc1. }
      destruct (alloc_new_root w0 w2 (S dep') Hb0 Hdep Hext02 Hb2 ltac:(lia) Hsf2
                  0%nat (acc + 1)) as (w' & Hrun & Hst & Hnp & Hag & Hmap); [lia|].
      simpl in Hrun. rewrite Hrun.
      exists 0%nat, (acc + 1 + 1), w', 0%nat. split; [done|]. split; [lia|].
      split; [done|]. split; [lia|].
      split. { intros Hg. apply Hag. unfold all_granted. rewrite Hor2. by apply Hag1. }
      intros m [Hg Hroom] Hm.
      destruct Hcase as [(-> & _ & Hng)|(-> & Hnone & Hpg1 & Hnp1')].
      { destruct Hng. split; [done|lia]. }
      destruct (Hmap m) as (G1 & G2 & G3).
      * split; [unfold all_granted; rewrite Hor2; by apply Hag1|]. lia.
      * apply (splits_mapped_step w w2 0 (S dep') pn (next_page w)).
        -- intros j pn' Hj. apply Hm. lia.
        -- done.
        -- congruence.
        -- by rewrite Hcp2, Hc1.
      * done.
  - assert (Hfl : (if Z.of_nat dep =? 0 then Some true
                   else if Z.of_nat d =? 0
                        then pn ← path_at w (Z.of_nat d); Some (pn_num_keys pn =? 255)
                        else Some false) = Some false).
    { rewrite (proj2 (Z.eqb_neq _ _)) by lia.
      destruct (Z.of_nat d =? 0); [|done].
      rewrite path_at_cur by lia. rewrite Nat2Z.id, Hpn. simpl.
      by rewrite (proj2 (Z.eqb_neq _ _)). }
    rewrite Hfl. simpl. exists d, acc, w, (S d). split; [done|]. split; [lia|].
    split.
    { split; [done|]. split; [done|]. split; [done|]. split; [done|].
      split; [lia|]. split; [|done].
      intros _. replace (S d - 1)%nat with d by lia. eauto. }
    split; [lia|]. split; [done|].
    intros m Hg Hm. split; [eapply granted_le; [done|lia]|]. done.
Qed.

(** The preallocation returns, and never the null leaf.  What it has
    set aside are the answers of [mmap]: each one a page that is new
    and none of the others, or the mark of a request that has failed;
    with every request granted they are all pages. *)
Lemma preallocate_splits_spec w dep :
  bounded w → depth (tree w) = Z.of_nat dep → (dep ≤ length (cur_path w))%nat →
  ∃ a w' ds, preallocate_splits w = Some (a, w') ∧ a ≠ 0
    ∧ stocked w w' dep ds
    ∧ pages w !! a = None
    ∧ (is_Some (pages w' !! a) →
         (∀ j pn, (ds ≤ j < dep)%nat → cur_path w' !! j = Some pn → pn_split pn ≠ a)
         ∧ (ds = 0%nat → new_root (tree w') ≠ a))
    ∧ next_page w' ≤ next_page w + Z.of_nat dep + 3
    ∧ (all_granted w → all_granted w')
    ∧ (granted w (dep + 3) →
         is_Some (pages w' !! a) ∧ splits_mapped w' ds dep
         ∧ (ds = 0%nat → is_Some (pages w' !! new_root (tree w')))).
Proof.
  intros Hb Hdep Hlen. unfold preallocate_splits.
  set (w00 := with_tree w (set_new_root (tree w) 0)).
  assert (Hext0 : ext w w00) by (by apply ext_with_tree).
  assert (Hb00 : bounded w00) by (by eapply bounded_same).
  destruct (preallocate_loop_spec w dep dep 0 w00)
    as (d & acc & w1 & Hrun & Hext1 & Hb1 & _ & Hlen1 & Hnp1 & Hag1
        & ds0 & Hcase & Hsf1 & Hmap1); try done.
  { split; intros; lia. }
  { lia. }
  replace (Z.to_nat (depth (tree w00))) with dep by (simpl; lia).
  rewrite Hrun. simpl.
  destruct (preallocate_top_spec w dep d acc w1 ds0 Hb Hdep Hext1 Hb1 Hlen1 Hcase Hsf1)
    as (d' & acc' & w2 & ds & Hrun2 & Hd' & Hst & Hnp2 & Hag2 & Hmap2).
  rewrite Hrun2. simpl.
  pose proof Hst as (Hext2 & Hb2 & Hlen2 & Hsf & Hds & Hstop & Hroot).
  destruct (alloc_page_spec w2 Hb2)
    as (a & w3 & Ha & Hext3 & Hb3 & Ht3 & Ha0 & Hnp3 & Hag3 & Hcase3).
  unfold new_leaf_block. rewrite Ha.
  assert (Hc3 : cur_path w3 = cur_path w2) by (unfold cur_path; by rewrite Ht3).
  assert (Hext03 : ext w w3) by (by eapply ext_trans).
  rewrite (proj2 (Z.eqb_neq _ _) Ha0).
  set (w4 := with_tree w3 _).
  assert (Hc4 : cur_path w4 = cur_path w2) by (rewrite <- Hc3; done).
  assert (Hnr4 : new_root (tree w4) = new_root (tree w2)) by (simpl; by rewrite Ht3).
  assert (Hpg : pages w4 = pages w2
                ∨ pages w4 = <[next_page w2 := zero_block]> (pages w2)).
  { destruct Hcase3 as [(_ & Hpg3 & _)|(-> & _ & Hpg3 & _)]; [by left|by right]. }
  assert (Hmap : ∀ x, is_Some (pages w2 !! x) → is_Some (pages w4 !! x)).
  { intros x Hx. destruct Hpg as [->| ->]; [done|].
    destruct (decide (x = next_page w2)) as [->|Hne].
    - rewrite lookup_insert_eq. eauto.
    - by rewrite lookup_insert_ne. }
  assert (Hback : ∀ x, x ≠ next_page w2 → is_Some (pages w4 !! x) →
            is_Some (pages w2 !! x)).
  { intros x Hx. destruct Hpg as [->| ->]; [done|]. by rewrite lookup_insert_ne. }
  assert (Hnrn : ds = 0%nat → new_root (tree w2) ≠ next_page w2).
  { intros Hz Heq. destruct (Hroot Hz) as (_ & [H1|[b H1]] & _).
    - destruct Hb2 as [_ ?]. lia.
    - rewrite Heq in H1. destruct Hb2 as [Hbp _]. apply Hbp in H1. lia. }
  exists a, w4, ds. split; [done|]. split; [done|].
  split; [|split; [|split; [|split; [|split]]]].
  - split; [|split; [|split; [|split; [|split; [|split]]]]].
    + eapply ext_trans; [done|done|]. by apply ext_with_tree.
    + by eapply bounded_same.
    + by rewrite Hc4.
    + exact (splits_fresh_mono w w2 w4 ds dep Hb2 Hsf Hc4 Hpg).
    + done.
    + intros Hpos. rewrite Hc4. by apply Hstop.
    + intros Hz. destruct (Hroot Hz) as (H1 & H2 & H3). rewrite Hnr4, Hc4.
      split; [done|]. split.
      * destruct H2 as [H2|H2]; [by left|right]. by apply Hmap.
      * intros j pn Hj Hl Hm'. apply (H3 j pn Hj Hl).
        apply Hback; [|done]. by apply Hnrn.
  - destruct Hcase3 as [(-> & _)|(-> & _)].
    + by apply bounded_failed.
    + by eapply fresh_in_old.
  - intros Hm'.
    assert (a = next_page w2) as ->.
    { destruct Hcase3 as [(-> & Hpg3 & _)|(-> & _)]; [|done].
      simpl in Hm'. rewrite Hpg3, (bounded_failed _ Hb2) in Hm'. by destruct Hm'. }
    split.
    + intros j pn Hj Hl. rewrite Hc4 in Hl.
      by eapply (splits_fresh_below w w2 ds dep j pn).
    + intros Hz. rewrite Hnr4. by apply Hnrn.
  - change (next_page w00) with (next_page w) in Hnp1.
    change (next_page w4) with (next_page w3). lia.
  - intros Hg. apply Hag3, Hag2, Hag1. done.
  - intros [Hg Hroom].
    destruct (Hmap1 3%nat) as [Hg1 Hm1].
    { split; [done|]. simpl. lia. }
    { intros j pn Hj. lia. }
    destruct (Hmap2 1%nat Hg1 Hm1) as (Hg2 & Hm2 & Hr2).
    destruct Hcase3 as [(-> & _ & Hng)|(-> & Hnone & Hpg3 & Hnp3')].
    { destruct Hng. destruct Hg2 as [? ?]. split; [done|lia]. }
    split; [simpl; rewrite Hpg3, lookup_insert_eq; eauto|].
    split.
    + by eapply splits_mapped_mono.
    + intros Hz. rewrite Hnr4. by apply Hmap, Hr2.
Qed.

(** ** The whole insertion *)

(** the descent only reads index nodes *)
Lemma descend_stable_index h h' rt dep G k n : ∀ a,
  tree_inv h rt dep G None → G !! a = Some n →
  (∀ x m, G !! x = Some (S m) → (S m ≤ n)%nat → h' !! x = h !! x) →
  descend h' n a k = descend h n a k.
Proof.
  induction n as [|n IH]; intros a HT Ha Hsame; simpl; [done|].
  rewrite (Hsame a n Ha) by lia.
  destruct (ti_blk _ _ _ _ _ HT a _ Ha) as (b & Hb & _). rewrite Hb. simpl.
  apply IH; [done| |].
  - eapply (ti_child HT); [done..|].
    pose proof (scan_index_keys_spec b k) as (? & _). done.
  - intros x m Hx Hm. apply (Hsame x m Hx). lia.
Qed.

(** the shape only depends on the pages of the nodes *)
Lemma tree_inv_ext h h' rt dep G hole :
  tree_inv h rt dep G hole → (∀ a n, G !! a = Some n → h' !! a = h !! a) →
  tree_inv h' rt dep G hole.
Proof.
  intros HT Hsame. split.
  - apply HT.
  - apply HT.
  - intros a n Ha. rewrite (Hsame a n Ha). eapply ti_blk; done.
  - intros a n b c Ha Hb. rewrite (Hsame a _ Ha) in Hb.
    exact (ti_kids _ _ _ _ _ HT a n b c Ha Hb).
  - intros a n b Ha Hb. rewrite (Hsame a _ Ha) in Hb.
    exact (ti_nodup _ _ _ _ _ HT a n b Ha Hb).
  - intros a a' n n' b b' c Ha Ha' Hb Hb'.
    rewrite (Hsame a _ Ha) in Hb. rewrite (Hsame a' _ Ha') in Hb'.
    exact (ti_disj _ _ _ _ _ HT a a' n n' b b' c Ha Ha' Hb Hb').
  - intros a n b Ha Hb. rewrite (Hsame a _ Ha) in Hb.
    exact (ti_min _ _ _ _ _ HT a n b Ha Hb).
  - intros b Hb. rewrite (Hsame rt _ (ti_root _ _ _ _ _ HT)) in Hb.
    exact (ti_rootmin _ _ _ _ _ HT b Hb).
Qed.

Lemma orphan_stable h h' G o :
  orphan h G o → (∀ a n, G !! a = Some (S n) → h' !! a = h !! a) →
  orphan h' G o.
Proof.
  intros Hor Hsame a n b Ha Hb. rewrite (Hsame a n Ha) in Hb.
  exact (Hor a n b Ha Hb).
Qed.

Lemma pnode_same_frame l l' leaf dep d :
  Forall2 same_frame l' l → pnode l' leaf dep d = pnode l leaf dep d.
Proof.
  intros HF. unfold pnode. case_decide; [done|].
  destruct (l !! d) as [pn|] eqn:E.
  - destruct (Forall2_lookup_r _ _ _ _ _ HF E) as (pn' & -> & (H1 & _)).
    simpl. by rewrite H1.
  - apply Forall2_length in HF.
    rewrite (lookup_ge_None_2 l' d); [done|].
    apply lookup_ge_None_1 in E. lia.
Qed.

Lemma frame_ok_same_frame h G dep k l l' leaf d :
  Forall2 same_frame l' l → frame_ok h G dep k l leaf d →
  frame_ok h G dep k l' leaf d.
Proof.
  intros HF (pn & b & H1 & H2 & H3 & H4 & H5 & H6).
  destruct (Forall2_lookup_r _ _ _ _ _ HF H1) as (pn' & Hl' & (E1 & E2 & E3)).
  exists pn', b. rewrite E1, E2, E3, (pnode_same_frame l l') by done. done.
Qed.

(** a leaf gets a new block *)
Lemma Inv_update_leaf w G leaf b b' :
  Inv w G → G !! leaf = Some O → pages w !! leaf = Some b → blk b' →
  (leaf ≠ root (tree w) → 128 ≤ num_keys b') →
  Inv (with_pages w (<[leaf := b']> (pages w))) G.
Proof.
  intros [HT Hd Hp Hn Hpath] HG Hb Hblk Hmin. split; simpl; try done.
  - eapply tree_inv_update; [done..| |].
    + intros Hne. simpl. by apply Hmin.
    + intros -> Hdep. pose proof (ti_root _ _ _ _ _ HT). simplify_eq.
  - intros a c Ha. destruct (decide (a = leaf)) as [->|Hne].
    + by eapply Hp.
    + rewrite lookup_insert_ne in Ha by done. by eapply Hp.
Qed.

Lemma Inv_bounded w G : Inv w G → bounded w.
Proof.
  intros [HT Hd Hp Hn Hpath]. split; [done|]. split; [|done].
  destruct (ti_blk _ _ _ _ _ HT _ _ (ti_root _ _ _ _ _ HT)) as (b & Hb & _).
  apply Hp in Hb. lia.
Qed.

(** the scan of a leaf only reads its keys *)
Lemma scan_leaf_keys_ext b b' k :
  num_keys b' = num_keys b →
  (∀ j, 0 ≤ j < num_keys b → get_key b' j = get_key b j) →
  scan_leaf_keys b' k = scan_leaf_keys b k.
Proof.
  intros Hnk Hk. destruct (scan_leaf_keys_spec b k) as (Hr & Hlo & Hhi).
  apply scan_leaf_keys_unique.
  - lia.
  - intros j Hj. rewrite Hk by lia. by apply Hlo.
  - intros Hlt. rewrite Hk by lia. apply Hhi. lia.
Qed.

(** [k] is a key of the tree [w], with the value [v]: the descent for [k]
    ends in a leaf that has [k] where the scan stops *)
Definition holds (w : world) (k v : Z) : Prop :=
  ∃ leaf lb,
    descend (pages w) (Z.to_nat (depth (tree w))) (root (tree w)) k = Some leaf
    ∧ pages w !! leaf = Some lb
    ∧ scan_leaf_keys lb k < num_keys lb
    ∧ get_key lb (scan_leaf_keys lb k) = k
    ∧ get_value lb (scan_leaf_keys lb k) = v.

(** the keys of every node are in ascending order *)
Definition sorted_nodes (w : world) (G : gmap Z nat) : Prop :=
  ∀ a n b i j, G !! a = Some n → pages w !! a = Some b →
    0 ≤ i ≤ j → j < num_keys b → get_key b i ≤ get_key b j.

(** what the operations have found when the descent is over *)
Record located (w : world) (G : gmap Z nat) (k leaf : Z) (lb : block) : Prop := {
  lo_inv : Inv w G;
  lo_frames : frames_ok (pages w) G (root (tree w)) (Z.to_nat (depth (tree w))) k
                (cur_path w) leaf;
  lo_leaf : pages w !! leaf = Some lb;
  lo_blk : blk lb;
  lo_path : depth (tree w) ≤ path_length (tree w)
}.

Lemma locate w G k :
  Inv w G →
  ∃ e w0, path_reserved w = (e, w0) ∧ same_contents w w0
    ∧ next_page w0 = next_page w
    ∧ (e = NOMEM
       ∨ e = OK ∧ ∃ leaf w1 lb, find_leaf k w0 = Some (leaf, w1)
           ∧ located w1 G k leaf lb ∧ same_contents w w1
           ∧ next_page w1 = next_page w).
Proof.
  intros HI.
  destruct (path_reserved_ok w G HI) as (e & w0 & Hpr & Hs0 & Hnp0 & Hcase).
  exists e, w0. split; [done|]. split; [done|]. split; [done|].
  destruct Hcase as [->|(-> & HI0 & Hlen0)]; [by left|right].
  split; [done|].
  destruct (find_leaf_spec w0 G k HI0 Hlen0)
    as (leaf & w1 & Hfl & HI1 & Hs1 & Hnp1 & Hpl1 & Hfr).
  pose proof Hs1 as (Hpg & _ & Hrt & _ & Hdep & _).
  destruct Hfr as (Hfr1 & Hfr2 & Hfr3).
  destruct (ti_blk _ _ _ _ _ (inv_tree _ _ HI1) leaf _ Hfr3) as (lb & Hlb & Hblk).
  exists leaf, w1, lb. split; [done|]. split.
  - split; try done.
    + rewrite Hpg, Hrt, Hdep. done.
    + rewrite Hdep, Hpl1. done.
  - split; [by eapply same_contents_trans|]. congruence.
Qed.

Lemma located_descend w G k leaf lb :
  located w G k leaf lb →
  descend (pages w) (Z.to_nat (depth (tree w))) (root (tree w)) k = Some leaf
  ∧ G !! leaf = Some O.
Proof.
  intros [HI (Hfr & Hp0 & HG) Hlb Hblk Hpath]. split; [|done].
  rewrite <- Hp0.
  rewrite (descend_frames _ G _ k _ leaf (Z.to_nat (depth (tree w)))) by done.
  rewrite Nat.sub_diag. simpl. unfold pnode. by rewrite decide_True.
Qed.

(** [insert] from the point where the leaf is known *)
Definition insert_tail (k v leaf : Z) (lb : block) (w : world)
  : option (bplus_error * world) :=
  let nk := num_keys lb in
  let i := scan_leaf_keys lb k in
  if (i <? nk) && (get_key lb i =? k) then
    w ← store w leaf (256 + i) v;
    Some (OK, w)
  else if nk <? 256 - 1 then
    w ← insert_into_leaf w leaf i k v;
    Some (OK, with_tree w (set_num_recs (tree w) (u64 (num_recs (tree w) + 1))))
  else
    '(split, w) ← preallocate_splits w;
    if split =? 0 then Some (NOMEM, w)
    else
      '(k', w) ← split_leaf w leaf split i k v;
      w ← insert_new_leaf w split k';
      Some (OK, with_tree w (set_num_recs (tree w) (u64 (num_recs (tree w) + 1)))).

Lemma insert_unfold k v w w0 leaf w1 lb :
  path_reserved w = (OK, w0) → find_leaf k w0 = Some (leaf, w1) →
  pages w1 !! leaf = Some lb →
  insert k v w = insert_tail k v leaf lb w1.
Proof.
  intros H1 H2 H3. unfold insert, insert_tail. rewrite H1.
  rewrite decide_True by done. rewrite H2. simpl. rewrite H3. done.
Qed.

Lemma sorted_nodes_update w G a b b' :
  sorted_nodes w G → pages w !! a = Some b → num_keys b' = num_keys b →
  (∀ j, 0 ≤ j < num_keys b → get_key b' j = get_key b j) →
  sorted_nodes (with_pages w (<[a := b']> (pages w))) G.
Proof.
  intros Hs Hb Hnk Hk x n c i j Hx Hc Hij Hj. simpl in Hc.
  destruct (decide (x = a)) as [->|Hne].
  - rewrite lookup_insert_eq in Hc. simplify_eq.
    rewrite !Hk by lia. eapply (Hs a n b); [done|done|lia|lia].
  - rewrite lookup_insert_ne in Hc by done. by eapply Hs.
Qed.

(** the key is there: its value is replaced *)
Lemma insert_found w G k v leaf lb :
  located w G k leaf lb →
  scan_leaf_keys lb k < num_keys lb → get_key lb (scan_leaf_keys lb k) = k →
  ∃ w', insert_tail k v leaf lb w = Some (OK, w')
    ∧ Inv w' G ∧ holds w' k v ∧ tree w' = tree w ∧ cursors w' = cursors w
    ∧ next_page w' = next_page w
    ∧ (sorted_nodes w G → sorted_nodes w' G)
    ∧ (∀ k' v', k' ≠ k → holds w' k' v' ↔ holds w k' v')
    ∧ pages w' = <[leaf := wr lb (256 + scan_leaf_keys lb k) v]> (pages w).
Proof.
  intros Hloc Hlt Hkey. pose proof Hloc as [HI Hfr Hlb Hblk Hpath].
  destruct (located_descend _ _ _ _ _ Hloc) as [Hdesc HG].
  destruct (scan_leaf_keys_spec lb k) as (Hr & _).
  pose proof (num_keys_range lb) as Hrange.
  set (i := scan_leaf_keys lb k) in *.
  unfold insert_tail. fold i.
  rewrite (proj2 (Z.ltb_lt _ _) Hlt), (proj2 (Z.eqb_eq _ _) Hkey). simpl.
  rewrite (store_at w leaf _ _ lb Hlb). simpl.
  set (lb' := wr lb (256 + i) v).
  assert (Hnk : num_keys lb' = num_keys lb) by (apply num_keys_wr; lia).
  assert (Hkeys : ∀ j, 0 ≤ j < num_keys lb → get_key lb' j = get_key lb j).
  { intros j Hj. unfold get_key, lb'. apply rd_wr_ne; lia. }
  eexists. split; [done|].
  split.
  { apply Inv_update_leaf with lb; [done..|by apply blk_wr|].
    intros Hne. rewrite Hnk.
    exact (ti_min _ _ _ _ _ (inv_tree _ _ HI) leaf _ lb HG Hlb Hne). }
  split.
  { exists leaf, lb'. simpl. split; [|split; [by rewrite lookup_insert_eq|]].
    - rewrite <- Hdesc.
      eapply (descend_stable_index (pages w)); [apply HI|apply HI|].
      intros x m Hx _. apply lookup_insert_ne. intros <-. congruence.
    - rewrite (scan_leaf_keys_ext lb lb' k Hnk Hkeys). fold i.
      split; [lia|]. split; [by rewrite Hkeys by lia|].
      unfold get_value, lb'. apply rd_wr_eq; [lia|]. rewrite Hblk. lia. }
  split; [done|]. split; [done|]. split; [done|].
  split; [intros Hs; by eapply sorted_nodes_update|].
  split; [|done].
  intros k' v' Hne.
  assert (Hdk : descend (<[leaf:=lb']> (pages w)) (Z.to_nat (depth (tree w)))
                  (root (tree w)) k'
                = descend (pages w) (Z.to_nat (depth (tree w))) (root (tree w)) k').
  { eapply (descend_stable_index (pages w)); [apply HI|apply HI|].
    intros x m Hx _. apply lookup_insert_ne. intros <-. congruence. }
  assert (Hother : ∀ j, 0 ≤ j < num_keys lb → get_key lb j = k' →
            get_value lb' j = get_value lb j).
  { intros j Hj Hkj. unfold get_value, lb'. apply rd_wr_ne; [lia|lia|].
    intros E. assert (j = i) as -> by lia. congruence. }
  unfold holds. simpl.
  split; intros (leaf' & b' & H1 & H2 & H3 & H4 & H5).
  - rewrite Hdk in H1. exists leaf'. destruct (decide (leaf' = leaf)) as [->|Hnl].
    + rewrite lookup_insert_eq in H2. injection H2 as <-. exists lb.
      rewrite (scan_leaf_keys_ext lb lb' k' Hnk Hkeys) in *.
      destruct (scan_leaf_keys_spec lb k') as (Hr' & _).
      rewrite Hkeys in H4 by lia. rewrite Hother in H5 by lia.
      split; [done|]. split; [done|]. split; [lia|done].
    + rewrite lookup_insert_ne in H2 by done. exists b'. done.
  - rewrite <- Hdk in H1. exists leaf'. destruct (decide (leaf' = leaf)) as [->|Hnl].
    + assert (b' = lb) as -> by congruence. exists lb'.
      rewrite lookup_insert_eq.
      rewrite (scan_leaf_keys_ext lb lb' k' Hnk Hkeys).
      destruct (scan_leaf_keys_spec lb k') as (Hr' & _).
      rewrite Hkeys by lia. rewrite Hother by lia.
      split; [done|]. split; [done|]. split; [lia|done].
    + exists b'. rewrite lookup_insert_ne by done. done.
Qed.

Lemma for_cursors_cases body w :
  (for_cursors body w = None ∧ cursor_list (tree w) ≠ 0)
  ∨ ∃ cs, for_cursors body w = Some (with_cursors w cs).
Proof.
  destruct (for_cursors body w) as [w'|] eqn:E.
  - right. exists (cursors w'). f_equal. by eapply for_cursors_only.
  - left. split; [done|]. intros Hz. by rewrite for_cursors_none in E.
Qed.

(** the key is new and the leaf has room *)
Lemma insert_room w G k v leaf lb :
  located w G k leaf lb →
  ¬ (scan_leaf_keys lb k < num_keys lb ∧ get_key lb (scan_leaf_keys lb k) = k) →
  num_keys lb < 255 →
  (cursor_list (tree w) = 0 → is_Some (insert_tail k v leaf lb w))
  ∧ ∀ e w', insert_tail k v leaf lb w = Some (e, w') →
      e = OK ∧ Inv w' G ∧ holds w' k v
      ∧ tree w' = set_num_recs (tree w) (u64 (num_recs (tree w) + 1))
      ∧ next_page w' = next_page w
      ∧ (∀ a, a ≠ leaf → pages w' !! a = pages w !! a)
      ∧ pages w' = <[leaf := blk_insert_into_leaf lb (scan_leaf_keys lb k) k v]> (pages w).
Proof.
  intros Hloc Hnf Hroom. pose proof Hloc as [HI Hfr Hlb Hblk Hpath].
  destruct (located_descend _ _ _ _ _ Hloc) as [Hdesc HG].
  destruct (scan_leaf_keys_spec lb k) as (Hr & Hlo & Hhi).
  pose proof (num_keys_range lb) as Hrange.
  set (i := scan_leaf_keys lb k) in *.
  unfold insert_tail. fold i.
  assert ((i <? num_keys lb) && (get_key lb i =? k) = false) as ->.
  { apply andb_false_iff. destruct (decide (i < num_keys lb)).
    - right. apply Z.eqb_neq. intros E. apply Hnf. done.
    - left. apply Z.ltb_ge. lia. }
  change (256 - 1) with 255. rewrite (proj2 (Z.ltb_lt _ _) Hroom).
  rewrite (insert_into_leaf_run w leaf i k v lb Hlb Hblk Hr).
  set (lb' := blk_insert_into_leaf lb i k v).
  destruct (blk_insert_into_leaf_spec lb i k v Hblk Hr Hroom)
    as (Hblk' & Hnk' & Hkeys & Hvals & _). fold lb' in Hblk', Hnk', Hkeys, Hvals.
  set (W := with_pages w (<[leaf:=lb']> (pages w))).
  assert (HIW : Inv W G).
  { apply Inv_update_leaf with lb; [done..|]. intros Hne. rewrite Hnk'.
    pose proof (ti_min _ _ _ _ _ (inv_tree _ _ HI) leaf _ lb HG Hlb Hne) as Hm.
    simpl in Hm. lia. }
  assert (HhW : ∀ cs t, root t = root (tree w) → depth t = depth (tree w) →
            holds (with_tree (with_cursors W cs) t) k v).
  { intros cs t Hrt Hdp. exists leaf, lb'. simpl. rewrite Hrt, Hdp.
    split; [|split; [by rewrite lookup_insert_eq|]].
    - rewrite <- Hdesc.
      eapply (descend_stable_index (pages w)); [apply HI|apply HI|].
      intros x m Hx _. apply lookup_insert_ne. intros <-. congruence.
    - assert (scan_leaf_keys lb' k = i) as ->.
      { apply scan_leaf_keys_unique.
        - lia.
        - intros j Hj. rewrite Hkeys by lia. rewrite decide_True by lia.
          apply Hlo. lia.
        - intros _. rewrite Hkeys by lia.
          rewrite decide_False, decide_True by lia. lia. }
      split; [lia|]. split.
      + rewrite Hkeys by lia. by rewrite decide_False, decide_True by lia.
      + rewrite Hvals by lia. by rewrite decide_False, decide_True by lia. }
  destruct (for_cursors_cases (λ _ bc, Some (insert_into_leaf_fix leaf i bc)) W)
    as [[Hnone Hcl]|[cs Hsome]].
  - rewrite Hnone. simpl. split; [intros Hz; by destruct Hcl|]. done.
  - rewrite Hsome. simpl. split; [eauto|]. intros e w' [= <- <-].
    split; [done|]. split.
    { eapply Inv_same; [exact HIW|done..|]. apply HI. }
    split; [by apply HhW|]. split; [done|]. split; [done|].
    split; [|done]. intros a Hne. simpl. by rewrite lookup_insert_ne.
Qed.

(** where the new key is after the split of its leaf *)
Lemma split_leaf_keys lb nb new k v :
  blk lb → blk nb → num_keys lb = 255 →
  let i := scan_leaf_keys lb k in
  ¬ (i < num_keys lb ∧ get_key lb i = k) →
  let L := blk_split_leaf_left lb new i k v in
  let R := blk_split_leaf_right lb nb new i k v in
  (i < 128 →
     ((∀ j, i ≤ j < 255 → get_key lb i ≤ get_key lb j) → k < get_key R 0)
     ∧ scan_leaf_keys L k = i ∧ i < num_keys L
     ∧ get_key L i = k ∧ get_value L i = v)
  ∧ (128 ≤ i →
     get_key R 0 ≤ k ∧ scan_leaf_keys R k = i - 128 ∧ i - 128 < num_keys R
     ∧ get_key R (i - 128) = k ∧ get_value R (i - 128) = v).
Proof.
  intros Hblk Hnb Hfull i Hnf L R.
  destruct (scan_leaf_keys_spec lb k) as (Hr & Hlo & Hhi). fold i in Hr, Hlo, Hhi.
  destruct (blk_split_leaf_spec lb nb new i k v Hblk Hnb ltac:(lia))
    as (_ & _ & HnL & HnR & HkL & HkR & _). fold L R in HnL, HnR, HkL, HkR.
  split; intros Hi.
  - split; [|split; [|split; [lia|]]].
    + intros Hsorted. destruct (HkR 0 ltac:(lia)) as [-> _]. unfold with_key.
      rewrite decide_False, decide_False by lia.
      specialize (Hsorted 127 ltac:(lia)). replace (128 + 0 - 1) with 127 by lia.
      specialize (Hhi ltac:(lia)).
      destruct (decide (get_key lb i = k)); [|lia]. exfalso. apply Hnf. lia.
    + apply scan_leaf_keys_unique.
      * lia.
      * intros j Hj. destruct (HkL j ltac:(lia)) as [-> _]. unfold with_key.
        rewrite decide_True by lia. apply Hlo. lia.
      * intros _. destruct (HkL i ltac:(lia)) as [-> _]. unfold with_key.
        rewrite decide_False, decide_True by lia. lia.
    + destruct (HkL i ltac:(lia)) as [-> ->]. unfold with_key, with_value.
      split; by rewrite decide_False, decide_True by lia.
  - assert (Hsep : get_key R 0 ≤ k).
    { destruct (HkR 0 ltac:(lia)) as [-> _]. unfold with_key.
      destruct (decide (128 + 0 < i)); [specialize (Hlo (128 + 0)); lia|].
      rewrite decide_True by lia. lia. }
    split; [done|]. split; [|split; [lia|]].
    + apply scan_leaf_keys_unique.
      * lia.
      * intros j Hj. destruct (HkR j ltac:(lia)) as [-> _]. unfold with_key.
        rewrite decide_True by lia. apply Hlo. lia.
      * intros _. destruct (HkR (i - 128) ltac:(lia)) as [-> _]. unfold with_key.
        rewrite decide_False, decide_True by lia. lia.
    + destruct (HkR (i - 128) ltac:(lia)) as [-> ->]. unfold with_key, with_value.
      split; by rewrite decide_False, decide_True by lia.
Qed.

Lemma located_path_long w G k leaf lb :
  located w G k leaf lb →
  (Z.to_nat (depth (tree w)) ≤ length (cur_path w))%nat.
Proof.
  intros [HI _ _ _ Hpath]. destruct (inv_path _ _ HI) as [Hpl Hp].
  pose proof (inv_depth _ _ HI). unfold cur_path.
  destruct (path (tree w)); simpl in *; lia.
Qed.

(** ** The order of the keys and the descent *)

(** the order of the tree of a world *)
Definition Ord (w : world) (G : gmap Z nat) (B : gmap Z bounds) : Prop :=
  ord_inv (pages w) (root (tree w)) G B (leaves (tree w)).

(** the descent for a key of its range ends in the leaf that has the key
    in its range *)
Lemma descend_bounds h rt dep G B first x n : ∀ a lo hi,
  tree_inv h rt dep G None → ord_inv h rt G B first →
  G !! a = Some n → B !! a = Some (lo, hi) → lo_le lo x → lt_hi x hi →
  ∃ z lo' hi', descend h n a x = Some z ∧ G !! z = Some O
    ∧ B !! z = Some (lo', hi') ∧ lo_le lo' x ∧ lt_hi x hi'.
Proof.
  induction n as [|n IH]; intros a lo hi HT HO Ha HB Hlo Hhi; simpl.
  - exists a, lo, hi. done.
  - destruct (oi_node _ _ _ _ _ HO a _ Ha) as (lo0 & hi0 & b & HB0 & Hb & Hok).
    assert (lo0 = lo ∧ hi0 = hi) as [-> ->] by (split; congruence).
    rewrite Hb. simpl.
    destruct (scan_index_keys_spec b x) as (Hi & Hbelow & Habove).
    set (i := scan_index_keys b x) in *.
    destruct Hok as (_ & _ & _ & _ & Hkids).
    apply (IH (get_child b i) (cbound b lo hi i).1 (cbound b lo hi i).2); try done.
    + by apply (ti_child HT a n b).
    + rewrite (Hkids i Hi). by destruct (cbound b lo hi i).
    + unfold cbound, kbound. simpl. case_decide; [done|]. simpl. apply Hbelow. lia.
    + unfold cbound, kbound. simpl. case_decide; [done|]. simpl. apply Habove. lia.
Qed.

(** the records of the two halves of a leaf split around a new record *)
Lemma split_leaf_records lb nb a i k v x y :
  blk lb → blk nb → num_keys lb = 255 → 0 ≤ i ≤ 255 →
  let L := blk_split_leaf_left lb a i k v in
  let R := blk_split_leaf_right lb nb a i k v in
  ((∃ j, 0 ≤ j < num_keys L ∧ get_key L j = x ∧ get_value L j = y)
   ∨ (∃ j, 0 ≤ j < num_keys R ∧ get_key R j = x ∧ get_value R j = y))
  ↔ ((∃ j, 0 ≤ j < num_keys lb ∧ get_key lb j = x ∧ get_value lb j = y)
     ∨ (x = k ∧ y = v)).
Proof.
  intros Hb Hnb Hfull Hi L R.
  destruct (blk_split_leaf_spec lb nb a i k v Hb Hnb Hi)
    as (_ & _ & HnL & HnR & HkL & HkR & _). fold L R in HnL, HnR, HkL, HkR.
  rewrite HnL, HnR, Hfull.
  assert (Hidx : ∀ j, 0 ≤ j ≤ 255 →
            (∃ j', 0 ≤ j' < 128 ∧ get_key L j' = with_key lb i k j
                   ∧ get_value L j' = with_value lb i v j)
            ∨ (∃ j', 0 ≤ j' < 128 ∧ get_key R j' = with_key lb i k j
                     ∧ get_value R j' = with_value lb i v j)).
  { intros j Hj. destruct (decide (j < 128)).
    - left. exists j. destruct (HkL j ltac:(lia)) as [-> ->]. split; [lia|done].
    - right. exists (j - 128). destruct (HkR (j - 128) ltac:(lia)) as [-> ->].
      replace (128 + (j - 128)) with j by lia. split; [lia|done]. }
  assert (Hold : ∀ j, 0 ≤ j ≤ 255 →
            (with_key lb i k j = k ∧ with_value lb i v j = v)
            ∨ ∃ j', 0 ≤ j' < 255 ∧ with_key lb i k j = get_key lb j'
                    ∧ with_value lb i v j = get_value lb j').
  { intros j Hj. unfold with_key, with_value.
    destruct (decide (j < i)); [|destruct (decide (j = i))].
    - right. exists j. split; [lia|done].
    - by left.
    - right. exists (j - 1). split; [lia|done]. }
  split.
  - intros [(j & Hj & <- & <-)|(j & Hj & <- & <-)].
    + destruct (HkL j Hj) as [-> ->].
      destruct (Hold j ltac:(lia)) as [[-> ->]|(j' & Hj' & -> & ->)]; [by right|].
      left. by exists j'.
    + destruct (HkR j Hj) as [-> ->].
      destruct (Hold (128 + j) ltac:(lia)) as [[-> ->]|(j' & Hj' & -> & ->)];
        [by right|].
      left. by exists j'.
  - intros [(j & Hj & <- & <-)|[-> ->]].
    + destruct (decide (j < i)).
      * destruct (Hidx j ltac:(lia)) as [(j' & Hj' & E1 & E2)|(j' & Hj' & E1 & E2)];
          unfold with_key, with_value in E1, E2;
          rewrite decide_True in E1, E2 by lia; [left|right]; by exists j'.
      * destruct (Hidx (j + 1) ltac:(lia))
          as [(j' & Hj' & E1 & E2)|(j' & Hj' & E1 & E2)];
          unfold with_key, with_value in E1, E2;
          rewrite !decide_False in E1, E2 by lia;
          replace (j + 1 - 1) with j in E1, E2 by lia; [left|right]; by exists j'.
    + destruct (Hidx i ltac:(lia)) as [(j' & Hj' & E1 & E2)|(j' & Hj' & E1 & E2)];
        unfold with_key, with_value in E1, E2;
        rewrite decide_False, decide_True in E1, E2 by lia; [left|right];
        by exists j'.
Qed.

(** the key is new and the leaf is full *)
Lemma insert_split w G k v leaf lb :
  located w G k leaf lb →
  ¬ (scan_leaf_keys lb k < num_keys lb ∧ get_key lb (scan_leaf_keys lb k) = k) →
  num_keys lb = 255 →
  (cursor_list (tree w) = 0 → granted w (Z.to_nat (depth (tree w)) + 3) →
   is_Some (insert_tail k v leaf lb w))
  ∧ ∀ e w', insert_tail k v leaf lb w = Some (e, w') →
      e = OK ∧ ∃ G', Inv w' G'
          ∧ (sorted_nodes w G → holds w' k v)
          ∧ num_recs (tree w') = u64 (num_recs (tree w) + 1)
          ∧ cursor_list (tree w') = cursor_list (tree w)
          ∧ path_length (tree w') = path_length (tree w)
          ∧ depth (tree w) ≤ depth (tree w') ≤ depth (tree w) + 1
          ∧ leaves (tree w') = leaves (tree w)
          ∧ (∀ x y, stored (pages w') G' x y
                    ↔ (stored (pages w) G x y ∨ (x = k ∧ y = v)))
          ∧ (∀ B, Ord w G B → ∃ B', Ord w' G' B')
          ∧ next_page w' ≤ next_page w + depth (tree w) + 3
          ∧ (all_granted w → all_granted w').
Proof.
  intros Hloc Hnf Hfull. pose proof Hloc as [HI Hfr Hlb Hblk Hpath].
  destruct (located_descend _ _ _ _ _ Hloc) as [Hdesc HG].
  destruct Hfr as (Hfr & Hp0 & _).
  pose proof (located_path_long _ _ _ _ _ Hloc) as Hlong.
  pose proof (Inv_bounded _ _ HI) as Hb.
  pose proof (inv_tree _ _ HI) as HT. pose proof (inv_depth _ _ HI) as Hd0.
  pose proof (Inv_depth_small _ _ HI) as H52.
  set (dep := Z.to_nat (depth (tree w))) in *.
  set (rt := root (tree w)) in *.
  assert (Hdep : depth (tree w) = Z.of_nat dep) by lia.
  destruct (scan_leaf_keys_spec lb k) as (Hr & Hlo & Hhi).
  set (i := scan_leaf_keys lb k) in *.
  unfold insert_tail. fold i.
  assert ((i <? num_keys lb) && (get_key lb i =? k) = false) as ->.
  { apply andb_false_iff. destruct (decide (i < num_keys lb)).
    - right. apply Z.eqb_neq. intros E. apply Hnf. done.
    - left. apply Z.ltb_ge. lia. }
  change (256 - 1) with 255. rewrite (proj2 (Z.ltb_ge _ _)) by lia.
  destruct (preallocate_splits_spec w dep Hb Hdep Hlong)
    as (a & w2 & ds & Hpre & Ha0 & Hst & Hanew & Hadist & Hnp2 & Hag2 & Hgr2).
  rewrite Hpre. simpl.
  rewrite (proj2 (Z.eqb_neq _ _) Ha0).
  destruct Hst as (Hext & Hb2 & Hlen2 & [Hsf Hsi] & Hds & Hstop & Hroot).
  pose proof Hb2 as [Hbp2 Hbn2].
  destruct (pages w2 !! a) as [nb|] eqn:Hnb.
  2:{ (* the page of the new leaf was refused: the split writes through
         the mark of the failure *)
      rewrite split_leaf_unmapped by done. simpl. split; [|done].
      intros _ Hg. destruct (Hgr2 Hg) as [[? Hx] _]. congruence. }
  destruct (Hadist ltac:(eauto)) as [Hasplit Haroot].
  assert (Hlb2 : pages w2 !! leaf = Some lb) by (by apply (ext_old _ _ Hext)).
  assert (Hblkn : blk nb) by (by apply (ext_new _ _ Hext a nb)).
  assert (Hla : leaf ≠ a) by congruence.
  rewrite (split_leaf_run w2 leaf a i k v lb nb) by (done || lia).
  set (L := blk_split_leaf_left lb a i k v).
  set (R := blk_split_leaf_right lb nb a i k v).
  destruct (blk_split_leaf_spec lb nb a i k v Hblk Hblkn ltac:(lia))
    as (HbL & HbR & HnL & HnR & _). fold L R in HbL, HbR, HnL, HnR.
  set (h := <[leaf:=L]> (<[a:=R]> (pages w2))).
  set (W2 := with_pages w2 h).
  destruct (for_cursors_cases (λ _ bc, Some (split_leaf_fix leaf i bc)) W2)
    as [[Hnone Hcl]|[cs Hsome]].
  { rewrite Hnone. simpl. split; [|done]. intros Hz _. destruct Hcl. simpl.
    by rewrite (ext_cursor_list _ _ Hext). }
  rewrite Hsome. simpl. unfold insert_new_leaf.
  set (W3 := with_cursors W2 cs).
  set (G1 := <[a:=0%nat]> G).
  set (l := cur_path w2).
  (* the nodes of the tree are where they were *)
  assert (HGmap : ∀ x n, G !! x = Some n → pages w2 !! x = pages w !! x).
  { intros x n Hx. destruct (ti_blk _ _ _ _ _ HT x n Hx) as (b & Hbx & _).
    rewrite Hbx. by apply (ext_old _ _ Hext). }
  assert (HGa : G !! a = None).
  { destruct (G !! a) as [n|] eqn:E; [|done].
    destruct (ti_blk _ _ _ _ _ HT a n E) as (b & Hbx & _). congruence. }
  assert (HT2 : tree_inv (pages w2) rt dep G None) by (by eapply tree_inv_ext).
  destruct (tree_inv_add_node (pages w2) rt dep G a R 0 HT2 HGa HbR)
    as [HTa Hora]; [lia|simpl; lia|done|].
  fold G1 in HTa, Hora.
  assert (HG1leaf : G1 !! leaf = Some 0%nat).
  { unfold G1. by rewrite lookup_insert_ne. }
  assert (HTh : tree_inv h rt dep G1 None).
  { eapply (tree_inv_update _ rt dep G1 leaf lb L); [exact HTa|done| |done| | |].
    - by rewrite lookup_insert_ne.
    - done.
    - intros _. simpl. lia.
    - intros -> Hdn. pose proof (ti_root _ _ _ _ _ HTa). simplify_eq. }
  assert (Hindex : ∀ x n, G1 !! x = Some (S n) → h !! x = pages w !! x).
  { intros x n Hx. assert (x ≠ leaf) by congruence.
    assert (x ≠ a) by (intros ->; unfold G1 in Hx; by rewrite lookup_insert_eq in Hx).
    unfold h. rewrite !lookup_insert_ne by done.
    unfold G1 in Hx. rewrite lookup_insert_ne in Hx by done. by eapply HGmap. }
  assert (Horh : orphan h G1 a).
  { eapply orphan_stable; [exact Hora|]. intros x n Hx.
    assert (x ≠ leaf) by congruence. unfold h. by rewrite lookup_insert_ne. }
  assert (HG1 : ∀ x n, G !! x = Some n → G1 !! x = Some n).
  { intros x n Hx. unfold G1. rewrite lookup_insert_ne; [done|]. congruence. }
  assert (Hfrh : ∀ j, (j < dep)%nat → frame_ok h G1 dep k l leaf j).
  { intros j Hj. eapply (frame_ok_stable (pages w) h G G1 dep k l leaf dep);
      [|done|lia|].
    - eapply frame_ok_same_frame; [apply (ext_path _ _ Hext)|]. by apply Hfr.
    - intros x m Hx Hm. destruct m as [|m]; [lia|].
      split; [|by apply HG1]. eapply Hindex. by apply HG1. }
  assert (Hp0' : pnode l leaf dep 0 = rt).
  { unfold l. by rewrite (pnode_same_frame (cur_path w)) by apply (ext_path _ _ Hext). }
  assert (Hpd : pnode l leaf dep dep = leaf).
  { unfold pnode. by rewrite decide_True. }
  assert (Hfresh : ∀ s, pages w !! s = None → is_Some (pages w2 !! s) → s ≠ a →
            fresh h G1 s).
  { intros s Hs1 [sb Hs2] Hsa.
    assert (G !! s = None).
    { destruct (G !! s) as [n|] eqn:E; [|done].
      destruct (ti_blk _ _ _ _ _ HT s n E) as (b & Hbx & _). congruence. }
    split; [unfold G1; by rewrite lookup_insert_ne|].
    exists sb. split; [|by apply (ext_new _ _ Hext s sb)].
    unfold h. rewrite !lookup_insert_ne; [done|done|]. congruence. }
  assert (Hdomh : ∀ x, is_Some (h !! x) ↔ is_Some (pages w2 !! x)).
  { intros x. apply (is_Some_insert2 (pages w2) leaf a L R); eauto. }
  assert (Hnoneh : ∀ x, pages w2 !! x = None → h !! x = None).
  { intros x Hx. apply eq_None_not_Some. rewrite Hdomh, Hx. by intros [? ?]. }
  assert (Hstock : stock_ok h G1 l ds dep (new_root (tree W3))).
  { split.
    - done.
    - intros j pn Hj Hl. destruct (Hsf j pn Hj Hl) as [H1 H2].
      destruct (pages w2 !! pn_split pn) as [sb|] eqn:Esb;
        [right|left; by apply Hnoneh].
      apply Hfresh; [done|by rewrite Esb|]. by apply (Hasplit j pn).
    - intros j j' pn pn' Hj Hj' Hl Hl' Hm. apply (Hsi j j' pn pn'); try done.
      by apply Hdomh.
    - intros pn b Hpos Hl Hbn.
      destruct (Hstop Hpos) as (pn' & Hl' & Hnf'). fold l in Hl'.
      assert (pn' = pn) as -> by congruence.
      destruct (pnode_frame _ _ _ _ _ _ _ (Hfrh (ds - 1)%nat ltac:(lia)) ltac:(lia))
        as (pn2 & b2 & Hl2 & _ & Hb2' & _ & Hnk2 & _).
      assert (pn2 = pn) as -> by congruence.
      assert (b2 = b) as -> by congruence.
      pose proof (num_keys_range b). lia.
    - intros Hz. simpl. destruct (Hroot Hz) as (H1 & H2 & H3). split.
      + destruct (pages w2 !! new_root (tree w2)) as [sb|] eqn:Esb;
          [right|left; by apply Hnoneh].
        apply Hfresh; [done|by rewrite Esb|]. by apply Haroot.
      + intros j pn Hj Hl Hm. apply (H3 j pn Hj Hl). by apply Hdomh. }
  replace (Z.to_nat (depth (tree W3))) with dep
    by (simpl; rewrite (ext_depth _ _ Hext); lia).
  destruct (insert_new_leaf_loop_spec k (if decide (i < 128) then leaf else a) leaf
              dep W3 G1 a (get_key R 0) ds h dep rt l)
    as [[Hloop Hnm]|(w' & G' & rt' & dep' & Hloop & Htree & Hcs & Hnp & Hor' & Hsome'
        & Hleafs & Hdep' & HT' & Hkey & HGleaf & Hord)]; try done; try lia.
  { simpl. rewrite (ext_depth _ _ Hext). done. }
  { simpl. by rewrite (ext_root _ _ Hext). }
  { rewrite Nat.sub_diag. unfold G1. by rewrite lookup_insert_eq. }
  { rewrite Hpd, Nat.sub_diag. done. }
  { rewrite Hpd, Nat.sub_diag. intros b Hbl. unfold h in Hbl.
    rewrite lookup_insert_eq in Hbl. simplify_eq. simpl. lia. }
  { (* the page of a node to split was refused *)
    rewrite Hloop. simpl. split; [|done]. intros _ Hg. destruct Hnm.
    destruct (Hgr2 Hg) as (_ & Hm1 & Hm2). split.
    - intros j pn Hj Hl. apply Hdomh. by apply (Hm1 j pn).
    - intros Hz. apply Hdomh. by apply Hm2. }
  rewrite Hloop. simpl. split; [eauto|]. intros e w'' [= <- <-].
  split; [done|]. exists G'.
  assert (Hrt' : root (tree w') = rt') by (by rewrite Htree).
  assert (Hdp' : depth (tree w') = Z.of_nat dep') by (by rewrite Htree).
  split.
  { split; simpl; rewrite ?Hrt', ?Hdp', ?Nat2Z.id; try done; try lia.
    - intros x b Hx. rewrite Hnp. simpl.
      assert (Hx' : is_Some (pages w2 !! x)).
      { apply (is_Some_insert2 (pages w2) leaf a L R); [eauto..|].
        apply Hsome'. eauto. }
      destruct Hx' as [b' Hb']. by apply (Hbp2 x b').
    - rewrite Hnp. simpl. lia.
    - rewrite Htree. unfold path_ok. simpl.
      apply (ext_path_ok _ _ Hext), HI. }
  split.
  { intros Hsorted. set (T := if decide (i < 128) then leaf else a) in *.
    destruct (split_leaf_keys lb nb a k v Hblk Hblkn Hfull Hnf) as [HcL HcR].
    fold i L R in HcL, HcR.
    assert (HdT : descend (pages w') dep' rt' k = Some T).
    { apply Hkey.
      - rewrite Nat.sub_diag, Hpd. simpl. unfold T. split; intros Hsep.
        + destruct (decide (i < 128)); [done|].
          destruct (HcR ltac:(lia)) as (? & _). lia.
        + destruct (decide (i < 128)) as [Hi|]; [|done].
          destruct (HcL Hi) as (Hlt & _). exfalso.
          assert (k < get_key R 0); [|lia]. apply Hlt.
          intros j Hj. eapply (Hsorted leaf 0%nat lb); [done|done|lia|lia].
      - intros j pn b i' Hj Hl Hbn Hi'.
        destruct (pnode_frame _ _ _ _ _ _ _ (Hfrh j Hj) ltac:(lia))
          as (pn2 & b2 & Hl2 & _ & Hb2' & HG2 & Hnk2 & Hpos2 & _).
        assert (pn2 = pn) as -> by congruence.
        assert (b2 = b) as -> by congruence.
        destruct (scan_index_keys_spec b k) as (Hsr & _ & Hshi).
        rewrite <- Hpos2 in Hsr, Hshi. specialize (Hshi ltac:(lia)).
        replace (dep - j)%nat with (S (dep - S j)) in HG2 by lia.
        assert (Hbw : pages w !! pn_node pn = Some b).
        { rewrite <- (Hindex _ _ HG2). done. }
        assert (HGw : G !! pn_node pn = Some (S (dep - S j))).
        { unfold G1 in HG2. rewrite lookup_insert_ne in HG2; [done|].
          intros Heq. rewrite <- Heq, lookup_insert_eq in HG2. done. }
        pose proof (Hsorted _ _ b (pn_pos pn) i' HGw Hbw ltac:(lia) ltac:(lia)). lia. }
    exists T. unfold T in *. destruct (decide (i < 128)) as [Hi|Hi].
    - destruct (HcL Hi) as (_ & Hs & Hl' & Hk' & Hv').
      exists L. simpl. rewrite Hrt', Hdp', Nat2Z.id.
      split; [done|]. split; [|by rewrite Hs].
      rewrite (Hleafs leaf HG1leaf). unfold h. by rewrite lookup_insert_eq.
    - destruct (HcR ltac:(lia)) as (_ & Hs & Hl' & Hk' & Hv').
      exists R. simpl. rewrite Hrt', Hdp', Nat2Z.id.
      split; [done|]. split; [|by rewrite Hs].
      rewrite (Hleafs a); [|unfold G1; by rewrite lookup_insert_eq].
      unfold h. rewrite lookup_insert_ne by done. by rewrite lookup_insert_eq. }
  simpl. rewrite Htree. simpl.
  rewrite (ext_num_recs _ _ Hext), (ext_cursor_list _ _ Hext),
    (ext_path_length _ _ Hext), Hdep.
  split; [done|]. split; [done|]. split; [done|]. split; [lia|].
  split; [apply (ext_leaves _ _ Hext)|].
  assert (HhL : h !! leaf = Some L) by (unfold h; by rewrite lookup_insert_eq).
  assert (HhR : h !! a = Some R).
  { unfold h. rewrite lookup_insert_ne by done. by rewrite lookup_insert_eq. }
  assert (HG1a : G1 !! a = Some 0%nat) by (unfold G1; by rewrite lookup_insert_eq).
  split.
  { intros x y.
    pose proof (split_leaf_records lb nb a i k v x y Hblk Hblkn Hfull ltac:(lia))
      as Hrec. fold L R in Hrec. cbv zeta in Hrec.
    split.
    - intros (a0 & b0 & j & Hgx & Hbx & Hj & Hkx & Hvy).
      apply HGleaf in Hgx. rewrite (Hleafs a0 Hgx) in Hbx.
      destruct (decide (a0 = leaf)) as [->|Hal].
      { assert (b0 = L) as -> by congruence.
        destruct (proj1 Hrec) as [(j' & Hj' & E1 & E2)|?]; [left; by exists j| |by right].
        left. by exists leaf, lb, j'. }
      destruct (decide (a0 = a)) as [->|Haa].
      { assert (b0 = R) as -> by congruence.
        destruct (proj1 Hrec) as [(j' & Hj' & E1 & E2)|?]; [right; by exists j| |by right].
        left. by exists leaf, lb, j'. }
      left. exists a0, b0, j. unfold G1 in Hgx. rewrite lookup_insert_ne in Hgx by done.
      split; [done|]. split; [|done].
      rewrite <- (HGmap a0 _ Hgx). unfold h in Hbx.
      by rewrite !lookup_insert_ne in Hbx by done.
    - intros Hold.
      assert (Hnew : (∃ j, 0 ≤ j < num_keys L ∧ get_key L j = x ∧ get_value L j = y)
                     ∨ (∃ j, 0 ≤ j < num_keys R ∧ get_key R j = x ∧ get_value R j = y)
                     ∨ ∃ a0 b0 j, a0 ≠ leaf ∧ G !! a0 = Some 0%nat
                         ∧ pages w !! a0 = Some b0 ∧ 0 ≤ j < num_keys b0
                         ∧ get_key b0 j = x ∧ get_value b0 j = y).
      { destruct Hold as [(a0 & b0 & j & Hgx & Hbx & Hj & Hkx & Hvy)|Hkv].
        - destruct (decide (a0 = leaf)) as [->|Hal].
          + assert (b0 = lb) as -> by congruence.
            destruct (proj2 Hrec) as [?|?]; [left; by exists j|by left|by right; left].
          + right. right. by exists a0, b0, j.
        - destruct (proj2 Hrec) as [?|?]; [by right|by left|by right; left]. }
      destruct Hnew as [(j & Hj & E1 & E2)|[(j & Hj & E1 & E2)|
                         (a0 & b0 & j & Hal & Hgx & Hbx & Hj & E1 & E2)]].
      + exists leaf, L, j. split; [by apply HGleaf|].
        split; [by rewrite (Hleafs leaf HG1leaf)|done].
      + exists a, R, j. split; [by apply HGleaf|].
        split; [by rewrite (Hleafs a HG1a)|done].
      + assert (Haa : a0 ≠ a) by congruence.
        exists a0, b0, j. split; [apply HGleaf; by apply HG1|].
        split; [|done]. rewrite (Hleafs a0 (HG1 _ _ Hgx)). unfold h.
        rewrite !lookup_insert_ne by done. by rewrite (HGmap a0 _ Hgx). }
  split.
  2:{ split.
      - rewrite Hnp. simpl. lia.
      - intros Hg. unfold all_granted. simpl. rewrite Hor'. simpl. by apply Hag2. }
  intros B HO. unfold Ord in *. simpl.
  fold rt in HO.
  assert (HO2 : ord_inv (pages w2) rt G B (leaves (tree w))).
  { eapply ord_inv_ext; [exact HO|]. intros x n Hx. by eapply HGmap. }
  destruct (descend_bounds (pages w) rt dep G B (leaves (tree w)) k dep rt None None
              HT HO (ti_root _ _ _ _ _ HT) (oi_root _ _ _ _ _ HO) I I)
    as (z & lo & hi & Hz & _ & HBz & Hlo1 & Hhi1).
  assert (z = leaf) as -> by congruence.
  pose proof (ord_pending_split_leaf (pages w2) rt G B (leaves (tree w)) leaf a lb nb
                lo hi k v HO2 (not_in_tree_orphan _ _ _ _ _ HT2 HGa)
                (ex_intro _ _ (ti_root _ _ _ _ _ HT)) HG Hlb2 HBz HGa Hblk Hblkn
                Hfull Hnf Hlo1 Hhi1) as HPend.
  fold i L R h G1 in HPend. cbv zeta in HPend.
  rewrite (ext_leaves _ _ Hext).
  eapply Hord. rewrite Hpd. exact HPend.
Qed.

Lemma holds_same w w' k v :
  pages w' = pages w → root (tree w') = root (tree w) →
  depth (tree w') = depth (tree w) → holds w k v → holds w' k v.
Proof.
  intros Hp Hr Hd (leaf & lb & H). exists leaf, lb. by rewrite Hp, Hr, Hd.
Qed.

Lemma sorted_nodes_same w w' G :
  pages w' = pages w → sorted_nodes w G → sorted_nodes w' G.
Proof. intros Hp Hs a n b i j Ha Hb. rewrite Hp in Hb. by eapply Hs. Qed.

Lemma located_holds w G k leaf lb v :
  located w G k leaf lb →
  holds w k v
  ↔ scan_leaf_keys lb k < num_keys lb ∧ get_key lb (scan_leaf_keys lb k) = k
    ∧ get_value lb (scan_leaf_keys lb k) = v.
Proof.
  intros Hloc. destruct (located_descend _ _ _ _ _ Hloc) as [Hdesc HG].
  pose proof (lo_leaf _ _ _ _ _ Hloc) as Hlb. split.
  - intros (leaf' & lb' & H1 & H2 & H3). rewrite Hdesc in H1.
    injection H1 as <-. rewrite Hlb in H2. injection H2 as <-. done.
  - intros H. exists leaf, lb. done.
Qed.

(** the descent and an insertion that splits nothing ask the environment
    for nothing *)
Lemma path_update_oracle w d f w' :
  path_update w d f = Some w' → oracle w' = oracle w.
Proof.
  unfold path_update. intros H.
  apply bind_Some in H as (l & _ & H). apply bind_Some in H as (pn & _ & H).
  by injection H as <-.
Qed.

Lemma find_leaf_loop_oracle n : ∀ d node k w leaf w',
  find_leaf_loop n d node k w = Some (leaf, w') → oracle w' = oracle w.
Proof.
  induction n as [|n IH]; simpl; intros d node k w leaf w' H.
  - by simplify_eq.
  - apply bind_Some in H as (nb & Hnb & H).
    apply bind_Some in H as (w1 & Hw1 & H).
    rewrite (IH _ _ _ _ _ _ H). by eapply path_update_oracle.
Qed.

Lemma path_reserved_granted w :
  all_granted w → (path_reserved w).1 = OK ∧ all_granted (path_reserved w).2.
Proof.
  intros Hg. unfold path_reserved. case_match; [|done].
  destruct (grant_granted w Hg) as [H1 H2].
  destruct (grant w) as [ok w1]. simpl in *. subst ok. done.
Qed.

Lemma insert_tail_oracle k v leaf lb w e w' :
  blk lb → pages w !! leaf = Some lb → num_keys lb < 255 →
  insert_tail k v leaf lb w = Some (e, w') → oracle w' = oracle w.
Proof.
  intros Hblk Hlb Hroom. unfold insert_tail.
  destruct (scan_leaf_keys_spec lb k) as (Hr & _).
  case_match.
  - rewrite (store_at w leaf _ _ lb Hlb). simpl. by intros [= <- <-].
  - change (256 - 1) with 255. rewrite (proj2 (Z.ltb_lt _ _) Hroom).
    rewrite (insert_into_leaf_run w leaf _ k v lb Hlb Hblk Hr).
    destruct (for_cursors_cases
                (λ _ bc, Some (insert_into_leaf_fix leaf (scan_leaf_keys lb k) bc))
                (with_pages w
                   (<[leaf:=blk_insert_into_leaf lb (scan_leaf_keys lb k) k v]> (pages w))))
      as [[Hnone _]|[cs Hsome]].
    + rewrite Hnone. done.
    + rewrite Hsome. simpl. by intros [= <- <-].
Qed.

Lemma insert_found_oracle k v leaf lb w e w' :
  pages w !! leaf = Some lb →
  scan_leaf_keys lb k < num_keys lb → get_key lb (scan_leaf_keys lb k) = k →
  insert_tail k v leaf lb w = Some (e, w') → oracle w' = oracle w.
Proof.
  intros Hlb Hlt Hkey. unfold insert_tail.
  rewrite (proj2 (Z.ltb_lt _ _) Hlt), (proj2 (Z.eqb_eq _ _) Hkey). simpl.
  rewrite (store_at w leaf _ _ lb Hlb). simpl. by intros [= <- <-].
Qed.

(** [insert] on a tree of the right shape.  When the environment grants
    every request (and there are addresses left for the pages of the
    splits) it answers OK; a page that is refused is written through.
    Whenever it does answer, the answer is OK or NOMEM, and after OK the
    tree has the right shape and holds the key. *)
Lemma insert_spec w G k v :
  Inv w G →
  (cursor_list (tree w) = 0 → granted w (Z.to_nat (depth (tree w)) + 3) →
   ∃ w', insert k v w = Some (OK, w') ∧ all_granted w'
     ∧ next_page w' ≤ next_page w + depth (tree w) + 3)
  ∧ ∀ e w', insert k v w = Some (e, w') →
      e = NOMEM ∧ path_reserved w = (NOMEM, w')
      ∨ e = OK ∧ ∃ G', Inv w' G'
          ∧ cursor_list (tree w') = cursor_list (tree w)
          ∧ depth (tree w) ≤ path_length (tree w')
          ∧ depth (tree w) ≤ depth (tree w') ≤ depth (tree w) + 1
          ∧ (sorted_nodes w G → holds w' k v)
          ∧ ((∃ v0, holds w k v0) →
             G' = G ∧ num_recs (tree w') = num_recs (tree w)
             ∧ num_blks (tree w') = num_blks (tree w)
             ∧ depth (tree w') ≤ path_length (tree w')
             ∧ holds w' k v ∧ (sorted_nodes w G → sorted_nodes w' G)
             ∧ (∀ k' v', k' ≠ k → holds w' k' v' ↔ holds w k' v'))
          ∧ (¬ (∃ v0, holds w k v0) →
             num_recs (tree w') = u64 (num_recs (tree w) + 1)).
Proof.
  intros HI.
  destruct (locate w G k HI) as (e0 & w0 & Hpr & Hs0 & Hnp0 & Hcase).
  destruct Hcase as [->|(-> & leaf & w1 & lb & Hfl & Hloc & Hs1 & Hnp1)].
  { unfold insert. rewrite Hpr. rewrite decide_False by done.
    split.
    - intros _ [Hg _]. destruct (path_reserved_granted w Hg) as [Hok _].
      rewrite Hpr in Hok. done.
    - intros e w' [= <- <-]. by left. }
  pose proof Hloc as [HI1 Hfr Hlb Hblk Hpath].
  rewrite (insert_unfold k v w w0 leaf w1 lb Hpr Hfl Hlb).
  destruct Hs1 as (Hpg & Hcur & Hrt & _ & Hdp & Hcl & Hnr & Hnb & _).
  pose proof (inv_depth _ _ HI) as Hd0.
  assert (Hholds : ∀ v0, holds w k v0 ↔ holds w1 k v0).
  { intros v0. split; apply holds_same; done. }
  assert (Hg1 : all_granted w → all_granted w1).
  { intros Hg. destruct (path_reserved_granted w Hg) as [_ Hg0].
    rewrite Hpr in Hg0. simpl in Hg0. unfold all_granted.
    by rewrite (find_leaf_loop_oracle _ _ _ _ _ _ _ Hfl). }
  pose proof (num_keys_range lb) as Hrange.
  destruct (decide (scan_leaf_keys lb k < num_keys lb
                    ∧ get_key lb (scan_leaf_keys lb k) = k)) as [[Hf1 Hf2]|Hnf].
  - destruct (insert_found w1 G k v leaf lb Hloc Hf1 Hf2)
      as (w' & Hrun & HI' & Hh' & Ht' & Hc' & Hn' & Hs' & Ho' & _).
    rewrite Hrun. split.
    { intros _ [Hg _]. exists w'. split; [done|]. split; [|lia].
      unfold all_granted.
      rewrite (insert_found_oracle k v leaf lb w1 OK w' Hlb Hf1 Hf2 Hrun).
      by apply Hg1. }
    intros e w'' [= <- <-]. right.
    split; [done|]. exists G. split; [done|]. rewrite Ht'.
    split; [done|]. split; [lia|]. split; [lia|]. split; [done|]. split.
    + intros _. split; [done|]. split; [done|]. split; [done|]. split; [done|].
      split; [done|].
      split; [intros Hs; apply Hs'; by eapply sorted_nodes_same|].
      intros k' v' Hne. rewrite (Ho' k' v' Hne). symmetry. split; apply holds_same; done.
    + intros Hno. exfalso. apply Hno. exists (get_value lb (scan_leaf_keys lb k)).
      apply Hholds. by apply (located_holds _ _ _ _ _ _ Hloc).
  - assert (Hno : ¬ (∃ v0, holds w k v0)).
    { intros [v0 Hv0]. apply Hholds in Hv0.
      apply (located_holds _ _ _ _ _ _ Hloc) in Hv0 as (? & ? & _). by apply Hnf. }
    destruct (decide (num_keys lb < 255)) as [Hroom|Hfull].
    + destruct (insert_room w1 G k v leaf lb Hloc Hnf Hroom) as [Hsafe Hres].
      split.
      { intros Hz [Hg _]. destruct Hsafe as [[e w'] Hrun]; [congruence|].
        rewrite Hrun. destruct (Hres e w' Hrun) as (-> & _ & _ & _ & Hn' & _).
        exists w'. split; [done|]. split; [|lia]. unfold all_granted.
        rewrite (insert_tail_oracle k v leaf lb w1 OK w' Hblk Hlb Hroom Hrun).
        by apply Hg1. }
      intros e w' Hrun. destruct (Hres e w' Hrun) as (-> & HI' & Hh' & Ht' & _).
      right. split; [done|]. exists G. split; [done|]. rewrite Ht'. simpl.
      split; [done|]. split; [lia|]. split; [lia|].
      split; [done|]. split; [by intros ?|].
      intros _. by rewrite Hnr.
    + destruct (insert_split w1 G k v leaf lb Hloc Hnf ltac:(lia)) as [Hsafe Hres].
      split.
      { intros Hz [Hg Hroom']. destruct Hsafe as [[e w'] Hrun]; [congruence| |].
        { split; [by apply Hg1|]. rewrite Hnp1, Hdp. done. }
        rewrite Hrun.
        destruct (Hres e w' Hrun)
          as (-> & G' & _ & _ & _ & _ & _ & _ & _ & _ & _ & Hn' & Hg').
        exists w'. split; [done|]. split; [by apply Hg', Hg1|].
        rewrite <- Hnp1, <- Hdp. done. }
      intros e w' Hrun.
      destruct (Hres e w' Hrun)
        as (-> & G' & HI' & Hh' & Hn' & Hc' & Hpl' & Hdd'); right.
      split; [done|]. exists G'. split; [done|]. split; [congruence|].
      split; [lia|]. split; [lia|].
      split; [intros Hs; apply Hh'; by eapply sorted_nodes_same|].
      split; [by intros ?|]. intros _. by rewrite Hn', Hnr.
Qed.

(** * Lookup and the new tree *)

(** what [find] answers on a tree of the right shape *)
Lemma find_spec w G k :
  Inv w G →
  ∃ e x w', find k w = Some (e, x, w') ∧ same_contents w w'
    ∧ (e = NOMEM ↔ path_length (tree w) < depth (tree w) ∧ (grant w).1 = false)
    ∧ (e = NOMEM ∧ x = None
         ∧ path (tree w') = None ∧ path_length (tree w') = depth (tree w)
       ∨ ∃ leaf lb,
           descend (pages w) (Z.to_nat (depth (tree w))) (root (tree w)) k = Some leaf
           ∧ pages w !! leaf = Some lb
           ∧ (get_key lb (scan_leaf_keys lb k) = k ∧ e = OK
                ∧ x = Some (get_value lb (scan_leaf_keys lb k))
              ∨ get_key lb (scan_leaf_keys lb k) ≠ k ∧ e = NOTFOUND ∧ x = None)).
Proof.
  intros HI. pose proof (Inv_bounded _ _ HI) as [Hbp _].
  destruct (ti_blk _ _ _ _ _ (inv_tree _ _ HI) _ _ (ti_root _ _ _ _ _ (inv_tree _ _ HI)))
    as (rb & Hrb & _).
  apply Hbp in Hrb.
  destruct (locate w G k HI) as (e0 & w0 & Hpr & Hs0 & Hnp0 & Hcase).
  unfold find. rewrite (proj2 (Z.eqb_neq _ _)) by lia. simpl. rewrite Hpr.
  destruct Hcase as [->|(-> & leaf & w1 & lb & Hfl & Hloc & Hs1 & Hnp1)].
  - rewrite decide_False by done. eexists _, _, _. split; [done|]. split; [done|].
    assert (Hnm : path_length (tree w) < depth (tree w) ∧ (grant w).1 = false).
    { apply path_reserved_nomem. by rewrite Hpr. }
    split; [done|].
    left. split; [done|]. split; [done|].
    destruct Hnm as [Hlt Hno]. unfold path_reserved in Hpr.
    rewrite (proj2 (Z.ltb_lt _ _) Hlt) in Hpr.
    destruct (grant w) as [ok w1]. simpl in Hno. subst ok.
    injection Hpr as <-. done.
  - assert (Hnm : ∀ e, e ≠ NOMEM →
              (e = NOMEM ↔ path_length (tree w) < depth (tree w) ∧ (grant w).1 = false)).
    { intros e He. split; [done|]. intros Hc. apply path_reserved_nomem in Hc.
      rewrite Hpr in Hc. done. }
    rewrite decide_True by done. rewrite Hfl. simpl.
    rewrite (lo_leaf _ _ _ _ _ Hloc). simpl.
    destruct (located_descend _ _ _ _ _ Hloc) as [Hdesc _].
    destruct Hs1 as (Hpg & Hcur & Hrt & Hlv & Hdp & Hrest).
    assert (Hs1 : same_contents w w1) by done.
    rewrite Hpg, Hrt, Hdp in Hdesc.
    pose proof (lo_leaf _ _ _ _ _ Hloc) as Hlb. rewrite Hpg in Hlb.
    destruct (k =? get_key lb (scan_leaf_keys lb k)) eqn:E.
    + apply Z.eqb_eq in E. eexists _, _, _. split; [done|]. split; [done|].
      split; [by apply Hnm|].
      right. exists leaf, lb. split; [done|]. split; [done|]. left. done.
    + apply Z.eqb_neq in E. eexists _, _, _. split; [done|]. split; [done|].
      split; [by apply Hnm|].
      right. exists leaf, lb. split; [done|]. split; [done|]. right. done.
Qed.

(** a key of the tree is found with its value *)
Lemma find_holds w G k v :
  Inv w G → holds w k v →
  ∃ e x w', find k w = Some (e, x, w') ∧ same_contents w w'
    ∧ (e = OK ∧ x = Some v
       ∨ e = NOMEM ∧ x = None
         ∧ path_length (tree w) < depth (tree w) ∧ (grant w).1 = false).
Proof.
  intros HI (leaf & lb & Hd & Hlb & Hlt & Hk & Hv).
  destruct (find_spec w G k HI) as (e & x & w' & Hf & Hs & Hnm & Hcase).
  exists e, x, w'. split; [done|]. split; [done|].
  destruct Hcase as [(-> & -> & _)|(leaf' & lb' & Hd' & Hlb' & Hcase)]; [right|left].
  { split; [done|]. split; [done|]. by apply Hnm. }
  assert (leaf' = leaf) as -> by congruence.
  assert (lb' = lb) as -> by congruence.
  destruct Hcase as [(_ & -> & ->)|(Hne & _)]; [|done]. by rewrite Hv.
Qed.

(** ** The new tree *)

Lemma new_bplus_tree_spec ans :
  match new_bplus_tree ans with
  | Some w =>
      (∃ rb, pages w = {[1 := rb]} ∧ blk rb ∧ num_keys rb = 0 ∧ next_leaf rb = 0)
      ∧ next_page w = 2 ∧ cursors w = ∅ ∧ oracle w = drop 2 ans
      ∧ tree w = Bplus 1 1 0 0 0 1 0 0 None 0
      ∧ ans !! 0%nat ≠ Some false ∧ ans !! 1%nat ≠ Some false
  | None =>
      ans !! 0%nat = Some false
      ∨ ans !! 0%nat ≠ Some false ∧ ans !! 1%nat = Some false
        ∧ let w1 := (grant (World ∅ 1 ∅ 1 ans (Bplus 0 0 0 0 0 0 0 0 None 0))).2 in
          (new_leaf_block w1).1 = -1
          ∧ store_num_keys (new_leaf_block w1).2 (-1) 0 = None
  end.
Proof.
  assert (Hrb : ∃ rb : block,
            <[1:=wr (set_num_keys zero_block 0) 511 0]> (∅ : gmap Z block) = {[1 := rb]}
            ∧ blk rb ∧ num_keys rb = 0 ∧ next_leaf rb = 0).
  { eexists. split; [done|]. split; [apply blk_wr, blk_set_num_keys, blk_zero|].
    split; [done|done]. }
  unfold new_bplus_tree, new_leaf_block, alloc_page_for_block, grant. simpl.
  destruct ans as [|[] [|[] ans]]; simpl; eauto;
    try (right; split; [done|]; split; [done|]; split; reflexivity);
    unfold store_num_keys, store; simpl; rewrite lookup_insert_eq; simpl;
    rewrite lookup_insert_eq; simpl; rewrite !insert_insert_eq;
    (split; [exact Hrb|done]).
Qed.

Lemma Inv_new ans w :
  new_bplus_tree ans = Some w → Inv w {[1 := 0%nat]} ∧ sorted_nodes w {[1 := 0%nat]}.
Proof.
  intros Hnew. pose proof (new_bplus_tree_spec ans) as H. rewrite Hnew in H.
  destruct H as ((rb & Hpg & Hblk & Hnk & Hnl) & Hnp & Hcs & _ & Ht & _).
  split.
  - split; rewrite ?Hpg, ?Hnp, ?Ht; simpl; try done.
    + split.
      * done.
      * intros a n Ha. apply lookup_singleton_Some in Ha as [_ <-]. done.
      * intros a n Ha. apply lookup_singleton_Some in Ha as [<- <-].
        exists rb. by rewrite lookup_singleton_eq.
      * intros a n b c Ha. by apply lookup_singleton_Some in Ha as [_ ?].
      * intros a n b Ha. by apply lookup_singleton_Some in Ha as [_ ?].
      * intros a a' n n' b b' c Ha. by apply lookup_singleton_Some in Ha as [_ ?].
      * intros a n b Ha _ Hne. by apply lookup_singleton_Some in Ha as [? _].
      * done.
    + intros a b Ha. apply lookup_singleton_Some in Ha as [<- _]. lia.
  - intros a n b i j Ha Hb Hij Hj. rewrite Hpg in Hb.
    apply lookup_singleton_Some in Hb as [_ <-]. lia.
Qed.

(** ** Shapes *)

(** The tree of [w] has the right shape: its nodes can be given heights,
    the root the depth of the tree and the leaves 0, so that the slots 0
    to [num_keys] of every index node hold different nodes of the height
    below, no node is the child of two, every leaf but the root has at
    least 128 keys and every index node but the root at least 127, an
    index root has a key, every node is a mapped page of 512 words below
    the next address, and the path array, when there is one, has the
    length that is recorded. *)
Definition well_shaped (w : world) : Prop := ∃ G, Inv w G.

(** the keys of every node are in ascending order as well *)
Definition ordered (w : world) : Prop := ∃ G, Inv w G ∧ sorted_nodes w G.

(** [insert] of the pairs of a list one after the other, up to the first
    that does not answer OK: the answer of that one, or OK *)
Fixpoint insert_seq (kvs : list (Z * Z)) (w : world) : option (bplus_error * world) :=
  match kvs with
  | [] => Some (OK, w)
  | (k, v) :: kvs' =>
      '(r, w') ← insert k v w;
      if decide (r = OK) then insert_seq kvs' w' else Some (r, w')
  end.

(** the scratch path after a reservation that has failed *)
Lemma path_reserved_failed w w' :
  path_reserved w = (NOMEM, w') →
  path_length (tree w) < depth (tree w) ∧ (grant w).1 = false
  ∧ same_contents w w'
  ∧ path (tree w') = None ∧ path_length (tree w') = depth (tree w).
Proof.
  intros Hpr.
  pose proof (path_reserved_same w) as Hs.
  pose proof (path_reserved_nomem w) as Hn. rewrite Hpr in Hs, Hn. simpl in Hs, Hn.
  destruct (proj1 Hn eq_refl) as [Hlt Hno].
  split; [done|]. split; [done|]. split; [done|].
  unfold path_reserved in Hpr. rewrite (proj2 (Z.ltb_lt _ _) Hlt) in Hpr.
  destruct (grant w) as [ok w0]. simpl in Hno. subst ok.
  injection Hpr as <-. done.
Qed.

Lemma insert_spec_shape w k v :
  well_shaped w → cursor_list (tree w) = 0 →
  (granted w (Z.to_nat (depth (tree w)) + 3) →
   ∃ w', insert k v w = Some (OK, w') ∧ all_granted w'
     ∧ next_page w' ≤ next_page w + depth (tree w) + 3)
  ∧ ∀ e w', insert k v w = Some (e, w') →
      (e = NOMEM ↔ path_length (tree w) < depth (tree w) ∧ (grant w).1 = false)
      ∧ (e = NOMEM ∧ same_contents w w'
           ∧ path (tree w') = None ∧ path_length (tree w') = depth (tree w)
         ∨ e = OK ∧ well_shaped w' ∧ cursor_list (tree w') = 0
           ∧ depth (tree w) ≤ depth (tree w') ≤ depth (tree w) + 1).
Proof.
  intros [G HI] Hcl. destruct (insert_spec w G k v HI) as [Hsafe Hres].
  split; [by apply Hsafe|]. intros e w' Hrun.
  destruct (Hres e w' Hrun) as [[-> Hpr]|(-> & G' & HI' & Hcl' & _ & Hd & _)].
  - destruct (path_reserved_failed w w' Hpr) as (H1 & H2 & H3 & H4 & H5).
    split; [done|]. left. done.
  - split.
    + split; [done|]. intros Hc. apply path_reserved_nomem in Hc. unfold insert in Hrun.
      destruct (path_reserved w) as [ok w1]. simpl in Hc. subst ok.
      rewrite decide_False in Hrun by done. by injection Hrun as ? _.
    + right. split; [done|]. split; [by exists G'|]. split; [congruence|done].
Qed.

(** * The registry of cursors *)

(** [cs] are the cursors threaded from the cursor [c] on, up to the null
    link *)
Inductive chain (m : gmap Z bplus_cursor) : Z → list Z → Prop :=
  | chain_nil : chain m 0 []
  | chain_cons c bc cs :
      c ≠ 0 → m !! c = Some bc → chain m (bc_next bc) cs → chain m c (c :: cs).

(** the cursors are at addresses that were handed out, and the registry
    threads [cs] *)
Definition registered (w : world) (cs : list Z) : Prop :=
  chain (cursors w) (cursor_list (tree w)) cs
  ∧ ∀ c bc, cursors w !! c = Some bc → 0 < c < next_cursor w.

(** [f] applied to the cursors of a list *)
Definition on_cursors (f : bplus_cursor → bplus_cursor) (cs : list Z)
    (m : gmap Z bplus_cursor) : gmap Z bplus_cursor :=
  foldl (λ m x, alter f x m) m cs.

Lemma registry_from_chain fuel : ∀ c w cs,
  registry_from fuel c w = Some cs → chain (cursors w) c cs.
Proof.
  induction fuel as [|fuel IH]; intros c w cs; simpl.
  - destruct (c =? 0) eqn:E; [|done]. apply Z.eqb_eq in E as ->.
    intros [= <-]. constructor.
  - destruct (c =? 0) eqn:E.
    + apply Z.eqb_eq in E as ->. intros [= <-]. constructor.
    + apply Z.eqb_neq in E. intros H.
      apply bind_Some in H as (bc & Hbc & H).
      apply bind_Some in H as (rest & Hrest & H). injection H as <-.
      econstructor; [done|done|]. by apply IH.
Qed.

Lemma chain_det m c cs1 : ∀ cs2, chain m c cs1 → chain m c cs2 → cs1 = cs2.
Proof.
  intros cs2 H1. revert cs2. induction H1 as [|c bc cs Hc Hbc H1 IH]; intros cs2 H2.
  - by inversion H2.
  - inversion H2 as [|c' bc' cs' Hc' Hbc' H2' Heq]; [done|subst].
    assert (bc' = bc) as -> by congruence. f_equal. by apply IH.
Qed.

Lemma chain_suffix m c l1 x l2 :
  chain m c (l1 ++ x :: l2) → chain m x (x :: l2).
Proof.
  revert c. induction l1 as [|y l1 IH]; intros c H; simpl in H.
  - inversion H; subst. by econstructor.
  - inversion H; subst. by eapply IH.
Qed.

Lemma chain_NoDup m c cs : chain m c cs → NoDup cs.
Proof.
  intros H. induction H as [|c bc cs Hc Hbc H IH]; [constructor|].
  constructor; [|done]. intros Hin.
  apply list_elem_of_split in Hin as (l1 & l2 & ->).
  pose proof (chain_suffix _ _ _ _ _ H) as H'.
  assert (Hfull : chain m c (c :: l1 ++ c :: l2)) by (by econstructor).
  pose proof (chain_det _ _ _ _ H' Hfull) as Heq.
  apply (f_equal length) in Heq. simpl in Heq. rewrite length_app in Heq.
  simpl in Heq. lia.
Qed.

Lemma chain_mapped m c cs x : chain m c cs → x ∈ cs → is_Some (m !! x) ∧ x ≠ 0.
Proof.
  intros H. induction H as [|c bc cs Hc Hbc H IH]; intros Hin.
  - by apply elem_of_nil in Hin.
  - apply elem_of_cons in Hin as [->|Hin]; [eauto|]. by apply IH.
Qed.

Lemma chain_length m c cs : chain m c cs → (length cs ≤ size m)%nat.
Proof.
  intros H. pose proof (chain_NoDup _ _ _ H) as Hnd.
  assert (Hsub : cs ⊆+ (map_to_list m).*1).
  { apply NoDup_submseteq; [done|]. intros x Hx.
    destruct (chain_mapped _ _ _ x H Hx) as [[bc Hbc] _].
    apply list_elem_of_fmap. exists (x, bc). split; [done|].
    by apply elem_of_map_to_list. }
  apply submseteq_length in Hsub. rewrite length_fmap, length_map_to_list in Hsub.
  done.
Qed.

(** a change of cursors that are not on the chain, or that keeps the
    links, keeps the chain *)
Lemma chain_ext m m' c cs :
  chain m c cs →
  (∀ x bc, x ∈ cs → m !! x = Some bc →
     ∃ bc', m' !! x = Some bc' ∧ bc_next bc' = bc_next bc) →
  chain m' c cs.
Proof.
  intros H. induction H as [|c bc cs Hc Hbc H IH]; intros Hsame; [constructor|].
  destruct (Hsame c bc ltac:(left) Hbc) as (bc' & Hbc' & Hn).
  econstructor; [done|done|]. rewrite Hn. apply IH.
  intros x b Hx. apply Hsame. by right.
Qed.

Lemma on_cursors_lookup_NoDup f cs : ∀ m x,
  NoDup cs →
  on_cursors f cs m !! x = if decide (x ∈ cs) then f <$> m !! x else m !! x.
Proof.
  unfold on_cursors. induction cs as [|c cs IH]; intros m x Hnd.
  - destruct (decide (x ∈ [])) as [Hin|]; [by apply elem_of_nil in Hin|done].
  - apply NoDup_cons in Hnd as [Hnin Hnd]. cbn [foldl]. rewrite IH by done.
    destruct (decide (c = x)) as [->|Hne].
    + destruct (decide (x ∈ x :: cs)) as [_|Hn]; [|destruct Hn; left].
      rewrite decide_False by done. by rewrite lookup_alter_eq.
    + rewrite lookup_alter_ne by done.
      destruct (decide (x ∈ cs)).
      * destruct (decide (x ∈ c :: cs)) as [_|Hn]; [done|]. destruct Hn. by right.
      * destruct (decide (x ∈ c :: cs)) as [Hin|]; [|done].
        apply elem_of_cons in Hin as [?|?]; done.
Qed.

Lemma for_cursors_from_S fuel body bc w c c' :
  bc ≠ 0 → cursors w !! bc = Some c → body w c = Some c' →
  for_cursors_from (S fuel) body bc w
  = for_cursors_from fuel body (bc_next c')
      (with_cursors w (<[bc := c']> (cursors w))).
Proof.
  intros Hbc Hc Hb. simpl. rewrite (proj2 (Z.eqb_neq _ _) Hbc), Hc. simpl.
  by rewrite Hb.
Qed.

(** the loop over the registry applies its body to each of the cursors *)
Lemma for_cursors_from_chain (f : bplus_cursor → bplus_cursor) body w fuel :
  (∀ m c, body (with_cursors w m) c = Some (f c)) →
  (∀ c, bc_next (f c) = bc_next c) →
  ∀ cs c0 m, chain m c0 cs → (length cs ≤ fuel)%nat →
  for_cursors_from fuel body c0 (with_cursors w m)
  = Some (with_cursors w (on_cursors f cs m)).
Proof.
  intros Hbody Hnext. revert fuel.
  assert (Hgen : ∀ cs fuel c0 m, chain m c0 cs → (length cs ≤ fuel)%nat →
            for_cursors_from fuel body c0 (with_cursors w m)
            = Some (with_cursors w (on_cursors f cs m))).
  { induction cs as [|c cs IH]; intros fuel c0 m Hch Hlen.
    - inversion Hch; subst. by destruct fuel.
    - inversion Hch as [|c' bc cs' Hc Hbc Hrest]; subst.
      destruct fuel as [|fuel]; [simpl in Hlen; lia|].
      rewrite (for_cursors_from_S fuel body c (with_cursors w m) bc (f bc))
        by done.
      rewrite Hnext.
      change (with_cursors (with_cursors w m) (<[c:=f bc]> (cursors (with_cursors w m))))
        with (with_cursors w (<[c:=f bc]> m)).
      pose proof (chain_NoDup _ _ _ Hch) as Hnd. apply NoDup_cons in Hnd as [Hnin _].
      rewrite (IH fuel (bc_next bc) (<[c:=f bc]> m)).
      + do 2 f_equal. unfold on_cursors. simpl. f_equal.
        apply map_eq. intros x. destruct (decide (x = c)) as [->|Hne].
        * by rewrite lookup_insert_eq, lookup_alter_eq, Hbc.
        * by rewrite lookup_insert_ne, lookup_alter_ne.
      + eapply chain_ext; [done|]. intros x b Hx Hb.
        exists b. rewrite lookup_insert_ne; [done|]. intros ->. done.
      + simpl in Hlen. lia. }
  intros fuel cs c0 m. apply Hgen.
Qed.

Lemma with_cursors_id w : with_cursors w (cursors w) = w.
Proof. by destruct w. Qed.

Lemma for_cursors_registered (f : bplus_cursor → bplus_cursor) body w cs :
  (∀ m c, body (with_cursors w m) c = Some (f c)) →
  (∀ c, bc_next (f c) = bc_next c) →
  chain (cursors w) (cursor_list (tree w)) cs →
  for_cursors body w = Some (with_cursors w (on_cursors f cs (cursors w))).
Proof.
  intros Hbody Hnext Hch. unfold for_cursors.
  pose proof (for_cursors_from_chain f body w (size (cursors w)) Hbody Hnext cs _
                (cursors w) Hch (chain_length _ _ _ Hch)) as H.
  by rewrite with_cursors_id in H.
Qed.

(** ** Making a cursor *)

(** the cursor structs are at addresses that were handed out, and their
    positions are unsigned numbers *)
Definition cursors_ok (w : world) : Prop :=
  0 < next_cursor w
  ∧ ∀ c bc, cursors w !! c = Some bc →
      0 < c < next_cursor w ∧ 0 ≤ bc_pos bc < 4294967296.

Lemma make_bplus_cursor_spec w leaf pos cs :
  cursors_ok w → chain (cursors w) (cursor_list (tree w)) cs →
  0 ≤ pos < 4294967296 →
  ∃ c w', make_bplus_cursor w leaf pos = (c, w')
    ∧ pages w' = pages w ∧ next_page w' = next_page w
    ∧ root (tree w') = root (tree w) ∧ depth (tree w') = depth (tree w)
    ∧ leaves (tree w') = leaves (tree w)
    ∧ num_recs (tree w') = num_recs (tree w)
    ∧ num_blks (tree w') = num_blks (tree w)
    ∧ path (tree w') = path (tree w)
    ∧ path_length (tree w') = path_length (tree w)
    ∧ (c = 0 ∧ (grant w).1 = false ∧ cursors w' = cursors w ∧ tree w' = tree w
         ∧ next_cursor w' = next_cursor w
       ∨ c = next_cursor w ∧ c ≠ 0 ∧ (grant w).1 = true
         ∧ cursors w !! c = None
         ∧ cursors w' = <[c := Cursor 1 (cursor_list (tree w)) leaf pos 0]> (cursors w)
         ∧ cursor_list (tree w') = c
         ∧ num_crsrs (tree w') = u64 (num_crsrs (tree w) + 1)
         ∧ chain (cursors w') (cursor_list (tree w')) (c :: cs)
         ∧ cursors_ok w').
Proof.
  intros [Hn Hok] Hch Hpos. unfold make_bplus_cursor.
  destruct (grant_fields w) as (Hg1 & Hg2 & Hg3 & Hg4).
  assert (Hgn : next_cursor (grant w).2 = next_cursor w).
  { unfold grant. by destruct (oracle w). }
  destruct (grant w) as [ok w1]. simpl in *.
  destruct ok; eexists _, _; (split; [done|]); simpl; rewrite ?Hg1, ?Hg2, ?Hg4;
    repeat (split; [done|]).
  - right. rewrite Hgn, Hg3.
    assert (Hnone : cursors w !! next_cursor w = None).
    { destruct (cursors w !! next_cursor w) as [bc|] eqn:E; [|done].
      apply Hok in E. lia. }
    split; [done|]. split; [lia|]. split; [done|]. split; [done|].
    split; [done|]. split; [done|]. split; [done|]. split.
    + econstructor; [lia|by rewrite lookup_insert_eq|]. simpl.
      eapply chain_ext; [done|]. intros x bc Hx Hbc. exists bc.
      rewrite lookup_insert_ne; [done|]. intros <-. congruence.
    + unfold cursors_ok. simpl. rewrite ?Hgn, ?Hg3. split; [lia|]. intros c bc Hc.
      destruct (decide (c = next_cursor w)) as [->|Hne].
      * rewrite lookup_insert_eq in Hc. injection Hc as <-. simpl. lia.
      * rewrite lookup_insert_ne in Hc by done. apply Hok in Hc. lia.
  - left. done.
Qed.

(** ** Reading and writing through a cursor *)

Lemma get_record_on w c bc lb :
  cursors w !! c = Some bc → bc_invalid bc = 0 → bc_leaf bc ≠ 0 →
  pages w !! bc_leaf bc = Some lb → bc_pos bc < num_keys lb →
  get_record c w
  = Some (OK, Some (get_key lb (bc_pos bc), get_value lb (bc_pos bc))).
Proof.
  intros Hc Hinv Hl Hlb Hpos. unfold get_record, cursor_on_record.
  rewrite Hc. simpl. rewrite Hinv. simpl.
  rewrite (proj2 (Z.eqb_neq _ _) Hl).
  rewrite (load_num_keys_at _ _ _ Hlb). simpl.
  rewrite (proj2 (Z.ltb_lt _ _) Hpos).
  by rewrite !(load_at _ _ _ _ Hlb).
Qed.

(** what [get_record] has answered OK for *)
Lemma get_record_OK w c k v :
  get_record c w = Some (OK, Some (k, v)) →
  ∃ bc lb, cursors w !! c = Some bc ∧ bc_invalid bc = 0 ∧ bc_leaf bc ≠ 0
    ∧ pages w !! bc_leaf bc = Some lb ∧ bc_pos bc < num_keys lb
    ∧ k = get_key lb (bc_pos bc) ∧ v = get_value lb (bc_pos bc).
Proof.
  unfold get_record, cursor_on_record. intros H.
  apply bind_Some in H as (bc & Hc & H).
  apply bind_Some in H as (live & Hlive & H).
  destruct (bc_invalid bc =? 0) eqn:E1; simpl in Hlive;
    [|injection Hlive as <-; done].
  destruct (bc_leaf bc =? 0) eqn:E2; [injection Hlive as <-; done|].
  apply bind_Some in Hlive as (nk & Hnk & Hlive). injection Hlive as <-.
  unfold load_num_keys in Hnk. apply bind_Some in Hnk as (lb & Hlb & Hnk).
  injection Hnk as <-.
  destruct (bc_pos bc <? num_keys lb) eqn:E3; [|done].
  rewrite !(load_at _ _ _ _ Hlb) in H. simpl in H. injection H as <- <-.
  exists bc, lb. apply Z.eqb_eq in E1. apply Z.eqb_neq in E2. apply Z.ltb_lt in E3.
  done.
Qed.

Lemma update_record_on w c v bc lb :
  cursors w !! c = Some bc → bc_invalid bc = 0 → bc_leaf bc ≠ 0 →
  pages w !! bc_leaf bc = Some lb → bc_pos bc < num_keys lb →
  update_record c v w
  = Some (OK, with_pages w (<[bc_leaf bc := wr lb (256 + bc_pos bc) v]> (pages w))).
Proof.
  intros Hc Hinv Hl Hlb Hpos. unfold update_record, cursor_on_record.
  rewrite Hc. simpl. rewrite Hinv. simpl.
  rewrite (proj2 (Z.eqb_neq _ _) Hl).
  rewrite (load_num_keys_at _ _ _ Hlb). simpl.
  rewrite (proj2 (Z.ltb_lt _ _) Hpos).
  by rewrite (store_at _ _ _ _ lb Hlb).
Qed.

(** ** A cursor on the place of a key *)

Lemma path_reserved_next_cursor w : next_cursor (path_reserved w).2 = next_cursor w.
Proof.
  unfold path_reserved. destruct (path_length (tree w) <? depth (tree w)); [|done].
  unfold grant. destruct (oracle w) as [|[] o]; done.
Qed.

Lemma find_leaf_loop_next_cursor n : ∀ d node k w leaf w',
  find_leaf_loop n d node k w = Some (leaf, w') → next_cursor w' = next_cursor w.
Proof.
  induction n as [|n IH]; simpl; intros d node k w leaf w' H.
  - by simplify_eq.
  - apply bind_Some in H as (nb & Hnb & H).
    apply bind_Some in H as (w1 & Hw1 & H).
    apply IH in H as ->. unfold path_update in Hw1.
    apply bind_Some in Hw1 as (l & Hl & Hw1).
    apply bind_Some in Hw1 as (pn & Hpn & Hw1). by simplify_eq.
Qed.

Lemma find_record_spec w G k cs :
  Inv w G → cursors_ok w → chain (cursors w) (cursor_list (tree w)) cs →
  ∃ c w', find_record k w = Some (c, w')
    ∧ pages w' = pages w ∧ root (tree w') = root (tree w)
    ∧ depth (tree w') = depth (tree w) ∧ num_recs (tree w') = num_recs (tree w)
    ∧ num_blks (tree w') = num_blks (tree w)
    ∧ (c = 0 ∧ cursors w' = cursors w
         ∧ cursor_list (tree w') = cursor_list (tree w)
         ∧ num_crsrs (tree w') = num_crsrs (tree w)
       ∨ ∃ leaf lb,
           descend (pages w) (Z.to_nat (depth (tree w))) (root (tree w)) k = Some leaf
           ∧ pages w !! leaf = Some lb
           ∧ c ≠ 0 ∧ cursors w !! c = None
           ∧ cursors w'
             = <[c := Cursor 1 (cursor_list (tree w)) leaf (scan_leaf_keys lb k) 0]>
                 (cursors w)
           ∧ num_crsrs (tree w') = u64 (num_crsrs (tree w) + 1)
           ∧ chain (cursors w') (cursor_list (tree w')) (c :: cs)
           ∧ cursors_ok w' ∧ Inv w' G).
Proof.
  intros HI Hok Hch. pose proof (Inv_bounded _ _ HI) as [Hbp _].
  destruct (ti_blk _ _ _ _ _ (inv_tree _ _ HI) _ _ (ti_root _ _ _ _ _ (inv_tree _ _ HI)))
    as (rb & Hrb & _).
  apply Hbp in Hrb.
  destruct (locate w G k HI) as (e0 & w0 & Hpr & Hs0 & Hnp0 & Hcase).
  unfold find_record. rewrite (proj2 (Z.eqb_neq _ _)) by lia. simpl. rewrite Hpr.
  destruct Hcase as [->|(-> & leaf & w1 & lb & Hfl & Hloc & Hs1 & Hnp1)].
  - rewrite decide_False by done. eexists _, _. split; [done|].
    destruct Hs0 as (H1 & H2 & H3 & H4 & H5 & H6 & H7 & H8 & H9).
    repeat (split; [done|]). left. done.
  - rewrite decide_True by done. rewrite Hfl. simpl.
    rewrite (lo_leaf _ _ _ _ _ Hloc). simpl.
    destruct (located_descend _ _ _ _ _ Hloc) as [Hdesc _].
    destruct Hs1 as (H1 & H2 & H3 & H4 & H5 & H6 & H7 & H8 & H9).
    rewrite H1, H3, H5 in Hdesc.
    pose proof (lo_leaf _ _ _ _ _ Hloc) as Hlb. rewrite H1 in Hlb.
    assert (Hnc1 : next_cursor w1 = next_cursor w).
    { rewrite (find_leaf_loop_next_cursor _ _ _ _ _ _ _ Hfl).
      pose proof (path_reserved_next_cursor w) as E. by rewrite Hpr in E. }
    assert (Hok1 : cursors_ok w1).
    { unfold cursors_ok. rewrite Hnc1, H2. done. }
    destruct (scan_leaf_keys_spec lb k) as (Hr & _).
    pose proof (num_keys_range lb).
    destruct (make_bplus_cursor_spec w1 leaf (scan_leaf_keys lb k) cs Hok1)
      as (c & w' & Hmk & M1 & M2 & M3 & M4 & M5 & M6 & M7 & M8 & M9 & Mcase).
    { by rewrite H2, H6. }
    { lia. }
    rewrite Hmk. exists c, w'. split; [done|].
    split; [congruence|]. split; [congruence|]. split; [congruence|].
    split; [congruence|]. split; [congruence|].
    destruct Mcase as [(-> & _ & N1 & N2 & _)|(-> & N0 & _ & N1 & N2 & N3 & N4 & N5 & N6)].
    + left. rewrite N1, N2. done.
    + right. exists leaf, lb. split; [done|]. split; [done|].
      split; [done|]. split; [congruence|]. split; [by rewrite N2, H2, H6|].
      split; [by rewrite N4, H9|]. split; [done|]. split; [done|].
      destruct (lo_inv _ _ _ _ _ Hloc) as [I1 I2 I3 I4 [I5 I6]].
      split; rewrite ?M1, ?M2, ?M3, ?M4; try done.
      unfold path_ok. by rewrite M8, M9.
Qed.

(** ** Releasing a cursor *)

(** the link that holds the cursor behind the cursors [l1], which start
    at the link [l] *)
Definition last_link (l : option Z) (l1 : list Z) : option Z :=
  match last l1 with Some y => Some y | None => l end.

Lemma last_link_cons l y l1 : last_link l (y :: l1) = last_link (Some y) l1.
Proof.
  unfold last_link. destruct l1 as [|z l1]; [done|].
  change (last (y :: z :: l1)) with (last (z :: l1)).
  destruct (last (z :: l1)) eqn:E; [done|]. by apply last_None in E.
Qed.

Lemma unlink_loop_run w c bc l2 : ∀ l1 l fuel x,
  link_read w l = Some x → chain (cursors w) x (l1 ++ c :: l2) →
  c ∉ l1 → (length l1 ≤ fuel)%nat → cursors w !! c = Some bc →
  unlink_loop fuel l c w = link_write w (last_link l l1) (bc_next bc).
Proof.
  induction l1 as [|y l1 IH]; intros l fuel x Hl Hch Hnin Hlen Hc.
  - simpl in Hch. inversion Hch as [|c' bc' cs' Hc0 Hbc Hrest]; subst.
    destruct fuel; simpl; rewrite Hl; simpl;
      rewrite (proj2 (Z.eqb_neq _ _) Hc0), Z.eqb_refl, Hc; done.
  - simpl in Hch. inversion Hch as [|c' by' cs' Hy0 Hby Hrest]; subst.
    apply not_elem_of_cons in Hnin as [Hcy Hnin].
    destruct fuel as [|fuel]; [simpl in Hlen; lia|].
    simpl. rewrite Hl. simpl.
    rewrite (proj2 (Z.eqb_neq _ _) Hy0).
    rewrite (proj2 (Z.eqb_neq y c)) by congruence.
    rewrite last_link_cons. apply (IH (Some y) fuel (bc_next by')); try done.
    + simpl. by rewrite Hby.
    + simpl in Hlen. lia.
Qed.

Lemma chain_cons_inv m x c cs :
  chain m x (c :: cs) →
  x = c ∧ c ≠ 0 ∧ ∃ bc, m !! c = Some bc ∧ chain m (bc_next bc) cs.
Proof. intros H. inversion H; subst. eauto. Qed.

(** the cursors but for their links *)
Definition same_cursor (bc bc' : bplus_cursor) : Prop :=
  bc_tree bc' = bc_tree bc ∧ bc_leaf bc' = bc_leaf bc
  ∧ bc_pos bc' = bc_pos bc ∧ bc_invalid bc' = bc_invalid bc.

Lemma chain_skip m c bc l2 : ∀ la y x,
  chain m x (la ++ y :: c :: l2) → m !! c = Some bc →
  ∃ by', m !! y = Some by'
    ∧ chain (<[y := set_bc_next by' (bc_next bc)]> m) x (la ++ y :: l2).
Proof.
  induction la as [|z la IH]; intros y x Hch Hc.
  - simpl in Hch. pose proof (chain_NoDup _ _ _ Hch) as Hnd.
    inversion Hch as [|y' by' cs' Hy0 Hby Hrest]; subst.
    inversion Hrest as [|c' bc' cs' Hc0 Hbc Hrest']; subst.
    assert (bc' = bc) as -> by congruence.
    exists by'. split; [done|]. simpl.
    econstructor; [done|by rewrite lookup_insert_eq|]. simpl.
    eapply chain_ext; [done|]. intros x b Hx Hb. exists b.
    rewrite lookup_insert_ne; [done|]. intros <-.
    apply NoDup_cons in Hnd as [Hn _]. apply Hn. by right.
  - simpl in Hch. pose proof (chain_NoDup _ _ _ Hch) as Hnd.
    inversion Hch as [|z' bz cs' Hz0 Hbz Hrest]; subst.
    destruct (IH y (bc_next bz) Hrest Hc) as (by' & Hby & Hch').
    exists by'. split; [done|]. simpl.
    econstructor; [done| |done].
    rewrite lookup_insert_ne; [done|]. intros <-.
    apply NoDup_cons in Hnd as [Hn _]. apply Hn.
    apply elem_of_app. right. left.
Qed.

Lemma chain_delete m x cs c :
  chain m x cs → c ∉ cs → chain (base.delete c m) x cs.
Proof.
  intros Hch Hnin. eapply chain_ext; [done|]. intros y b Hy Hb. exists b.
  rewrite lookup_delete_ne; [done|]. intros <-. done.
Qed.

Lemma free_cursor_spec w c bc l1 l2 :
  chain (cursors w) (cursor_list (tree w)) (l1 ++ c :: l2) →
  cursors w !! c = Some bc → bc_tree bc = 1 →
  ∃ w', free_cursor c w = Some w'
    ∧ pages w' = pages w ∧ next_page w' = next_page w
    ∧ next_cursor w' = next_cursor w
    ∧ chain (cursors w') (cursor_list (tree w')) (l1 ++ l2)
    ∧ cursors w' !! c = None
    ∧ (∀ x b, x ≠ c → cursors w !! x = Some b →
         ∃ b', cursors w' !! x = Some b' ∧ same_cursor b b')
    ∧ (∀ x, cursors w !! x = None → cursors w' !! x = None)
    ∧ tree w' = set_cursor_list
                  (set_num_crsrs (tree w) (u64 (num_crsrs (tree w) - 1)))
                  (cursor_list (tree w')).
Proof.
  intros Hch Hc Htree. pose proof (chain_NoDup _ _ _ Hch) as Hnd.
  assert (Hnin1 : c ∉ l1).
  { intros Hin. apply NoDup_app in Hnd as (_ & Hd & _). apply (Hd c Hin). left. }
  assert (Hnin2 : c ∉ l2).
  { apply NoDup_app in Hnd as (_ & _ & Hd). by apply NoDup_cons in Hd as [? _]. }
  pose proof (chain_length _ _ _ Hch) as Hlen. rewrite length_app in Hlen.
  unfold free_cursor. rewrite Hc. simpl. rewrite Htree. simpl.
  rewrite (unlink_loop_run w c bc l2 l1 None (size (cursors w)) (cursor_list (tree w)))
    by (done || lia).
  clear Hlen. induction l1 as [|y la _] using rev_ind.
  - (* the first of the registry *)
    simpl in *. apply chain_cons_inv in Hch as (Hx & Hc0 & bc' & Hbc & Hrest).
    assert (bc' = bc) as -> by congruence.
    eexists. split; [done|]. simpl.
    split; [done|]. split; [done|]. split; [done|].
    split; [by apply chain_delete|]. split; [by rewrite lookup_delete_eq|].
    split; [|split; [|done]].
    + intros x b Hxc Hb. exists b. by rewrite lookup_delete_ne.
    + intros x Hxn. destruct (decide (x = c)) as [->|Hne];
        [by rewrite lookup_delete_eq|by rewrite lookup_delete_ne].
  - (* behind the cursor [y] *)
    unfold last_link. rewrite last_snoc. simpl.
    rewrite <- app_assoc in Hch. simpl in Hch.
    destruct (chain_skip _ c bc l2 la y _ Hch Hc) as (by' & Hby & Hch').
    unfold cursor_update. rewrite Hby. simpl.
    assert (Hyc : y ≠ c).
    { intros ->. apply Hnin1. apply elem_of_app. right. left. }
    eexists. split; [done|]. simpl.
    split; [done|]. split; [done|]. split; [done|].
    split.
    { rewrite <- app_assoc. simpl. apply chain_delete; [done|].
      intros Hin. apply elem_of_app in Hin as [Hin|Hin].
      - apply Hnin1. apply elem_of_app. by left.
      - apply elem_of_cons in Hin as [?|?]; done. }
    split; [by rewrite lookup_delete_eq|].
    split; [|split].
    + intros x b Hx Hb. rewrite lookup_delete_ne by done.
      destruct (decide (x = y)) as [->|Hne].
      * rewrite lookup_insert_eq. assert (b = by') as -> by congruence.
        eexists. split; [done|]. done.
      * rewrite lookup_insert_ne by done. exists b. done.
    + intros x Hx. destruct (decide (x = c)) as [->|Hne];
        [by rewrite lookup_delete_eq|]. rewrite lookup_delete_ne by done.
      rewrite lookup_insert_ne; [done|]. congruence.
    + by destruct (tree w).
Qed.

Lemma list_elem_split_first {A} `{EqDecision A} (l : list A) x :
  x ∈ l → ∃ l1 l2, l = l1 ++ x :: l2.
Proof. apply list_elem_of_split. Qed.

(** ** Cursors and insertion *)

Lemma registry_chain w cs :
  registry w = Some cs → chain (cursors w) (cursor_list (tree w)) cs.
Proof. apply registry_from_chain. Qed.

(** an insertion into a leaf with room, with the cursors *)
Lemma insert_room_cursors w G k v leaf lb cs :
  located w G k leaf lb →
  ¬ (scan_leaf_keys lb k < num_keys lb ∧ get_key lb (scan_leaf_keys lb k) = k) →
  num_keys lb < 255 → chain (cursors w) (cursor_list (tree w)) cs →
  insert_tail k v leaf lb w
  = Some (OK,
      with_tree
        (with_cursors
           (with_pages w
              (<[leaf := blk_insert_into_leaf lb (scan_leaf_keys lb k) k v]> (pages w)))
           (on_cursors (insert_into_leaf_fix leaf (scan_leaf_keys lb k)) cs (cursors w)))
        (set_num_recs (tree w) (u64 (num_recs (tree w) + 1)))).
Proof.
  intros Hloc Hnf Hroom Hch. pose proof Hloc as [HI Hfr Hlb Hblk Hpath].
  destruct (scan_leaf_keys_spec lb k) as (Hr & Hlo & Hhi).
  set (i := scan_leaf_keys lb k) in *.
  unfold insert_tail. fold i.
  assert ((i <? num_keys lb) && (get_key lb i =? k) = false) as ->.
  { apply andb_false_iff. destruct (decide (i < num_keys lb)).
    - right. apply Z.eqb_neq. intros E. apply Hnf. done.
    - left. apply Z.ltb_ge. lia. }
  change (256 - 1) with 255. rewrite (proj2 (Z.ltb_lt _ _) Hroom).
  rewrite (insert_into_leaf_run w leaf i k v lb Hlb Hblk Hr).
  rewrite (for_cursors_registered (insert_into_leaf_fix leaf i) _ _ cs); try done.
  intros c. unfold insert_into_leaf_fix. by destruct (_ && _).
Qed.

(** a cursor that stands on a record other than the one of [k] stands on
    it after an insertion into a leaf with room *)
Lemma insert_room_get_record w G k v leaf lb cs w' c k0 v0 :
  located w G k leaf lb →
  ¬ (scan_leaf_keys lb k < num_keys lb ∧ get_key lb (scan_leaf_keys lb k) = k) →
  num_keys lb < 255 → chain (cursors w) (cursor_list (tree w)) cs →
  (∀ x bx, cursors w !! x = Some bx → 0 ≤ bc_pos bx) →
  insert_tail k v leaf lb w = Some (OK, w') →
  c ∈ cs → get_record c w = Some (OK, Some (k0, v0)) →
  get_record c w' = Some (OK, Some (k0, v0)).
Proof.
  intros Hloc Hnf Hroom Hch Hok Hrun Hc Hget.
  rewrite (insert_room_cursors w G k v leaf lb cs Hloc Hnf Hroom Hch) in Hrun.
  injection Hrun as <-.
  pose proof Hloc as [HI Hfr Hlb Hblk Hpath].
  destruct (scan_leaf_keys_spec lb k) as (Hr & Hlo & Hhi).
  pose proof (num_keys_range lb) as Hrange.
  set (i := scan_leaf_keys lb k) in *.
  destruct (blk_insert_into_leaf_spec lb i k v Hblk Hr Hroom)
    as (Hblk' & Hnk' & Hkeys & Hvals & _).
  set (lb' := blk_insert_into_leaf lb i k v) in *.
  apply get_record_OK in Hget
    as (bc & lbc & Hbc & Hinv & Hl0 & Hlbc & Hpos & -> & ->).
  pose proof (Hok c bc Hbc) as Hp0.
  assert (Hbc' : ∀ W, cursors W = on_cursors (insert_into_leaf_fix leaf i) cs (cursors w) →
                 cursors W !! c = Some (insert_into_leaf_fix leaf i bc)).
  { intros W ->. rewrite on_cursors_lookup_NoDup by (by eapply chain_NoDup).
    rewrite decide_True by done. by rewrite Hbc. }
  match goal with |- get_record c ?W = _ => specialize (Hbc' W eq_refl);
    set (w' := W) in * end.
  assert (Hpg : pages w' = <[leaf := lb']> (pages w)) by done.
  clearbody w'.
  unfold insert_into_leaf_fix in Hbc'.
  destruct (decide (bc_leaf bc = leaf)) as [Hleaf|Hleaf].
  - assert (lbc = lb) as -> by congruence.
    rewrite (proj2 (Z.eqb_eq _ _) Hleaf) in Hbc'. simpl in Hbc'.
    destruct (i <=? bc_pos bc) eqn:E.
    + apply Z.leb_le in E.
      rewrite (get_record_on _ c _ lb' Hbc'); simpl;
        rewrite ?(u32_small (bc_pos bc + 1)) by lia; try done; try lia.
      * rewrite Hkeys, Hvals by lia.
        rewrite !decide_False by lia.
        by replace (bc_pos bc + 1 - 1) with (bc_pos bc) by lia.
      * by rewrite Hpg, Hleaf, lookup_insert_eq.
    + apply Z.leb_gt in E.
      rewrite (get_record_on _ c _ lb' Hbc'); simpl; try done; try lia.
      * rewrite Hkeys, Hvals by lia. by rewrite !decide_True by lia.
      * by rewrite Hpg, Hleaf, lookup_insert_eq.
  - rewrite (proj2 (Z.eqb_neq _ _) Hleaf) in Hbc'. simpl in Hbc'.
    rewrite (get_record_on _ c _ lbc Hbc'); simpl; try done.
    by rewrite Hpg, lookup_insert_ne.
Qed.

(** an insertion of a key that is present, as a run *)
Lemma insert_found_run w k v leaf lb :
  pages w !! leaf = Some lb →
  scan_leaf_keys lb k < num_keys lb → get_key lb (scan_leaf_keys lb k) = k →
  insert_tail k v leaf lb w
  = Some (OK, with_pages w (<[leaf := wr lb (256 + scan_leaf_keys lb k) v]> (pages w))).
Proof.
  intros Hlb Hlt Hkey. unfold insert_tail.
  rewrite (proj2 (Z.ltb_lt _ _) Hlt), (proj2 (Z.eqb_eq _ _) Hkey). simpl.
  by rewrite (store_at w leaf _ _ lb Hlb).
Qed.

Lemma insert_found_get_record w k v leaf lb c k0 v0 :
  pages w !! leaf = Some lb →
  scan_leaf_keys lb k < num_keys lb → get_key lb (scan_leaf_keys lb k) = k →
  get_record c w = Some (OK, Some (k0, v0)) → k0 ≠ k →
  get_record c (with_pages w (<[leaf := wr lb (256 + scan_leaf_keys lb k) v]> (pages w)))
  = Some (OK, Some (k0, v0)).
Proof.
  intros Hlb Hlt Hkey Hget Hne.
  destruct (scan_leaf_keys_spec lb k) as (Hr & _).
  pose proof (num_keys_range lb) as Hrange.
  set (i := scan_leaf_keys lb k) in *.
  apply get_record_OK in Hget
    as (bc & lbc & Hbc & Hinv & Hl0 & Hlbc & Hpos & -> & ->).
  destruct (decide (bc_leaf bc = leaf)) as [Hleaf|Hleaf].
  - assert (lbc = lb) as -> by congruence.
    rewrite (get_record_on _ c bc (wr lb (256 + i) v)); simpl; try done.
    + unfold get_key, get_value.
      destruct (decide (bc_pos bc = i)) as [E|E]; [by rewrite E in Hne|].
      destruct (decide (0 ≤ bc_pos bc)).
      * rewrite !rd_wr_ne by lia. done.
      * unfold rd, wr, block in *.
        rewrite !list_lookup_insert_ne by lia. done.
    + by rewrite Hleaf, lookup_insert_eq.
    + rewrite num_keys_wr by lia. done.
  - rewrite (get_record_on _ c bc lbc); simpl; try done.
    by rewrite lookup_insert_ne.
Qed.

(** the cursors of a tree stay on their records when a key is inserted
    into a leaf that has room for it *)
Lemma insert_get_record w G k v cs leaf lb c k0 v0 w' :
  Inv w G → cursors_ok w → registry w = Some cs → c ∈ cs →
  descend (pages w) (Z.to_nat (depth (tree w))) (root (tree w)) k = Some leaf →
  pages w !! leaf = Some lb → num_keys lb < 255 →
  get_record c w = Some (OK, Some (k0, v0)) → k0 ≠ k →
  insert k v w = Some (OK, w') →
  get_record c w' = Some (OK, Some (k0, v0)).
Proof.
  intros HI Hok Hreg Hc Hdesc Hlb Hroom Hget Hne Hrun.
  apply registry_chain in Hreg.
  destruct (locate w G k HI) as (e0 & w0 & Hpr & Hs0 & Hnp0 & Hcase).
  destruct Hcase as [->|(-> & leaf1 & w1 & lb1 & Hfl & Hloc & Hs1 & Hnp1)].
  { unfold insert in Hrun. rewrite Hpr in Hrun.
    rewrite decide_False in Hrun by done. by injection Hrun. }
  pose proof Hloc as [HI1 Hfr Hlb1 Hblk Hpath].
  rewrite (insert_unfold k v w w0 leaf1 w1 lb1 Hpr Hfl Hlb1) in Hrun.
  destruct (located_descend _ _ _ _ _ Hloc) as [Hdesc1 _].
  destruct Hs1 as (Hpg & Hcur & Hrt & _ & Hdp & Hcl & _).
  rewrite Hpg, Hdp, Hrt, Hdesc in Hdesc1. injection Hdesc1 as <-.
  assert (lb1 = lb) as -> by (rewrite Hpg in Hlb1; congruence).
  assert (Hget1 : get_record c w1 = Some (OK, Some (k0, v0))).
  { apply get_record_OK in Hget
      as (bc & lbc & Hbc & Hinv & Hl0 & Hlbc & Hpos & -> & ->).
    apply get_record_on; rewrite ?Hpg, ?Hcur; done. }
  destruct (decide (scan_leaf_keys lb k < num_keys lb
                    ∧ get_key lb (scan_leaf_keys lb k) = k)) as [[Hf1 Hf2]|Hnf].
  - rewrite (insert_found_run w1 k v leaf lb Hlb1 Hf1 Hf2) in Hrun.
    injection Hrun as <-. by apply insert_found_get_record.
  - apply (insert_room_get_record w1 G k v leaf lb cs); try done.
    + by rewrite Hcur, Hcl.
    + destruct Hok as [_ Hok]. rewrite Hcur. intros x bx Hx.
      destruct (Hok x bx Hx). lia.
Qed.

(** ** The descent and the registry, as functions *)

Lemma descend_lands h rt dep G k n : ∀ a,
  tree_inv h rt dep G None → G !! a = Some n →
  ∃ leaf lb, descend h n a k = Some leaf ∧ G !! leaf = Some O
    ∧ h !! leaf = Some lb ∧ blk lb.
Proof.
  induction n as [|n IH]; intros a HT Ha; simpl.
  - destruct (ti_blk _ _ _ _ _ HT _ _ Ha) as (b & Hb & Hblk). by exists a, b.
  - destruct (ti_blk _ _ _ _ _ HT _ _ Ha) as (b & Hb & Hblk). rewrite Hb. simpl.
    apply IH; [done|].
    apply (ti_child HT a n b); [done..|].
    by destruct (scan_index_keys_spec b k) as (Hr & _).
Qed.

Lemma registry_from_enough fuel : ∀ c w cs,
  chain (cursors w) c cs → (length cs ≤ fuel)%nat →
  registry_from fuel c w = Some cs.
Proof.
  induction fuel as [|fuel IH]; intros c w cs Hch Hlen.
  - destruct Hch; simpl in *; [done|lia].
  - destruct Hch as [|c bc cs Hne Hbc Hch]; simpl in *; [done|].
    rewrite (proj2 (Z.eqb_neq _ _) Hne), Hbc. simpl.
    rewrite (IH _ _ cs) by (done || lia). done.
Qed.

Lemma chain_registry w cs :
  chain (cursors w) (cursor_list (tree w)) cs → registry w = Some cs.
Proof.
  intros Hch. apply registry_from_enough; [done|]. by eapply chain_length.
Qed.

(** the value of the record of [k] replaced in its leaf *)
Lemma leaf_value_update w G k v leaf lb :
  Inv w G →
  descend (pages w) (Z.to_nat (depth (tree w))) (root (tree w)) k = Some leaf →
  pages w !! leaf = Some lb →
  scan_leaf_keys lb k < num_keys lb → get_key lb (scan_leaf_keys lb k) = k →
  let w' := with_pages w (<[leaf := wr lb (256 + scan_leaf_keys lb k) v]> (pages w)) in
  Inv w' G ∧ holds w' k v
  ∧ (sorted_nodes w G → sorted_nodes w' G)
  ∧ (∀ k' v', k' ≠ k → holds w' k' v' ↔ holds w k' v').
Proof.
  intros HI Hdesc Hlb Hlt Hkey.
  destruct (descend_lands (pages w) _ _ G k _ _ (inv_tree _ _ HI)
              (ti_root _ _ _ _ _ (inv_tree _ _ HI)))
    as (leaf0 & lb0 & Hd0 & HG & Hlb0 & Hblk).
  assert (leaf0 = leaf) as -> by congruence.
  assert (lb0 = lb) as -> by congruence.
  destruct (scan_leaf_keys_spec lb k) as (Hr & _).
  pose proof (num_keys_range lb) as Hrange.
  set (i := scan_leaf_keys lb k) in *.
  set (lb' := wr lb (256 + i) v).
  assert (Hnk : num_keys lb' = num_keys lb) by (apply num_keys_wr; lia).
  assert (Hkeys : ∀ j, 0 ≤ j < num_keys lb → get_key lb' j = get_key lb j).
  { intros j Hj. unfold get_key, lb'. apply rd_wr_ne; lia. }
  simpl. split.
  { apply Inv_update_leaf with lb; [done..|by apply blk_wr|].
    intros Hne. rewrite Hnk.
    exact (ti_min _ _ _ _ _ (inv_tree _ _ HI) leaf _ lb HG Hlb Hne). }
  split.
  { exists leaf, lb'. simpl. split; [|split; [by rewrite lookup_insert_eq|]].
    - rewrite <- Hdesc.
      eapply (descend_stable_index (pages w)); [apply HI|apply HI|].
      intros x m Hx _. apply lookup_insert_ne. intros <-. congruence.
    - rewrite (scan_leaf_keys_ext lb lb' k Hnk Hkeys). fold i.
      split; [lia|]. split; [by rewrite Hkeys by lia|].
      unfold get_value, lb'. apply rd_wr_eq; [lia|]. rewrite Hblk. lia. }
  split; [intros Hs; by eapply sorted_nodes_update|].
  intros k' v' Hne.
  assert (Hdk : descend (<[leaf:=lb']> (pages w)) (Z.to_nat (depth (tree w)))
                  (root (tree w)) k'
                = descend (pages w) (Z.to_nat (depth (tree w))) (root (tree w)) k').
  { eapply (descend_stable_index (pages w)); [apply HI|apply HI|].
    intros x m Hx _. apply lookup_insert_ne. intros <-. congruence. }
  assert (Hother : ∀ j, 0 ≤ j < num_keys lb → get_key lb j = k' →
            get_value lb' j = get_value lb j).
  { intros j Hj Hkj. unfold get_value, lb'. apply rd_wr_ne; [lia|lia|].
    intros E. assert (j = i) as -> by lia. congruence. }
  unfold holds. simpl.
  split; intros (leaf' & b' & H1 & H2 & H3 & H4 & H5).
  - rewrite Hdk in H1. exists leaf'. destruct (decide (leaf' = leaf)) as [->|Hnl].
    + rewrite lookup_insert_eq in H2. injection H2 as <-. exists lb.
      rewrite (scan_leaf_keys_ext lb lb' k' Hnk Hkeys) in *.
      destruct (scan_leaf_keys_spec lb k') as (Hr' & _).
      rewrite Hkeys in H4 by lia. rewrite Hother in H5 by lia.
      split; [done|]. split; [done|]. split; [lia|done].
    + rewrite lookup_insert_ne in H2 by done. exists b'. done.
  - rewrite <- Hdk in H1. exists leaf'. destruct (decide (leaf' = leaf)) as [->|Hnl].
    + assert (b' = lb) as -> by congruence. exists lb'.
      rewrite lookup_insert_eq.
      rewrite (scan_leaf_keys_ext lb lb' k' Hnk Hkeys).
      destruct (scan_leaf_keys_spec lb k') as (Hr' & _).
      rewrite Hkeys by lia. rewrite Hother by lia.
      split; [done|]. split; [done|]. split; [lia|done].
    + exists b'. rewrite lookup_insert_ne by done. done.
Qed.

(** ** The cursor of a key *)

(** [find_record] hands out a cursor on the slot where the scan of the
    leaf of [k] stops *)
Lemma find_record_get_record w G k cs :
  Inv w G → cursors_ok w → registry w = Some cs →
  ∃ c w', find_record k w = Some (c, w')
    ∧ pages w' = pages w
    ∧ (c = 0 ∧ cursors w' = cursors w ∧ registry w' = Some cs
       ∨ c ≠ 0 ∧ cursors w !! c = None ∧ registry w' = Some (c :: cs)
         ∧ num_crsrs (tree w') = u64 (num_crsrs (tree w) + 1)
         ∧ Inv w' G ∧ cursors_ok w'
         ∧ (∀ x bx, cursors w !! x = Some bx → cursors w' !! x = Some bx)
         ∧ (∀ v, holds w k v → get_record c w' = Some (OK, Some (k, v)))
         ∧ ((∀ v, ¬ holds w k v) →
            get_record c w' = Some (NOTFOUND, None)
            ∨ ∃ k' v', get_record c w' = Some (OK, Some (k', v')) ∧ k < k')).
Proof.
  intros HI Hok Hreg. apply registry_chain in Hreg.
  destruct (find_record_spec w G k cs HI Hok Hreg)
    as (c & w' & Hrun & Hpg & Hrt & Hdp & _ & _ & Hcase).
  exists c, w'. split; [done|]. split; [done|].
  destruct Hcase as [(-> & Hc & Hl & _)|(leaf & lb & Hdesc & Hlb & Hne & Hfresh & Hc
                                          & Hn & Hch & Hok' & HI')].
  - left. split; [done|]. split; [done|]. apply chain_registry. by rewrite Hc, Hl.
  - right. split; [done|]. split; [done|]. split; [by apply chain_registry|].
    split; [done|]. split; [done|]. split; [done|].
    destruct (scan_leaf_keys_spec lb k) as (Hr & Hlo & Hhi).
    set (i := scan_leaf_keys lb k) in *.
    assert (Hbc : cursors w' !! c = Some (Cursor 1 (cursor_list (tree w)) leaf i 0))
      by (by rewrite Hc, lookup_insert_eq).
    assert (Hleaf : leaf ≠ 0).
    { intros ->. pose proof (inv_pages _ _ HI _ _ Hlb). lia. }
    split; [|split].
    + intros x bx Hx. rewrite Hc, lookup_insert_ne; [done|]. intros <-. congruence.
    + intros v (leaf' & lb' & H1 & H2 & H3 & H4 & H5).
      assert (leaf' = leaf) as -> by congruence.
      assert (lb' = lb) as -> by congruence. fold i in H3, H4, H5.
      rewrite (get_record_on w' c _ lb Hbc); simpl; try done; [|by rewrite Hpg].
      by rewrite H4, H5.
    + intros Hno. destruct (decide (i < num_keys lb)) as [Hlt|Hge].
      * right. exists (get_key lb i), (get_value lb i).
        split; [apply (get_record_on w' c _ lb Hbc); simpl; try done; by rewrite Hpg|].
        specialize (Hhi Hlt).
        destruct (decide (get_key lb i = k)) as [E|E]; [|lia].
        exfalso. apply (Hno (get_value lb i)). exists leaf, lb. done.
      * left. unfold get_record, cursor_on_record. rewrite Hbc. simpl.
        rewrite (proj2 (Z.eqb_neq _ _) Hleaf).
        rewrite (load_num_keys_at w' leaf lb) by (by rewrite Hpg). simpl.
        by rewrite (proj2 (Z.ltb_ge _ _)) by lia.
Qed.

(** the value of a record replaced through the cursor of its key *)
Lemma update_record_through w G k v v0 cs c w1 :
  Inv w G → cursors_ok w → registry w = Some cs → holds w k v0 →
  find_record k w = Some (c, w1) → c ≠ 0 →
  ∃ w2, update_record c v w1 = Some (OK, w2)
    ∧ get_record c w2 = Some (OK, Some (k, v))
    ∧ cursors w2 = cursors w1 ∧ tree w2 = tree w1
    ∧ Inv w2 G ∧ holds w2 k v
    ∧ (sorted_nodes w G → sorted_nodes w2 G)
    ∧ (∀ k' v', k' ≠ k → holds w2 k' v' ↔ holds w k' v').
Proof.
  intros HI Hok Hreg Hh Hrun Hc0. apply registry_chain in Hreg.
  destruct (find_record_spec w G k cs HI Hok Hreg)
    as (c' & w' & Hrun' & Hpg & Hrt & Hdp & _ & _ & Hcase).
  rewrite Hrun in Hrun'. injection Hrun' as <- <-.
  destruct Hcase as [(-> & _)|(leaf & lb & Hdesc & Hlb & Hne & Hfresh & Hc
                                & Hn & Hch & Hok' & HI')]; [done|].
  destruct Hh as (leaf' & lb' & H1 & H2 & H3 & H4 & H5).
  assert (leaf' = leaf) as -> by congruence.
  assert (lb' = lb) as -> by congruence.
  set (i := scan_leaf_keys lb k) in *.
  assert (Hbc : cursors w1 !! c = Some (Cursor 1 (cursor_list (tree w)) leaf i 0))
    by (by rewrite Hc, lookup_insert_eq).
  assert (Hleaf : leaf ≠ 0).
  { intros ->. pose proof (inv_pages _ _ HI _ _ Hlb). lia. }
  rewrite <- Hpg in Hlb. rewrite <- Hpg, <- Hdp, <- Hrt in Hdesc.
  destruct (leaf_value_update w1 G k v leaf lb HI' Hdesc Hlb H3 H4)
    as (J1 & J2 & J3 & J4).
  fold i in J1, J2, J3, J4.
  destruct (descend_lands (pages w1) _ _ G k _ _ (inv_tree _ _ HI')
              (ti_root _ _ _ _ _ (inv_tree _ _ HI')))
    as (leaf0 & lb0 & Hd0 & HG & Hlb0 & Hblk).
  assert (leaf0 = leaf) as -> by congruence.
  assert (lb0 = lb) as -> by congruence.
  destruct (scan_leaf_keys_spec lb k) as (Hr & _). fold i in Hr.
  pose proof (num_keys_range lb) as Hrange.
  rewrite (update_record_on w1 c v _ lb Hbc); simpl; try done.
  eexists. split; [done|]. split.
  { rewrite (get_record_on (with_pages w1 _) c _ (wr lb (256 + i) v) Hbc); simpl;
      try done.
    - unfold get_key, get_value. rewrite rd_wr_ne by lia.
      rewrite rd_wr_eq by (rewrite ?Hblk; lia). by rewrite <- H4.
    - by rewrite lookup_insert_eq.
    - rewrite num_keys_wr by lia. done. }
  split; [done|]. split; [done|]. split; [done|]. split; [done|].
  split.
  { intros Hs. apply J3. intros a n b x y Ha Hb. apply (Hs a n b x y Ha).
    by rewrite <- Hpg. }
  intros k' v' Hk'. rewrite (J4 k' v' Hk'). unfold holds.
  by rewrite Hpg, Hdp, Hrt.
Qed.

(** what [get_record] reads of the world *)
Lemma get_record_same w w' x :
  pages w' = pages w →
  (∀ b, cursors w !! x = Some b → ∃ b', cursors w' !! x = Some b' ∧ same_cursor b b') →
  (cursors w !! x = None → cursors w' !! x = None) →
  get_record x w' = get_record x w.
Proof.
  intros Hpg Hsome Hnone. unfold get_record.
  destruct (cursors w !! x) as [b|] eqn:E.
  - destruct (Hsome b eq_refl) as (b' & -> & H1 & H2 & H3 & H4). simpl.
    unfold cursor_on_record, load_num_keys, load. by rewrite Hpg, H2, H3, H4.
  - by rewrite Hnone.
Qed.

(** a cursor of the tree released *)
Lemma free_cursor_registry w cs c :
  registry w = Some cs → c ∈ cs → get_tree c w = Some THE_TREE →
  ∃ l1 l2 w', cs = l1 ++ c :: l2 ∧ free_cursor c w = Some w'
    ∧ registry w' = Some (l1 ++ l2) ∧ cursors w' !! c = None
    ∧ num_crsrs (tree w') = u64 (num_crsrs (tree w) - 1)
    ∧ pages w' = pages w
    ∧ (∀ x, x ≠ c → get_record x w' = get_record x w).
Proof.
  intros Hreg Hc Ht. apply registry_chain in Hreg.
  apply list_elem_of_split in Hc as (l1 & l2 & ->).
  unfold get_tree in Ht. apply bind_Some in Ht as (bc & Hbc & [= Ht]).
  destruct (free_cursor_spec w c bc l1 l2 Hreg Hbc Ht)
    as (w' & Hrun & Hpg & _ & _ & Hch & Hgone & Hothers & Hnone & Htree).
  exists l1, l2, w'. split; [done|]. split; [done|].
  split; [by apply chain_registry|]. split; [done|].
  split; [by rewrite Htree|]. split; [done|].
  intros x Hx. apply get_record_same; [done| |by apply Hnone].
  intros b Hb. by apply Hothers.
Qed.

(** * The tree as a map *)

(** ** Where the keys are *)

Lemma descend_add h n : ∀ m a x,
  descend h (n + m) a x = descend h n a x ≫= λ y, descend h m y x.
Proof.
  induction n as [|n IH]; intros m a x; simpl; [done|].
  destruct (h !! a) as [b|]; simpl; [|done]. apply IH.
Qed.

(** the scan of an index node in order finds the child that has the key
    in its range *)
Lemma scan_index_child b lo hi x i :
  sorted_blk b → 0 ≤ i ≤ num_keys b →
  lo_le (cbound b lo hi i).1 x → lt_hi x (cbound b lo hi i).2 →
  scan_index_keys b x = i.
Proof.
  intros Hs Hi Hlo Hhi. unfold cbound, kbound in *. simpl in *.
  apply scan_index_keys_unique; [done| |].
  - intros j Hj. rewrite decide_False in Hlo by lia. simpl in Hlo.
    destruct (decide (j = i - 1)) as [->|]; [done|].
    assert (get_key b j < get_key b (i - 1)) by (apply Hs; lia). lia.
  - intros Hlt. rewrite decide_False in Hhi by lia. done.
Qed.

Section routed.
Context (h : gmap Z block) (rt : Z) (dep : nat) (G : gmap Z nat) (B : gmap Z bounds).
Context (first : Z).
Hypothesis HT : tree_inv h rt dep G None.
Hypothesis HO : ord_inv h rt G B first.

(** the range of a node lies in the range of its parent *)
Lemma child_range p n b lo hi i x :
  G !! p = Some (S n) → h !! p = Some b → B !! p = Some (lo, hi) →
  0 ≤ i ≤ num_keys b →
  lo_le (cbound b lo hi i).1 x → lt_hi x (cbound b lo hi i).2 →
  lo_le lo x ∧ lt_hi x hi.
Proof.
  intros Hp Hb HB Hi Hlo Hhi.
  destruct (oi_node _ _ _ _ _ HO p _ Hp) as (lo0 & hi0 & b0 & HB0 & Hb0 & Hok).
  assert (b0 = b) as -> by congruence.
  assert (lo0 = lo ∧ hi0 = hi) as [-> ->] by (split; congruence).
  destruct Hok as (_ & _ & Hk & _).
  unfold cbound, kbound in *. simpl in *. split.
  - destruct (decide (i = 0)); [done|]. simpl in Hlo.
    eapply lo_le_trans; [apply (Hk (i - 1)); lia|done].
  - destruct (decide (i = num_keys b)); [done|]. simpl in Hhi.
    eapply lt_hi_trans; [apply (Hk i); lia|lia].
Qed.

(** the descent for a key ends in the node that has the key in its range *)
Lemma routed t : ∀ a n lo hi x,
  (n + t = dep)%nat → G !! a = Some n → B !! a = Some (lo, hi) →
  lo_le lo x → lt_hi x hi →
  descend h t rt x = Some a.
Proof.
  induction t as [|t IH]; intros a n lo hi x Hn Ha HB Hlo Hhi.
  - simpl. f_equal.
    destruct (oi_parent _ _ _ _ _ HO a n Ha) as [->|(p & b & Hp & _)]; [done|].
    pose proof (ti_top _ _ _ _ _ HT p _ Hp). lia.
  - destruct (oi_parent _ _ _ _ _ HO a n Ha) as [->|(p & b & Hp & Hb & Hin)].
    { pose proof (ti_root _ _ _ _ _ HT). assert (n = dep) by congruence. lia. }
    apply elem_of_kids in Hin as (i & Hi & ->).
    destruct (oi_node _ _ _ _ _ HO p _ Hp) as (lop & hip & b0 & HBp & Hb0 & Hok).
    assert (b0 = b) as -> by congruence.
    pose proof Hok as (_ & Hs & _ & _ & Hkids).
    assert (Hcb : cbound b lop hip i = (lo, hi)).
    { specialize (Hkids i Hi). congruence. }
    assert (Hlo' : lo_le (cbound b lop hip i).1 x) by (by rewrite Hcb).
    assert (Hhi' : lt_hi x (cbound b lop hip i).2) by (by rewrite Hcb).
    destruct (child_range p n b lop hip i x Hp Hb HBp Hi Hlo' Hhi') as [Hlop Hhip].
    replace (S t) with (t + 1)%nat by lia.
    rewrite descend_add.
    rewrite (IH p (S n) lop hip x) by (done || lia). simpl.
    rewrite Hb. simpl. f_equal. f_equal.
    by apply (scan_index_child b lop hip).
Qed.

(** a record of a leaf is found by the descent and the scan *)
Lemma stored_found a b j :
  G !! a = Some O → h !! a = Some b → 0 ≤ j < num_keys b →
  descend h dep rt (get_key b j) = Some a
  ∧ scan_leaf_keys b (get_key b j) = j.
Proof.
  intros Ha Hb Hj.
  destruct (oi_node _ _ _ _ _ HO a _ Ha) as (lo & hi & b0 & HB & Hb0 & Hok).
  assert (b0 = b) as -> by congruence.
  destruct Hok as (_ & Hs & Hk & _).
  split.
  - apply (routed dep a O lo hi); [lia|done|done|apply Hk; lia|apply Hk; lia].
  - apply scan_leaf_keys_unique; [lia| |lia].
    intros i Hi. apply Hs; lia.
Qed.
End routed.

(** the records that [find] can find are the records of the leaves *)
Lemma holds_stored w G B k v :
  Inv w G → Ord w G B → holds w k v ↔ stored (pages w) G k v.
Proof.
  intros HI HO. split.
  - intros (leaf & lb & Hd & Hlb & Hlt & Hk & Hv).
    destruct (descend_lands (pages w) _ _ G k _ _ (inv_tree _ _ HI)
                (ti_root _ _ _ _ _ (inv_tree _ _ HI)))
      as (leaf0 & lb0 & Hd0 & HG & _).
    assert (leaf0 = leaf) as -> by congruence.
    destruct (scan_leaf_keys_spec lb k) as (Hr & _).
    exists leaf, lb, (scan_leaf_keys lb k). split; [done|]. split; [done|].
    split; [lia|done].
  - intros (a & b & j & Ha & Hb & Hj & Hk & Hv).
    destruct (stored_found (pages w) _ _ G B _ (inv_tree _ _ HI) HO a b j Ha Hb Hj)
      as [Hd Hs].
    rewrite Hk in Hd, Hs.
    exists a, b. rewrite Hs. split; [done|]. split; [done|]. split; [lia|done].
Qed.

(** a key has one record *)
Lemma stored_unique w G B k v v' :
  Inv w G → Ord w G B →
  stored (pages w) G k v → stored (pages w) G k v' → v = v'.
Proof.
  intros HI HO H1 H2.
  apply (holds_stored w G B k v HI HO) in H1 as (l1 & b1 & D1 & L1 & _ & _ & V1).
  apply (holds_stored w G B k v' HI HO) in H2 as (l2 & b2 & D2 & L2 & _ & _ & V2).
  assert (l2 = l1) as -> by congruence.
  assert (b2 = b1) as -> by congruence. congruence.
Qed.

(** ** The records after an insertion *)

(** the records of one leaf and those of the others *)
Definition in_blk (b : block) (x y : Z) : Prop :=
  ∃ j, 0 ≤ j < num_keys b ∧ get_key b j = x ∧ get_value b j = y.

Definition stored_off (h : gmap Z block) (G : gmap Z nat) (leaf x y : Z) : Prop :=
  ∃ a b j, a ≠ leaf ∧ G !! a = Some O ∧ h !! a = Some b ∧ 0 ≤ j < num_keys b
    ∧ get_key b j = x ∧ get_value b j = y.

Lemma stored_at_leaf h G leaf lb x y :
  G !! leaf = Some O → h !! leaf = Some lb →
  stored h G x y ↔ in_blk lb x y ∨ stored_off h G leaf x y.
Proof.
  intros HG Hlb. split.
  - intros (a & b & j & Ha & Hb & Hj & Hk & Hv).
    destruct (decide (a = leaf)) as [->|Hne].
    + assert (b = lb) as -> by congruence. left. by exists j.
    + right. by exists a, b, j.
  - intros [(j & Hj & Hk & Hv)|(a & b & j & _ & H)].
    + by exists leaf, lb, j.
    + by exists a, b, j.
Qed.

Lemma stored_off_insert h G leaf lb' x y :
  stored_off (<[leaf := lb']> h) G leaf x y ↔ stored_off h G leaf x y.
Proof.
  split; intros (a & b & j & Hne & Ha & Hb & H); exists a, b, j;
    [rewrite lookup_insert_ne in Hb by done|rewrite lookup_insert_ne by done]; done.
Qed.

(** the records of a leaf that has taken one more *)
Lemma insert_into_leaf_records lb i k v x y :
  blk lb → 0 ≤ i ≤ num_keys lb → num_keys lb < 255 →
  in_blk (blk_insert_into_leaf lb i k v) x y ↔ in_blk lb x y ∨ (x = k ∧ y = v).
Proof.
  intros Hb Hi Hroom.
  destruct (blk_insert_into_leaf_spec lb i k v Hb Hi Hroom)
    as (_ & Hnk & Hkeys & Hvals & _).
  set (lb' := blk_insert_into_leaf lb i k v) in *.
  unfold in_blk. rewrite Hnk. split.
  - intros (j & Hj & <- & <-). rewrite Hkeys, Hvals by lia.
    destruct (decide (j < i)) as [H1|H1];
      [left; exists j; split; [lia|];
       split; repeat case_decide; try lia; done|].
    destruct (decide (j = i)) as [H2|H2];
      [right; split; repeat case_decide; try lia; done|].
    left. exists (j - 1). split; [lia|].
    split; repeat case_decide; try lia; done.
  - intros [(j & Hj & <- & <-)|[-> ->]].
    + destruct (decide (j < i)).
      * exists j. rewrite Hkeys, Hvals by lia.
        split; [lia|]. split; repeat case_decide; try lia; done.
      * exists (j + 1). rewrite Hkeys, Hvals by lia.
        replace (j + 1 - 1) with j by lia.
        split; [lia|]. split; repeat case_decide; try lia; done.
    + exists i. rewrite Hkeys, Hvals by lia.
      split; [lia|]. split; repeat case_decide; try lia; done.
Qed.

(** the records of a leaf with the value of one replaced *)
Lemma set_value_records lb i v x y :
  blk lb → sorted_blk lb → 0 ≤ i < num_keys lb →
  in_blk (wr lb (256 + i) v) x y
  ↔ (x = get_key lb i ∧ y = v) ∨ (x ≠ get_key lb i ∧ in_blk lb x y).
Proof.
  intros Hb Hs Hi. pose proof (num_keys_range lb) as Hr.
  set (lb' := wr lb (256 + i) v).
  assert (Hnk : num_keys lb' = num_keys lb) by (apply num_keys_wr; lia).
  assert (Hkeys : ∀ j, 0 ≤ j < num_keys lb → get_key lb' j = get_key lb j).
  { intros j Hj. unfold get_key, lb'. apply rd_wr_ne; lia. }
  assert (Hvi : get_value lb' i = v).
  { unfold get_value, lb'. apply rd_wr_eq; [lia|]. rewrite Hb. lia. }
  assert (Hvo : ∀ j, 0 ≤ j < num_keys lb → j ≠ i → get_value lb' j = get_value lb j).
  { intros j Hj Hne. unfold get_value, lb'. apply rd_wr_ne; lia. }
  assert (Hinj : ∀ j, 0 ≤ j < num_keys lb → get_key lb j = get_key lb i → j = i).
  { intros j Hj Heq. destruct (Z.lt_trichotomy j i) as [Hlt|[->|Hlt]]; [|done|].
    - pose proof (Hs j i ltac:(lia) Hlt ltac:(lia)). lia.
    - pose proof (Hs i j ltac:(lia) Hlt ltac:(lia)). lia. }
  unfold in_blk. rewrite Hnk. split.
  - intros (j & Hj & <- & <-). rewrite Hkeys by done.
    destruct (decide (j = i)) as [->|Hne]; [by left|right].
    split; [intros Heq; by apply Hne, Hinj|].
    exists j. by rewrite Hvo.
  - intros [[-> ->]|(Hne & j & Hj & <- & <-)].
    + exists i. by rewrite Hkeys.
    + exists j. rewrite Hkeys by done. rewrite Hvo; [done|done|].
      intros ->. done.
Qed.

(** a tree in the order of its keys *)
Definition search_tree (w : world) : Prop := ∃ G B, Inv w G ∧ Ord w G B.

Lemma Ord_same w w' G B :
  Ord w G B → pages w' = pages w → root (tree w') = root (tree w) →
  leaves (tree w') = leaves (tree w) → Ord w' G B.
Proof. unfold Ord. by intros H -> -> ->. Qed.

Lemma Ord_new ans w :
  new_bplus_tree ans = Some w → Ord w {[1 := 0%nat]} {[1 := (None, None)]}.
Proof.
  intros Hnew. pose proof (new_bplus_tree_spec ans) as H. rewrite Hnew in H.
  destruct H as ((rb & Hpg & Hblk & Hnk & Hnl) & Hnp & Hcs & _ & Ht & _).
  unfold Ord. rewrite Hpg, Ht. simpl. split.
  - by rewrite lookup_singleton_eq.
  - intros a n Ha. apply lookup_singleton_Some in Ha as [<- <-].
    exists None, None, rb. rewrite !lookup_singleton_eq.
    split; [done|]. split; [done|]. split; [done|].
    split; [intros i j Hi Hij Hj; lia|]. split; [intros j Hj; lia|]. done.
  - intros a n Ha. apply lookup_singleton_Some in Ha as [<- <-]. by left.
  - rewrite !lookup_singleton_eq. eauto.
Qed.

(** [insert] keeps the order of the keys, and the records of the tree
    after it are the new one and the old ones with other keys *)
Lemma insert_ord w G B k v w' :
  Inv w G → Ord w G B → insert k v w = Some (OK, w') →
  ∃ G' B', Inv w' G' ∧ Ord w' G' B'
    ∧ (∀ x y, stored (pages w') G' x y
              ↔ (x = k ∧ y = v) ∨ (x ≠ k ∧ stored (pages w) G x y)).
Proof.
  intros HI HO Hrun.
  destruct (locate w G k HI) as (e0 & w0 & Hpr & Hs0 & Hnp0 & Hcase).
  destruct Hcase as [->|(-> & leaf & w1 & lb & Hfl & Hloc & Hs1 & Hnp1)].
  { unfold insert in Hrun. rewrite Hpr in Hrun.
    rewrite decide_False in Hrun by done. by injection Hrun. }
  pose proof Hloc as [HI1 Hfr Hlb Hblk Hpath].
  rewrite (insert_unfold k v w w0 leaf w1 lb Hpr Hfl Hlb) in Hrun.
  destruct (located_descend _ _ _ _ _ Hloc) as [Hdesc HG].
  destruct Hs1 as (Hpg & Hcur & Hrt & Hlv & Hdp & Hcl & _).
  assert (HO1 : Ord w1 G B) by (by apply (Ord_same w)).
  rewrite <- Hpg.
  destruct (oi_node _ _ _ _ _ HO1 leaf O HG) as (lo & hi & b0 & HBl & Hb0 & Hokl).
  assert (b0 = lb) as -> by congruence.
  destruct (descend_bounds (pages w1) _ _ G B _ k _ _ None None
              (inv_tree _ _ HI1) HO1 (ti_root _ _ _ _ _ (inv_tree _ _ HI1))
              (oi_root _ _ _ _ _ HO1) I I)
    as (z & lo1 & hi1 & Hz & _ & HBz & Hlo1 & Hhi1).
  assert (z = leaf) as -> by congruence.
  assert (lo1 = lo ∧ hi1 = hi) as [-> ->] by (split; congruence).
  destruct (scan_leaf_keys_spec lb k) as (Hr & _).
  pose proof (num_keys_range lb) as Hrange.
  (* no other leaf has the key *)
  assert (Hoff : ∀ y, ¬ stored_off (pages w1) G leaf k y).
  { intros y (a & b & j & Hne & Ha & Hb & Hj & Hk & Hv).
    destruct (stored_found (pages w1) _ _ G B _ (inv_tree _ _ HI1) HO1 a b j Ha Hb Hj)
      as [Hd _].
    rewrite Hk in Hd. congruence. }
  destruct (decide (scan_leaf_keys lb k < num_keys lb
                    ∧ get_key lb (scan_leaf_keys lb k) = k)) as [[Hf1 Hf2]|Hnf].
  - destruct (insert_found w1 G k v leaf lb Hloc Hf1 Hf2)
      as (w'' & Hrun' & HI' & _ & Ht' & _ & _ & _ & _ & Hpg').
    rewrite Hrun' in Hrun. injection Hrun as <-.
    exists G, B. split; [done|]. split.
    + unfold Ord. rewrite Hpg', Ht'.
      eapply ord_inv_update_leaf; [exact HO1|done|done|].
      intros lo' hi' _ Hok'. apply blk_ok_set_value; [done|done|lia].
    + intros x y. rewrite Hpg'.
      rewrite (stored_at_leaf _ G leaf _ x y HG (lookup_insert_eq _ _ _)).
      rewrite (stored_at_leaf _ G leaf lb x y HG Hlb).
      rewrite stored_off_insert.
      rewrite (set_value_records lb _ v x y Hblk) by (lia || apply Hokl).
      rewrite Hf2. split.
      * intros [[?|[? ?]]|Hs]; [by left|right; split; [done|by left]|].
        right. split; [|by right]. intros ->. by apply (Hoff y).
      * intros [?|[Hne [?|?]]]; [by left; left|by left; right|by right].
  - assert (Hno : ∀ y, ¬ stored (pages w1) G k y).
    { intros y Hs. apply (holds_stored w1 G B k y HI1 HO1) in Hs.
      apply (located_holds _ _ _ _ _ _ Hloc) in Hs as (? & ? & _). by apply Hnf. }
    assert (Hfin : ∀ (S' : Z → Z → Prop),
              (∀ x y, S' x y ↔ stored (pages w1) G x y ∨ (x = k ∧ y = v)) →
              ∀ x y, S' x y ↔ (x = k ∧ y = v) ∨ (x ≠ k ∧ stored (pages w1) G x y)).
    { intros S' HS x y. rewrite HS. split.
      - intros [Hs|?]; [right|by left]. split; [|done]. intros ->. by apply (Hno y).
      - intros [?|[_ ?]]; [by right|by left]. }
    destruct (decide (num_keys lb < 255)) as [Hroom|Hfull].
    + destruct (insert_room w1 G k v leaf lb Hloc Hnf Hroom) as [_ Hres].
      destruct (Hres OK w' Hrun) as (_ & HI' & _ & Ht' & _ & _ & Hpg').
      exists G, B. split; [done|]. split.
      * unfold Ord. rewrite Hpg', Ht'. simpl.
        eapply ord_inv_update_leaf; [exact HO1|done|done|].
        intros lo' hi' HB' Hok'.
        assert (lo' = lo ∧ hi' = hi) as [-> ->] by (split; congruence).
        by apply blk_ok_insert_into_leaf.
      * apply Hfin. intros x y. rewrite Hpg'.
        rewrite (stored_at_leaf _ G leaf _ x y HG (lookup_insert_eq _ _ _)).
        rewrite (stored_at_leaf _ G leaf lb x y HG Hlb).
        rewrite stored_off_insert.
        rewrite (insert_into_leaf_records lb _ k v x y Hblk Hr Hroom). tauto.
    + destruct (insert_split w1 G k v leaf lb Hloc Hnf ltac:(lia)) as [_ Hres].
      destruct (Hres OK w' Hrun)
        as (_ & G' & HI' & _ & _ & _ & _ & _ & _ & Hst & Hord & _).
      destruct (Hord B HO1) as (B' & HO').
      exists G', B'. split; [done|]. split; [done|]. by apply Hfin.
Qed.

(** * The walk over the leaves *)

(** the records of a leaf, in the order of its slots *)
Definition leaf_recs (b : block) : list (Z * Z) :=
  (λ i, (get_key b i, get_value b i)) <$> seqZ 0 (num_keys b).

Lemma elem_of_leaf_recs b k v :
  (k, v) ∈ leaf_recs b ↔ in_blk b k v.
Proof.
  unfold leaf_recs, in_blk. rewrite list_elem_of_fmap. split.
  - intros (j & [= -> ->] & Hj). apply elem_of_seqZ in Hj. exists j.
    split; [lia|done].
  - intros (j & Hj & <- & <-). exists j. split; [done|]. apply elem_of_seqZ. lia.
Qed.

Lemma sorted_fmap_seqZ {A} (f : Z → A) (R : A → A → Prop) (n : nat) :
  (∀ i j, 0 ≤ i → i < j → j < Z.of_nat n → R (f i) (f j)) →
  StronglySorted R (f <$> seqZ 0 (Z.of_nat n)).
Proof.
  induction n as [|n IH]; intros H; [constructor|].
  rewrite seqZ_S, fmap_app. apply StronglySorted_app_2.
  - intros x1 x2 Hx1 Hx2. apply list_elem_of_fmap in Hx1 as (i & -> & Hi).
    apply elem_of_seqZ in Hi. simpl in Hx2.
    apply list_elem_of_singleton in Hx2 as ->. apply H; lia.
  - apply IH. intros i j Hi Hij Hj. apply H; lia.
  - simpl. repeat constructor.
Qed.

Lemma leaf_recs_sorted b :
  sorted_blk b → StronglySorted (λ p q : Z * Z, p.1 < q.1) (leaf_recs b).
Proof.
  intros Hs. unfold leaf_recs. pose proof (num_keys_range b).
  rewrite <- (Z2Nat.id (num_keys b)) by lia.
  apply sorted_fmap_seqZ. intros i j Hi Hij Hj. simpl. apply Hs; lia.
Qed.

(** distinct mapped pages are no more than the pages *)
Lemma NoDup_mapped_length (m : gmap Z block) (l : list Z) :
  NoDup l → (∀ z, z ∈ l → is_Some (m !! z)) → (length l ≤ size m)%nat.
Proof.
  intros Hnd Hin.
  assert (Hsub : l ⊆+ (map_to_list m).*1).
  { apply NoDup_submseteq; [done|]. intros x Hx.
    destruct (Hin x Hx) as [b Hb].
    apply list_elem_of_fmap. exists (x, b). split; [done|].
    by apply elem_of_map_to_list. }
  apply submseteq_length in Hsub. rewrite length_fmap, length_map_to_list in Hsub.
  done.
Qed.

(** the upper bound of a leaf that was visited is not above the lower
    bound of the leaf of the walk *)
Definition hi_le_lo (hi lo : option Z) : Prop :=
  match hi, lo with Some u, Some l => u ≤ l | _, _ => False end.

Section walk.
Context (w : world) (G : gmap Z nat) (B : gmap Z bounds).
Hypothesis HI : Inv w G.
Hypothesis HO : Ord w G B.

Lemma enumerate_from_spec : ∀ fuel a lo hi visited,
  G !! a = Some O → B !! a = Some (lo, hi) →
  NoDup visited →
  (∀ z, z ∈ visited →
     is_Some (pages w !! z)
     ∧ ∃ loz hiz, B !! z = Some (loz, hiz) ∧ hi_le_lo hiz lo) →
  (size (pages w) ≤ length visited + fuel)%nat →
  ∃ l, enumerate_from fuel a w = Some l
    ∧ (∀ k v, (k, v) ∈ l ↔ stored (pages w) G k v ∧ lo_le lo k)
    ∧ StronglySorted (λ p q : Z * Z, p.1 < q.1) l.
Proof.
  induction fuel as [|fuel IH]; intros a lo hi visited Ha HB Hnd Hvis Hsize.
  all: destruct (oi_node _ _ _ _ _ HO a _ Ha) as (lo0 & hi0 & b & HB0 & Hb & Hok).
  all: assert (lo0 = lo ∧ hi0 = hi) as [-> ->] by (split; congruence).
  all: pose proof Hok as (Hrange & Hsorted & Hkeys & Hchain).
  all: assert (Hnew : a ∉ visited).
  1,3: intros Hin; destruct (Hvis a Hin) as [_ (loz & hiz & HBz & Hle)];
       assert (loz = lo ∧ hiz = hi) as [-> ->] by (split; congruence);
       destruct lo, hi; simpl in *; try done; lia.
  all: assert (Hlen : (length (a :: visited) ≤ size (pages w))%nat).
  1,3: apply NoDup_mapped_length; [by constructor|];
       intros z Hz; apply elem_of_cons in Hz as [->|Hz]; [eauto|by apply Hvis].
  { simpl in Hlen. lia. }
  assert (Ha0 : a ≠ 0).
  { intros ->. pose proof (inv_pages _ _ HI _ _ Hb). lia. }
  simpl. rewrite (proj2 (Z.eqb_neq _ _) Ha0). rewrite Hb. simpl.
  (* the records of this leaf *)
  assert (Hhere : ∀ k v, (k, v) ∈ leaf_recs b → stored (pages w) G k v ∧ lo_le lo k
                                                   ∧ lt_hi k hi).
  { intros k v Hin. apply elem_of_leaf_recs in Hin as (j & Hj & <- & <-).
    split; [by exists a, b, j|]. apply Hkeys. lia. }
  assert (Hback : ∀ k v, stored (pages w) G k v → lo_le lo k → lt_hi k hi →
                           (k, v) ∈ leaf_recs b).
  { intros k v (z & bz & j & Hz & Hbz & Hj & Hk & Hv) Hlo Hhi.
    destruct (stored_found (pages w) _ _ G B _ (inv_tree _ _ HI) HO z bz j Hz Hbz Hj)
      as [Hd _].
    rewrite Hk in Hd.
    pose proof (routed (pages w) _ _ G B _ (inv_tree _ _ HI) HO
                  (Z.to_nat (depth (tree w))) a O lo hi k ltac:(lia) Ha HB Hlo Hhi)
      as Hd'.
    assert (z = a) as -> by congruence. assert (bz = b) as -> by congruence.
    apply elem_of_leaf_recs. by exists j. }
  destruct hi as [u|].
  - destruct Hchain as [Hgn (hi' & HBn)].
    destruct (IH (next_leaf b) (Some u) hi' (a :: visited) Hgn HBn)
      as (rest & Hrun & Hmem & Hsort).
    + by constructor.
    + intros z Hz. apply elem_of_cons in Hz as [->|Hz].
      * split; [eauto|]. exists lo, (Some u). split; [done|]. simpl. lia.
      * destruct (Hvis z Hz) as [Hm (loz & hiz & HBz & Hle)].
        split; [done|]. exists loz, hiz. split; [done|].
        destruct hiz, lo; simpl in *; try done. lia.
    + simpl. lia.
    + rewrite Hrun. simpl. eexists. split; [done|]. split.
      * intros k v. rewrite elem_of_app, Hmem. split.
        -- intros [Hin|[Hs Hlo]].
           ++ destruct (Hhere k v Hin) as (? & ? & _). done.
           ++ split; [done|]. simpl in Hlo. destruct lo; simpl in *; [lia|done].
        -- intros [Hs Hlo]. destruct (decide (k < u)).
           ++ left. by apply Hback.
           ++ right. split; [done|]. simpl. lia.
      * apply StronglySorted_app_2; [|by apply leaf_recs_sorted|done].
        intros [k1 v1] [k2 v2] H1 H2. simpl.
        destruct (Hhere k1 v1 H1) as (_ & _ & Hlt). simpl in Hlt.
        apply Hmem in H2 as [_ Hge]. simpl in Hge. lia.
  - rewrite Hchain. destruct fuel; simpl; rewrite app_nil_r;
      (eexists; split; [done|]; split; [|by apply leaf_recs_sorted]);
      (intros k v; split;
        [intros Hin; destruct (Hhere k v Hin) as (? & ? & _); done
        |intros [Hs Hlo]; by apply Hback]).
Qed.

(** [enumerate] visits the records of the tree in the order of their
    keys *)
Lemma enumerate_spec :
  ∃ l, enumerate w = Some l
    ∧ (∀ k v, (k, v) ∈ l ↔ holds w k v)
    ∧ StronglySorted (λ p q : Z * Z, p.1 < q.1) l.
Proof.
  destruct (oi_first _ _ _ _ _ HO) as [Hf (hi & HBf)].
  destruct (enumerate_from_spec (size (pages w)) (leaves (tree w)) None hi []
              Hf HBf) as (l & Hrun & Hmem & Hsort).
  - constructor.
  - intros z Hz. by apply elem_of_nil in Hz.
  - simpl. lia.
  - exists l. split; [done|]. split; [|done].
    intros k v. rewrite Hmem, (holds_stored w G B k v HI HO). simpl. tauto.
Qed.
End walk.

(** ** The walk with a cursor *)

Section cursor_walk.
Context (w : world) (G : gmap Z nat) (B : gmap Z bounds).
Hypothesis HI : Inv w G.
Hypothesis HO : Ord w G B.

(** a record of the tree outside the range of a leaf is in another leaf *)
Lemma stored_in_range a b lo hi k v :
  G !! a = Some O → pages w !! a = Some b → B !! a = Some (lo, hi) →
  stored (pages w) G k v → lo_le lo k → lt_hi k hi → in_blk b k v.
Proof.
  intros Ha Hb HB (z & bz & j & Hz & Hbz & Hj & Hk & Hv) Hlo Hhi.
  destruct (stored_found (pages w) _ _ G B _ (inv_tree _ _ HI) HO z bz j Hz Hbz Hj)
    as [Hd _].
  rewrite Hk in Hd.
  pose proof (routed (pages w) _ _ G B _ (inv_tree _ _ HI) HO
                (Z.to_nat (depth (tree w))) a O lo hi k ltac:(lia) Ha HB Hlo Hhi)
    as Hd'.
  assert (z = a) as -> by congruence. assert (bz = b) as -> by congruence.
  by exists j.
Qed.

(** a leaf that is not the root has records *)
Lemma leaf_min a b :
  G !! a = Some O → pages w !! a = Some b → a ≠ root (tree w) → 128 ≤ num_keys b.
Proof.
  intros Ha Hb Hne.
  exact (ti_min _ _ _ _ _ (inv_tree _ _ HI) a O b Ha Hb Hne).
Qed.

(** the first leaf has the least record *)
Lemma first_leaf_least b :
  pages w !! leaves (tree w) = Some b →
  (num_keys b = 0 → ∀ k v, ¬ stored (pages w) G k v)
  ∧ (0 < num_keys b →
     stored (pages w) G (get_key b 0) (get_value b 0)
     ∧ ∀ k v, stored (pages w) G k v → get_key b 0 ≤ k).
Proof.
  intros Hb. destruct (oi_first _ _ _ _ _ HO) as [Hf (hi & HBf)].
  destruct (oi_node _ _ _ _ _ HO _ _ Hf) as (lo0 & hi0 & b0 & HB0 & Hb0 & Hok).
  assert (b0 = b) as -> by congruence.
  assert (lo0 = None ∧ hi0 = hi) as [-> ->] by (split; congruence).
  destruct Hok as (_ & Hs & Hk & _).
  assert (Hcase : ∀ k v, stored (pages w) G k v →
            in_blk b k v ∨ ∃ u, hi = Some u ∧ u ≤ k).
  { intros k v Hst. destruct hi as [u|].
    - destruct (decide (k < u)).
      + left. by apply (stored_in_range _ b None (Some u) k v Hf Hb HBf).
      + right. exists u. split; [done|lia].
    - left. by apply (stored_in_range _ b None None k v Hf Hb HBf). }
  split.
  - intros Hz k v Hst. destruct (Hcase k v Hst) as [(j & Hj & _)|(u & -> & Hu)]; [lia|].
    destruct (decide (leaves (tree w) = root (tree w))) as [Heq|Hne].
    + pose proof (oi_root _ _ _ _ _ HO) as Hr. rewrite <- Heq in Hr. congruence.
    + pose proof (leaf_min _ b Hf Hb Hne). lia.
  - intros Hpos. split; [exists (leaves (tree w)), b, 0; split; [done|]; split; [done|];
                           split; [lia|done]|].
    intros k v Hst. destruct (Hcase k v Hst) as [(j & Hj & <- & _)|(u & -> & Hu)].
    + destruct (decide (j = 0)) as [->|]; [done|].
      assert (get_key b 0 < get_key b j) by (apply Hs; lia). lia.
    + destruct (Hk 0 ltac:(lia)) as [_ Hlt]. simpl in Hlt. lia.
Qed.

(** the record behind a record: the next slot of the leaf, or the first
    slot of the next leaf *)
Lemma successor a b pos :
  G !! a = Some O → pages w !! a = Some b → 0 ≤ pos < num_keys b →
  (pos + 1 < num_keys b →
     stored (pages w) G (get_key b (pos + 1)) (get_value b (pos + 1))
     ∧ get_key b pos < get_key b (pos + 1)
     ∧ ∀ k v, stored (pages w) G k v → get_key b pos < k → get_key b (pos + 1) ≤ k)
  ∧ (pos + 1 = num_keys b →
     (next_leaf b = 0 ∧ ∀ k v, stored (pages w) G k v → k ≤ get_key b pos)
     ∨ (next_leaf b ≠ 0
        ∧ ∃ bn, pages w !! next_leaf b = Some bn ∧ 0 < num_keys bn
          ∧ stored (pages w) G (get_key bn 0) (get_value bn 0)
          ∧ get_key b pos < get_key bn 0
          ∧ ∀ k v, stored (pages w) G k v → get_key b pos < k → get_key bn 0 ≤ k)).
Proof.
  intros Ha Hb Hpos.
  destruct (oi_node _ _ _ _ _ HO _ _ Ha) as (lo & hi & b0 & HB & Hb0 & Hok).
  assert (b0 = b) as -> by congruence.
  destruct Hok as (Hrange & Hs & Hk & Hchain).
  assert (Hhere : ∀ k v, stored (pages w) G k v → get_key b pos < k → lt_hi k hi →
            ∃ j, pos < j < num_keys b ∧ get_key b j = k).
  { intros k v Hst Hgt Hlt.
    destruct (stored_in_range a b lo hi k v Ha Hb HB Hst) as (j & Hj & Hkj & _);
      [|done|].
    - eapply lo_le_trans; [apply (Hk pos); lia|lia].
    - exists j. split; [|done]. destruct (decide (pos < j)); [lia|].
      destruct (decide (j = pos)) as [->|]; [lia|].
      assert (get_key b j < get_key b pos) by (apply Hs; lia). lia. }
  split.
  - intros Hnext. split; [by exists a, b, (pos + 1); split; [|split; [|split; [lia|]]]|].
    split; [apply Hs; lia|].
    intros k v Hst Hgt.
    destruct (decide (get_key b (pos + 1) ≤ k)) as [|Hn]; [done|].
    destruct (Hhere k v Hst Hgt) as (j & Hj & Hkj).
    { eapply lt_hi_trans; [apply (Hk (pos + 1)); lia|lia]. }
    destruct (decide (j = pos + 1)) as [->|]; [lia|].
    assert (get_key b (pos + 1) < get_key b j) by (apply Hs; lia). lia.
  - intros Hlast. destruct hi as [u|].
    + right. destruct Hchain as [Hgn (hi' & HBn)].
      destruct (oi_node _ _ _ _ _ HO _ _ Hgn) as (lon & hin & bn & HBn' & Hbn & Hokn).
      assert (lon = Some u ∧ hin = hi') as [-> ->] by (split; congruence).
      assert (Hn0 : next_leaf b ≠ 0).
      { intros Heq. rewrite Heq in Hbn. pose proof (inv_pages _ _ HI _ _ Hbn). lia. }
      assert (Hnr : next_leaf b ≠ root (tree w)).
      { intros Heq. pose proof (oi_root _ _ _ _ _ HO) as Hr. rewrite <- Heq in Hr.
        congruence. }
      pose proof (leaf_min _ bn Hgn Hbn Hnr) as Hmin.
      destruct Hokn as (_ & Hsn & Hkn & _).
      split; [done|]. exists bn. split; [done|]. split; [lia|].
      split; [by exists (next_leaf b), bn, 0; split; [|split; [|split; [lia|]]]|].
      destruct (Hk pos ltac:(lia)) as [_ Hltu]. simpl in Hltu.
      destruct (Hkn 0 ltac:(lia)) as [Hge0 Hlt0]. simpl in Hge0.
      split; [lia|].
      intros k v Hst Hgt.
      destruct (decide (k < u)) as [Hku|Hku].
      { destruct (Hhere k v Hst Hgt Hku) as (j & Hj & _). lia. }
      destruct (decide (get_key bn 0 ≤ k)) as [|Hn]; [done|].
      destruct (stored_in_range (next_leaf b) bn (Some u) hi' k v Hgn Hbn HBn Hst)
        as (j & Hj & Hkj & _); [simpl; lia| |].
      { eapply lt_hi_trans; [exact Hlt0|lia]. }
      destruct (decide (j = 0)) as [->|]; [lia|].
      assert (get_key bn 0 < get_key bn j) by (apply Hsn; lia). lia.
    + left. split; [done|]. intros k v Hst.
      destruct (decide (k ≤ get_key b pos)) as [|Hn]; [done|].
      destruct (Hhere k v Hst ltac:(lia) I) as (j & Hj & _). lia.
Qed.
End cursor_walk.

(** [first_record] hands out a cursor on the least record of the tree *)
Lemma first_record_least w G B cs :
  Inv w G → Ord w G B → cursors_ok w → registry w = Some cs →
  ∃ c w', first_record w = (c, w') ∧ pages w' = pages w
    ∧ (c = 0 ∧ cursors w' = cursors w
       ∨ c ≠ 0 ∧ cursors w !! c = None ∧ registry w' = Some (c :: cs)
         ∧ ((∀ k v, ¬ holds w k v) ∧ get_record c w' = Some (NOTFOUND, None)
            ∨ ∃ k v, get_record c w' = Some (OK, Some (k, v)) ∧ holds w k v
                ∧ ∀ k' v', holds w k' v' → k ≤ k')).
Proof.
  intros HI HO Hok Hreg. apply registry_chain in Hreg.
  destruct (make_bplus_cursor_spec w (leaves (tree w)) 0 cs Hok Hreg ltac:(lia))
    as (c & w' & Hmk & Hpg & _ & _ & _ & _ & _ & _ & _ & _ & Hcase).
  exists c, w'. split; [done|]. split; [done|].
  destruct Hcase as [(-> & _ & Hc & _)|(-> & Hc0 & _ & Hfresh & Hc & _ & _ & Hch & _)];
    [by left|right].
  split; [done|]. split; [done|]. split; [by apply chain_registry|].
  destruct (oi_first _ _ _ _ _ HO) as [Hf _].
  destruct (ti_blk _ _ _ _ _ (inv_tree _ _ HI) _ _ Hf) as (b & Hb & Hblk).
  destruct (first_leaf_least w G B HI HO b Hb) as [Hempty Hsome].
  assert (Hbc : cursors w' !! next_cursor w
                = Some (Cursor 1 (cursor_list (tree w)) (leaves (tree w)) 0 0))
    by (by rewrite Hc, lookup_insert_eq).
  assert (Hl0 : leaves (tree w) ≠ 0).
  { intros Heq. rewrite Heq in Hb. pose proof (inv_pages _ _ HI _ _ Hb). lia. }
  pose proof (num_keys_range b) as Hr.
  destruct (decide (num_keys b = 0)) as [Hz|Hnz].
  - left. split.
    + intros k v Hh. apply (holds_stored w G B k v HI HO) in Hh.
      by apply (Hempty Hz k v).
    + unfold get_record, cursor_on_record. rewrite Hbc. simpl.
      rewrite (proj2 (Z.eqb_neq _ _) Hl0).
      rewrite (load_num_keys_at w' _ b) by (by rewrite Hpg). simpl.
      by rewrite Hz.
  - right. destruct (Hsome ltac:(lia)) as [Hst Hleast].
    exists (get_key b 0), (get_value b 0).
    split; [|split].
    + apply (get_record_on w' _ _ b Hbc); simpl; try done; [by rewrite Hpg|lia].
    + by apply (holds_stored w G B _ _ HI HO).
    + intros k' v' Hh. apply (holds_stored w G B k' v' HI HO) in Hh.
      by apply (Hleast k' v').
Qed.

(** [next_record] of a cursor that stands on a record *)
Lemma next_record_run w c bc b :
  cursors w !! c = Some bc → bc_invalid bc = 0 →
  pages w !! bc_leaf bc = Some b → 0 ≤ bc_pos bc < num_keys b →
  next_record c w
  = Some (if bc_pos bc + 1 <? num_keys b
          then (OK, with_cursors w (<[c := set_bc_pos bc (bc_pos bc + 1)]> (cursors w)))
          else (if next_leaf b =? 0 then NOTFOUND else OK,
                with_cursors w
                  (<[c := set_bc_pos (set_bc_leaf bc (next_leaf b)) 0]> (cursors w)))).
Proof.
  intros Hc Hinv Hb Hpos. pose proof (num_keys_range b) as Hr.
  unfold next_record, cursor_update. rewrite Hc. simpl. rewrite Hinv. simpl.
  rewrite ?Hc. simpl.
  rewrite (load_num_keys_at _ _ b) by done. simpl.
  rewrite lookup_insert_eq. simpl.
  rewrite u32_small by lia.
  destruct (bc_pos bc + 1 <? num_keys b) eqn:E.
  - apply Z.ltb_lt in E. rewrite (proj2 (Z.leb_gt _ _)) by lia. done.
  - apply Z.ltb_ge in E. rewrite (proj2 (Z.leb_le _ _)) by lia.
    rewrite (load_at _ _ _ b) by done. simpl.
    rewrite insert_insert_eq. unfold next_leaf, with_cursors. simpl.
    destruct (rd b 511 =? 0); done.
Qed.

(** [next_record] moves a cursor from its record to the record with the
    next key, and answers NOTFOUND when there is none *)
Lemma next_record_successor w G B c bc k v :
  Inv w G → Ord w G B →
  cursors w !! c = Some bc → G !! bc_leaf bc = Some O → 0 ≤ bc_pos bc →
  get_record c w = Some (OK, Some (k, v)) →
  ∃ e w', next_record c w = Some (e, w')
    ∧ pages w' = pages w ∧ tree w' = tree w
    ∧ (∀ x, x ≠ c → cursors w' !! x = cursors w !! x)
    ∧ (e = OK
       ∧ (∃ k2 v2, get_record c w' = Some (OK, Some (k2, v2)) ∧ holds w k2 v2
            ∧ k < k2 ∧ ∀ k' v', holds w k' v' → k < k' → k2 ≤ k')
       ∨ e = NOTFOUND ∧ get_record c w' = Some (NOTFOUND, None)
         ∧ ∀ k' v', holds w k' v' → k' ≤ k).
Proof.
  intros HI HO Hc Hg Hp0 Hget.
  apply get_record_OK in Hget
    as (bc' & b & Hc' & Hinv & Hl0 & Hb & Hpos & -> & ->).
  assert (bc' = bc) as -> by congruence.
  rewrite (next_record_run w c bc b Hc Hinv Hb ltac:(lia)).
  destruct (successor w G B HI HO (bc_leaf bc) b (bc_pos bc) Hg Hb ltac:(lia))
    as [Hin Hout].
  assert (Hst : ∀ x y, holds w x y ↔ stored (pages w) G x y)
    by (intros x y; by apply (holds_stored w G B)).
  destruct (bc_pos bc + 1 <? num_keys b) eqn:E.
  - apply Z.ltb_lt in E. destruct (Hin E) as (H1 & H2 & H3).
    eexists _, _. split; [done|]. simpl. split; [done|]. split; [done|].
    split; [intros x Hx; by rewrite lookup_insert_ne|]. left. split; [done|].
    exists (get_key b (bc_pos bc + 1)), (get_value b (bc_pos bc + 1)).
    split; [|split; [by apply Hst|split; [done|]]].
    + rewrite (get_record_on _ c (set_bc_pos bc (bc_pos bc + 1)) b); simpl;
        [done|apply lookup_insert_eq|done|done|done|lia].
    + intros k' v' Hh. apply Hst in Hh. by apply (H3 k' v').
  - apply Z.ltb_ge in E.
    destruct (Hout ltac:(lia)) as [[Hn0 Hmax]|(Hn0 & bn & Hbn & Hnk & H1 & H2 & H3)].
    + rewrite Hn0. simpl.
      eexists _, _. split; [done|]. simpl. split; [done|]. split; [done|].
      split; [intros x Hx; by rewrite lookup_insert_ne|]. right. split; [done|].
      split.
      * unfold get_record, cursor_on_record. simpl. rewrite lookup_insert_eq. simpl.
        by rewrite Hinv.
      * intros k' v' Hh. apply Hst in Hh. by apply (Hmax k' v').
    + rewrite (proj2 (Z.eqb_neq _ _) Hn0).
      eexists _, _. split; [done|]. simpl. split; [done|]. split; [done|].
      split; [intros x Hx; by rewrite lookup_insert_ne|]. left. split; [done|].
      exists (get_key bn 0), (get_value bn 0).
      split; [|split; [by apply Hst|split; [done|]]].
      * rewrite (get_record_on _ c (set_bc_pos (set_bc_leaf bc (next_leaf b)) 0) bn);
          simpl; [done|apply lookup_insert_eq|done|done|done|lia].
      * intros k' v' Hh. apply Hst in Hh. by apply (H3 k' v').
Qed.

(** * What the node operations of [delete] do to the blocks *)

(** the sequence [f] without its item [i] *)
Definition without (f : Z → Z) (i j : Z) : Z :=
  if decide (j < i) then f j else f (j + 1).

(** ** The record at [i] taken out of a leaf *)

Definition blk_remove_record (b : block) (i : Z) : block :=
  let nk := num_keys b in
  let n := u32 (nk - i - 1) in
  let b2 :=
    if negb (n =? 0) then
      let b1 := blit b (KEY_0 + i) b (KEY_0 + i + 1) n in
      blit b1 (FIELD_0 + i) b1 (FIELD_0 + i + 1) n
    else b in
  set_num_keys b2 (nk - 1).

Lemma blk_remove_record_spec b i :
  blk b → 0 ≤ i < num_keys b →
  let b' := blk_remove_record b i in
  blk b' ∧ num_keys b' = num_keys b - 1
  ∧ (∀ j, 0 ≤ j < num_keys b - 1 → get_key b' j = without (get_key b) i j)
  ∧ (∀ j, 0 ≤ j < num_keys b - 1 → get_value b' j = without (get_value b) i j)
  ∧ next_leaf b' = next_leaf b.
Proof.
  intros Hb Hi. pose proof (num_keys_range b). unfold blk_remove_record, without.
  rewrite u32_small by lia. simpl.
  destruct (num_keys b - i - 1 =? 0) eqn:E; simpl.
  - apply Z.eqb_eq in E.
    split; [blk_tac|]. split; [nk_simpl; lia|].
    split; [|split].
    + intros j Hj. rd_simpl; f_equal; lia.
    + intros j Hj. rd_simpl; f_equal; lia.
    + rd_simpl; done.
  - apply Z.eqb_neq in E.
    split; [blk_tac|]. split; [nk_simpl; lia|].
    split; [|split].
    + intros j Hj. rd_simpl; f_equal; lia.
    + intros j Hj. rd_simpl; f_equal; lia.
    + rd_simpl; done.
Qed.

(** ** A leaf takes the first record of its right peer *)

(** the leaf, which has [LHALF - 1] records *)
Definition blk_leaf_push_back (L R : block) : block :=
  let L2 := wr (wr L (KEY_0 + LHALF - 1) (rd R KEY_0)) (FIELD_0 + LHALF - 1) (rd R FIELD_0) in
  set_num_keys L2 (num_keys L2 + 1).

(** the peer *)
Definition blk_leaf_pop_front (R : block) : block :=
  let R1 := blit R KEY_0 R (KEY_0 + 1) (u32 (num_keys R - 1)) in
  let R2 := blit R1 FIELD_0 R1 (FIELD_0 + 1) (u32 (num_keys R1 - 1)) in
  set_num_keys R2 (num_keys R2 - 1).

(** the key [j] of a node replaced *)
Definition blk_set_key (P : block) (j s : Z) : block := wr P (KEY_0 + j) s.

Lemma blk_leaf_push_back_spec L R :
  blk L → num_keys L = 127 →
  let L' := blk_leaf_push_back L R in
  blk L' ∧ num_keys L' = 128
  ∧ (∀ j, 0 ≤ j < 128 → get_key L' j = if decide (j < 127) then get_key L j else get_key R 0)
  ∧ (∀ j, 0 ≤ j < 128 →
       get_value L' j = if decide (j < 127) then get_value L j else get_value R 0)
  ∧ next_leaf L' = next_leaf L.
Proof.
  intros Hb Hnk. unfold blk_leaf_push_back. simpl.
  rewrite !num_keys_wr by lia.
  split; [blk_tac|]. split; [nk_simpl; lia|].
  split; [|split].
  - intros j Hj. rd_simpl; f_equal; lia.
  - intros j Hj. rd_simpl; f_equal; lia.
  - rd_simpl; done.
Qed.

Lemma blk_leaf_pop_front_spec R :
  blk R → 0 < num_keys R →
  let R' := blk_leaf_pop_front R in
  blk R' ∧ num_keys R' = num_keys R - 1
  ∧ (∀ j, 0 ≤ j < num_keys R - 1 → get_key R' j = get_key R (j + 1))
  ∧ (∀ j, 0 ≤ j < num_keys R - 1 → get_value R' j = get_value R (j + 1))
  ∧ next_leaf R' = next_leaf R.
Proof.
  intros Hb Hnk. pose proof (num_keys_range R). unfold blk_leaf_pop_front. simpl.
  rewrite (num_keys_blit R) by (first [done|lia|rewrite u32_small; lia]).
  rewrite (num_keys_blit (blit _ _ _ _ _))
    by (first [lia|rewrite u32_small; lia|rewrite u32_small by lia; blk_tac]).
  rewrite (num_keys_blit R) by (first [done|lia|rewrite u32_small; lia]).
  rewrite u32_small by lia.
  split; [blk_tac|]. split; [nk_simpl; lia|].
  split; [|split].
  - intros j Hj. rd_simpl; f_equal; lia.
  - intros j Hj. rd_simpl; f_equal; lia.
  - rd_simpl; done.
Qed.

Lemma blk_set_key_spec P j s :
  blk P → 0 ≤ j < 255 →
  let P' := blk_set_key P j s in
  blk P' ∧ num_keys P' = num_keys P
  ∧ (∀ i, 0 ≤ i < 255 → get_key P' i = if decide (i = j) then s else get_key P i)
  ∧ (∀ i, 0 ≤ i ≤ 255 → get_child P' i = get_child P i).
Proof.
  intros Hb Hj. unfold blk_set_key. simpl.
  split; [blk_tac|]. split; [nk_simpl; lia|].
  split.
  - intros i Hi. rd_simpl; f_equal; lia.
  - intros i Hi. rd_simpl; f_equal; lia.
Qed.

(** ** A leaf takes the last record of its left peer *)

Definition blk_leaf_push_front (L Lp : block) : block :=
  let L1 := blit L (KEY_0 + 1) L KEY_0 (num_keys L) in
  let L2 := blit L1 (FIELD_0 + 1) L1 FIELD_0 (num_keys L1) in
  let L3 := wr L2 KEY_0 (rd Lp (KEY_0 + num_keys Lp - 1)) in
  let L4 := wr L3 FIELD_0 (rd Lp (FIELD_0 + num_keys Lp - 1)) in
  set_num_keys L4 (num_keys L4 + 1).

Definition blk_pop_back (Lp : block) : block := set_num_keys Lp (num_keys Lp - 1).

Lemma blk_leaf_push_front_spec L Lp :
  blk L → num_keys L < 255 →
  let L' := blk_leaf_push_front L Lp in
  blk L' ∧ num_keys L' = num_keys L + 1
  ∧ (∀ j, 0 ≤ j ≤ num_keys L →
       get_key L' j = if decide (j = 0) then get_key Lp (num_keys Lp - 1)
                      else get_key L (j - 1))
  ∧ (∀ j, 0 ≤ j ≤ num_keys L →
       get_value L' j = if decide (j = 0) then get_value Lp (num_keys Lp - 1)
                        else get_value L (j - 1))
  ∧ next_leaf L' = next_leaf L.
Proof.
  intros Hb Hnk. pose proof (num_keys_range L). unfold blk_leaf_push_front. simpl.
  rewrite (num_keys_blit L) by (first [done|lia]).
  rewrite !num_keys_wr by lia.
  rewrite (num_keys_blit (blit _ _ _ _ _)) by (first [lia|blk_tac]).
  rewrite (num_keys_blit L) by (first [done|lia]).
  split; [blk_tac|]. split; [nk_simpl; lia|].
  split; [|split].
  - intros j Hj. rd_simpl; f_equal; lia.
  - intros j Hj. rd_simpl; f_equal; lia.
  - rd_simpl; done.
Qed.

Lemma blk_pop_back_spec Lp :
  blk Lp → 0 < num_keys Lp →
  let L' := blk_pop_back Lp in
  blk L' ∧ num_keys L' = num_keys Lp - 1
  ∧ (∀ j, 0 ≤ j → rd L' (1 + j) = rd Lp (1 + j)).
Proof.
  intros Hb Hnk. pose proof (num_keys_range Lp). unfold blk_pop_back. simpl.
  split; [blk_tac|]. split; [nk_simpl; lia|].
  intros j Hj. rd_simpl; done.
Qed.

(** ** Two leaves merged into the left one *)

Definition blk_merge_leaves (l r : block) : block :=
  let nkl := num_keys l in
  let nkr := num_keys r in
  let l1 := blit l (KEY_0 + nkl) r KEY_0 nkr in
  let l2 := blit l1 (FIELD_0 + nkl) r FIELD_0 nkr in
  let l3 := set_num_keys l2 (num_keys l2 + nkr) in
  wr l3 NEXT (rd r NEXT).

Lemma blk_merge_leaves_spec l r :
  blk l → blk r → num_keys l + num_keys r ≤ 255 →
  let l' := blk_merge_leaves l r in
  blk l' ∧ num_keys l' = num_keys l + num_keys r
  ∧ (∀ j, 0 ≤ j < num_keys l + num_keys r →
       get_key l' j = if decide (j < num_keys l) then get_key l j
                      else get_key r (j - num_keys l))
  ∧ (∀ j, 0 ≤ j < num_keys l + num_keys r →
       get_value l' j = if decide (j < num_keys l) then get_value l j
                        else get_value r (j - num_keys l))
  ∧ next_leaf l' = next_leaf r.
Proof.
  intros Hl Hr Hnk. pose proof (num_keys_range l). pose proof (num_keys_range r).
  unfold blk_merge_leaves. simpl.
  rewrite (num_keys_blit (blit _ _ _ _ _)) by (first [done|lia|blk_tac]).
  rewrite (num_keys_blit l) by (first [done|lia]).
  split; [blk_tac|]. split; [nk_simpl; lia|].
  split; [|split].
  - intros j Hj. rd_simpl; f_equal; lia.
  - intros j Hj. rd_simpl; f_equal; lia.
  - rd_simpl; done.
Qed.

(** ** The key before slot [pos] and the child of the slot taken out of
    an index node *)

Definition blk_index_remove (b : block) (pos nk : Z) : block :=
  let n := u32 (nk - pos) in
  let b2 :=
    if 0 <? n then
      let b1 := blit b (KEY_0 + pos - 1) b (KEY_0 + pos) n in
      blit b1 (FIELD_0 + pos) b1 (FIELD_0 + pos + 1) n
    else b in
  set_num_keys b2 (u32 (nk - 1)).

Lemma blk_index_remove_spec b pos :
  blk b → 1 ≤ pos ≤ num_keys b →
  let b' := blk_index_remove b pos (num_keys b) in
  blk b' ∧ num_keys b' = num_keys b - 1
  ∧ (∀ j, 0 ≤ j < num_keys b - 1 → get_key b' j = without (get_key b) (pos - 1) j)
  ∧ (∀ j, 0 ≤ j ≤ num_keys b - 1 → get_child b' j = without (get_child b) pos j).
Proof.
  intros Hb Hi. pose proof (num_keys_range b). unfold blk_index_remove, without.
  rewrite !u32_small by lia. simpl.
  destruct (0 <? num_keys b - pos) eqn:E; simpl.
  - apply Z.ltb_lt in E.
    split; [blk_tac|]. split; [nk_simpl; lia|].
    split.
    + intros j Hj. rd_simpl; f_equal; lia.
    + intros j Hj. rd_simpl; f_equal; lia.
  - apply Z.ltb_ge in E.
    split; [blk_tac|]. split; [nk_simpl; lia|].
    split.
    + intros j Hj. rd_simpl; f_equal; lia.
    + intros j Hj. rd_simpl; f_equal; lia.
Qed.

(** ** An index node takes the first child of its right peer *)

(** the node, with the key [s] of its parent *)
Definition blk_index_push_back (I : block) (s c : Z) : block :=
  let I1 := wr I (KEY_0 + num_keys I) s in
  let I2 := wr I1 (FIELD_0 + num_keys I + 1) c in
  set_num_keys I2 (num_keys I2 + 1).

Definition blk_index_pop_front (R : block) : block :=
  let R1 := blit R KEY_0 R (KEY_0 + 1) (u32 (num_keys R - 1)) in
  let R2 := blit R1 FIELD_0 R1 (FIELD_0 + 1) (num_keys R) in
  set_num_keys R2 (num_keys R2 - 1).

Lemma blk_index_push_back_spec I s c :
  blk I → num_keys I < 255 →
  let I' := blk_index_push_back I s c in
  blk I' ∧ num_keys I' = num_keys I + 1
  ∧ (∀ j, 0 ≤ j ≤ num_keys I →
       get_key I' j = if decide (j < num_keys I) then get_key I j else s)
  ∧ (∀ j, 0 ≤ j ≤ num_keys I + 1 →
       get_child I' j = if decide (j ≤ num_keys I) then get_child I j else c).
Proof.
  intros Hb Hnk. pose proof (num_keys_range I). unfold blk_index_push_back. simpl.
  rewrite !num_keys_wr by lia.
  split; [blk_tac|]. split; [nk_simpl; lia|].
  split.
  - intros j Hj. rd_simpl; f_equal; lia.
  - intros j Hj. rd_simpl; f_equal; lia.
Qed.

Lemma blk_index_pop_front_spec R :
  blk R → 0 < num_keys R →
  let R' := blk_index_pop_front R in
  blk R' ∧ num_keys R' = num_keys R - 1
  ∧ (∀ j, 0 ≤ j < num_keys R - 1 → get_key R' j = get_key R (j + 1))
  ∧ (∀ j, 0 ≤ j ≤ num_keys R - 1 → get_child R' j = get_child R (j + 1)).
Proof.
  intros Hb Hnk. pose proof (num_keys_range R). unfold blk_index_pop_front. simpl.
  rewrite u32_small by lia.
  rewrite (num_keys_blit (blit _ _ _ _ _)) by (first [lia|blk_tac]).
  rewrite (num_keys_blit R) by (first [done|lia]).
  split; [blk_tac|]. split; [nk_simpl; lia|].
  split.
  - intros j Hj. rd_simpl; f_equal; lia.
  - intros j Hj. rd_simpl; f_equal; lia.
Qed.

(** ** An index node takes the last child of its left peer *)

Definition blk_index_push_front (I : block) (s c : Z) : block :=
  let I1 := blit I (KEY_0 + 1) I KEY_0 (num_keys I) in
  let I2 := blit I1 (FIELD_0 + 1) I1 FIELD_0 (num_keys I + 1) in
  let I3 := wr I2 KEY_0 s in
  let I4 := wr I3 FIELD_0 c in
  set_num_keys I4 (num_keys I4 + 1).

Lemma blk_index_push_front_spec I s c :
  blk I → num_keys I < 255 →
  let I' := blk_index_push_front I s c in
  blk I' ∧ num_keys I' = num_keys I + 1
  ∧ (∀ j, 0 ≤ j ≤ num_keys I →
       get_key I' j = if decide (j = 0) then s else get_key I (j - 1))
  ∧ (∀ j, 0 ≤ j ≤ num_keys I + 1 →
       get_child I' j = if decide (j = 0) then c else get_child I (j - 1)).
Proof.
  intros Hb Hnk. pose proof (num_keys_range I). unfold blk_index_push_front. simpl.
  rewrite !num_keys_wr by lia.
  rewrite (num_keys_blit (blit _ _ _ _ _)) by (first [lia|blk_tac]).
  rewrite (num_keys_blit I) by (first [done|lia]).
  split; [blk_tac|]. split; [nk_simpl; lia|].
  split.
  - intros j Hj. rd_simpl; f_equal; lia.
  - intros j Hj. rd_simpl; f_equal; lia.
Qed.

Lemma blk_pop_back_index Lp :
  blk Lp → 0 < num_keys Lp →
  let L' := blk_pop_back Lp in
  (∀ j, 0 ≤ j → get_key L' j = get_key Lp j)
  ∧ (∀ j, 0 ≤ j → get_child L' j = get_child Lp j)
  ∧ (∀ j, 0 ≤ j → get_value L' j = get_value Lp j)
  ∧ next_leaf L' = next_leaf Lp.
Proof.
  intros Hb Hnk. unfold blk_pop_back. simpl.
  repeat split; try intros j Hj; rd_simpl; done.
Qed.

(** ** Two index nodes merged into the left one around the key [s] *)

Definition blk_merge_index (l r : block) (s : Z) : block :=
  let nkl := num_keys l in
  let nkr := num_keys r in
  let l1 := wr l (KEY_0 + nkl) s in
  let l2 := blit l1 (KEY_0 + nkl + 1) r KEY_0 nkr in
  let l3 := blit l2 (FIELD_0 + nkl + 1) r FIELD_0 (nkr + 1) in
  set_num_keys l3 (num_keys l3 + (nkr + 1)).

Lemma blk_merge_index_spec l r s :
  blk l → blk r → num_keys l + num_keys r ≤ 254 →
  let l' := blk_merge_index l r s in
  blk l' ∧ num_keys l' = num_keys l + num_keys r + 1
  ∧ (∀ j, 0 ≤ j ≤ num_keys l + num_keys r →
       get_key l' j = if decide (j < num_keys l) then get_key l j
                      else if decide (j = num_keys l) then s
                      else get_key r (j - num_keys l - 1))
  ∧ (∀ j, 0 ≤ j ≤ num_keys l + num_keys r + 1 →
       get_child l' j = if decide (j ≤ num_keys l) then get_child l j
                        else get_child r (j - num_keys l - 1)).
Proof.
  intros Hl Hr Hnk. pose proof (num_keys_range l). pose proof (num_keys_range r).
  unfold blk_merge_index. simpl.
  rewrite (num_keys_blit (blit _ _ _ _ _)) by (first [done|lia|blk_tac]).
  rewrite (num_keys_blit (wr _ _ _)) by (first [done|lia|blk_tac]).
  rewrite !num_keys_wr by lia.
  split; [blk_tac|]. split; [nk_simpl; lia|].
  split.
  - intros j Hj. rd_simpl; f_equal; lia.
  - intros j Hj. rd_simpl; f_equal; lia.
Qed.

(** * Running [delete] *)

(** ** The cursor loops *)

Definition rotate_left_fix (leaf rpeer nk : Z) (bc : bplus_cursor) : bplus_cursor :=
  if bc_leaf bc =? rpeer then
    if bc_pos bc =? 0 then set_bc_pos (set_bc_leaf bc leaf) (u32 (nk - 1))
    else set_bc_pos bc (u32 (bc_pos bc - 1))
  else bc.

Definition rotate_right_fix (lpeer leaf nk : Z) (bc : bplus_cursor) : bplus_cursor :=
  if bc_leaf bc =? leaf then set_bc_pos bc (u32 (bc_pos bc + 1))
  else if bc_leaf bc =? lpeer then
    if bc_pos bc =? nk then set_bc_pos (set_bc_leaf bc leaf) 0 else bc
  else bc.

Definition merge_fix (leaf peer nkl : Z) (bc : bplus_cursor) : bplus_cursor :=
  if bc_leaf bc =? peer
  then set_bc_pos (set_bc_leaf bc leaf) (u32 (bc_pos bc + nkl))
  else bc.

Lemma chain_on_cursors f cs' m c cs :
  (∀ x, bc_next (f x) = bc_next x) → NoDup cs' →
  chain m c cs → chain (on_cursors f cs' m) c cs.
Proof.
  intros Hf Hnd Hch. eapply chain_ext; [done|].
  intros x bc _ Hx. rewrite on_cursors_lookup_NoDup by done. rewrite Hx.
  case_decide; simpl; eauto.
Qed.

Lemma delete_fix_next leaf i x : bc_next (delete_fix leaf i x) = bc_next x.
Proof. unfold delete_fix. by repeat case_match. Qed.

Lemma rotate_left_fix_next leaf rpeer nk x :
  bc_next (rotate_left_fix leaf rpeer nk x) = bc_next x.
Proof. unfold rotate_left_fix. by repeat case_match. Qed.

Lemma rotate_right_fix_next lpeer leaf nk x :
  bc_next (rotate_right_fix lpeer leaf nk x) = bc_next x.
Proof. unfold rotate_right_fix. by repeat case_match. Qed.

Lemma merge_fix_next leaf peer nkl x : bc_next (merge_fix leaf peer nkl x) = bc_next x.
Proof. unfold merge_fix. by repeat case_match. Qed.

Lemma fix_cursor_rotate_left_run w leaf rpeer L cs :
  pages w !! leaf = Some L → chain (cursors w) (cursor_list (tree w)) cs →
  fix_cursor_rotate_left w leaf rpeer
  = Some (with_cursors w (on_cursors (rotate_left_fix leaf rpeer (num_keys L)) cs (cursors w))).
Proof.
  intros HL Hch. unfold fix_cursor_rotate_left.
  apply for_cursors_registered; [|apply rotate_left_fix_next|done].
  intros m c. unfold rotate_left_fix, load_num_keys. simpl. rewrite HL. simpl.
  by repeat case_match.
Qed.

Lemma fix_cursor_rotate_right_run w lpeer leaf Lp cs :
  pages w !! lpeer = Some Lp → chain (cursors w) (cursor_list (tree w)) cs →
  fix_cursor_rotate_right w lpeer leaf
  = Some (with_cursors w (on_cursors (rotate_right_fix lpeer leaf (num_keys Lp)) cs (cursors w))).
Proof.
  intros HL Hch. unfold fix_cursor_rotate_right.
  apply for_cursors_registered; [|apply rotate_right_fix_next|done].
  intros m c. unfold rotate_right_fix, load_num_keys. simpl. rewrite HL. simpl.
  by repeat case_match.
Qed.

Lemma fix_cursor_merge_run w leaf peer nkl cs :
  chain (cursors w) (cursor_list (tree w)) cs →
  fix_cursor_merge w leaf peer nkl
  = Some (with_cursors w (on_cursors (merge_fix leaf peer nkl) cs (cursors w))).
Proof.
  intros Hch. unfold fix_cursor_merge.
  apply for_cursors_registered; [done|apply merge_fix_next|done].
Qed.

(** ** [delete] from the point where the leaf is known *)

Definition delete_tail (k leaf : Z) (lb : block) (w : world)
  : option (bplus_error * world) :=
  let nk := num_keys lb in
  let i := scan_leaf_keys lb k in
  if (i <? nk) && (get_key lb i =? k) then
    let sfx_count := u32 (nk - i - 1) in
    w ← (if negb (sfx_count =? 0) then
           w ← wrdmove w leaf (KEY_0 + i) leaf (KEY_0 + i + 1) sfx_count;
           wrdmove w leaf (FIELD_0 + i) leaf (FIELD_0 + i + 1) sfx_count
         else Some w);
    w ← store_num_keys w leaf (nk - 1);
    let w := with_tree w (set_num_recs (tree w) (u64 (num_recs (tree w) - 1))) in
    w ← for_cursors (λ _ bc, Some (delete_fix leaf i bc)) w;
    w ← (if (0 <? depth (tree w)) && (nk <=? LHALF)
         then leaf_underflow w leaf else Some w);
    Some (OK, w)
  else Some (NOTFOUND, w).

Lemma delete_unfold k w w0 leaf w1 lb :
  path_reserved w = (OK, w0) → find_leaf k w0 = Some (leaf, w1) →
  pages w1 !! leaf = Some lb →
  delete k w = delete_tail k leaf lb w1.
Proof.
  intros H1 H2 H3. unfold delete, delete_tail. rewrite H1.
  rewrite decide_True by done. rewrite H2. simpl. rewrite H3. done.
Qed.

(** the world after the record has been taken out of its leaf *)
Definition record_removed (w : world) (leaf : Z) (lb : block) (i : Z) (cs : list Z)
  : world :=
  with_cursors
    (with_tree (with_pages w (<[leaf := blk_remove_record lb i]> (pages w)))
       (set_num_recs (tree w) (u64 (num_recs (tree w) - 1))))
    (on_cursors (delete_fix leaf i) cs (cursors w)).

Lemma delete_found_run w k leaf lb cs :
  pages w !! leaf = Some lb → blk lb →
  scan_leaf_keys lb k < num_keys lb → get_key lb (scan_leaf_keys lb k) = k →
  chain (cursors w) (cursor_list (tree w)) cs →
  delete_tail k leaf lb w
  = (w2 ← (if (0 <? depth (tree w)) && (num_keys lb <=? 128)
           then leaf_underflow (record_removed w leaf lb (scan_leaf_keys lb k) cs) leaf
           else Some (record_removed w leaf lb (scan_leaf_keys lb k) cs));
     Some (OK, w2)).
Proof.
  intros Hlb Hblk Hlt Hk Hch. unfold delete_tail, record_removed, blk_remove_record.
  destruct (scan_leaf_keys_spec lb k) as (Hr & _).
  set (i := scan_leaf_keys lb k) in *. pose proof (num_keys_range lb).
  rewrite (proj2 (Z.ltb_lt _ _) Hlt), (proj2 (Z.eqb_eq _ _) Hk). simpl.
  destruct (u32 (num_keys lb - i - 1) =? 0) eqn:E; simpl.
  - run.
    erewrite (for_cursors_registered (delete_fix leaf i)); [| |apply delete_fix_next|exact Hch].
    + done.
    + done.
  - run.
    erewrite (for_cursors_registered (delete_fix leaf i)); [| |apply delete_fix_next|exact Hch].
    + done.
    + done.
Qed.

Lemma delete_missing_run w k leaf lb :
  ¬ (scan_leaf_keys lb k < num_keys lb ∧ get_key lb (scan_leaf_keys lb k) = k) →
  delete_tail k leaf lb w = Some (NOTFOUND, w).
Proof.
  intros Hnf. unfold delete_tail.
  destruct (_ <? _) eqn:E1; simpl; [|done].
  destruct (_ =? _) eqn:E2; simpl; [|done].
  destruct Hnf. split; [by apply Z.ltb_lt|by apply Z.eqb_eq].
Qed.

(** ** [leaf_underflow] *)

Lemma leaf_rotate_left_run w leaf l pn L R P cs :
  path (tree w) = Some l → 0 < depth (tree w) < 4294967296 →
  l !! Z.to_nat (depth (tree w) - 1) = Some pn →
  pn_pos pn < pn_num_keys pn →
  pages w !! leaf = Some L → pages w !! pn_node pn = Some P →
  pages w !! get_child P (pn_pos pn + 1) = Some R →
  128 < num_keys R →
  leaf ≠ pn_node pn → leaf ≠ get_child P (pn_pos pn + 1) →
  get_child P (pn_pos pn + 1) ≠ pn_node pn →
  chain (cursors w) (cursor_list (tree w)) cs →
  leaf_underflow w leaf
  = Some (with_cursors
      (with_pages w
         (<[pn_node pn := blk_set_key P (pn_pos pn) (rd (blk_leaf_pop_front R) KEY_0)]>
            (<[get_child P (pn_pos pn + 1) := blk_leaf_pop_front R]>
               (<[leaf := blk_leaf_push_back L R]> (pages w)))))
      (on_cursors
         (rotate_left_fix leaf (get_child P (pn_pos pn + 1))
            (num_keys (blk_leaf_push_back L R))) cs (cursors w))).
Proof.
  intros Hl Hd Hpn Hpos HL HP HR Hnk H1 H2 H3 Hch.
  unfold leaf_underflow, path_at. rewrite Hl. simpl.
  rewrite u32_small by lia. rewrite Hpn. simpl.
  rewrite (proj2 (Z.ltb_lt _ _) Hpos).
  unfold get_child in *.
  replace (256 + pn_pos pn + 1) with (256 + (pn_pos pn + 1)) by lia.
  run. rewrite (proj2 (Z.ltb_lt _ _) Hnk).
  run.
  rewrite (fix_cursor_rotate_left_run _ leaf _ (blk_leaf_push_back L R) cs);
    [reflexivity|page_lookup|done].
Qed.

Lemma leaf_rotate_right_run w leaf l pn L Lp P cs :
  path (tree w) = Some l → 0 < depth (tree w) < 4294967296 →
  l !! Z.to_nat (depth (tree w) - 1) = Some pn →
  pages w !! leaf = Some L → pages w !! pn_node pn = Some P →
  (pn_pos pn < pn_num_keys pn →
     ∃ R, pages w !! get_child P (pn_pos pn + 1) = Some R ∧ num_keys R ≤ 128) →
  0 < pn_pos pn →
  pages w !! get_child P (pn_pos pn - 1) = Some Lp →
  128 < num_keys Lp →
  leaf ≠ pn_node pn → leaf ≠ get_child P (pn_pos pn - 1) →
  get_child P (pn_pos pn - 1) ≠ pn_node pn →
  chain (cursors w) (cursor_list (tree w)) cs →
  leaf_underflow w leaf
  = Some (with_cursors
      (with_pages w
         (<[pn_node pn := blk_set_key P (pn_pos pn - 1)
                            (rd (blk_leaf_push_front L Lp) KEY_0)]>
            (<[get_child P (pn_pos pn - 1) := blk_pop_back Lp]>
               (<[leaf := blk_leaf_push_front L Lp]> (pages w)))))
      (on_cursors
         (rotate_right_fix (get_child P (pn_pos pn - 1)) leaf
            (num_keys (blk_pop_back Lp))) cs (cursors w))).
Proof.
  intros Hl Hd Hpn HL HP HR Hpos HLp Hnk H1 H2 H3 Hch.
  unfold leaf_underflow, path_at. rewrite Hl. simpl.
  rewrite u32_small by lia. rewrite Hpn. simpl.
  unfold get_child in *.
  replace (256 + pn_pos pn + 1) with (256 + (pn_pos pn + 1)) by lia.
  replace (256 + pn_pos pn - 1) with (256 + (pn_pos pn - 1)) by lia.
  replace (1 + pn_pos pn - 1) with (1 + (pn_pos pn - 1)) by lia.
  destruct (pn_pos pn <? pn_num_keys pn) eqn:E.
  - apply Z.ltb_lt in E. destruct (HR E) as (R & HRb & HnR).
    run. rewrite (proj2 (Z.ltb_ge _ _) HnR). simpl.
    rewrite (proj2 (Z.ltb_lt _ _) Hpos).
    run. rewrite (proj2 (Z.ltb_lt _ _) Hnk).
    run.
    rewrite (fix_cursor_rotate_right_run _ _ leaf (blk_pop_back Lp) cs);
      [reflexivity|page_lookup|done].
  - simpl. rewrite (proj2 (Z.ltb_lt _ _) Hpos).
    run. rewrite (proj2 (Z.ltb_lt _ _) Hnk).
    run.
    rewrite (fix_cursor_rotate_right_run _ _ leaf (blk_pop_back Lp) cs);
      [reflexivity|page_lookup|done].
Qed.

(** the world after the leaf [r] has been merged into its left peer [l] *)
Definition leaves_merged (w : world) (l r : Z) (Lb Rb : block) (cs : list Z) : world :=
  dec_num_blks
    (free_leaf_block
       (with_cursors (with_pages w (<[l := blk_merge_leaves Lb Rb]> (pages w)))
          (on_cursors (merge_fix l r (num_keys Lb)) cs (cursors w))) r).

Lemma merge_leaf_nodes_run w l r Lb Rb cs :
  pages w !! l = Some Lb → pages w !! r = Some Rb → l ≠ r →
  chain (cursors w) (cursor_list (tree w)) cs →
  merge_leaf_nodes w l r = Some (leaves_merged w l r Lb Rb cs).
Proof.
  intros Hl Hr Hne Hch. unfold merge_leaf_nodes, leaves_merged. run.
  rewrite (fix_cursor_merge_run _ l r _ cs) by done. reflexivity.
Qed.

Lemma leaf_merge_left_run w leaf l pn L Lp P cs :
  path (tree w) = Some l → 0 < depth (tree w) < 4294967296 →
  l !! Z.to_nat (depth (tree w) - 1) = Some pn →
  pages w !! leaf = Some L → pages w !! pn_node pn = Some P →
  (pn_pos pn < pn_num_keys pn →
     ∃ R, pages w !! get_child P (pn_pos pn + 1) = Some R ∧ num_keys R ≤ 128) →
  0 < pn_pos pn →
  pages w !! get_child P (pn_pos pn - 1) = Some Lp →
  num_keys Lp ≤ 128 →
  leaf ≠ get_child P (pn_pos pn - 1) →
  chain (cursors w) (cursor_list (tree w)) cs →
  leaf_underflow w leaf
  = shrink_index_ancestors (Z.to_nat (depth (tree w) - 1)) (pn_pos pn)
      (leaves_merged w (get_child P (pn_pos pn - 1)) leaf Lp L cs).
Proof.
  intros Hl Hd Hpn HL HP HR Hpos HLp Hnk H2 Hch.
  unfold leaf_underflow, path_at. rewrite Hl. simpl.
  rewrite u32_small by lia. rewrite Hpn. simpl.
  unfold get_child in *.
  replace (256 + pn_pos pn + 1) with (256 + (pn_pos pn + 1)) by lia.
  replace (256 + pn_pos pn - 1) with (256 + (pn_pos pn - 1)) by lia.
  destruct (pn_pos pn <? pn_num_keys pn) eqn:E.
  - apply Z.ltb_lt in E. destruct (HR E) as (R & HRb & HnR).
    run. rewrite (proj2 (Z.ltb_ge _ _) HnR). simpl.
    rewrite (proj2 (Z.ltb_lt _ _) Hpos).
    run. rewrite (proj2 (Z.ltb_ge _ _) Hnk).
    rewrite (merge_leaf_nodes_run _ _ leaf Lp L cs) by done. simpl.
    rewrite u32_small by lia. done.
  - simpl. rewrite (proj2 (Z.ltb_lt _ _) Hpos).
    run. rewrite (proj2 (Z.ltb_ge _ _) Hnk).
    rewrite (merge_leaf_nodes_run _ _ leaf Lp L cs) by done. simpl.
    rewrite u32_small by lia. done.
Qed.

Lemma leaf_merge_right_run w leaf l pn L R P cs :
  path (tree w) = Some l → 0 < depth (tree w) < 4294967296 →
  l !! Z.to_nat (depth (tree w) - 1) = Some pn →
  pages w !! leaf = Some L → pages w !! pn_node pn = Some P →
  pn_pos pn = 0 → 0 < pn_num_keys pn →
  pages w !! get_child P 1 = Some R → num_keys R ≤ 128 →
  leaf ≠ get_child P 1 →
  chain (cursors w) (cursor_list (tree w)) cs →
  leaf_underflow w leaf
  = shrink_index_ancestors (Z.to_nat (depth (tree w) - 1)) 1
      (leaves_merged w leaf (get_child P 1) L R cs).
Proof.
  intros Hl Hd Hpn HL HP Hpos Hnkp HR Hnk H2 Hch.
  unfold leaf_underflow, path_at. rewrite Hl. simpl.
  rewrite u32_small by lia. rewrite Hpn. simpl.
  unfold get_child in *. rewrite Hpos.
  change (256 + 0 + 1) with (256 + 1).
  rewrite (proj2 (Z.ltb_lt _ _) Hnkp).
  run. rewrite (proj2 (Z.ltb_ge _ _) Hnk). simpl.
  rewrite (merge_leaf_nodes_run _ leaf _ L R cs) by done. simpl.
  rewrite u32_small by lia. done.
Qed.

(** ** [shrink_index_ancestors] *)

Lemma shrink_step d pos w l pn b :
  path (tree w) = Some l → l !! d = Some pn →
  pages w !! pn_node pn = Some b → pn_num_keys pn = num_keys b →
  1 ≤ pos ≤ num_keys b →
  shrink_index_ancestors d pos w
  = let w1 := with_pages w
                (<[pn_node pn := blk_index_remove b pos (num_keys b)]> (pages w)) in
    match d with
    | O => if num_keys b - 1 =? 0 then delete_root w1 (pn_node pn) else Some w1
    | S d' =>
        if num_keys b - 1 <? 128 then
          '(merged, pos, w) ← index_underflow w1 (Z.of_nat d') (pn_node pn) pos;
          if merged : bool then shrink_index_ancestors d' pos w else Some w
        else Some w1
    end.
Proof.
  intros Hl Hpn Hb Hnk Hpos. pose proof (num_keys_range b).
  assert (Hpa : path_at w (Z.of_nat d) = Some pn).
  { rewrite (path_at_at _ l) by done. done. }
  unfold blk_index_remove.
  destruct d as [|d']; cbn [shrink_index_ancestors]; rewrite Hpa; simpl; rewrite Hnk;
    rewrite !u32_small by lia.
  - destruct (0 <? num_keys b - pos) eqn:E.
    + run. reflexivity.
    + simpl. run. reflexivity.
  - destruct (0 <? num_keys b - pos) eqn:E.
    + run. reflexivity.
    + simpl. run. reflexivity.
Qed.

(** ** [index_underflow] *)

Lemma index_rotate_left_run w d inode pos0 l pn I R P :
  path (tree w) = Some l → l !! d = Some pn →
  pn_pos pn < pn_num_keys pn →
  pages w !! inode = Some I → pages w !! pn_node pn = Some P →
  pages w !! get_child P (pn_pos pn + 1) = Some R →
  254 < num_keys I + num_keys R →
  inode ≠ pn_node pn → inode ≠ get_child P (pn_pos pn + 1) →
  get_child P (pn_pos pn + 1) ≠ pn_node pn →
  index_underflow w (Z.of_nat d) inode pos0
  = Some (false, pos0,
      with_pages w
        (<[get_child P (pn_pos pn + 1) := blk_index_pop_front R]>
           (<[inode := blk_index_push_back I (get_key P (pn_pos pn)) (get_child R 0)]>
              (<[pn_node pn := blk_set_key P (pn_pos pn) (get_key R 0)]> (pages w))))).
Proof.
  intros Hl Hpn Hpos HI HP HR Hnk H1 H2 H3.
  pose proof (num_keys_range I). pose proof (num_keys_range R).
  unfold index_underflow. rewrite (path_at_at _ l) by done. rewrite Hpn. simpl.
  unfold get_child, get_key in *.
  replace (256 + pn_pos pn + 1) with (256 + (pn_pos pn + 1)) by lia.
  run. rewrite (proj2 (Z.ltb_lt _ _) Hpos).
  run. rewrite (u32_small (num_keys I + num_keys R)) by lia.
  change (256 - 2) with 254. rewrite (proj2 (Z.ltb_lt _ _) Hnk).
  run. reflexivity.
Qed.

Lemma index_rotate_right_run w d inode pos0 l pn I Lp P :
  path (tree w) = Some l → l !! d = Some pn →
  pages w !! inode = Some I → pages w !! pn_node pn = Some P →
  (pn_pos pn < pn_num_keys pn →
     ∃ R, pages w !! get_child P (pn_pos pn + 1) = Some R
          ∧ num_keys I + num_keys R ≤ 254) →
  0 < pn_pos pn →
  pages w !! get_child P (pn_pos pn - 1) = Some Lp →
  254 < num_keys Lp + num_keys I →
  inode ≠ pn_node pn → inode ≠ get_child P (pn_pos pn - 1) →
  get_child P (pn_pos pn - 1) ≠ pn_node pn →
  index_underflow w (Z.of_nat d) inode pos0
  = Some (false, pos0,
      with_pages w
        (<[get_child P (pn_pos pn - 1) := blk_pop_back Lp]>
           (<[inode := blk_index_push_front I (get_key P (pn_pos pn - 1))
                         (get_child Lp (num_keys Lp))]>
              (<[pn_node pn := blk_set_key P (pn_pos pn - 1)
                                 (get_key Lp (num_keys Lp - 1))]> (pages w))))).
Proof.
  intros Hl Hpn HI HP HR Hpos HLp Hnk H1 H2 H3.
  pose proof (num_keys_range I). pose proof (num_keys_range Lp).
  unfold index_underflow. rewrite (path_at_at _ l) by done. rewrite Hpn. simpl.
  unfold get_child, get_key in *.
  replace (256 + pn_pos pn + 1) with (256 + (pn_pos pn + 1)) by lia.
  replace (256 + pn_pos pn - 1) with (256 + (pn_pos pn - 1)) by lia.
  replace (1 + pn_pos pn - 1) with (1 + (pn_pos pn - 1)) by lia.
  run.
  destruct (pn_pos pn <? pn_num_keys pn) eqn:E.
  - apply Z.ltb_lt in E. destruct (HR E) as (R & HRb & HnR).
    pose proof (num_keys_range R).
    run. rewrite (u32_small (num_keys I + num_keys R)) by lia.
    change (256 - 2) with 254. rewrite (proj2 (Z.ltb_ge _ _) HnR). simpl.
    rewrite (proj2 (Z.ltb_lt _ _) Hpos).
    run. rewrite (u32_small (num_keys Lp + num_keys I)) by lia.
    rewrite (proj2 (Z.ltb_lt _ _) Hnk).
    run.
    replace (1 + num_keys Lp - 1) with (1 + (num_keys Lp - 1)) by lia.
    reflexivity.
  - simpl. rewrite (proj2 (Z.ltb_lt _ _) Hpos).
    run. rewrite (u32_small (num_keys Lp + num_keys I)) by lia.
    change (256 - 2) with 254.
    rewrite (proj2 (Z.ltb_lt _ _) Hnk).
    run.
    replace (1 + num_keys Lp - 1) with (1 + (num_keys Lp - 1)) by lia.
    reflexivity.
Qed.

(** the world after the index node [r] has been merged into its left
    peer [l] around the key [s] *)
Definition index_merged (w : world) (l r : Z) (Lb Rb : block) (s : Z) : world :=
  dec_num_blks
    (free_index_block (with_pages w (<[l := blk_merge_index Lb Rb s]> (pages w))) r).

Lemma merge_index_nodes_run w l r Lb Rb s :
  pages w !! l = Some Lb → pages w !! r = Some Rb → l ≠ r →
  merge_index_nodes w l r s = Some (index_merged w l r Lb Rb s).
Proof.
  intros Hl Hr Hne. unfold merge_index_nodes, index_merged. run. reflexivity.
Qed.

Lemma index_merge_left_run w d inode pos0 l pn I Lp P :
  path (tree w) = Some l → l !! d = Some pn →
  pages w !! inode = Some I → pages w !! pn_node pn = Some P →
  (pn_pos pn < pn_num_keys pn →
     ∃ R, pages w !! get_child P (pn_pos pn + 1) = Some R
          ∧ num_keys I + num_keys R ≤ 254) →
  0 < pn_pos pn →
  pages w !! get_child P (pn_pos pn - 1) = Some Lp →
  num_keys Lp + num_keys I ≤ 254 →
  inode ≠ get_child P (pn_pos pn - 1) →
  index_underflow w (Z.of_nat d) inode pos0
  = Some (true, pn_pos pn,
      index_merged w (get_child P (pn_pos pn - 1)) inode Lp I
        (get_key P (pn_pos pn - 1))).
Proof.
  intros Hl Hpn HI HP HR Hpos HLp Hnk H2.
  pose proof (num_keys_range I). pose proof (num_keys_range Lp).
  unfold index_underflow. rewrite (path_at_at _ l) by done. rewrite Hpn. simpl.
  unfold get_child, get_key in *.
  replace (256 + pn_pos pn + 1) with (256 + (pn_pos pn + 1)) by lia.
  replace (256 + pn_pos pn - 1) with (256 + (pn_pos pn - 1)) by lia.
  replace (1 + pn_pos pn - 1) with (1 + (pn_pos pn - 1)) by lia.
  run.
  destruct (pn_pos pn <? pn_num_keys pn) eqn:E.
  - apply Z.ltb_lt in E. destruct (HR E) as (R & HRb & HnR).
    pose proof (num_keys_range R).
    run. rewrite (u32_small (num_keys I + num_keys R)) by lia.
    change (256 - 2) with 254. rewrite (proj2 (Z.ltb_ge _ _) HnR). simpl.
    rewrite (proj2 (Z.ltb_lt _ _) Hpos).
    run. rewrite (u32_small (num_keys Lp + num_keys I)) by lia.
    rewrite (proj2 (Z.ltb_ge _ _) Hnk).
    run.
    rewrite (merge_index_nodes_run _ _ inode Lp I) by done. reflexivity.
  - simpl. rewrite (proj2 (Z.ltb_lt _ _) Hpos).
    run. rewrite (u32_small (num_keys Lp + num_keys I)) by lia.
    change (256 - 2) with 254.
    rewrite (proj2 (Z.ltb_ge _ _) Hnk).
    run.
    rewrite (merge_index_nodes_run _ _ inode Lp I) by done. reflexivity.
Qed.

Lemma index_merge_right_run w d inode pos0 l pn I R P :
  path (tree w) = Some l → l !! d = Some pn →
  pages w !! inode = Some I → pages w !! pn_node pn = Some P →
  pn_pos pn = 0 → 0 < pn_num_keys pn →
  pages w !! get_child P 1 = Some R →
  num_keys I + num_keys R ≤ 254 →
  inode ≠ get_child P 1 →
  index_underflow w (Z.of_nat d) inode pos0
  = Some (true, 1, index_merged w inode (get_child P 1) I R (get_key P 0)).
Proof.
  intros Hl Hpn HI HP Hpos Hnkp HR Hnk H2.
  pose proof (num_keys_range I). pose proof (num_keys_range R).
  unfold index_underflow. rewrite (path_at_at _ l) by done. rewrite Hpn. simpl.
  unfold get_child, get_key in *. rewrite Hpos.
  change (256 + 0 + 1) with (256 + 1).
  run. rewrite (proj2 (Z.ltb_lt _ _) Hnkp).
  run. rewrite (u32_small (num_keys I + num_keys R)) by lia.
  change (256 - 2) with 254. rewrite (proj2 (Z.ltb_ge _ _) Hnk). simpl.
  run.
  rewrite (merge_index_nodes_run _ inode _ I R) by done. reflexivity.
Qed.

(** * The shape of the tree while a deletion is under way *)

(** While [delete] works its way up the tree one node may have one key
    less than the least number.  The shape is therefore split into the
    structure of the tree and the numbers of keys of its nodes, the
    latter with a list of nodes that are exempt. *)
Record tree_str (h : gmap Z block) (rt : Z) (dep : nat) (G : gmap Z nat) : Prop := {
  ts_root : G !! rt = Some dep;
  ts_top : ∀ a n, G !! a = Some n → (n ≤ dep)%nat;
  ts_blk : ∀ a n, G !! a = Some n → ∃ b, h !! a = Some b ∧ blk b;
  ts_kids : ∀ a n b c,
    G !! a = Some (S n) → h !! a = Some b → c ∈ kids b → G !! c = Some n;
  ts_nodup : ∀ a n b, G !! a = Some (S n) → h !! a = Some b → NoDup (kids b);
  ts_disj : ∀ a a' n n' b b' c,
    G !! a = Some (S n) → G !! a' = Some (S n') →
    h !! a = Some b → h !! a' = Some b' →
    c ∈ kids b → c ∈ kids b' → a = a'
}.

Definition mins_but (X : list Z) (h : gmap Z block) (rt : Z) (dep : nat)
    (G : gmap Z nat) : Prop :=
  (∀ a n b, G !! a = Some n → h !! a = Some b → a ≠ rt → a ∉ X →
     min_keys n ≤ num_keys b)
  ∧ (∀ b, h !! rt = Some b → dep ≠ O → rt ∉ X → 1 ≤ num_keys b).

Lemma tree_inv_str h rt dep G :
  tree_inv h rt dep G None ↔ tree_str h rt dep G ∧ mins_but [] h rt dep G.
Proof.
  split.
  - intros [H1 H2 H3 H4 H5 H6 H7 H8]. split; [by split|]. split.
    + intros a n b Ha Hb Hne _. by eapply H7.
    + intros b Hb Hd _. by apply H8.
  - intros [[H1 H2 H3 H4 H5 H6] [H7 H8]]. split; try done.
    + intros a n b Ha Hb Hne. eapply H7; [done..|]. apply not_elem_of_nil.
    + intros b Hb Hd. apply H8; [done..|]. apply not_elem_of_nil.
Qed.

(** ** The numbers of keys *)

Lemma mins_but_insert X X' h rt dep G a b' :
  mins_but X h rt dep G →
  (∀ x, x ∉ X' → x ≠ a → x ∉ X) →
  (a ∉ X' →
     (∀ n, G !! a = Some n → a ≠ rt → min_keys n ≤ num_keys b')
     ∧ (a = rt → dep ≠ O → 1 ≤ num_keys b')) →
  mins_but X' (<[a := b']> h) rt dep G.
Proof.
  intros [H1 H2] HX Ha. split.
  - intros x n b Hx Hb Hne Hnin. destruct (decide (x = a)) as [->|Hxa].
    + rewrite lookup_insert_eq in Hb. simplify_eq.
      by apply (proj1 (Ha Hnin) n Hx).
    + rewrite lookup_insert_ne in Hb by done. eapply H1; [done..|]. by apply HX.
  - intros b Hb Hd Hnin. destruct (decide (rt = a)) as [->|Hxa].
    + rewrite lookup_insert_eq in Hb. simplify_eq.
      by apply (proj2 (Ha Hnin)).
    + rewrite lookup_insert_ne in Hb by done. apply H2; [done..|]. by apply HX.
Qed.

Lemma mins_but_delete X h rt dep G y :
  mins_but X h rt dep G → y ≠ rt →
  mins_but X (base.delete y h) rt dep (base.delete y G).
Proof.
  intros [H1 H2] Hy. split.
  - intros x n b Hx Hb Hne Hnin.
    apply lookup_delete_Some in Hx as [? Hx]. apply lookup_delete_Some in Hb as [? Hb].
    by eapply H1.
  - intros b Hb Hd Hnin. apply lookup_delete_Some in Hb as [? Hb]. by apply H2.
Qed.

Lemma mins_but_drop X X' h rt dep G y :
  mins_but X h rt dep G → y ≠ rt →
  (∀ x, x ∉ X' → x ≠ y → x ∉ X) →
  mins_but X' (base.delete y h) rt dep (base.delete y G).
Proof.
  intros [H1 H2] Hy HX. split.
  - intros x n b Hx Hb Hne Hnin.
    apply lookup_delete_Some in Hx as [? Hx]. apply lookup_delete_Some in Hb as [? Hb].
    eapply H1; [done..|]. by apply HX.
  - intros b Hb Hd Hnin. apply lookup_delete_Some in Hb as [? Hb].
    apply H2; [done..|]. by apply HX.
Qed.

Lemma mins_but_weaken X X' h rt dep G :
  mins_but X h rt dep G → (∀ x, x ∉ X' → x ∉ X) → mins_but X' h rt dep G.
Proof.
  intros [H1 H2] HX. split.
  - intros x n b Hx Hb Hne Hnin. eapply H1; [done..|]. by apply HX.
  - intros b Hb Hd Hnin. apply H2; [done..|]. by apply HX.
Qed.

(** ** The structure *)

Lemma str_root_orphan h rt dep G : tree_str h rt dep G → orphan h G rt.
Proof.
  intros HT a n b Ha Hb Hin.
  pose proof (ts_kids _ _ _ _ HT a n b rt Ha Hb Hin) as H1.
  pose proof (ts_root _ _ _ _ HT) as H2.
  pose proof (ts_top _ _ _ _ HT a _ Ha). simplify_eq. lia.
Qed.

Lemma str_child h rt dep G a n b i :
  tree_str h rt dep G → G !! a = Some (S n) → h !! a = Some b →
  0 ≤ i ≤ num_keys b → G !! get_child b i = Some n.
Proof.
  intros HT Ha Hb Hi. eapply (ts_kids _ _ _ _ HT); [done..|].
  by apply get_child_kids.
Qed.

Lemma str_child_inj h rt dep G a n b i j :
  tree_str h rt dep G → G !! a = Some (S n) → h !! a = Some b →
  0 ≤ i ≤ num_keys b → 0 ≤ j ≤ num_keys b →
  get_child b i = get_child b j → i = j.
Proof.
  intros HT Ha Hb. apply kids_inj. by eapply ts_nodup.
Qed.

(** a node gets a new block with the same children *)
Lemma str_update h rt dep G a n b b' :
  tree_str h rt dep G → G !! a = Some n → h !! a = Some b → blk b' →
  (n ≠ O → kids b' = kids b) →
  tree_str (<[a := b']> h) rt dep G.
Proof.
  intros HT Ha Hb Hblk Hk.
  assert (Hek : ∀ a0 m b0, G !! a0 = Some (S m) → <[a:=b']> h !! a0 = Some b0 →
            ∃ b1, h !! a0 = Some b1 ∧ kids b0 = kids b1).
  { intros a0 m b0 Ha0 Hb0. destruct (decide (a0 = a)) as [->|Hne].
    - rewrite lookup_insert_eq in Hb0. simplify_eq. exists b. split; [done|].
      apply Hk. done.
    - rewrite lookup_insert_ne in Hb0 by done. eauto. }
  split.
  - apply HT.
  - apply HT.
  - intros a0 m Ha0. destruct (decide (a0 = a)) as [->|Hne].
    + rewrite lookup_insert_eq. eauto.
    + rewrite lookup_insert_ne by done. eapply ts_blk; done.
  - intros a0 m b0 c Ha0 Hb0 Hc.
    destruct (Hek _ _ _ Ha0 Hb0) as (b1 & Hb1 & Hk1). rewrite Hk1 in Hc.
    exact (ts_kids _ _ _ _ HT a0 m b1 c Ha0 Hb1 Hc).
  - intros a0 m b0 Ha0 Hb0.
    destruct (Hek _ _ _ Ha0 Hb0) as (b1 & Hb1 & Hk1). rewrite Hk1.
    exact (ts_nodup _ _ _ _ HT a0 m b1 Ha0 Hb1).
  - intros a0 a1 m m' b0 b1 c Ha0 Ha1 Hb0 Hb1 Hc0 Hc1.
    destruct (Hek _ _ _ Ha0 Hb0) as (b0' & Hb0' & Hk0). rewrite Hk0 in Hc0.
    destruct (Hek _ _ _ Ha1 Hb1) as (b1' & Hb1' & Hk1). rewrite Hk1 in Hc1.
    exact (ts_disj _ _ _ _ HT a0 a1 m m' b0' b1' c Ha0 Ha1 Hb0' Hb1' Hc0 Hc1).
Qed.

(** an index node gets a new list of children, each one a child it had
    or an orphan *)
Lemma str_rekid h rt dep G a b b' n :
  tree_str h rt dep G → G !! a = Some (S n) → h !! a = Some b → blk b' →
  NoDup (kids b') →
  (∀ c, c ∈ kids b' → G !! c = Some n ∧ (c ∈ kids b ∨ orphan h G c)) →
  tree_str (<[a := b']> h) rt dep G.
Proof.
  intros HT Ha Hb Hblk Hnd Hk.
  split.
  - apply HT.
  - apply HT.
  - intros a0 m Ha0. destruct (decide (a0 = a)) as [->|Hne].
    + rewrite lookup_insert_eq. eauto.
    + rewrite lookup_insert_ne by done. eapply ts_blk; done.
  - intros a0 m b0 c Ha0 Hb0 Hc.
    destruct (decide (a0 = a)) as [->|Hne].
    + rewrite lookup_insert_eq in Hb0. simplify_eq. by apply Hk.
    + rewrite lookup_insert_ne in Hb0 by done.
      exact (ts_kids _ _ _ _ HT a0 m b0 c Ha0 Hb0 Hc).
  - intros a0 m b0 Ha0 Hb0.
    destruct (decide (a0 = a)) as [->|Hne].
    + rewrite lookup_insert_eq in Hb0. by simplify_eq.
    + rewrite lookup_insert_ne in Hb0 by done.
      exact (ts_nodup _ _ _ _ HT a0 m b0 Ha0 Hb0).
  - intros a0 a1 m m' b0 b1 c Ha0 Ha1 Hb0 Hb1 Hc0 Hc1.
    destruct (decide (a0 = a)) as [->|Hne0]; destruct (decide (a1 = a)) as [->|Hne1];
      [done| | |].
    + rewrite lookup_insert_eq in Hb0. rewrite lookup_insert_ne in Hb1 by done.
      simplify_eq. destruct (Hk c Hc0) as [_ [Hc|Hc]].
      * symmetry.
        exact (ts_disj _ _ _ _ HT a1 a m' n b1 b c Ha1 Ha Hb1 Hb Hc1 Hc).
      * exfalso. exact (Hc a1 m' b1 Ha1 Hb1 Hc1).
    + rewrite lookup_insert_eq in Hb1. rewrite lookup_insert_ne in Hb0 by done.
      simplify_eq. destruct (Hk c Hc1) as [_ [Hc|Hc]].
      * exact (ts_disj _ _ _ _ HT a0 a m n b0 b c Ha0 Ha Hb0 Hb Hc0 Hc).
      * exfalso. exact (Hc a0 m b0 Ha0 Hb0 Hc0).
    + rewrite lookup_insert_ne in Hb0 by done; rewrite lookup_insert_ne in Hb1 by done.
      exact (ts_disj _ _ _ _ HT a0 a1 m m' b0 b1 c Ha0 Ha1 Hb0 Hb1 Hc0 Hc1).
Qed.

(** a child that a node has given up is an orphan *)
Lemma orphan_dropped h rt dep G a n b b' c :
  tree_str h rt dep G → G !! a = Some (S n) → h !! a = Some b →
  c ∈ kids b → c ∉ kids b' → orphan (<[a := b']> h) G c.
Proof.
  intros HT Ha Hb Hc Hc' x m bx Hx Hbx Hin.
  destruct (decide (x = a)) as [->|Hne].
  - rewrite lookup_insert_eq in Hbx. by simplify_eq.
  - rewrite lookup_insert_ne in Hbx by done.
    by pose proof (ts_disj _ _ _ _ HT x a m n bx b c Hx Ha Hbx Hb Hin Hc).
Qed.

Lemma orphan_insert h G a b' o :
  orphan h G o → o ∉ kids b' → orphan (<[a := b']> h) G o.
Proof.
  intros Ho Hc x m bx Hx Hbx Hin.
  destruct (decide (x = a)) as [->|Hne].
  - rewrite lookup_insert_eq in Hbx. by simplify_eq.
  - rewrite lookup_insert_ne in Hbx by done. by eapply Ho.
Qed.

Lemma orphan_delete h G y o :
  orphan h G o → orphan (base.delete y h) (base.delete y G) o.
Proof.
  intros Ho x m bx Hx Hbx Hin.
  apply lookup_delete_Some in Hx as [? Hx]. apply lookup_delete_Some in Hbx as [? Hbx].
  by eapply Ho.
Qed.

(** an orphan leaves the tree, and its children become orphans *)
Lemma str_drop h rt dep G y :
  tree_str h rt dep G → orphan h G y → y ≠ rt →
  tree_str (base.delete y h) rt dep (base.delete y G).
Proof.
  intros HT Hor Hy. split.
  - rewrite lookup_delete_ne by done. apply HT.
  - intros a n Ha. apply lookup_delete_Some in Ha as [? Ha]. by eapply ts_top.
  - intros a n Ha. apply lookup_delete_Some in Ha as [? Ha].
    rewrite lookup_delete_ne by done. by eapply ts_blk.
  - intros a n b c Ha Hb Hc.
    apply lookup_delete_Some in Ha as [? Ha]. apply lookup_delete_Some in Hb as [? Hb].
    rewrite lookup_delete_ne; [by eapply (ts_kids _ _ _ _ HT)|].
    intros <-. by eapply Hor.
  - intros a n b Ha Hb.
    apply lookup_delete_Some in Ha as [? Ha]. apply lookup_delete_Some in Hb as [? Hb].
    by eapply ts_nodup.
  - intros a a' n n' b b' c Ha Ha' Hb Hb' Hc Hc'.
    apply lookup_delete_Some in Ha as [? Ha]. apply lookup_delete_Some in Hb as [? Hb].
    apply lookup_delete_Some in Ha' as [? Ha']. apply lookup_delete_Some in Hb' as [? Hb'].
    by eapply (ts_disj _ _ _ _ HT a a').
Qed.

Lemma orphan_drop_kids h rt dep G y n b c :
  tree_str h rt dep G → G !! y = Some (S n) → h !! y = Some b → c ∈ kids b →
  orphan (base.delete y h) (base.delete y G) c.
Proof.
  intros HT Hy Hb Hc x m bx Hx Hbx Hin.
  apply lookup_delete_Some in Hx as [Hne Hx]. apply lookup_delete_Some in Hbx as [_ Hbx].
  by pose proof (ts_disj _ _ _ _ HT x y m n bx b c Hx Hy Hbx Hb Hin Hc).
Qed.

(** the root, which has no key left, gives way to its child *)
Lemma str_new_root h rt d G b :
  tree_str h rt (S d) G → h !! rt = Some b →
  (∀ a, G !! a = Some (S d) → a = rt) →
  0 ≤ num_keys b →
  tree_str (base.delete rt h) (get_child b 0) d (base.delete rt G).
Proof.
  intros HT Hb Htop Hnk.
  pose proof (ts_root _ _ _ _ HT) as Hrt.
  pose proof (str_root_orphan _ _ _ _ HT) as Hor.
  assert (Hc : G !! get_child b 0 = Some d).
  { eapply str_child; [done..|lia]. }
  split.
  - rewrite lookup_delete_ne; [done|]. intros Heq. rewrite <- Heq in Hc. simplify_eq. lia.
  - intros a n Ha. apply lookup_delete_Some in Ha as [Hne Ha].
    pose proof (ts_top _ _ _ _ HT a n Ha).
    destruct (decide (n = S d)) as [->|]; [|lia]. destruct Hne. symmetry. by apply Htop.
  - intros a n Ha. apply lookup_delete_Some in Ha as [? Ha].
    rewrite lookup_delete_ne by done. by eapply ts_blk.
  - intros a n b0 c Ha Hb0 Hc0.
    apply lookup_delete_Some in Ha as [? Ha]. apply lookup_delete_Some in Hb0 as [? Hb0].
    rewrite lookup_delete_ne; [by eapply (ts_kids _ _ _ _ HT)|].
    intros <-. by eapply Hor.
  - intros a n b0 Ha Hb0.
    apply lookup_delete_Some in Ha as [? Ha]. apply lookup_delete_Some in Hb0 as [? Hb0].
    by eapply ts_nodup.
  - intros a a' n n' b0 b' c Ha Ha' Hb0 Hb' Hc0 Hc'.
    apply lookup_delete_Some in Ha as [? Ha]. apply lookup_delete_Some in Hb0 as [? Hb0].
    apply lookup_delete_Some in Ha' as [? Ha']. apply lookup_delete_Some in Hb' as [? Hb'].
    by eapply (ts_disj _ _ _ _ HT a a').
Qed.

(** ** The children lists after the operations of [delete] *)

Lemma NoDup_kids b :
  (∀ i j, 0 ≤ i ≤ num_keys b → 0 ≤ j ≤ num_keys b →
     get_child b i = get_child b j → i = j) →
  NoDup (kids b).
Proof.
  intros Hinj. pose proof (num_keys_range b). unfold kids.
  apply NoDup_fmap_2_strong; [|apply NoDup_seqZ].
  intros i j Hi Hj Heq. apply elem_of_seqZ in Hi, Hj. apply Hinj; [lia|lia|done].
Qed.

(** * The order of the keys while a deletion is under way *)

(** ** The parent of two peers *)

(** the key between two peers replaced *)
Lemma blk_ok_set_key G G' (B B' : gmap Z bounds) n P lo hi j s' :
  blk P → blk_ok G B (S n) P lo hi → 0 ≤ j < num_keys P →
  range_ok (cbound P lo hi j).1 (Some s') →
  range_ok (Some s') (cbound P lo hi (j + 1)).2 →
  (∀ i, 0 ≤ i ≤ num_keys P → i ≠ j → i ≠ j + 1 →
     B' !! get_child P i = B !! get_child P i) →
  B' !! get_child P j = Some ((cbound P lo hi j).1, Some s') →
  B' !! get_child P (j + 1) = Some (Some s', (cbound P lo hi (j + 1)).2) →
  blk_ok G' B' (S n) (blk_set_key P j s') lo hi.
Proof.
  intros Hblk (Hr & Hs & Hk & Hlt & Hc) Hj Hlo Hhi Hoth Hl Hrr.
  pose proof (num_keys_range P) as Hnk.
  destruct (blk_set_key_spec P j s' Hblk ltac:(lia)) as (_ & En & Ek & Ec).
  unfold cbound, kbound in *. cbn [fst snd] in *.
  assert (Hlo' : ∀ i, 0 ≤ i < j → get_key P i < s').
  { intros i Hi. rewrite decide_False in Hlo by lia. simpl in Hlo.
    simpl in Hlo. destruct (decide (i = j - 1)) as [->|]; [done|].
    assert (get_key P i < get_key P (j - 1)) by (apply Hs; lia). lia. }
  assert (Hhi' : ∀ i, j < i < num_keys P → s' < get_key P i).
  { intros i Hi. rewrite decide_False in Hhi by lia. simpl in Hhi.
    simpl in Hhi. destruct (decide (i = j + 1)) as [->|]; [done|].
    assert (get_key P (j + 1) < get_key P i) by (apply Hs; lia). lia. }
  assert (Hlos : lo_lt lo s').
  { destruct (decide (j = 0)) as [E|].
    - by apply range_ok_lo_inv.
    - eapply lo_lt_trans; [apply (Hlt 0); lia|]. specialize (Hlo' 0). lia. }
  assert (Hhis : lt_hi s' hi).
  { destruct (decide (j + 1 = num_keys P)) as [E|].
    - by apply range_ok_hi_inv.
    - eapply lt_hi_trans; [apply (Hk (j + 1)); lia|]. specialize (Hhi' (j + 1)). lia. }
  clear Hlo Hhi.
  split; [done|]. split; [|split; [|split]].
  - intros a b Ha Hab Hb. rewrite En in Hb. rewrite !Ek by lia.
    destruct (decide (a = j)) as [->|Haj]; destruct (decide (b = j)) as [->|Hbj];
      first [lia|apply Hhi'; lia|apply Hlo'; lia|apply Hs; lia].
  - intros i Hi. rewrite En in Hi. rewrite Ek by lia.
    destruct (decide (i = j)) as [->|Hij].
    + split; [by apply lo_lt_le|done].
    + by apply Hk.
  - intros i Hi. rewrite En in Hi. rewrite Ek by lia.
    destruct (decide (i = j)) as [->|Hij]; [done|]. by apply Hlt.
  - intros i Hi. unfold cbound, kbound. rewrite En in Hi |- *. rewrite Ec by lia.
    destruct (decide (i = j)) as [->|Hij]; [|destruct (decide (i = j + 1)) as [->|Hij']].
    + rewrite Hl. f_equal. f_equal.
      * destruct (decide (j = 0)); [done|]. rewrite Ek by lia.
        rewrite decide_False by lia. done.
      * rewrite decide_False by lia. rewrite Ek by lia. by rewrite decide_True.
    + rewrite Hrr. f_equal. f_equal.
      * rewrite decide_False by lia. rewrite Ek by lia.
        replace (j + 1 - 1) with j by lia. by rewrite decide_True.
      * destruct (decide (j + 1 = num_keys P)); [done|]. rewrite Ek by lia.
        rewrite decide_False by lia. done.
    + rewrite Hoth by lia. rewrite Hc by lia. f_equal. f_equal.
      * destruct (decide (i = 0)); [done|]. rewrite Ek by lia.
        rewrite decide_False by lia. done.
      * destruct (decide (i = num_keys P)); [done|]. rewrite Ek by lia.
        rewrite decide_False by lia. done.
Qed.

(** the key between two peers and the right one of them taken out *)
Lemma blk_ok_index_remove G G' (B B' : gmap Z bounds) n P lo hi j :
  blk P → blk_ok G B (S n) P lo hi → 0 ≤ j < num_keys P →
  (∀ i, 0 ≤ i ≤ num_keys P → i ≠ j → i ≠ j + 1 →
     B' !! get_child P i = B !! get_child P i) →
  B' !! get_child P j = Some ((cbound P lo hi j).1, (cbound P lo hi (j + 1)).2) →
  blk_ok G' B' (S n) (blk_index_remove P (j + 1) (num_keys P)) lo hi.
Proof.
  intros Hblk (Hr & Hs & Hk & Hlt & Hc) Hj Hoth Hl.
  pose proof (num_keys_range P) as Hnk.
  destruct (blk_index_remove_spec P (j + 1) Hblk ltac:(lia)) as (_ & En & Ek & Ec).
  replace (j + 1 - 1) with j in Ek by lia.
  unfold cbound, kbound, without in *. cbn [fst snd] in *.
  split; [done|]. split; [|split; [|split]].
  - intros a b Ha Hab Hb. rewrite En in Hb. rewrite !Ek by lia.
    destruct (decide (a < j)); destruct (decide (b < j)); try lia; apply Hs; lia.
  - intros i Hi. rewrite En in Hi. rewrite Ek by lia.
    destruct (decide (i < j)); apply Hk; lia.
  - intros i Hi. rewrite En in Hi. rewrite Ek by lia.
    destruct (decide (i < j)); apply Hlt; lia.
  - intros i Hi. unfold cbound, kbound. rewrite En in Hi |- *. rewrite Ec by lia.
    destruct (decide (i < j)) as [Hij|Hij]; [|destruct (decide (i = j)) as [->|Hij']].
    + rewrite decide_True by lia. rewrite Hoth by lia. rewrite Hc by lia.
      f_equal. f_equal.
      * destruct (decide (i = 0)); [done|]. rewrite Ek by lia.
        by rewrite decide_True by lia.
      * rewrite !decide_False by lia. rewrite Ek by lia. by rewrite decide_True by lia.
    + rewrite decide_True by lia. rewrite Hl. f_equal. f_equal.
      * destruct (decide (j = 0)); [done|]. rewrite Ek by lia.
        by rewrite decide_True by lia.
      * destruct (decide (j + 1 = num_keys P)).
        -- by rewrite decide_True by lia.
        -- rewrite decide_False by lia. rewrite Ek by lia. by rewrite decide_False by lia.
    + rewrite decide_False by lia. rewrite Hoth by lia. rewrite Hc by lia.
      f_equal. f_equal.
      * rewrite !decide_False by lia. rewrite Ek by lia. rewrite decide_False by lia.
        do 2 f_equal. lia.
      * destruct (decide (i + 1 = num_keys P)).
        -- by rewrite decide_True by lia.
        -- rewrite decide_False by lia. rewrite Ek by lia. by rewrite decide_False by lia.
Qed.

(** ** Two peers *)

Section peers.
Context (h : gmap Z block) (rt : Z) (dep : nat) (G : gmap Z nat) (B : gmap Z bounds).
Context (first p : Z) (n : nat) (P : block) (lo hi : option Z) (j : Z).
Hypothesis HT : tree_str h rt dep G.
Hypothesis HO : ord_inv h rt G B first.
Hypothesis Hp : G !! p = Some (S n).
Hypothesis HP : h !! p = Some P.
Hypothesis HBp : B !! p = Some (lo, hi).
Hypothesis Hj : 0 ≤ j < num_keys P.

(** the left peer is child [j] of [p], the right peer child [j + 1] *)
Lemma peers_facts :
  blk P ∧ blk_ok G B (S n) P lo hi
  ∧ G !! get_child P j = Some n ∧ G !! get_child P (j + 1) = Some n
  ∧ get_child P j ≠ get_child P (j + 1)
  ∧ get_child P j ≠ p ∧ get_child P (j + 1) ≠ p
  ∧ get_child P j ≠ rt ∧ get_child P (j + 1) ≠ rt
  ∧ B !! get_child P j = Some ((cbound P lo hi j).1, Some (get_key P j))
  ∧ B !! get_child P (j + 1) = Some (Some (get_key P j), (cbound P lo hi (j + 1)).2).
Proof.
  destruct (ts_blk _ _ _ _ HT p _ Hp) as (P0 & HP0 & Hblk).
  assert (P0 = P) as -> by congruence.
  destruct (oi_node _ _ _ _ _ HO p _ Hp) as (lo0 & hi0 & b0 & HB0 & Hb0 & Hok).
  assert (b0 = P) as -> by congruence.
  assert (lo0 = lo ∧ hi0 = hi) as [-> ->] by (split; congruence).
  pose proof (str_child _ _ _ _ p n P j HT Hp HP ltac:(lia)) as Hl.
  pose proof (str_child _ _ _ _ p n P (j + 1) HT Hp HP ltac:(lia)) as Hr.
  pose proof (str_root_orphan _ _ _ _ HT) as Hor.
  split; [done|]. split; [done|]. split; [done|]. split; [done|].
  split; [|split; [|split; [|split; [|split; [|split]]]]].
  - intros Heq. apply (str_child_inj _ _ _ _ p n P j (j + 1) HT Hp HP) in Heq; lia.
  - intros Heq. rewrite Heq in Hl. simplify_eq. lia.
  - intros Heq. rewrite Heq in Hr. simplify_eq. lia.
  - intros Heq. apply (Hor p n P Hp HP). rewrite <- Heq. apply get_child_kids. lia.
  - intros Heq. apply (Hor p n P Hp HP). rewrite <- Heq. apply get_child_kids. lia.
  - destruct Hok as (_ & _ & _ & _ & Hc). rewrite Hc by lia.
    unfold cbound, kbound. cbn [fst snd]. by rewrite (decide_False (P := j = num_keys P)) by lia.
  - destruct Hok as (_ & _ & _ & _ & Hc). rewrite Hc by lia.
    unfold cbound, kbound. cbn [fst snd]. rewrite (decide_False (P := j + 1 = 0)) by lia.
    by replace (j + 1 - 1) with j by lia.
Qed.

(** the children of [p] other than the two peers *)
Lemma peers_others i :
  0 ≤ i ≤ num_keys P → i ≠ j → i ≠ j + 1 →
  get_child P i ≠ get_child P j ∧ get_child P i ≠ get_child P (j + 1).
Proof.
  intros Hi H1 H2. split; intros Heq.
  - apply (str_child_inj _ _ _ _ p n P i j HT Hp HP) in Heq; lia.
  - apply (str_child_inj _ _ _ _ p n P i (j + 1) HT Hp HP) in Heq; lia.
Qed.

(** what the nodes other than [p] and the two peers need of the ghost
    maps is left as it is when the ranges of the peers change, as long
    as the left one keeps its lower bound *)
Lemma peers_stable (G' : gmap Z nat) (B' : gmap Z bounds) a na ba loa hia :
  (∀ x, x ≠ get_child P j → x ≠ get_child P (j + 1) → B' !! x = B !! x) →
  (∃ hi', B' !! get_child P j = Some ((cbound P lo hi j).1, hi')) →
  (∀ x, x ≠ get_child P (j + 1) → G' !! x = G !! x) →
  (n = O → ∀ z bz, G !! z = Some O → h !! z = Some bz → z ≠ get_child P j →
     next_leaf bz ≠ get_child P (j + 1)) →
  G !! a = Some na → h !! a = Some ba →
  a ≠ p → a ≠ get_child P j → a ≠ get_child P (j + 1) →
  blk_ok G B na ba loa hia → blk_ok G' B' na ba loa hia.
Proof.
  intros HB' (hi' & HBl) HG' Huniq Ha Hba Hap Hal Har Hok.
  destruct peers_facts as (_ & _ & Hl & Hr & _ & _ & _ & _ & _ & HBl0 & _).
  eapply blk_ok_stable; [exact Hok| | |].
  - intros m x -> Hx. apply HB'; intros ->.
    + apply Hap.
      eapply (ts_disj _ _ _ _ HT a p m n ba P); [done..|]. apply get_child_kids. lia.
    + apply Hap.
      eapply (ts_disj _ _ _ _ HT a p m n ba P); [done..|]. apply get_child_kids. lia.
  - intros -> Hg. rewrite HG'; [done|]. intros Heq.
    destruct n as [|n'].
    + by apply (Huniq eq_refl a ba).
    + rewrite Heq in Hg. congruence.
  - intros -> Hg u hi'' Hn.
    destruct (decide (next_leaf ba = get_child P j)) as [Heq|Hne].
    + rewrite Heq in Hn |- *. rewrite HBl.
      assert (E : (cbound P lo hi j).1 = Some u).
      { assert (Some ((cbound P lo hi j).1, Some (get_key P j)) = Some (Some u, hi''))
          as [= E _] by (etrans; [symmetry; exact HBl0|exact Hn]).
        exact E. }
      rewrite E. eauto.
    + rewrite HB'; [eauto|done|]. intros Heq.
      destruct n as [|n'].
      * by apply (Huniq eq_refl a ba).
      * rewrite Heq in Hg. congruence.
Qed.

(** a key has moved from one peer to the other *)
Lemma ord_rotate L' R' s' :
  blk_ok G (<[get_child P j := ((cbound P lo hi j).1, Some s')]>
              (<[get_child P (j + 1) := (Some s', (cbound P lo hi (j + 1)).2)]> B))
    n L' (cbound P lo hi j).1 (Some s') →
  blk_ok G (<[get_child P j := ((cbound P lo hi j).1, Some s')]>
              (<[get_child P (j + 1) := (Some s', (cbound P lo hi (j + 1)).2)]> B))
    n R' (Some s') (cbound P lo hi (j + 1)).2 →
  (n ≠ O → ∀ Lb Rb c, h !! get_child P j = Some Lb → h !! get_child P (j + 1) = Some Rb →
     c ∈ kids Lb ∨ c ∈ kids Rb → c ∈ kids L' ∨ c ∈ kids R') →
  (n = O → ∀ z bz, G !! z = Some O → h !! z = Some bz → z ≠ get_child P j →
     next_leaf bz ≠ get_child P (j + 1)) →
  ord_inv (<[p := blk_set_key P j s']>
             (<[get_child P (j + 1) := R']> (<[get_child P j := L']> h)))
    rt G
    (<[get_child P j := ((cbound P lo hi j).1, Some s')]>
       (<[get_child P (j + 1) := (Some s', (cbound P lo hi (j + 1)).2)]> B))
    first.
Proof.
  intros HL HR Hcov Huniq.
  destruct peers_facts
    as (Hblk & HokP & Hl & Hr & Hlr & Hlp & Hrp & Hlrt & Hrrt & HBl & HBr).
  set (l := get_child P j) in *. set (r := get_child P (j + 1)) in *.
  set (B' := <[l := _]> (<[r := _]> B)) in *.
  assert (HB' : ∀ x, x ≠ l → x ≠ r → B' !! x = B !! x).
  { intros x H1 H2. unfold B'. by rewrite !lookup_insert_ne. }
  assert (HBl' : B' !! l = Some ((cbound P lo hi j).1, Some s')).
  { unfold B'. by rewrite lookup_insert_eq. }
  assert (HBr' : B' !! r = Some (Some s', (cbound P lo hi (j + 1)).2)).
  { unfold B'. rewrite lookup_insert_ne by done. by rewrite lookup_insert_eq. }
  destruct (blk_set_key_spec P j s' Hblk ltac:(pose proof (num_keys_range P); lia))
    as (_ & En & _ & Ec).
  assert (HkP : kids (blk_set_key P j s') = kids P).
  { unfold kids. rewrite En. apply list_fmap_ext. intros i x Hx.
    apply lookup_seqZ in Hx as [-> Hx]. apply Ec.
    pose proof (num_keys_range P). lia. }
  split.
  - rewrite HB' by done. apply HO.
  - intros a na Ha.
    destruct (decide (a = p)) as [->|Hap];
      [|destruct (decide (a = r)) as [->|Har];
        [|destruct (decide (a = l)) as [->|Hal]]].
    + assert (na = S n) as -> by congruence.
      exists lo, hi, (blk_set_key P j s'). rewrite lookup_insert_eq.
      rewrite HB' by done. split; [done|]. split; [done|].
      eapply (blk_ok_set_key G G B B'); [done|done|done| | | |done|done].
      * apply HL.
      * apply HR.
      * intros i Hi H1 H2. destruct (peers_others i Hi H1 H2). by apply HB'.
    + assert (na = n) as -> by congruence.
      exists (Some s'), (cbound P lo hi (j + 1)).2, R'.
      rewrite lookup_insert_ne by done. rewrite lookup_insert_eq. done.
    + assert (na = n) as -> by congruence.
      exists (cbound P lo hi j).1, (Some s'), L'.
      rewrite !lookup_insert_ne by done. rewrite lookup_insert_eq. done.
    + destruct (oi_node _ _ _ _ _ HO a _ Ha) as (loa & hia & ba & HBa & Hba & Hok).
      exists loa, hia, ba. rewrite !lookup_insert_ne by done. rewrite HB' by done.
      split; [done|]. split; [done|].
      eapply (peers_stable G B'); try done. eauto.
  - intros a na Ha.
    destruct (oi_parent _ _ _ _ _ HO a _ Ha) as [?|(q & bq & Hq & Hbq & Hin)]; [by left|].
    right.
    destruct (decide (q = p)) as [->|Hqp];
      [|destruct (decide (q = r)) as [->|Hqr];
        [|destruct (decide (q = l)) as [->|Hql]]].
    + exists p, (blk_set_key P j s'). rewrite lookup_insert_eq.
      split; [done|]. split; [done|]. rewrite HkP. congruence.
    + assert (n = S na) as Hn by congruence.
      destruct (ts_blk _ _ _ _ HT l _ Hl) as (Lb & HLb & _).
      destruct (Hcov ltac:(lia) Lb bq a HLb Hbq ltac:(by right)) as [Hc|Hc].
      * exists l, L'. rewrite !lookup_insert_ne by done. rewrite lookup_insert_eq.
        split; [congruence|done].
      * exists r, R'. rewrite lookup_insert_ne by done. rewrite lookup_insert_eq.
        split; [congruence|done].
    + assert (n = S na) as Hn by congruence.
      destruct (ts_blk _ _ _ _ HT r _ Hr) as (Rb & HRb & _).
      destruct (Hcov ltac:(lia) bq Rb a Hbq HRb ltac:(by left)) as [Hc|Hc].
      * exists l, L'. rewrite !lookup_insert_ne by done. rewrite lookup_insert_eq.
        split; [congruence|done].
      * exists r, R'. rewrite lookup_insert_ne by done. rewrite lookup_insert_eq.
        split; [congruence|done].
    + exists q, bq. by rewrite !lookup_insert_ne.
  - destruct (oi_first _ _ _ _ _ HO) as [Hf (hif & HBf)]. split; [done|].
    destruct (decide (first = r)) as [->|Hfr]; [congruence|].
    destruct (decide (first = l)) as [->|Hfl].
    + rewrite HBl'. assert ((cbound P lo hi j).1 = None) as -> by congruence. eauto.
    + rewrite HB' by done. eauto.
Qed.

(** the right peer has been merged into the left one *)
Lemma ord_merge L' :
  blk_ok (base.delete (get_child P (j + 1)) G)
    (<[get_child P j := ((cbound P lo hi j).1, (cbound P lo hi (j + 1)).2)]> B)
    n L' (cbound P lo hi j).1 (cbound P lo hi (j + 1)).2 →
  (n ≠ O → ∀ Lb Rb c, h !! get_child P j = Some Lb → h !! get_child P (j + 1) = Some Rb →
     c ∈ kids Lb ∨ c ∈ kids Rb → c ∈ kids L') →
  (n = O → ∀ z bz, G !! z = Some O → h !! z = Some bz → z ≠ get_child P j →
     next_leaf bz ≠ get_child P (j + 1)) →
  ord_inv (<[p := blk_index_remove P (j + 1) (num_keys P)]>
             (<[get_child P j := L']> (base.delete (get_child P (j + 1)) h)))
    rt (base.delete (get_child P (j + 1)) G)
    (<[get_child P j := ((cbound P lo hi j).1, (cbound P lo hi (j + 1)).2)]> B)
    first.
Proof.
  intros HL Hcov Huniq.
  destruct peers_facts
    as (Hblk & HokP & Hl & Hr & Hlr & Hlp & Hrp & Hlrt & Hrrt & HBl & HBr).
  set (l := get_child P j) in *. set (r := get_child P (j + 1)) in *.
  set (B' := <[l := _]> B) in *.
  assert (HB' : ∀ x, x ≠ l → B' !! x = B !! x).
  { intros x H1. unfold B'. by rewrite !lookup_insert_ne. }
  assert (HBl' : B' !! l = Some ((cbound P lo hi j).1, (cbound P lo hi (j + 1)).2)).
  { unfold B'. by rewrite lookup_insert_eq. }
  pose proof (num_keys_range P) as HnkP.
  destruct (blk_index_remove_spec P (j + 1) Hblk ltac:(lia)) as (_ & En & _ & Ec).
  assert (HkP : ∀ c, c ∈ kids P → c ≠ r →
            c ∈ kids (blk_index_remove P (j + 1) (num_keys P))).
  { intros c Hc Hcr. apply elem_of_kids in Hc as (i & Hi & ->).
    apply elem_of_kids. rewrite En.
    destruct (decide (i < j + 1)).
    - exists i. split; [lia|]. rewrite Ec by lia. unfold without.
      by rewrite decide_True by lia.
    - exists (i - 1). assert (i ≠ j + 1) by (intros ->; done).
      split; [lia|]. rewrite Ec by lia. unfold without.
      rewrite decide_False by lia. f_equal. lia. }
  split.
  - rewrite HB' by done. apply HO.
  - intros a na Ha. apply lookup_delete_Some in Ha as [Har Ha].
    destruct (decide (a = p)) as [->|Hap]; [|destruct (decide (a = l)) as [->|Hal]].
    + assert (na = S n) as -> by congruence.
      exists lo, hi, (blk_index_remove P (j + 1) (num_keys P)). rewrite lookup_insert_eq.
      rewrite HB' by done. split; [done|]. split; [done|].
      eapply (blk_ok_index_remove G _ B B'); [done|done|done| |done].
      intros i Hi H1 H2. destruct (peers_others i Hi H1 H2). by apply HB'.
    + assert (na = n) as -> by congruence.
      exists (cbound P lo hi j).1, (cbound P lo hi (j + 1)).2, L'.
      rewrite !lookup_insert_ne by done. rewrite lookup_insert_eq. done.
    + destruct (oi_node _ _ _ _ _ HO a _ Ha) as (loa & hia & ba & HBa & Hba & Hok).
      exists loa, hia, ba. rewrite !lookup_insert_ne by done.
      rewrite lookup_delete_ne by done. rewrite HB' by done.
      split; [done|]. split; [done|].
      eapply (peers_stable _ B'); try done.
      * intros x H1 _. by apply HB'.
      * eauto.
      * intros x Hx. by apply lookup_delete_ne.
  - intros a na Ha. apply lookup_delete_Some in Ha as [Har Ha].
    destruct (oi_parent _ _ _ _ _ HO a _ Ha) as [?|(q & bq & Hq & Hbq & Hin)]; [by left|].
    right.
    destruct (decide (q = p)) as [->|Hqp];
      [|destruct (decide (q = r)) as [->|Hqr];
        [|destruct (decide (q = l)) as [->|Hql]]].
    + exists p, (blk_index_remove P (j + 1) (num_keys P)). rewrite lookup_insert_eq.
      rewrite lookup_delete_ne by done.
      split; [done|]. split; [done|]. apply HkP; [congruence|done].
    + assert (n = S na) as Hn by congruence.
      destruct (ts_blk _ _ _ _ HT l _ Hl) as (Lb & HLb & _).
      exists l, L'. rewrite !lookup_insert_ne by done. rewrite lookup_insert_eq.
      rewrite lookup_delete_ne by done.
      split; [congruence|]. split; [done|].
      apply (Hcov ltac:(lia) Lb bq a HLb Hbq). by right.
    + assert (n = S na) as Hn by congruence.
      destruct (ts_blk _ _ _ _ HT r _ Hr) as (Rb & HRb & _).
      exists l, L'. rewrite !lookup_insert_ne by done. rewrite lookup_insert_eq.
      rewrite lookup_delete_ne by done.
      split; [congruence|]. split; [done|].
      apply (Hcov ltac:(lia) bq Rb a Hbq HRb). by left.
    + exists q, bq. rewrite !lookup_insert_ne by done.
      rewrite !lookup_delete_ne by done. done.
  - destruct (oi_first _ _ _ _ _ HO) as [Hf (hif & HBf)].
    destruct (decide (first = r)) as [->|Hfr]; [congruence|].
    split; [by rewrite lookup_delete_ne|].
    destruct (decide (first = l)) as [->|Hfl].
    + rewrite HBl'. assert ((cbound P lo hi j).1 = None) as -> by congruence. eauto.
    + rewrite HB' by done. eauto.
Qed.
End peers.

(** ** The blocks of two index peers *)

Ltac kb_solve :=
  f_equal; f_equal;
  repeat (case_decide; try lia); try done; try (f_equal; lia).

(** the left peer takes the first child of the right one *)
Lemma blk_ok_index_rot_left G (B B' : gmap Z bounds) m L R lo_l hi_r s :
  blk L → blk R → num_keys L < 255 → 0 < num_keys R →
  blk_ok G B (S m) L lo_l (Some s) → blk_ok G B (S m) R (Some s) hi_r →
  (∀ c, c ∈ kids L ∨ c ∈ kids R → B' !! c = B !! c) →
  blk_ok G B' (S m) (blk_index_push_back L s (get_child R 0)) lo_l (Some (get_key R 0))
  ∧ blk_ok G B' (S m) (blk_index_pop_front R) (Some (get_key R 0)) hi_r.
Proof.
  intros HbL HbR HnL HnR (HrL & HsL & HkL & HltL & HcL) (HrR & HsR & HkR & HltR & HcR) HB'.
  pose proof (num_keys_range L) as HrgL. pose proof (num_keys_range R) as HrgR.
  destruct (blk_index_push_back_spec L s (get_child R 0) HbL HnL) as (_ & En & Ek & Ec).
  destruct (blk_index_pop_front_spec R HbR HnR) as (_ & En' & Ek' & Ec').
  assert (Hs0 : s < get_key R 0) by (apply (HltR 0); lia).
  assert (HLs : ∀ i, 0 ≤ i < num_keys L → get_key L i < s) by (intros i Hi; by apply (HkL i)).
  assert (Hlos : lo_lt lo_l s) by (by apply range_ok_lo_inv).
  split.
  - split; [apply range_ok_lo; by eapply lo_lt_trans; [exact Hlos|lia]|].
    split; [|split; [|split]].
    + intros a b Ha Hab Hb. rewrite En in Hb. rewrite !Ek by lia.
      destruct (decide (a < num_keys L)); destruct (decide (b < num_keys L));
        first [lia|apply HsL; lia|apply HLs; lia].
    + intros i Hi. rewrite En in Hi. rewrite Ek by lia.
      destruct (decide (i < num_keys L)).
      * split; [apply HkL; lia|]. specialize (HLs i). simpl. lia.
      * split; [by apply lo_lt_le|done].
    + intros i Hi. rewrite En in Hi. rewrite Ek by lia.
      destruct (decide (i < num_keys L)); [apply HltL; lia|done].
    + intros i Hi. rewrite En in Hi. rewrite Ec by lia. unfold cbound, kbound. rewrite En.
      destruct (decide (i ≤ num_keys L)).
      * rewrite HB' by (left; apply get_child_kids; lia). rewrite HcL by lia.
        unfold cbound, kbound.
        rewrite (decide_False (P := i = num_keys L + 1)) by lia.
        rewrite (Ek i) by lia.
        destruct (decide (i = 0)); destruct (decide (i = num_keys L));
          try (rewrite (Ek (i - 1)) by lia);
          repeat first [rewrite decide_True by lia|rewrite decide_False by lia]; done.
      * rewrite HB' by (right; apply get_child_kids; lia). rewrite HcR by lia.
        unfold cbound, kbound.
        assert (i = num_keys L + 1) as -> by lia.
        rewrite (Ek (num_keys L + 1 - 1)) by lia.
        repeat first [rewrite decide_True by lia|rewrite decide_False by lia]. done.
  - assert (Hhi0 : lt_hi (get_key R 0) hi_r) by (apply (HkR 0); lia).
    split; [by apply range_ok_hi|].
    split; [|split; [|split]].
    + intros a b Ha Hab Hb. rewrite En' in Hb. rewrite !Ek' by lia. apply HsR; lia.
    + intros i Hi. rewrite En' in Hi. rewrite Ek' by lia. split; [|apply HkR; lia].
      simpl. assert (get_key R 0 < get_key R (i + 1)) by (apply HsR; lia). lia.
    + intros i Hi. rewrite En' in Hi. rewrite Ek' by lia. simpl. apply HsR; lia.
    + intros i Hi. rewrite En' in Hi. rewrite Ec' by lia. unfold cbound, kbound. rewrite En'.
      rewrite HB' by (right; apply get_child_kids; lia). rewrite HcR by lia.
      unfold cbound, kbound.
      rewrite (decide_False (P := i + 1 = 0)) by lia.
      replace (i + 1 - 1) with i by lia.
      destruct (decide (i = 0)) as [E0|E0]; destruct (decide (i + 1 = num_keys R));
        try (rewrite (Ek' (i - 1)) by lia); try (rewrite (Ek' i) by lia);
        repeat first [rewrite decide_True by lia|rewrite decide_False by lia];
        try done; repeat f_equal; lia.
Qed.

(** the right peer takes the last child of the left one *)
Lemma blk_ok_index_rot_right G (B B' : gmap Z bounds) m L R lo_l hi_r s :
  blk L → blk R → num_keys R < 255 → 0 < num_keys L →
  blk_ok G B (S m) L lo_l (Some s) → blk_ok G B (S m) R (Some s) hi_r →
  (∀ c, c ∈ kids L ∨ c ∈ kids R → B' !! c = B !! c) →
  blk_ok G B' (S m) (blk_pop_back L) lo_l (Some (get_key L (num_keys L - 1)))
  ∧ blk_ok G B' (S m) (blk_index_push_front R s (get_child L (num_keys L)))
      (Some (get_key L (num_keys L - 1))) hi_r.
Proof.
  intros HbL HbR HnR HnL (HrL & HsL & HkL & HltL & HcL) (HrR & HsR & HkR & HltR & HcR) HB'.
  pose proof (num_keys_range L) as HrgL. pose proof (num_keys_range R) as HrgR.
  destruct (blk_pop_back_spec L HbL HnL) as (_ & En & _).
  destruct (blk_pop_back_index L HbL HnL) as (Ek & Ec & _).
  destruct (blk_index_push_front_spec R s (get_child L (num_keys L)) HbR HnR)
    as (_ & En' & Ek' & Ec').
  assert (Hs0 : get_key L (num_keys L - 1) < s) by (apply (HkL (num_keys L - 1)); lia).
  assert (HRs : ∀ i, 0 ≤ i < num_keys R → s < get_key R i) by (intros i Hi; by apply (HltR i)).
  split.
  - split; [apply range_ok_lo; apply HltL; lia|].
    split; [|split; [|split]].
    + intros a b Ha Hab Hb. rewrite En in Hb. rewrite !Ek by lia. apply HsL; lia.
    + intros i Hi. rewrite En in Hi. rewrite Ek by lia. split; [apply HkL; lia|].
      simpl. apply HsL; lia.
    + intros i Hi. rewrite En in Hi. rewrite Ek by lia. apply HltL; lia.
    + intros i Hi. rewrite En in Hi. rewrite Ec by lia. unfold cbound, kbound. rewrite En.
      rewrite HB' by (left; apply get_child_kids; lia). rewrite HcL by lia.
      unfold cbound, kbound.
      rewrite (decide_False (P := i = num_keys L)) by lia.
      destruct (decide (i = 0)) as [E0|E0]; destruct (decide (i = num_keys L - 1)) as [E1|E1];
        try (rewrite (Ek (i - 1)) by lia); try (rewrite (Ek i) by lia);
        try done; repeat f_equal; lia.
  - assert (HhiR : lt_hi s hi_r) by (by apply range_ok_hi_inv).
    split; [apply range_ok_hi; eapply lt_hi_trans; [exact HhiR|lia]|].
    split; [|split; [|split]].
    + intros a b Ha Hab Hb. rewrite En' in Hb. rewrite !Ek' by lia.
      destruct (decide (a = 0)); destruct (decide (b = 0));
        first [lia|apply HsR; lia|apply HRs; lia].
    + intros i Hi. rewrite En' in Hi. rewrite Ek' by lia.
      destruct (decide (i = 0)).
      * split; [simpl; lia|done].
      * split; [|apply HkR; lia]. specialize (HRs (i - 1)). simpl. lia.
    + intros i Hi. rewrite En' in Hi. rewrite Ek' by lia.
      destruct (decide (i = 0)); [done|]. specialize (HRs (i - 1)). simpl. lia.
    + intros i Hi. rewrite En' in Hi. rewrite Ec' by lia. unfold cbound, kbound. rewrite En'.
      destruct (decide (i = 0)) as [E0|E0].
      * rewrite HB' by (left; apply get_child_kids; lia). rewrite HcL by lia.
        unfold cbound, kbound.
        rewrite (decide_True (P := num_keys L = num_keys L)) by lia.
        rewrite (decide_False (P := num_keys L = 0)) by lia.
        rewrite (decide_False (P := i = num_keys R + 1)) by lia.
        rewrite (Ek' i) by lia. rewrite (decide_True (P := i = 0)) by lia. done.
      * rewrite HB' by (right; apply get_child_kids; lia). rewrite HcR by lia.
        unfold cbound, kbound.
        rewrite (Ek' (i - 1)) by lia.
        destruct (decide (i - 1 = 0)) as [E1|E1];
          destruct (decide (i - 1 = num_keys R)) as [E2|E2];
          try (rewrite (Ek' i) by lia);
          repeat first [rewrite decide_True by lia|rewrite decide_False by lia];
          try done; repeat f_equal; lia.
Qed.

(** the right peer merged into the left one *)
Lemma blk_ok_index_merge G G' (B B' : gmap Z bounds) m L R lo_l hi_r s :
  blk L → blk R → num_keys L + num_keys R ≤ 254 →
  blk_ok G B (S m) L lo_l (Some s) → blk_ok G B (S m) R (Some s) hi_r →
  (∀ c, c ∈ kids L ∨ c ∈ kids R → B' !! c = B !! c) →
  blk_ok G' B' (S m) (blk_merge_index L R s) lo_l hi_r.
Proof.
  intros HbL HbR Hn (HrL & HsL & HkL & HltL & HcL) (HrR & HsR & HkR & HltR & HcR) HB'.
  pose proof (num_keys_range L) as HrgL. pose proof (num_keys_range R) as HrgR.
  destruct (blk_merge_index_spec L R s HbL HbR Hn) as (_ & En & Ek & Ec).
  assert (HLs : ∀ i, 0 ≤ i < num_keys L → get_key L i < s) by (intros i Hi; by apply (HkL i)).
  assert (HRs : ∀ i, 0 ≤ i < num_keys R → s < get_key R i) by (intros i Hi; by apply (HltR i)).
  assert (Hlos : lo_lt lo_l s) by (by apply range_ok_lo_inv).
  assert (HhiR : lt_hi s hi_r) by (by apply range_ok_hi_inv).
  split; [by eapply range_ok_mid; [apply lo_lt_le|]|].
  split; [|split; [|split]].
  - intros a b Ha Hab Hb. rewrite En in Hb. rewrite !Ek by lia.
    destruct (decide (a < num_keys L)); destruct (decide (b < num_keys L));
      destruct (decide (a = num_keys L)); destruct (decide (b = num_keys L));
      try lia; first [apply HsL; lia|apply HLs; lia|apply HRs; lia|apply HsR; lia|idtac].
    specialize (HLs a). specialize (HRs (b - num_keys L - 1)). lia.
  - intros i Hi. rewrite En in Hi. rewrite Ek by lia.
    destruct (decide (i < num_keys L)); [|destruct (decide (i = num_keys L))].
    + split; [apply HkL; lia|]. eapply lt_hi_trans; [exact HhiR|]. specialize (HLs i). lia.
    + split; [by apply lo_lt_le|done].
    + split; [|apply HkR; lia]. eapply lo_le_trans; [apply lo_lt_le; exact Hlos|].
      specialize (HRs (i - num_keys L - 1)). lia.
  - intros i Hi. rewrite En in Hi. rewrite Ek by lia.
    destruct (decide (i < num_keys L)); [|destruct (decide (i = num_keys L))].
    + apply HltL; lia.
    + done.
    + eapply lo_lt_trans; [exact Hlos|]. specialize (HRs (i - num_keys L - 1)). lia.
  - intros i Hi. rewrite En in Hi. rewrite Ec by lia. unfold cbound, kbound. rewrite En.
    destruct (decide (i ≤ num_keys L)).
    + rewrite HB' by (left; apply get_child_kids; lia). rewrite HcL by lia.
      unfold cbound, kbound.
      rewrite (decide_False (P := i = num_keys L + num_keys R + 1)) by lia.
      rewrite (Ek i) by lia.
      destruct (decide (i = 0)) as [E0|E0]; destruct (decide (i = num_keys L)) as [E1|E1];
        try (rewrite (Ek (i - 1)) by lia);
        repeat first [rewrite decide_True by lia|rewrite decide_False by lia]; done.
    + rewrite HB' by (right; apply get_child_kids; lia). rewrite HcR by lia.
      unfold cbound, kbound.
      rewrite (decide_False (P := i = 0)) by lia.
      rewrite (Ek (i - 1)) by lia.
      destruct (decide (i - num_keys L - 1 = 0)) as [E0|E0];
        destruct (decide (i - num_keys L - 1 = num_keys R)) as [E1|E1];
        try (rewrite (Ek i) by lia);
        repeat first [rewrite decide_True by lia|rewrite decide_False by lia];
        try done; f_equal; f_equal; first [done|do 2 f_equal; lia].
Qed.

(** ** The blocks of two leaves that are peers *)

(** the record at [i] taken out *)
Lemma blk_ok_remove_record G B b lo hi i :
  blk b → blk_ok G B O b lo hi → 0 ≤ i < num_keys b →
  blk_ok G B O (blk_remove_record b i) lo hi.
Proof.
  intros Hb (Hr & Hs & Hk & Hn) Hi.
  destruct (blk_remove_record_spec b i Hb Hi) as (_ & En & Ek & _ & Enx).
  unfold without in Ek.
  split; [done|]. split; [|split].
  - intros a c Ha Hac Hc. rewrite En in Hc. rewrite !Ek by lia.
    destruct (decide (a < i)); destruct (decide (c < i)); try lia; apply Hs; lia.
  - intros j Hj. rewrite En in Hj. rewrite Ek by lia.
    destruct (decide (j < i)); apply Hk; lia.
  - by rewrite Enx.
Qed.

(** the left leaf, which has [LHALF - 1] records, takes the first record
    of the right one *)
Lemma blk_ok_leaf_rot_left G (B B' : gmap Z bounds) L R lo_l hi_r s r :
  blk L → blk R → num_keys L = 127 → 1 < num_keys R →
  blk_ok G B O L lo_l (Some s) → blk_ok G B O R (Some s) hi_r →
  next_leaf L = r → G !! r = Some O →
  (∃ x, B' !! r = Some (Some (get_key R 1), x)) →
  (∀ u, hi_r = Some u →
     G !! next_leaf R = Some O ∧ ∃ x, B' !! next_leaf R = Some (Some u, x)) →
  blk_ok G B' O (blk_leaf_push_back L R) lo_l (Some (get_key R 1))
  ∧ blk_ok G B' O (blk_leaf_pop_front R) (Some (get_key R 1)) hi_r.
Proof.
  intros HbL HbR HnL HnR (HrL & HsL & HkL & HxL) (HrR & HsR & HkR & HxR) Hnx Hr HBr HBn.
  pose proof (num_keys_range R) as HrgR.
  destruct (blk_leaf_push_back_spec L R HbL HnL) as (_ & En & Ek & _ & Enx).
  destruct (blk_leaf_pop_front_spec R HbR ltac:(lia)) as (_ & En' & Ek' & _ & Enx').
  assert (HLs : ∀ i, 0 ≤ i < 127 → get_key L i < s).
  { intros i Hi. apply (HkL i). lia. }
  assert (HRs : ∀ i, 0 ≤ i < num_keys R → s ≤ get_key R i).
  { intros i Hi. apply (HkR i). lia. }
  assert (H01 : get_key R 0 < get_key R 1) by (apply HsR; lia).
  assert (Hlos : lo_lt lo_l s) by (by apply range_ok_lo_inv).
  split.
  - split; [apply range_ok_lo; eapply lo_lt_trans; [exact Hlos|]; specialize (HRs 0); lia|].
    split; [|split].
    + intros a b Ha Hab Hb. rewrite En in Hb. rewrite !Ek by lia.
      destruct (decide (a < 127)); destruct (decide (b < 127)); try lia.
      * apply HsL; lia.
      * specialize (HLs a). specialize (HRs 0). lia.
    + intros i Hi. rewrite En in Hi. rewrite Ek by lia.
      destruct (decide (i < 127)).
      * split; [apply HkL; lia|]. specialize (HLs i). specialize (HRs 0). simpl. lia.
      * split; [|simpl; lia]. eapply lo_le_trans; [apply lo_lt_le; exact Hlos|].
        specialize (HRs 0). lia.
    + rewrite Enx, Hnx. done.
  - assert (Hhi1 : lt_hi (get_key R 1) hi_r) by (apply (HkR 1); lia).
    split; [by apply range_ok_hi|].
    split; [|split].
    + intros a b Ha Hab Hb. rewrite En' in Hb. rewrite !Ek' by lia. apply HsR; lia.
    + intros i Hi. rewrite En' in Hi. rewrite Ek' by lia. split; [|apply HkR; lia].
      simpl. destruct (decide (i = 0)) as [->|]; [done|].
      assert (get_key R 1 < get_key R (i + 1)) by (apply HsR; lia). lia.
    + rewrite Enx'. destruct hi_r as [u|]; [|done]. by apply HBn.
Qed.

(** the right leaf takes the last record of the left one *)
Lemma blk_ok_leaf_rot_right G (B B' : gmap Z bounds) L R lo_l hi_r s r :
  blk L → blk R → num_keys R < 255 → 1 < num_keys L →
  blk_ok G B O L lo_l (Some s) → blk_ok G B O R (Some s) hi_r →
  next_leaf L = r → G !! r = Some O →
  (∃ x, B' !! r = Some (Some (get_key L (num_keys L - 1)), x)) →
  (∀ u, hi_r = Some u →
     G !! next_leaf R = Some O ∧ ∃ x, B' !! next_leaf R = Some (Some u, x)) →
  blk_ok G B' O (blk_pop_back L) lo_l (Some (get_key L (num_keys L - 1)))
  ∧ blk_ok G B' O (blk_leaf_push_front R L) (Some (get_key L (num_keys L - 1))) hi_r.
Proof.
  intros HbL HbR HnR HnL (HrL & HsL & HkL & HxL) (HrR & HsR & HkR & HxR) Hnx Hr HBr HBn.
  pose proof (num_keys_range R) as HrgR. pose proof (num_keys_range L) as HrgL.
  destruct (blk_pop_back_spec L HbL ltac:(lia)) as (_ & En & _).
  destruct (blk_pop_back_index L HbL ltac:(lia)) as (Ek & _ & _ & Enx).
  destruct (blk_leaf_push_front_spec R L HbR HnR) as (_ & En' & Ek' & _ & Enx').
  assert (HLs : ∀ i, 0 ≤ i < num_keys L → get_key L i < s).
  { intros i Hi. apply (HkL i). lia. }
  assert (HRs : ∀ i, 0 ≤ i < num_keys R → s ≤ get_key R i).
  { intros i Hi. apply (HkR i). lia. }
  assert (Hhis : lt_hi s hi_r) by (by apply range_ok_hi_inv).
  split.
  - split.
    { apply range_ok_lo. eapply lo_le_lt; [apply (HkL 0); lia|]. apply HsL; lia. }
    split; [|split].
    + intros a b Ha Hab Hb. rewrite En in Hb. rewrite !Ek by lia. apply HsL; lia.
    + intros i Hi. rewrite En in Hi. rewrite Ek by lia. split; [apply HkL; lia|].
      simpl. apply HsL; lia.
    + rewrite Enx, Hnx. done.
  - split.
    { apply range_ok_hi. eapply lt_hi_trans; [exact Hhis|].
      specialize (HLs (num_keys L - 1)). lia. }
    split; [|split].
    + intros a b Ha Hab Hb. rewrite En' in Hb. rewrite !Ek' by lia.
      destruct (decide (a = 0)); destruct (decide (b = 0)); try lia.
      * specialize (HLs (num_keys L - 1)). specialize (HRs (b - 1)). lia.
      * apply HsR; lia.
    + intros i Hi. rewrite En' in Hi. rewrite Ek' by lia.
      destruct (decide (i = 0)).
      * split; [simpl; lia|]. eapply lt_hi_trans; [exact Hhis|].
        specialize (HLs (num_keys L - 1)). lia.
      * split; [|apply HkR; lia]. simpl.
        specialize (HLs (num_keys L - 1)). specialize (HRs (i - 1)). lia.
    + rewrite Enx'. destruct hi_r as [u|]; [|done]. by apply HBn.
Qed.

(** the right leaf merged into the left one *)
Lemma blk_ok_leaf_merge G G' (B B' : gmap Z bounds) L R lo_l hi_r s :
  blk L → blk R → num_keys L + num_keys R ≤ 255 →
  blk_ok G B O L lo_l (Some s) → blk_ok G B O R (Some s) hi_r →
  (∀ u, hi_r = Some u →
     G' !! next_leaf R = Some O ∧ ∃ x, B' !! next_leaf R = Some (Some u, x)) →
  blk_ok G' B' O (blk_merge_leaves L R) lo_l hi_r.
Proof.
  intros HbL HbR Hn (HrL & HsL & HkL & HxL) (HrR & HsR & HkR & HxR) HBn.
  pose proof (num_keys_range R) as HrgR. pose proof (num_keys_range L) as HrgL.
  destruct (blk_merge_leaves_spec L R HbL HbR Hn) as (_ & En & Ek & _ & Enx).
  assert (HLs : ∀ i, 0 ≤ i < num_keys L → get_key L i < s).
  { intros i Hi. apply (HkL i). lia. }
  assert (HRs : ∀ i, 0 ≤ i < num_keys R → s ≤ get_key R i).
  { intros i Hi. apply (HkR i). lia. }
  assert (Hlos : lo_lt lo_l s) by (by apply range_ok_lo_inv).
  assert (Hhis : lt_hi s hi_r) by (by apply range_ok_hi_inv).
  split; [by eapply range_ok_mid; [apply lo_lt_le|]|].
  split; [|split].
  - intros a b Ha Hab Hb. rewrite En in Hb. rewrite !Ek by lia.
    destruct (decide (a < num_keys L)); destruct (decide (b < num_keys L)); try lia.
    + apply HsL; lia.
    + specialize (HLs a). specialize (HRs (b - num_keys L)). lia.
    + apply HsR; lia.
  - intros i Hi. rewrite En in Hi. rewrite Ek by lia.
    destruct (decide (i < num_keys L)).
    + split; [apply HkL; lia|]. eapply lt_hi_trans; [exact Hhis|]. specialize (HLs i). lia.
    + split; [|apply HkR; lia]. eapply lo_le_trans; [apply lo_lt_le; exact Hlos|].
      specialize (HRs (i - num_keys L)). lia.
  - rewrite Enx. destruct hi_r as [u|]; [|done]. by apply HBn.
Qed.

(** ** The children of the peers *)

Lemma kids_set_key P j s : blk P → 0 ≤ j < 255 → kids (blk_set_key P j s) = kids P.
Proof.
  intros Hblk Hj. destruct (blk_set_key_spec P j s Hblk Hj) as (_ & En & _ & Ec).
  unfold kids. rewrite En. apply list_fmap_ext. intros i x Hx.
  apply lookup_seqZ in Hx as [-> Hx]. apply Ec.
  pose proof (num_keys_range P). lia.
Qed.

Lemma kids_index_remove P pos :
  blk P → 1 ≤ pos ≤ num_keys P → NoDup (kids P) →
  NoDup (kids (blk_index_remove P pos (num_keys P)))
  ∧ ∀ c, c ∈ kids (blk_index_remove P pos (num_keys P))
         ↔ c ∈ kids P ∧ c ≠ get_child P pos.
Proof.
  intros Hblk Hpos Hnd. pose proof (num_keys_range P) as Hrg.
  destruct (blk_index_remove_spec P pos Hblk Hpos) as (_ & En & _ & Ec).
  unfold without in Ec.
  split.
  - apply NoDup_kids. rewrite En. intros i j Hi Hj. rewrite !Ec by lia.
    destruct (decide (i < pos)); destruct (decide (j < pos)); intros Heq;
      apply (kids_inj P) in Heq; try done; lia.
  - intros c. rewrite !elem_of_kids. rewrite En. split.
    + intros (i & Hi & ->). rewrite Ec by lia.
      destruct (decide (i < pos)).
      * split; [exists i; split; [lia|done]|]. intros Heq.
        apply (kids_inj P) in Heq; try done; lia.
      * split; [exists (i + 1); split; [lia|done]|]. intros Heq.
        apply (kids_inj P) in Heq; try done; lia.
    + intros [(i & Hi & ->) Hne]. destruct (decide (i < pos)).
      * exists i. split; [lia|]. rewrite Ec by lia. by rewrite decide_True by lia.
      * assert (i ≠ pos) by (intros ->; done).
        exists (i - 1). split; [lia|]. rewrite Ec by lia. rewrite decide_False by lia.
        f_equal. lia.
Qed.

Lemma kids_index_rot_left L R s :
  blk L → blk R → num_keys L < 255 → 0 < num_keys R →
  NoDup (kids L) → NoDup (kids R) → (∀ c, c ∈ kids L → c ∈ kids R → False) →
  NoDup (kids (blk_index_push_back L s (get_child R 0)))
  ∧ NoDup (kids (blk_index_pop_front R))
  ∧ (∀ c, c ∈ kids (blk_index_push_back L s (get_child R 0)) →
          c ∈ kids (blk_index_pop_front R) → False)
  ∧ (∀ c, c ∈ kids (blk_index_push_back L s (get_child R 0))
          ↔ c ∈ kids L ∨ c = get_child R 0)
  ∧ (∀ c, c ∈ kids (blk_index_pop_front R) ↔ c ∈ kids R ∧ c ≠ get_child R 0).
Proof.
  intros HbL HbR HnL HnR HndL HndR Hdis.
  pose proof (num_keys_range L) as HrgL. pose proof (num_keys_range R) as HrgR.
  destruct (blk_index_push_back_spec L s (get_child R 0) HbL HnL) as (_ & En & _ & Ec).
  destruct (blk_index_pop_front_spec R HbR HnR) as (_ & En' & _ & Ec').
  assert (H0 : get_child R 0 ∈ kids R) by (apply get_child_kids; lia).
  assert (HL' : ∀ c, c ∈ kids (blk_index_push_back L s (get_child R 0))
                  ↔ c ∈ kids L ∨ c = get_child R 0).
  { intros c. rewrite !elem_of_kids. rewrite En. split.
    - intros (i & Hi & ->). rewrite Ec by lia.
      destruct (decide (i ≤ num_keys L)); [left; exists i; split; [lia|done]|by right].
    - intros [(i & Hi & ->)| ->].
      + exists i. split; [lia|]. rewrite Ec by lia. by rewrite decide_True by lia.
      + exists (num_keys L + 1). split; [lia|]. rewrite Ec by lia.
        by rewrite decide_False by lia. }
  assert (HR' : ∀ c, c ∈ kids (blk_index_pop_front R) ↔ c ∈ kids R ∧ c ≠ get_child R 0).
  { intros c. rewrite !elem_of_kids. rewrite En'. split.
    - intros (i & Hi & ->). rewrite Ec' by lia.
      split; [exists (i + 1); split; [lia|done]|]. intros Heq.
      apply (kids_inj R) in Heq; try done; lia.
    - intros [(i & Hi & ->) Hne]. assert (i ≠ 0) by (intros ->; done).
      exists (i - 1). split; [lia|]. rewrite Ec' by lia. f_equal. lia. }
  split; [|split; [|split; [|split; [done|done]]]].
  - apply NoDup_kids. rewrite En. intros i j Hi Hj. rewrite !Ec by lia.
    destruct (decide (i ≤ num_keys L)); destruct (decide (j ≤ num_keys L)); intros Heq.
    + apply (kids_inj L) in Heq; try done; lia.
    + exfalso. apply (Hdis (get_child R 0)); [|done]. rewrite <- Heq.
      apply get_child_kids. lia.
    + exfalso. apply (Hdis (get_child R 0)); [|done]. rewrite Heq.
      apply get_child_kids. lia.
    + lia.
  - apply NoDup_kids. rewrite En'. intros i j Hi Hj. rewrite !Ec' by lia. intros Heq.
    apply (kids_inj R) in Heq; try done; lia.
  - intros c Hc1 Hc2. apply HL' in Hc1. apply HR' in Hc2 as [Hc2 Hne].
    destruct Hc1 as [Hc1|Hc1]; [by apply (Hdis c)|done].
Qed.

Lemma kids_pop_back L :
  blk L → 0 < num_keys L → NoDup (kids L) →
  NoDup (kids (blk_pop_back L))
  ∧ ∀ c, c ∈ kids (blk_pop_back L) ↔ c ∈ kids L ∧ c ≠ get_child L (num_keys L).
Proof.
  intros HbL HnL Hnd. pose proof (num_keys_range L) as HrgL.
  destruct (blk_pop_back_spec L HbL HnL) as (_ & En & _).
  destruct (blk_pop_back_index L HbL HnL) as (_ & Ec & _).
  split.
  - apply NoDup_kids. rewrite En. intros i j Hi Hj. rewrite !Ec by lia. intros Heq.
    apply (kids_inj L) in Heq; try done; lia.
  - intros c. rewrite !elem_of_kids. rewrite En. split.
    + intros (i & Hi & ->). rewrite Ec by lia.
      split; [exists i; split; [lia|done]|]. intros Heq.
      apply (kids_inj L) in Heq; try done; lia.
    + intros [(i & Hi & ->) Hne]. assert (i ≠ num_keys L) by (intros ->; done).
      exists i. split; [lia|]. rewrite Ec by lia. done.
Qed.

Lemma kids_index_push_front R s c0 :
  blk R → num_keys R < 255 → NoDup (kids R) → c0 ∉ kids R →
  NoDup (kids (blk_index_push_front R s c0))
  ∧ ∀ c, c ∈ kids (blk_index_push_front R s c0) ↔ c ∈ kids R ∨ c = c0.
Proof.
  intros HbR HnR Hnd Hc0. pose proof (num_keys_range R) as HrgR.
  destruct (blk_index_push_front_spec R s c0 HbR HnR) as (_ & En & _ & Ec).
  split.
  - apply NoDup_kids. rewrite En. intros i j Hi Hj. rewrite !Ec by lia.
    destruct (decide (i = 0)); destruct (decide (j = 0)); intros Heq.
    + lia.
    + destruct Hc0. rewrite Heq. apply get_child_kids. lia.
    + destruct Hc0. rewrite <- Heq. apply get_child_kids. lia.
    + apply (kids_inj R) in Heq; try done; lia.
  - intros c. rewrite !elem_of_kids. rewrite En. split.
    + intros (i & Hi & ->). rewrite Ec by lia.
      destruct (decide (i = 0)); [by right|left]. exists (i - 1). split; [lia|done].
    + intros [(i & Hi & ->)| ->].
      * exists (i + 1). split; [lia|]. rewrite Ec by lia. rewrite decide_False by lia.
        f_equal. lia.
      * exists 0. split; [lia|]. rewrite Ec by lia. done.
Qed.

Lemma kids_merge_index L R s :
  blk L → blk R → num_keys L + num_keys R ≤ 254 →
  NoDup (kids L) → NoDup (kids R) → (∀ c, c ∈ kids L → c ∈ kids R → False) →
  NoDup (kids (blk_merge_index L R s))
  ∧ ∀ c, c ∈ kids (blk_merge_index L R s) ↔ c ∈ kids L ∨ c ∈ kids R.
Proof.
  intros HbL HbR Hn HndL HndR Hdis.
  pose proof (num_keys_range L) as HrgL. pose proof (num_keys_range R) as HrgR.
  destruct (blk_merge_index_spec L R s HbL HbR Hn) as (_ & En & _ & Ec).
  split.
  - apply NoDup_kids. rewrite En. intros i j Hi Hj. rewrite !Ec by lia.
    destruct (decide (i ≤ num_keys L)); destruct (decide (j ≤ num_keys L)); intros Heq.
    + apply (kids_inj L) in Heq; try done; lia.
    + exfalso. apply (Hdis (get_child L i)); [apply get_child_kids; lia|].
      rewrite Heq. apply get_child_kids. lia.
    + exfalso. apply (Hdis (get_child L j)); [apply get_child_kids; lia|].
      rewrite <- Heq. apply get_child_kids. lia.
    + apply (kids_inj R) in Heq; try done; lia.
  - intros c. rewrite !elem_of_kids. rewrite En. split.
    + intros (i & Hi & ->). rewrite Ec by lia.
      destruct (decide (i ≤ num_keys L)); [left; exists i; split; [lia|done]|right].
      exists (i - num_keys L - 1). split; [lia|done].
    + intros [(i & Hi & ->)|(i & Hi & ->)].
      * exists i. split; [lia|]. rewrite Ec by lia. by rewrite decide_True by lia.
      * exists (i + num_keys L + 1). split; [lia|]. rewrite Ec by lia.
        rewrite decide_False by lia. f_equal. lia.
Qed.

(** ** The structure after the peers have changed *)

(** two peers share out their children anew *)
Lemma str_regroup h rt dep G l r m Lb Rb L' R' :
  tree_str h rt dep G → l ≠ r →
  G !! l = Some (S m) → G !! r = Some (S m) →
  h !! l = Some Lb → h !! r = Some Rb → blk L' → blk R' →
  NoDup (kids L') → NoDup (kids R') →
  (∀ c, c ∈ kids L' → c ∈ kids R' → False) →
  (∀ c, c ∈ kids L' ∨ c ∈ kids R' → c ∈ kids Lb ∨ c ∈ kids Rb) →
  tree_str (<[r := R']> (<[l := L']> h)) rt dep G.
Proof.
  intros HT Hlr Hl Hr HLb HRb HbL HbR HndL HndR Hdis Hcov.
  assert (Hold : ∀ c, c ∈ kids Lb ∨ c ∈ kids Rb → G !! c = Some m).
  { intros c [Hc|Hc].
    - exact (ts_kids _ _ _ _ HT l m Lb c Hl HLb Hc).
    - exact (ts_kids _ _ _ _ HT r m Rb c Hr HRb Hc). }
  assert (Hoth : ∀ a na ba c, a ≠ l → a ≠ r → G !! a = Some (S na) → h !! a = Some ba →
            c ∈ kids ba → c ∈ kids Lb ∨ c ∈ kids Rb → False).
  { intros a na ba c Hal Har Ha Hba Hc [Hc'|Hc'].
    - apply Hal. exact (ts_disj _ _ _ _ HT a l na m ba Lb c Ha Hl Hba HLb Hc Hc').
    - apply Har. exact (ts_disj _ _ _ _ HT a r na m ba Rb c Ha Hr Hba HRb Hc Hc'). }
  assert (Hlk : ∀ a b, <[r:=R']> (<[l:=L']> h) !! a = Some b →
            (a = r ∧ b = R') ∨ (a = l ∧ b = L') ∨ (a ≠ l ∧ a ≠ r ∧ h !! a = Some b)).
  { intros a b Hb. destruct (decide (a = r)) as [->|Har].
    - rewrite lookup_insert_eq in Hb. left. by simplify_eq.
    - rewrite lookup_insert_ne in Hb by done. destruct (decide (a = l)) as [->|Hal].
      + rewrite lookup_insert_eq in Hb. right; left. by simplify_eq.
      + rewrite lookup_insert_ne in Hb by done. by right; right. }
  split.
  - apply HT.
  - apply HT.
  - intros a na Ha. destruct (decide (a = r)) as [->|Har].
    + rewrite lookup_insert_eq. eauto.
    + rewrite lookup_insert_ne by done. destruct (decide (a = l)) as [->|Hal].
      * rewrite lookup_insert_eq. eauto.
      * rewrite lookup_insert_ne by done. by eapply ts_blk.
  - intros a na b c Ha Hb Hc.
    destruct (Hlk a b Hb) as [[-> ->]|[[-> ->]|(Hal & Har & Hb')]].
    + assert (na = m) as -> by congruence. apply Hold, Hcov. by right.
    + assert (na = m) as -> by congruence. apply Hold, Hcov. by left.
    + exact (ts_kids _ _ _ _ HT a na b c Ha Hb' Hc).
  - intros a na b Ha Hb.
    destruct (Hlk a b Hb) as [[-> ->]|[[-> ->]|(Hal & Har & Hb')]]; [done|done|].
    by eapply ts_nodup.
  - intros a a' na na' b b' c Ha Ha' Hb Hb' Hc Hc'.
    destruct (Hlk a b Hb) as [[-> ->]|[[-> ->]|(Hal & Har & Hb1)]];
      destruct (Hlk a' b' Hb') as [[-> ->]|[[-> ->]|(Hal' & Har' & Hb1')]];
      try done.
    + exfalso. by apply (Hdis c).
    + exfalso. apply (Hoth a' na' b' c Hal' Har' Ha' Hb1' Hc'), Hcov. by right.
    + exfalso. by apply (Hdis c).
    + exfalso. apply (Hoth a' na' b' c Hal' Har' Ha' Hb1' Hc'), Hcov. by left.
    + exfalso. apply (Hoth a na b c Hal Har Ha Hb1 Hc), Hcov. by right.
    + exfalso. apply (Hoth a na b c Hal Har Ha Hb1 Hc), Hcov. by left.
    + exact (ts_disj _ _ _ _ HT a a' na na' b b' c Ha Ha' Hb1 Hb1' Hc Hc').
Qed.

(** the right one of two peers is merged into the left one, and their
    parent gives it up *)
Lemma str_merge h rt dep G p n P l r Lb Rb L' P' :
  tree_str h rt dep G → l ≠ r →
  G !! p = Some (S n) → h !! p = Some P → l ∈ kids P → r ∈ kids P →
  h !! l = Some Lb → h !! r = Some Rb → blk L' → blk P' →
  NoDup (kids P') → (∀ c, c ∈ kids P' → c ∈ kids P ∧ c ≠ r) →
  (n ≠ O → NoDup (kids L') ∧ ∀ c, c ∈ kids L' → c ∈ kids Lb ∨ c ∈ kids Rb) →
  tree_str (<[p := P']> (<[l := L']> (base.delete r h))) rt dep (base.delete r G).
Proof.
  intros HT Hlr Hp HP Hlin Hrin HLb HRb HbL HbP HndP HkP HkL.
  pose proof (ts_kids _ _ _ _ HT p n P l Hp HP Hlin) as Hl.
  pose proof (ts_kids _ _ _ _ HT p n P r Hp HP Hrin) as Hr.
  assert (Hlp : l ≠ p) by (intros ->; simplify_eq; lia).
  assert (Hrp : r ≠ p) by (intros ->; simplify_eq; lia).
  assert (Hrrt : r ≠ rt).
  { intros ->. by apply (str_root_orphan _ _ _ _ HT p n P). }
  (* the parent gives up [r] *)
  assert (HT1 : tree_str (<[p := P']> h) rt dep G).
  { eapply str_rekid; [done..|]. intros c Hc. destruct (HkP c Hc) as [Hc' _].
    split; [by eapply (ts_kids _ _ _ _ HT)|by left]. }
  assert (Hor : orphan (<[p := P']> h) G r).
  { eapply orphan_dropped; [done..|]. intros Hc. by destruct (HkP r Hc). }
  (* [r] leaves the tree *)
  pose proof (str_drop _ _ _ _ r HT1 Hor Hrrt) as HT2.
  assert (Hh : <[p:=P']> (<[l:=L']> (base.delete r h))
             = <[l:=L']> (base.delete r (<[p:=P']> h))).
  { rewrite delete_insert_ne by done. by rewrite insert_insert_ne. }
  rewrite Hh.
  assert (HLb2 : base.delete r (<[p:=P']> h) !! l = Some Lb).
  { rewrite lookup_delete_ne by done. by rewrite lookup_insert_ne. }
  assert (Hl2 : base.delete r G !! l = Some n) by (by rewrite lookup_delete_ne).
  destruct n as [|m].
  - eapply str_update; [done..|]. done.
  - destruct (HkL ltac:(done)) as [HndL HcL].
    eapply str_rekid; [done..|]. intros c Hc. destruct (HcL c Hc) as [Hc'|Hc'].
    + pose proof (ts_kids _ _ _ _ HT l m Lb c Hl HLb Hc') as HGc.
      split; [|by left]. rewrite lookup_delete_ne; [done|]. intros ->. simplify_eq. lia.
    + pose proof (ts_kids _ _ _ _ HT r m Rb c Hr HRb Hc') as HGc.
      split; [rewrite lookup_delete_ne; [done|]; intros ->; simplify_eq; lia|].
      right. eapply (orphan_drop_kids _ _ _ _ r m Rb); [exact HT1|done| |done].
      by rewrite lookup_insert_ne.
Qed.

(** ** A node that has too few keys, and its peer *)

Section underflow.
Context (h : gmap Z block) (rt : Z) (dep : nat) (G : gmap Z nat) (B : gmap Z bounds).
Context (first p : Z) (n : nat) (P : block) (lo hi : option Z) (j x : Z).
Hypothesis HT : tree_str h rt dep G.
Hypothesis HM : mins_but [x] h rt dep G.
Hypothesis HO : ord_inv h rt G B first.
Hypothesis Hp : G !! p = Some (S n).
Hypothesis HP : h !! p = Some P.
Hypothesis HBp : B !! p = Some (lo, hi).
Hypothesis Hj : 0 ≤ j < num_keys P.
Hypothesis Hx : x = get_child P j ∨ x = get_child P (j + 1).

(** a key has moved from the peer to the node, which makes the tree
    well-formed again *)
Lemma rotate_ok L' R' s' :
  blk L' → blk R' →
  blk_ok G (<[get_child P j := ((cbound P lo hi j).1, Some s')]>
              (<[get_child P (j + 1) := (Some s', (cbound P lo hi (j + 1)).2)]> B))
    n L' (cbound P lo hi j).1 (Some s') →
  blk_ok G (<[get_child P j := ((cbound P lo hi j).1, Some s')]>
              (<[get_child P (j + 1) := (Some s', (cbound P lo hi (j + 1)).2)]> B))
    n R' (Some s') (cbound P lo hi (j + 1)).2 →
  (n ≠ O → NoDup (kids L') ∧ NoDup (kids R')
     ∧ (∀ c, c ∈ kids L' → c ∈ kids R' → False)
     ∧ ∀ Lb Rb c, h !! get_child P j = Some Lb → h !! get_child P (j + 1) = Some Rb →
         (c ∈ kids L' ∨ c ∈ kids R' ↔ c ∈ kids Lb ∨ c ∈ kids Rb)) →
  (n = O → ∀ z bz, G !! z = Some O → h !! z = Some bz → z ≠ get_child P j →
     next_leaf bz ≠ get_child P (j + 1)) →
  min_keys n ≤ num_keys L' → min_keys n ≤ num_keys R' →
  tree_inv (<[p := blk_set_key P j s']>
              (<[get_child P (j + 1) := R']> (<[get_child P j := L']> h)))
    rt dep G None
  ∧ ord_inv (<[p := blk_set_key P j s']>
               (<[get_child P (j + 1) := R']> (<[get_child P j := L']> h)))
      rt G
      (<[get_child P j := ((cbound P lo hi j).1, Some s')]>
         (<[get_child P (j + 1) := (Some s', (cbound P lo hi (j + 1)).2)]> B))
      first.
Proof.
  intros HbL HbR HokL HokR Hk Huniq HnL HnR.
  destruct (peers_facts h rt dep G B first p n P lo hi j HT HO Hp HP HBp Hj)
    as (Hblk & HokP & Hl & Hr & Hlr & Hlp & Hrp & Hlrt & Hrrt & HBl & HBr).
  set (l := get_child P j) in *. set (r := get_child P (j + 1)) in *.
  pose proof (num_keys_range P) as HrgP.
  destruct (ts_blk _ _ _ _ HT l _ Hl) as (Lb & HLb & _).
  destruct (ts_blk _ _ _ _ HT r _ Hr) as (Rb & HRb & _).
  destruct (blk_set_key_spec P j s' Hblk ltac:(lia)) as (HbP' & En & _ & _).
  split; [|apply (ord_rotate h rt dep G B first p n P lo hi j); try done].
  - apply tree_inv_str. split.
    + eapply (str_update _ _ _ _ p (S n) P); [|done| |done|].
      * destruct n as [|m].
        -- eapply (str_update _ _ _ _ r O Rb); [|done| |done|done].
           ++ eapply (str_update _ _ _ _ l O Lb); [done|done|done|done|done].
           ++ by rewrite lookup_insert_ne.
        -- destruct (Hk ltac:(done)) as (HndL & HndR & Hdis & Hcov).
           eapply (str_regroup _ _ _ _ l r m Lb Rb); try done.
           intros c Hc. by apply (Hcov Lb Rb c).
      * by rewrite !lookup_insert_ne.
      * intros _. apply kids_set_key; [done|lia].
    + assert (HminP : (∀ m, G !! p = Some m → p ≠ rt → min_keys m ≤ num_keys P)
                      ∧ (p = rt → dep ≠ O → 1 ≤ num_keys P)).
      { destruct HM as [H1 H2].
        assert (p ∉ [x]).
        { intros Hin. apply list_elem_of_singleton in Hin. destruct Hx; congruence. }
        split.
        - intros m Hm Hne. by eapply H1.
        - intros Heq Hd. apply H2; [by rewrite <- Heq|done|by rewrite <- Heq]. }
      eapply (mins_but_insert [] []); [eapply (mins_but_insert [r] []);
        [eapply (mins_but_insert [x] [r]); [exact HM| |]| |]| |].
      * intros y Hy Hyl Hin. apply list_elem_of_singleton in Hin as ->.
        destruct Hx as [->| ->]; [done|]. apply Hy. by apply list_elem_of_singleton.
      * intros _. split; [|by intros ->].
        intros m Hm _. by assert (m = n) as -> by congruence.
      * intros y _ Hyr Hin. by apply list_elem_of_singleton in Hin.
      * intros _. split; [|by intros ->].
        intros m Hm _. by assert (m = n) as -> by congruence.
      * done.
      * intros _. rewrite En. done.
  - intros Hn Lb0 Rb0 c HLb0 HRb0 Hc.
    destruct (Hk Hn) as (_ & _ & _ & Hcov). by apply (Hcov Lb0 Rb0 c).
Qed.

(** the node and its peer have been merged, and their parent is to give
    up the right one of the two *)
Lemma merge_ok L' :
  blk L' →
  blk_ok (base.delete (get_child P (j + 1)) G)
    (<[get_child P j := ((cbound P lo hi j).1, (cbound P lo hi (j + 1)).2)]> B)
    n L' (cbound P lo hi j).1 (cbound P lo hi (j + 1)).2 →
  (n ≠ O → NoDup (kids L')
     ∧ ∀ Lb Rb c, h !! get_child P j = Some Lb → h !! get_child P (j + 1) = Some Rb →
         (c ∈ kids L' ↔ c ∈ kids Lb ∨ c ∈ kids Rb)) →
  (n = O → ∀ z bz, G !! z = Some O → h !! z = Some bz → z ≠ get_child P j →
     next_leaf bz ≠ get_child P (j + 1)) →
  min_keys n ≤ num_keys L' →
  tree_str (<[p := blk_index_remove P (j + 1) (num_keys P)]>
              (<[get_child P j := L']> (base.delete (get_child P (j + 1)) h)))
    rt dep (base.delete (get_child P (j + 1)) G)
  ∧ mins_but [p]
      (<[p := blk_index_remove P (j + 1) (num_keys P)]>
         (<[get_child P j := L']> (base.delete (get_child P (j + 1)) h)))
      rt dep (base.delete (get_child P (j + 1)) G)
  ∧ ord_inv (<[p := blk_index_remove P (j + 1) (num_keys P)]>
               (<[get_child P j := L']> (base.delete (get_child P (j + 1)) h)))
      rt (base.delete (get_child P (j + 1)) G)
      (<[get_child P j := ((cbound P lo hi j).1, (cbound P lo hi (j + 1)).2)]> B)
      first.
Proof.
  intros HbL HokL Hk Huniq HnL.
  destruct (peers_facts h rt dep G B first p n P lo hi j HT HO Hp HP HBp Hj)
    as (Hblk & HokP & Hl & Hr & Hlr & Hlp & Hrp & Hlrt & Hrrt & HBl & HBr).
  set (l := get_child P j) in *. set (r := get_child P (j + 1)) in *.
  pose proof (num_keys_range P) as HrgP.
  destruct (ts_blk _ _ _ _ HT l _ Hl) as (Lb & HLb & _).
  destruct (ts_blk _ _ _ _ HT r _ Hr) as (Rb & HRb & _).
  destruct (blk_index_remove_spec P (j + 1) Hblk ltac:(lia)) as (HbP' & _).
  destruct (kids_index_remove P (j + 1) Hblk ltac:(lia)
              (ts_nodup _ _ _ _ HT p n P Hp HP)) as (HndP' & HkP').
  split; [|split; [|apply (ord_merge h rt dep G B first p n P lo hi j); try done]].
  - eapply (str_merge _ _ _ _ p n P l r Lb Rb); try done.
    + apply get_child_kids. lia.
    + apply get_child_kids. lia.
    + intros c Hc. by apply HkP'.
    + intros Hn. destruct (Hk Hn) as (HndL & Hcov). split; [done|].
      intros c Hc. by apply (Hcov Lb Rb c).
  - eapply (mins_but_insert [] [p]); [eapply (mins_but_insert [l] []);
        [apply (mins_but_drop [x] [l]); [exact HM|done|]| |]| |].
    + intros y Hy Hyr Hin. apply list_elem_of_singleton in Hin as ->.
      destruct Hx as [->| ->]; [|done]. apply Hy. by apply list_elem_of_singleton.
    + intros y _ Hyl Hin. by apply list_elem_of_singleton in Hin.
    + intros _. split; [|by intros ->].
      intros m Hm _. apply lookup_delete_Some in Hm as [_ Hm].
      by assert (m = n) as -> by congruence.
    + intros y Hy _. apply not_elem_of_nil.
    + intros Hin. destruct Hin. by apply list_elem_of_singleton.
  - intros Hn Lb0 Rb0 c HLb0 HRb0 Hc.
    destruct (Hk Hn) as (_ & Hcov). by apply (Hcov Lb0 Rb0 c).
Qed.
End underflow.

(** * [delete] keeps the tree well-formed and takes one record out *)

(** ** The root gives way to its only child *)

(** only the root is as high as the tree *)
Lemma top_is_root h rt dep G B first a :
  tree_str h rt dep G → ord_inv h rt G B first → G !! a = Some dep → a = rt.
Proof.
  intros HT HO Ha.
  destruct (oi_parent _ _ _ _ _ HO a _ Ha) as [?|(q & bq & Hq & _)]; [done|].
  pose proof (ts_top _ _ _ _ HT q _ Hq). lia.
Qed.

Lemma new_root_ok h rt d G B first b :
  tree_str h rt (S d) G → mins_but [rt] h rt (S d) G → ord_inv h rt G B first →
  h !! rt = Some b → num_keys b = 0 →
  tree_inv (base.delete rt h) (get_child b 0) d (base.delete rt G) None
  ∧ ord_inv (base.delete rt h) (get_child b 0) (base.delete rt G) B first.
Proof.
  intros HT [HM1 HM2] HO Hb Hnk.
  pose proof (ts_root _ _ _ _ HT) as Hrt.
  assert (Hc : G !! get_child b 0 = Some d).
  { eapply str_child; [done..|lia]. }
  assert (Hcrt : get_child b 0 ≠ rt).
  { intros Heq. rewrite Heq in Hc. simplify_eq. lia. }
  assert (Hkids : ∀ c, c ∈ kids b → c = get_child b 0).
  { intros c Hin. apply elem_of_kids in Hin as (i & Hi & ->). f_equal. lia. }
  split.
  - apply tree_inv_str. split.
    + eapply str_new_root; [done|done| |lia].
      intros a Ha. by eapply top_is_root.
    + split.
      * intros a n ba Ha Hba Hne _.
        apply lookup_delete_Some in Ha as [Har Ha].
        apply lookup_delete_Some in Hba as [_ Hba].
        eapply HM1; [done..|]. intros Hin. by apply list_elem_of_singleton in Hin.
      * intros bc Hbc Hd _. apply lookup_delete_Some in Hbc as [_ Hbc].
        assert (min_keys d ≤ num_keys bc).
        { eapply HM1; [done..|]. intros Hin. by apply list_elem_of_singleton in Hin. }
        pose proof (min_keys_pos d). lia.
  - destruct (oi_node _ _ _ _ _ HO rt _ Hrt) as (lo & hi & b0 & HB0 & Hb0 & Hok).
    assert (b0 = b) as -> by congruence.
    assert (lo = None ∧ hi = None) as [-> ->].
    { pose proof (oi_root _ _ _ _ _ HO). split; congruence. }
    destruct Hok as (_ & _ & _ & _ & Hkb).
    split.
    + rewrite (Hkb 0) by lia. unfold cbound, kbound. rewrite Hnk. done.
    + intros a n Ha. apply lookup_delete_Some in Ha as [Har Ha].
      destruct (oi_node _ _ _ _ _ HO a _ Ha) as (loa & hia & ba & HBa & Hba & Hoka).
      exists loa, hia, ba. rewrite lookup_delete_ne by done.
      split; [done|]. split; [done|].
      eapply blk_ok_stable; [exact Hoka|done| |eauto].
      intros -> Hg. rewrite lookup_delete_ne; [done|]. intros Heq.
      rewrite <- Heq in Hg. simplify_eq.
    + intros a n Ha. apply lookup_delete_Some in Ha as [Har Ha].
      destruct (oi_parent _ _ _ _ _ HO a _ Ha) as [?|(q & bq & Hq & Hbq & Hin)]; [done|].
      destruct (decide (q = rt)) as [->|Hq'].
      * left. assert (bq = b) as -> by congruence. by apply Hkids.
      * right. exists q, bq. by rewrite !lookup_delete_ne.
    + destruct (oi_first _ _ _ _ _ HO) as [Hf HBf]. split; [|done].
      rewrite lookup_delete_ne; [done|]. intros Heq. rewrite Heq in Hrt. simplify_eq.
Qed.

(** ** The chain of the leaves *)

(** the left one of two leaves that are peers is followed by the right
    one, and by no other leaf *)
Lemma leaf_chain_peers h rt dep G B first p P j Lb :
  tree_inv h rt dep G None → ord_inv h rt G B first →
  (∀ a b, h !! a = Some b → a ≠ 0) →
  G !! p = Some 1%nat → h !! p = Some P → 0 ≤ j < num_keys P →
  h !! get_child P j = Some Lb →
  next_leaf Lb = get_child P (j + 1)
  ∧ ∀ z bz, G !! z = Some O → h !! z = Some bz → z ≠ get_child P j →
      next_leaf bz ≠ get_child P (j + 1).
Proof.
  intros HT HO Hnz Hp HP Hj HLb.
  pose proof (proj1 (proj1 (tree_inv_str _ _ _ _) HT)) as HS.
  destruct (oi_node _ _ _ _ _ HO p _ Hp) as (lo & hi & P0 & HBp & HP0 & _).
  assert (P0 = P) as -> by congruence.
  destruct (peers_facts h rt dep G B first p O P lo hi j HS HO Hp HP HBp Hj)
    as (Hblk & HokP & Hl & Hr & Hlr & Hlp & Hrp & Hlrt & Hrrt & HBl & HBr).
  set (l := get_child P j) in *. set (r := get_child P (j + 1)) in *.
  set (s := get_key P j) in *.
  assert (Hdep : ∀ a, G !! a = Some O → (0 + dep = dep)%nat) by done.
  destruct (oi_node _ _ _ _ _ HO l _ Hl) as (lol & hil & Lb0 & HBl0 & HLb0 & HokL).
  assert (Lb0 = Lb) as -> by congruence.
  assert (lol = (cbound P lo hi j).1 ∧ hil = Some s) as [-> ->] by (split; congruence).
  destruct (oi_node _ _ _ _ _ HO r _ Hr) as (lor & hir & Rb & HBr0 & HRb & HokR).
  assert (lor = Some s ∧ hir = (cbound P lo hi (j + 1)).2) as [-> ->]
    by (split; congruence).
  assert (Hrs : descend h dep rt s = Some r).
  { apply (routed h rt dep G B first HT HO dep r O (Some s) (cbound P lo hi (j + 1)).2);
      [done|done|done|simpl; lia|]. apply range_ok_hi_inv. apply HokR. }
  assert (Hls : descend h dep rt (s - 1) = Some l).
  { apply (routed h rt dep G B first HT HO dep l O (cbound P lo hi j).1 (Some s));
      [done|done|done| |simpl; lia].
    destruct HokL as (Hrg & _). destruct ((cbound P lo hi j).1); simpl in *; [lia|done]. }
  split.
  - destruct HokL as (_ & _ & _ & Hnx & hi' & HBn).
    assert (descend h dep rt s = Some (next_leaf Lb)); [|congruence].
    apply (routed h rt dep G B first HT HO dep (next_leaf Lb) O (Some s) hi');
      [done|done|done|simpl; lia|].
    destruct (oi_node _ _ _ _ _ HO _ _ Hnx) as (lo1 & hi1 & b1 & HB1 & _ & Hok1).
    assert (lo1 = Some s ∧ hi1 = hi') as [-> ->] by (split; congruence).
    apply range_ok_hi_inv. apply Hok1.
  - intros z bz Hz Hbz Hzl Heq.
    destruct (oi_node _ _ _ _ _ HO z _ Hz) as (loz & hiz & bz0 & HBz & Hbz0 & Hokz).
    assert (bz0 = bz) as -> by congruence.
    destruct Hokz as (Hrg & _ & _ & Hch).
    destruct hiz as [u|].
    + destruct Hch as (_ & hi' & HBn). rewrite Heq in HBn.
      assert (u = s) as -> by congruence.
      apply Hzl.
      assert (descend h dep rt (s - 1) = Some z); [|congruence].
      apply (routed h rt dep G B first HT HO dep z O loz (Some s));
        [done|done|done| |simpl; lia].
      destruct loz; simpl in *; [lia|done].
    + rewrite Heq in Hch. by apply (Hnz r Rb).
Qed.

(** ** An index node with too few keys and its peer *)

Section index_step.
Context (h : gmap Z block) (rt : Z) (dep : nat) (G : gmap Z nat) (B : gmap Z bounds).
Context (first p : Z) (m : nat) (P : block) (lo hi : option Z) (j x : Z) (L R : block).
Hypothesis HT : tree_str h rt dep G.
Hypothesis HM : mins_but [x] h rt dep G.
Hypothesis HO : ord_inv h rt G B first.
Hypothesis Hp : G !! p = Some (S (S m)).
Hypothesis HP : h !! p = Some P.
Hypothesis Hj : 0 ≤ j < num_keys P.
Hypothesis Hx : x = get_child P j ∨ x = get_child P (j + 1).
Hypothesis HL : h !! get_child P j = Some L.
Hypothesis HR : h !! get_child P (j + 1) = Some R.

Lemma index_step_facts :
  ∃ lo hi, B !! p = Some (lo, hi)
    ∧ blk L ∧ blk R
    ∧ G !! get_child P j = Some (S m) ∧ G !! get_child P (j + 1) = Some (S m)
    ∧ blk_ok G B (S m) L (cbound P lo hi j).1 (Some (get_key P j))
    ∧ blk_ok G B (S m) R (Some (get_key P j)) (cbound P lo hi (j + 1)).2
    ∧ NoDup (kids L) ∧ NoDup (kids R) ∧ (∀ c, c ∈ kids L → c ∈ kids R → False)
    ∧ (∀ c, c ∈ kids L ∨ c ∈ kids R →
         c ≠ get_child P j ∧ c ≠ get_child P (j + 1)).
Proof.
  destruct (oi_node _ _ _ _ _ HO p _ Hp) as (lo0 & hi0 & P0 & HBp & HP0 & _).
  exists lo0, hi0. split; [done|].
  destruct (peers_facts h rt dep G B first p (S m) P lo0 hi0 j HT HO Hp HP HBp Hj)
    as (Hblk & HokP & Hl & Hr & Hlr & Hlp & Hrp & Hlrt & Hrrt & HBl & HBr).
  destruct (ts_blk _ _ _ _ HT _ _ Hl) as (L0 & HL0 & HbL).
  assert (L0 = L) as -> by congruence.
  destruct (ts_blk _ _ _ _ HT _ _ Hr) as (R0 & HR0 & HbR).
  assert (R0 = R) as -> by congruence.
  destruct (oi_node _ _ _ _ _ HO _ _ Hl) as (lol & hil & L0 & HBl0 & HL0' & HokL).
  assert (L0 = L) as -> by congruence.
  destruct (oi_node _ _ _ _ _ HO _ _ Hr) as (lor & hir & R0 & HBr0 & HR0' & HokR).
  assert (R0 = R) as -> by congruence.
  assert (lol = (cbound P lo0 hi0 j).1 ∧ hil = Some (get_key P j)) as [-> ->]
    by (split; congruence).
  assert (lor = Some (get_key P j) ∧ hir = (cbound P lo0 hi0 (j + 1)).2) as [-> ->]
    by (split; congruence).
  split; [done|]. split; [done|]. split; [done|]. split; [done|].
  split; [done|]. split; [done|].
  split; [exact (ts_nodup _ _ _ _ HT _ _ L Hl HL)|].
  split; [exact (ts_nodup _ _ _ _ HT _ _ R Hr HR)|].
  split.
  - intros c Hc1 Hc2. apply Hlr.
    exact (ts_disj _ _ _ _ HT _ _ _ _ L R c Hl Hr HL HR Hc1 Hc2).
  - intros c Hc.
    assert (HGc : G !! c = Some m).
    { destruct Hc as [Hc|Hc].
      - exact (ts_kids _ _ _ _ HT _ _ L _ Hl HL Hc).
      - exact (ts_kids _ _ _ _ HT _ _ R _ Hr HR Hc). }
    split; intros ->; simplify_eq; lia.
Qed.

(** the left node takes the first child of the right one *)
Lemma index_rot_left_ok :
  126 ≤ num_keys L → num_keys L < 255 → 128 ≤ num_keys R →
  tree_inv (<[p := blk_set_key P j (get_key R 0)]>
              (<[get_child P (j + 1) := blk_index_pop_front R]>
                 (<[get_child P j
                    := blk_index_push_back L (get_key P j) (get_child R 0)]> h)))
    rt dep G None
  ∧ ∃ B', ord_inv (<[p := blk_set_key P j (get_key R 0)]>
              (<[get_child P (j + 1) := blk_index_pop_front R]>
                 (<[get_child P j
                    := blk_index_push_back L (get_key P j) (get_child R 0)]> h)))
            rt G B' first.
Proof.
  intros HnL HnL' HnR.
  destruct index_step_facts
    as (lo0 & hi0 & HBp & HbL & HbR & Hl & Hr & HokL & HokR & HndL & HndR & Hdis & Hne).
  destruct (blk_index_push_back_spec L (get_key P j) (get_child R 0) HbL HnL')
    as (HbL' & EnL & _).
  destruct (blk_index_pop_front_spec R HbR ltac:(lia)) as (HbR' & EnR & _).
  destruct (kids_index_rot_left L R (get_key P j) HbL HbR HnL' ltac:(lia) HndL HndR Hdis)
    as (HndL' & HndR' & Hdis' & HkL' & HkR').
  set (B' := <[get_child P j := ((cbound P lo0 hi0 j).1, Some (get_key R 0))]>
               (<[get_child P (j + 1)
                  := (Some (get_key R 0), (cbound P lo0 hi0 (j + 1)).2)]> B)).
  assert (HB' : ∀ c, c ∈ kids L ∨ c ∈ kids R → B' !! c = B !! c).
  { intros c Hc. destruct (Hne c Hc). unfold B'. by rewrite !lookup_insert_ne. }
  destruct (blk_ok_index_rot_left G B B' m L R _ _ _ HbL HbR HnL' ltac:(lia)
              HokL HokR HB') as [HokL' HokR'].
  destruct (rotate_ok h rt dep G B first p (S m) P lo0 hi0 j x HT HM HO Hp HP HBp Hj Hx
              (blk_index_push_back L (get_key P j) (get_child R 0))
              (blk_index_pop_front R) (get_key R 0)) as [H1 H2]; try done.
  - intros _. split; [done|]. split; [done|]. split; [done|].
    intros Lb Rb c HLb HRb.
    assert (Lb = L) as -> by congruence. assert (Rb = R) as -> by congruence.
    rewrite HkL', HkR'. split.
    + intros [[?| ->]|[? _]]; [by left| |by right]. right. apply get_child_kids. lia.
    + intros [?|?]; [by left; left|].
      destruct (decide (c = get_child R 0)); [left; by right|by right].
  - simpl. lia.
  - simpl. lia.
  - split; [done|]. by exists B'.
Qed.

(** the right node takes the last child of the left one *)
Lemma index_rot_right_ok :
  126 ≤ num_keys R → num_keys R < 255 → 128 ≤ num_keys L →
  tree_inv (<[p := blk_set_key P j (get_key L (num_keys L - 1))]>
              (<[get_child P (j + 1)
                 := blk_index_push_front R (get_key P j) (get_child L (num_keys L))]>
                 (<[get_child P j := blk_pop_back L]> h)))
    rt dep G None
  ∧ ∃ B', ord_inv (<[p := blk_set_key P j (get_key L (num_keys L - 1))]>
              (<[get_child P (j + 1)
                 := blk_index_push_front R (get_key P j) (get_child L (num_keys L))]>
                 (<[get_child P j := blk_pop_back L]> h)))
            rt G B' first.
Proof.
  intros HnR HnR' HnL.
  destruct index_step_facts
    as (lo0 & hi0 & HBp & HbL & HbR & Hl & Hr & HokL & HokR & HndL & HndR & Hdis & Hne).
  pose proof (num_keys_range L) as HrgL.
  destruct (blk_index_push_front_spec R (get_key P j) (get_child L (num_keys L)) HbR HnR')
    as (HbR' & EnR & _).
  destruct (blk_pop_back_spec L HbL ltac:(lia)) as (HbL' & EnL & _).
  assert (Hlast : get_child L (num_keys L) ∈ kids L) by (apply get_child_kids; lia).
  destruct (kids_pop_back L HbL ltac:(lia) HndL) as (HndL' & HkL').
  destruct (kids_index_push_front R (get_key P j) (get_child L (num_keys L)) HbR HnR' HndR)
    as (HndR' & HkR').
  { intros Hin. by apply (Hdis _ Hlast). }
  set (B' := <[get_child P j
               := ((cbound P lo0 hi0 j).1, Some (get_key L (num_keys L - 1)))]>
               (<[get_child P (j + 1)
                  := (Some (get_key L (num_keys L - 1)), (cbound P lo0 hi0 (j + 1)).2)]> B)).
  assert (HB' : ∀ c, c ∈ kids L ∨ c ∈ kids R → B' !! c = B !! c).
  { intros c Hc. destruct (Hne c Hc). unfold B'. by rewrite !lookup_insert_ne. }
  destruct (blk_ok_index_rot_right G B B' m L R _ _ _ HbL HbR HnR' ltac:(lia)
              HokL HokR HB') as [HokL' HokR'].
  destruct (rotate_ok h rt dep G B first p (S m) P lo0 hi0 j x HT HM HO Hp HP HBp Hj Hx
              (blk_pop_back L)
              (blk_index_push_front R (get_key P j) (get_child L (num_keys L)))
              (get_key L (num_keys L - 1))) as [H1 H2]; try done.
  - intros _. split; [done|]. split; [done|]. split.
    { intros c Hc1 Hc2. apply HkL' in Hc1 as [Hc1 Hc1']. apply HkR' in Hc2 as [Hc2|Hc2].
      - by apply (Hdis c).
      - done. }
    intros Lb Rb c HLb HRb.
    assert (Lb = L) as -> by congruence. assert (Rb = R) as -> by congruence.
    rewrite HkL', HkR'. split.
    + intros [[? _]|[?| ->]]; [by left|by right|by left].
    + intros [?|?]; [|by right; left].
      destruct (decide (c = get_child L (num_keys L))); [right; by right|by left].
  - simpl. lia.
  - simpl. lia.
  - split; [done|]. by exists B'.
Qed.

(** the right node is merged into the left one *)
Lemma index_merge_ok :
  126 ≤ num_keys L + num_keys R → num_keys L + num_keys R ≤ 254 →
  tree_str (<[p := blk_index_remove P (j + 1) (num_keys P)]>
              (<[get_child P j := blk_merge_index L R (get_key P j)]>
                 (base.delete (get_child P (j + 1)) h)))
    rt dep (base.delete (get_child P (j + 1)) G)
  ∧ mins_but [p]
      (<[p := blk_index_remove P (j + 1) (num_keys P)]>
         (<[get_child P j := blk_merge_index L R (get_key P j)]>
            (base.delete (get_child P (j + 1)) h)))
      rt dep (base.delete (get_child P (j + 1)) G)
  ∧ ∃ B', ord_inv (<[p := blk_index_remove P (j + 1) (num_keys P)]>
              (<[get_child P j := blk_merge_index L R (get_key P j)]>
                 (base.delete (get_child P (j + 1)) h)))
            rt (base.delete (get_child P (j + 1)) G) B' first.
Proof.
  intros Hn1 Hn2.
  destruct index_step_facts
    as (lo0 & hi0 & HBp & HbL & HbR & Hl & Hr & HokL & HokR & HndL & HndR & Hdis & Hne).
  destruct (blk_merge_index_spec L R (get_key P j) HbL HbR Hn2) as (HbL' & EnL & _).
  destruct (kids_merge_index L R (get_key P j) HbL HbR Hn2 HndL HndR Hdis)
    as (HndL' & HkL').
  set (B' := <[get_child P j := ((cbound P lo0 hi0 j).1, (cbound P lo0 hi0 (j + 1)).2)]> B).
  assert (HB' : ∀ c, c ∈ kids L ∨ c ∈ kids R → B' !! c = B !! c).
  { intros c Hc. destruct (Hne c Hc). unfold B'. by rewrite !lookup_insert_ne. }
  pose proof (blk_ok_index_merge G (base.delete (get_child P (j + 1)) G) B B' m L R _ _ _
                HbL HbR Hn2 HokL HokR HB') as HokL'.
  destruct (merge_ok h rt dep G B first p (S m) P lo0 hi0 j x HT HM HO Hp HP HBp Hj Hx
              (blk_merge_index L R (get_key P j))) as (H1 & H2 & H3); try done.
  - intros _. split; [done|].
    intros Lb Rb c HLb HRb.
    assert (Lb = L) as -> by congruence. assert (Rb = R) as -> by congruence.
    apply HkL'.
  - simpl. lia.
  - split; [done|]. split; [done|]. by exists B'.
Qed.
End index_step.

(** ** The way up the tree *)

(** what is left as it is above the leaves *)
Definition shrunk (w w' : world) (G G' : gmap Z nat) : Prop :=
  0 ≤ depth (tree w') ∧ path_ok (tree w')
  ∧ (∀ a, is_Some (pages w' !! a) → is_Some (pages w !! a))
  ∧ next_page w' = next_page w ∧ cursors w' = cursors w
  ∧ next_cursor w' = next_cursor w
  ∧ cursor_list (tree w') = cursor_list (tree w)
  ∧ leaves (tree w') = leaves (tree w)
  ∧ num_recs (tree w') = num_recs (tree w)
  ∧ (∀ a, G !! a = Some O → G' !! a = Some O ∧ pages w' !! a = pages w !! a)
  ∧ (∀ a n, G' !! a = Some n → G !! a = Some n).

Lemma delete_root_spec w inode I :
  pages w !! inode = Some I → path_ok (tree w) →
  0 < depth (tree w) < 4294967296 →
  ∃ w', delete_root w inode = Some w'
    ∧ pages w' = base.delete inode (pages w)
    ∧ root (tree w') = get_child I 0
    ∧ depth (tree w') = depth (tree w) - 1
    ∧ path_ok (tree w')
    ∧ next_page w' = next_page w ∧ cursors w' = cursors w
    ∧ next_cursor w' = next_cursor w
    ∧ cursor_list (tree w') = cursor_list (tree w)
    ∧ leaves (tree w') = leaves (tree w)
    ∧ num_recs (tree w') = num_recs (tree w).
Proof.
  intros HI Hpok Hd. unfold delete_root. rewrite (load_at _ _ _ I) by done. simpl.
  rewrite u32_small by lia.
  destruct (depth (tree w) - 1 =? 0) eqn:E; eexists; (split; [reflexivity|]); simpl;
    rewrite ?u32_small by lia; repeat split; try done.
  all: apply Hpok.
Qed.

Lemma insert3_rot (mm : gmap Z block) a b c x y z :
  a ≠ c → b ≠ c →
  <[a := x]> (<[b := y]> (<[c := z]> mm)) = <[c := z]> (<[a := x]> (<[b := y]> mm)).
Proof.
  intros H1 H2. rewrite (insert_insert_ne _ b c) by done.
  by rewrite (insert_insert_ne _ a c) by done.
Qed.

Section cascade.
Context (dep : nat) (k leaf first : Z) (l : list path_node).
Hypothesis Hsmall : Z.of_nat dep < 4294967296.

Lemma shrink_spec d : ∀ w G B pos pn b,
  (d < dep)%nat → depth (tree w) = Z.of_nat dep → path (tree w) = Some l →
  path_ok (tree w) →
  (∀ j, (j < d)%nat → frame_ok (pages w) G dep k l leaf j) →
  pnode l leaf dep 0 = root (tree w) →
  l !! d = Some pn → pages w !! pn_node pn = Some b → blk b →
  G !! pn_node pn = Some (dep - d)%nat →
  pn_num_keys pn = num_keys b → 1 ≤ pos ≤ num_keys b →
  (d ≠ O → 127 ≤ num_keys b) →
  tree_str (<[pn_node pn := blk_index_remove b pos (num_keys b)]> (pages w))
    (root (tree w)) dep G →
  mins_but [pn_node pn] (<[pn_node pn := blk_index_remove b pos (num_keys b)]> (pages w))
    (root (tree w)) dep G →
  ord_inv (<[pn_node pn := blk_index_remove b pos (num_keys b)]> (pages w))
    (root (tree w)) G B first →
  ∃ w' G' B',
    shrink_index_ancestors d pos w = Some w'
    ∧ tree_inv (pages w') (root (tree w')) (Z.to_nat (depth (tree w'))) G' None
    ∧ ord_inv (pages w') (root (tree w')) G' B' first
    ∧ shrunk w w' G G'.
Proof.
  induction d as [|d' IH];
    intros w G B pos pn b Hd Hdep Hpath Hpok Hfr Hrt Hpn Hb Hblk HG Hnk Hpos Hmin HT HM HO.
  - (* the root *)
    rewrite (shrink_step 0 pos w l pn b) by done. cbn zeta.
    assert (Hroot : pn_node pn = root (tree w)).
    { rewrite <- Hrt. unfold pnode. rewrite decide_False by lia. by rewrite Hpn. }
    destruct (blk_index_remove_spec b pos Hblk Hpos) as (HbI & EnI & _).
    set (I1 := blk_index_remove b pos (num_keys b)) in *.
    set (hv := <[pn_node pn := I1]> (pages w)) in *.
    assert (HhvI : hv !! pn_node pn = Some I1) by apply lookup_insert_eq.
    assert (Hsub : ∀ a, is_Some (hv !! a) → is_Some (pages w !! a)).
    { intros a. unfold hv. destruct (decide (a = pn_node pn)) as [->|].
      - intros _. eauto.
      - by rewrite lookup_insert_ne. }
    assert (Hleaf : ∀ a, G !! a = Some O → hv !! a = pages w !! a).
    { intros a Ha. unfold hv. rewrite lookup_insert_ne; [done|].
      intros <-. rewrite HG in Ha. simplify_eq. lia. }
    destruct (num_keys b - 1 =? 0) eqn:E.
    + apply Z.eqb_eq in E.
      destruct (delete_root_spec (with_pages w hv) (pn_node pn) I1)
        as (w' & Hrun & Hpg & Hrt' & Hdp' & Hpok' & Hnp' & Hcs' & Hnc' & Hcl' & Hlv' & Hnr');
        [done|done|simpl; lia|].
      simpl in *.
      destruct dep as [|d0]; [lia|].
      rewrite Hroot in HhvI, Hpg, HM.
      destruct (new_root_ok hv _ d0 G B first I1 HT HM HO HhvI ltac:(lia)) as [HT' HO'].
      exists w', (base.delete (root (tree w)) G), B.
      split; [done|]. rewrite Hpg, Hrt', Hdp', Hdep.
      replace (Z.to_nat (Z.of_nat (S d0) - 1)) with d0 by lia.
      split; [done|]. split; [done|].
      split; [lia|]. split; [done|].
      split.
      { intros a Ha. apply Hsub. rewrite Hpg in Ha.
        apply lookup_delete_is_Some in Ha. apply Ha. }
      repeat (split; [done|]).
      split.
      * intros a Ha.
        assert (a ≠ root (tree w)).
        { intros ->. pose proof (ts_root _ _ _ _ HT). simplify_eq. }
        rewrite Hpg. rewrite !lookup_delete_ne by done. split; [done|]. by apply Hleaf.
      * intros a n Ha. by apply lookup_delete_Some in Ha as [_ Ha].
    + apply Z.eqb_neq in E.
      exists (with_pages w hv), G, B. split; [done|]. simpl.
      rewrite Hdep, Nat2Z.id.
      split.
      { apply tree_inv_str. split; [done|]. destruct HM as [HM1 HM2]. split.
        - intros a n ba Ha Hba Hne _. eapply HM1; [done..|].
          intros Hin. apply list_elem_of_singleton in Hin. congruence.
        - intros ba Hba _ _. rewrite <- Hroot in Hba.
          assert (ba = I1) as -> by congruence. lia. }
      split; [done|].
      split; [simpl; lia|]. split; [done|]. split; [done|].
      repeat (split; [done|]).
      split; [|done]. intros a Ha. split; [done|]. by apply Hleaf.
  - (* an index node below the root *)
    rewrite (shrink_step (S d') pos w l pn b) by done. cbn zeta.
    destruct (blk_index_remove_spec b pos Hblk Hpos) as (HbI & EnI & _).
    set (I1 := blk_index_remove b pos (num_keys b)) in *.
    set (hv := <[pn_node pn := I1]> (pages w)) in *.
    set (inode := pn_node pn) in *.
    assert (HhvI : hv !! inode = Some I1) by apply lookup_insert_eq.
    assert (Hsub : ∀ a, is_Some (hv !! a) → is_Some (pages w !! a)).
    { intros a. unfold hv. destruct (decide (a = inode)) as [->|].
      - intros _. eauto.
      - by rewrite lookup_insert_ne. }
    assert (Hleaf : ∀ a, G !! a = Some O → hv !! a = pages w !! a).
    { intros a Ha. unfold hv. rewrite lookup_insert_ne; [done|].
      intros <-. rewrite HG in Ha. simplify_eq. lia. }
    assert (Hirt : inode ≠ root (tree w)).
    { intros Heq. rewrite Heq in HG. pose proof (ts_root _ _ _ _ HT). simplify_eq. lia. }
    pose proof (num_keys_range b) as Hrgb.
    destruct (num_keys b - 1 <? 128) eqn:E.
    2:{ apply Z.ltb_ge in E.
        exists (with_pages w hv), G, B. split; [done|]. simpl.
        rewrite Hdep, Nat2Z.id.
        split.
        { apply tree_inv_str. split; [done|]. destruct HM as [HM1 HM2]. split.
          - intros a n ba Ha Hba Hne _. destruct (decide (a = inode)) as [->|Hai].
            + assert (ba = I1) as -> by congruence.
              pose proof (min_keys_le n). lia.
            + eapply HM1; [done..|].
              intros Hin. by apply list_elem_of_singleton in Hin.
          - intros ba Hba Hd0 _. apply HM2; [done..|].
            intros Hin. apply list_elem_of_singleton in Hin. congruence. }
        split; [done|].
        split; [simpl; lia|]. split; [done|]. split; [done|].
        repeat (split; [done|]).
        split; [|done]. intros a Ha. split; [done|]. by apply Hleaf. }
    apply Z.ltb_lt in E.
    specialize (Hmin ltac:(done)).
    (* the parent *)
    destruct (pnode_frame _ _ _ _ _ _ _ (Hfr d' ltac:(lia)) ltac:(lia))
      as (pn' & P & Hpn' & _ & HP & HGp & HnkP & Hpos' & Hchild).
    assert (Hchild' : get_child P (pn_pos pn') = inode).
    { rewrite Hchild. unfold pnode. rewrite decide_False by lia. by rewrite Hpn. }
    clear Hchild.
    destruct (scan_index_keys_spec P k) as (Hppos & _). rewrite <- Hpos' in Hppos.
    set (p := pn_node pn') in *. set (ppos := pn_pos pn') in *.
    destruct (dep - S d')%nat as [|m] eqn:Em; [lia|].
    assert (HGp' : G !! p = Some (S (S m))).
    { rewrite HGp. f_equal. lia. }
    assert (Hpi : p ≠ inode) by (intros Heq; rewrite Heq in HGp'; simplify_eq; lia).
    assert (HPv : hv !! p = Some P).
    { unfold hv. by rewrite lookup_insert_ne. }
    pose proof (num_keys_range P) as HrgP.
    assert (HnkP1 : 1 ≤ num_keys P).
    { destruct HM as [HM1 HM2]. destruct (decide (p = root (tree w))) as [Hprt|Hprt].
      - apply HM2; [by rewrite <- Hprt|lia|].
        intros Hin. apply list_elem_of_singleton in Hin. congruence.
      - assert (min_keys (S (S m)) ≤ num_keys P); [|simpl in *; lia].
        eapply HM1; [done..|]. intros Hin. by apply list_elem_of_singleton in Hin. }
    assert (Hpeer : ∀ i, 0 ≤ i ≤ num_keys P →
              G !! get_child P i = Some (S m)
              ∧ ∃ X, hv !! get_child P i = Some X ∧ blk X).
    { intros i Hi.
      pose proof (str_child _ _ _ _ p (S m) P i HT HGp' HPv Hi) as Hc.
      split; [done|]. by eapply ts_blk. }
    assert (Hinj : ∀ i, 0 ≤ i ≤ num_keys P → i ≠ ppos → get_child P i ≠ inode).
    { intros i Hi Hne Heq. rewrite <- Hchild' in Heq.
      apply (str_child_inj _ _ _ _ p (S m) P i ppos HT HGp' HPv) in Heq; lia. }
    assert (Hpw : path (tree (with_pages w hv)) = Some l) by done.
    (* the worlds that come out and the worlds the deletion started from *)
    assert (Hfin : ∀ h' G' B',
              tree_inv h' (root (tree w)) dep G' None →
              ord_inv h' (root (tree w)) G' B' first →
              (∀ a, is_Some (h' !! a) → is_Some (hv !! a)) →
              (∀ a, G !! a = Some O → G' !! a = Some O ∧ h' !! a = hv !! a) →
              (∀ a n, G' !! a = Some n → G !! a = Some n) →
              ∃ w' G' B',
                Some (with_pages (with_pages w hv) h') = Some w'
                ∧ tree_inv (pages w') (root (tree w')) (Z.to_nat (depth (tree w'))) G' None
                ∧ ord_inv (pages w') (root (tree w')) G' B' first
                ∧ shrunk w w' G G').
    { intros h' G' B' H1 H2 H3 H4 H5.
      exists (with_pages (with_pages w hv) h'), G', B'. split; [done|]. simpl.
      rewrite Hdep, Nat2Z.id. split; [done|]. split; [done|].
      split; [simpl; lia|]. split; [done|]. split; [intros a Ha; by apply Hsub, H3|].
      repeat (split; [done|]).
      split; [|done]. intros a Ha. destruct (H4 a Ha) as [? Hh]. split; [done|].
      simpl. rewrite Hh. by apply Hleaf. }
    (* after a merge the parent has to give up a child *)
    assert (Hmerge : ∀ Lx Rx s B2 j,
              0 ≤ j < num_keys P →
              G !! get_child P j = Some (S m) → G !! get_child P (j + 1) = Some (S m) →
              get_child P j ≠ get_child P (j + 1) →
              is_Some (hv !! get_child P j) →
              tree_str (<[p := blk_index_remove P (j + 1) (num_keys P)]>
                          (<[get_child P j := blk_merge_index Lx Rx s]>
                             (base.delete (get_child P (j + 1)) hv)))
                (root (tree w)) dep (base.delete (get_child P (j + 1)) G) →
              mins_but [p]
                (<[p := blk_index_remove P (j + 1) (num_keys P)]>
                   (<[get_child P j := blk_merge_index Lx Rx s]>
                      (base.delete (get_child P (j + 1)) hv)))
                (root (tree w)) dep (base.delete (get_child P (j + 1)) G) →
              ord_inv (<[p := blk_index_remove P (j + 1) (num_keys P)]>
                         (<[get_child P j := blk_merge_index Lx Rx s]>
                            (base.delete (get_child P (j + 1)) hv)))
                (root (tree w)) (base.delete (get_child P (j + 1)) G) B2 first →
              ∃ w' G' B',
                shrink_index_ancestors d' (j + 1)
                  (index_merged (with_pages w hv) (get_child P j) (get_child P (j + 1))
                     Lx Rx s) = Some w'
                ∧ tree_inv (pages w') (root (tree w')) (Z.to_nat (depth (tree w'))) G' None
                ∧ ord_inv (pages w') (root (tree w')) G' B' first
                ∧ shrunk w w' G G').
    { intros Lx Rx s B2 j Hj Hl Hr Hlr Hlin HT2 HM2 HO2.
      set (lp := get_child P j) in *. set (rp := get_child P (j + 1)) in *.
      assert (Hlpp : lp ≠ p) by (intros Heq; rewrite Heq in Hl; simplify_eq; lia).
      assert (Hrpp : rp ≠ p) by (intros Heq; rewrite Heq in Hr; simplify_eq; lia).
      set (w2 := index_merged (with_pages w hv) lp rp Lx Rx s).
      assert (Hpg2 : pages w2 = <[lp := blk_merge_index Lx Rx s]> (base.delete rp hv)).
      { unfold w2, index_merged. simpl. by rewrite delete_insert_ne. }
      assert (HP2 : pages w2 !! p = Some P).
      { rewrite Hpg2. rewrite lookup_insert_ne by done. by rewrite lookup_delete_ne. }
      assert (Hfr2 : ∀ i, (i < d')%nat → frame_ok (pages w2) (base.delete rp G) dep k l leaf i).
      { intros i Hi. eapply (frame_ok_stable (pages w) _ G); [apply Hfr; lia|exact Hi|lia|].
        intros a n Ha Hn.
        assert (Hne : ∀ y, G !! y = Some (S m) → y ≠ a).
        { intros y Hy ->. simplify_eq. lia. }
        split.
        - rewrite Hpg2. rewrite lookup_insert_ne by (by apply Hne).
          rewrite lookup_delete_ne by (by apply Hne).
          unfold hv. rewrite lookup_insert_ne by (by apply Hne). done.
        - rewrite lookup_delete_ne by (by apply Hne). done. }
      assert (HblkP : blk P).
      { destruct (ts_blk _ _ _ _ HT p _ HGp') as (P0 & HP0 & ?). congruence. }
      assert (HGp2 : base.delete rp G !! pn_node pn' = Some (dep - d')%nat).
      { rewrite lookup_delete_ne by done. exact HGp. }
      assert (HminP : d' ≠ O → 127 ≤ num_keys P).
      { intros Hd'. destruct HM as [HM1 _].
        assert (min_keys (S (S m)) ≤ num_keys P); [|simpl in *; lia].
        eapply HM1; [done..| |].
        + intros Heq. rewrite Heq in HGp. pose proof (ts_root _ _ _ _ HT). simplify_eq. lia.
        + intros Hin. by apply list_elem_of_singleton in Hin. }
      rewrite <- Hpg2 in HT2, HM2, HO2.
      destruct (IH w2 (base.delete rp G) B2 (j + 1) pn' P ltac:(lia) Hdep Hpath Hpok
                  Hfr2 Hrt Hpn' HP2 HblkP HGp2 HnkP ltac:(lia) HminP HT2 HM2 HO2)
        as (w' & G' & B' & Hrun & HT' & HO' & Hsh).
      exists w', G', B'. split; [done|]. split; [done|]. split; [done|].
        destruct Hsh as (S1 & S2 & S3 & S4 & S5 & S6 & S7 & S8 & S9 & S10 & S11).
        split; [done|]. split; [done|].
        split.
        { intros a Ha. apply S3 in Ha. rewrite Hpg2 in Ha. apply Hsub.
          apply lookup_insert_is_Some' in Ha as [<-|Ha]; [done|].
          apply lookup_delete_is_Some in Ha. apply Ha. }
        repeat (split; [done|]).
        split.
        + intros a Ha.
          assert (Hne : ∀ y, G !! y = Some (S m) → a ≠ y).
          { intros y Hy ->. simplify_eq. }
          destruct (S10 a) as [H1 H2].
          { rewrite lookup_delete_ne by (apply not_eq_sym; by apply Hne). done. }
          split; [done|]. rewrite H2, Hpg2.
          rewrite lookup_insert_ne by (apply not_eq_sym; by apply Hne).
          rewrite lookup_delete_ne by (apply not_eq_sym; by apply Hne).
          by apply Hleaf.
        + intros a n Ha. apply S11 in Ha. by apply lookup_delete_Some in Ha as [_ Ha]. }
    assert (Hrest : (ppos < num_keys P →
                ∃ R, hv !! get_child P (ppos + 1) = Some R
                     ∧ num_keys I1 + num_keys R ≤ 254) →
              ∃ w' G' B',
                ('(merged, pos, w) ← index_underflow (with_pages w hv) (Z.of_nat d') inode pos;
                 if merged : bool then shrink_index_ancestors d' pos w else Some w) = Some w'
                ∧ tree_inv (pages w') (root (tree w')) (Z.to_nat (depth (tree w'))) G' None
                ∧ ord_inv (pages w') (root (tree w')) G' B' first
                ∧ shrunk w w' G G').
    2:{ destruct (decide (ppos < num_keys P)) as [Hlt|Hge]; [|apply Hrest; lia].
        destruct (Hpeer (ppos + 1) ltac:(lia)) as (Hr & R & HR & HbR).
        destruct (decide (254 < num_keys I1 + num_keys R)) as [HnR|HnR];
          [|apply Hrest; intros _; exists R; split; [done|lia]].
        (* rotate from the right peer *)
        assert (Hri : get_child P (ppos + 1) ≠ inode) by (apply Hinj; lia).
        assert (Hrp : get_child P (ppos + 1) ≠ p).
        { intros Heq. rewrite Heq in Hr. simplify_eq. lia. }
        rewrite (index_rotate_left_run (with_pages w hv) d' inode pos l pn' I1 R P
                   Hpw Hpn' ltac:(rewrite HnkP; exact Hlt) HhvI HPv HR HnR
                   (not_eq_sym Hpi) (not_eq_sym Hri) Hrp).
        cbn [mbind option_bind]. simpl.
        rewrite (insert3_rot hv) by done.
        destruct (index_rot_left_ok hv (root (tree w)) dep G B first p m P ppos inode I1 R
                    HT HM HO HGp' HPv ltac:(lia) ltac:(by left; symmetry)
                    ltac:(by rewrite Hchild') HR ltac:(lia) ltac:(lia) ltac:(lia))
          as [H1 (B' & H2)].
        rewrite Hchild' in H1, H2.
        apply (Hfin _ G B' H1 H2); [| |done].
        - intros a. rewrite !lookup_insert_is_Some'. intros [<-|[<-|[<-|?]]]; eauto.
        - intros a Ha. split; [done|]. rewrite !lookup_insert_ne; [done|..];
            intros <-; simplify_eq. }
    intros Hnor.
    assert (Hnor' : pn_pos pn' < pn_num_keys pn' →
              ∃ R, pages (with_pages w hv) !! get_child P (pn_pos pn' + 1) = Some R
                   ∧ num_keys I1 + num_keys R ≤ 254).
    { rewrite HnkP. exact Hnor. }
    destruct (decide (0 < ppos)) as [Hpp|Hp0].
    + destruct (Hpeer (ppos - 1) ltac:(lia)) as (Hlp & Lp & HLp & HbLp).
      pose proof (num_keys_range Lp) as HrgLp.
      assert (Hli : get_child P (ppos - 1) ≠ inode) by (apply Hinj; lia).
      assert (Hlpp : get_child P (ppos - 1) ≠ p).
      { intros Heq. rewrite Heq in Hlp. simplify_eq. lia. }
      assert (HRI : hv !! get_child P (ppos - 1 + 1) = Some I1).
      { replace (ppos - 1 + 1) with ppos by lia. by rewrite Hchild'. }
      destruct (decide (254 < num_keys Lp + num_keys I1)) as [HnL|HnL].
      * (* rotate from the left peer *)
        rewrite (index_rotate_right_run (with_pages w hv) d' inode pos l pn' I1 Lp P
                   Hpw Hpn' HhvI HPv Hnor' Hpp HLp HnL
                   (not_eq_sym Hpi) (not_eq_sym Hli) Hlpp).
        cbn [mbind option_bind]. simpl.
        rewrite (insert3_rot hv) by done.
        rewrite (insert_insert_ne hv) by done.
        destruct (index_rot_right_ok hv (root (tree w)) dep G B first p m P (ppos - 1)
                    inode Lp I1 HT HM HO HGp' HPv ltac:(lia)
                    ltac:(right; replace (ppos - 1 + 1) with ppos by lia; by symmetry)
                    HLp HRI ltac:(lia) ltac:(lia) ltac:(lia))
          as [H1 (B' & H2)].
        replace (ppos - 1 + 1) with ppos in H1, H2 by lia.
        rewrite Hchild' in H1, H2.
        apply (Hfin _ G B' H1 H2); [| |done].
        -- intros a. rewrite !lookup_insert_is_Some'. intros [<-|[<-|[<-|?]]]; eauto.
        -- intros a Ha. split; [done|]. rewrite !lookup_insert_ne; [done|..];
            intros <-; simplify_eq.
      * (* merge into the left peer *)
        rewrite (index_merge_left_run (with_pages w hv) d' inode pos l pn' I1 Lp P
                   Hpw Hpn' HhvI HPv Hnor' Hpp HLp ltac:(lia) (not_eq_sym Hli)).
        cbn [mbind option_bind]. simpl.
        destruct (index_merge_ok hv (root (tree w)) dep G B first p m P (ppos - 1)
                    inode Lp I1 HT HM HO HGp' HPv ltac:(lia)
                    ltac:(right; replace (ppos - 1 + 1) with ppos by lia; by symmetry)
                    HLp HRI ltac:(lia) ltac:(lia))
          as (H1 & H2 & B' & H3).
        assert (HGr : G !! get_child P (ppos - 1 + 1) = Some (S m)).
        { replace (ppos - 1 + 1) with ppos by lia. by rewrite Hchild'. }
        assert (Hlr : get_child P (ppos - 1) ≠ get_child P (ppos - 1 + 1)).
        { replace (ppos - 1 + 1) with ppos by lia. by rewrite Hchild'. }
        destruct (Hmerge Lp I1 (get_key P (ppos - 1)) B' (ppos - 1) ltac:(lia) Hlp HGr Hlr
                    ltac:(eauto) H1 H2 H3)
          as (w' & G' & B'' & Hrun & Hres).
        exists w', G', B''. split; [|done]. rewrite <- Hrun.
        replace (ppos - 1 + 1) with ppos by lia. by rewrite Hchild'.
    + (* the node is the first child: merge the right peer into it *)
      assert (Hp0' : ppos = 0) by lia.
      destruct (Hnor ltac:(lia)) as (R & HR & HnR).
      pose proof (num_keys_range R) as HrgR.
      rewrite Hp0' in HR, Hchild'. change (0 + 1) with 1 in HR.
      assert (Hri : get_child P 1 ≠ inode) by (apply Hinj; lia).
      rewrite (index_merge_right_run (with_pages w hv) d' inode pos l pn' I1 R P
                 Hpw Hpn' HhvI HPv Hp0' ltac:(rewrite HnkP; lia) HR HnR (not_eq_sym Hri)).
      cbn [mbind option_bind]. simpl.
      destruct (index_merge_ok hv (root (tree w)) dep G B first p m P 0
                  inode I1 R HT HM HO HGp' HPv ltac:(lia)
                  ltac:(left; by symmetry)
                  ltac:(by rewrite Hchild') HR ltac:(lia) ltac:(lia))
        as (H1 & H2 & B' & H3).
      destruct (Hpeer 1 ltac:(lia)) as (Hr1 & _).
      assert (HG0 : G !! get_child P 0 = Some (S m)) by (by rewrite Hchild').
      assert (Hlr : get_child P 0 ≠ get_child P (0 + 1)).
      { rewrite Hchild'. by apply not_eq_sym. }
      destruct (Hmerge I1 R (get_key P 0) B' 0 ltac:(lia) HG0 Hr1 Hlr
                  ltac:(rewrite Hchild'; eauto) H1 H2 H3)
        as (w' & G' & B'' & Hrun & Hres).
      exists w', G', B''. split; [|done]. rewrite <- Hrun.
      change (0 + 1) with 1. by rewrite Hchild'.
Qed.
End cascade.

(** ** The records of two leaves that are peers *)

Lemma in_blk_remove_record b i x y :
  blk b → sorted_blk b → 0 ≤ i < num_keys b →
  in_blk (blk_remove_record b i) x y ↔ in_blk b x y ∧ x ≠ get_key b i.
Proof.
  intros Hb Hs Hi.
  destruct (blk_remove_record_spec b i Hb Hi) as (_ & En & Ek & Ev & _).
  unfold without in *. unfold in_blk. rewrite En. split.
  - intros (j & Hj & <- & <-). rewrite Ek, Ev by lia.
    destruct (decide (j < i)).
    + split; [exists j; split; [lia|done]|].
      assert (get_key b j < get_key b i) by (apply Hs; lia). lia.
    + split; [exists (j + 1); split; [lia|done]|].
      assert (get_key b i < get_key b (j + 1)) by (apply Hs; lia). lia.
  - intros [(j & Hj & <- & <-) Hne].
    destruct (decide (j < i)).
    + exists j. split; [lia|]. rewrite Ek, Ev by lia. by rewrite !decide_True by lia.
    + assert (j ≠ i) by (intros ->; done).
      exists (j - 1). split; [lia|]. rewrite Ek, Ev by lia.
      rewrite !decide_False by lia. split; f_equal; lia.
Qed.

Lemma in_blk_rot_left L R x y :
  blk L → blk R → num_keys L = 127 → 1 < num_keys R →
  in_blk (blk_leaf_push_back L R) x y ∨ in_blk (blk_leaf_pop_front R) x y
  ↔ in_blk L x y ∨ in_blk R x y.
Proof.
  intros HbL HbR HnL HnR. pose proof (num_keys_range R) as HrgR.
  destruct (blk_leaf_push_back_spec L R HbL HnL) as (_ & En & Ek & Ev & _).
  destruct (blk_leaf_pop_front_spec R HbR ltac:(lia)) as (_ & En' & Ek' & Ev' & _).
  unfold in_blk. rewrite En, En', HnL. split.
  - intros [(j & Hj & <- & <-)|(j & Hj & <- & <-)].
    + rewrite Ek, Ev by lia. destruct (decide (j < 127)).
      * left. exists j. split; [lia|done].
      * right. exists 0. split; [lia|done].
    + rewrite Ek', Ev' by lia. right. exists (j + 1). split; [lia|done].
  - intros [(j & Hj & <- & <-)|(j & Hj & <- & <-)].
    + left. exists j. split; [lia|]. rewrite Ek, Ev by lia. by rewrite !decide_True by lia.
    + destruct (decide (j = 0)) as [->|].
      * left. exists 127. split; [lia|]. rewrite Ek, Ev by lia.
        by rewrite !decide_False by lia.
      * right. exists (j - 1). split; [lia|]. rewrite Ek', Ev' by lia.
        split; f_equal; lia.
Qed.

Lemma in_blk_rot_right L R x y :
  blk L → blk R → num_keys R < 255 → 0 < num_keys L →
  in_blk (blk_pop_back L) x y ∨ in_blk (blk_leaf_push_front R L) x y
  ↔ in_blk L x y ∨ in_blk R x y.
Proof.
  intros HbL HbR HnR HnL. pose proof (num_keys_range R) as HrgR.
  pose proof (num_keys_range L) as HrgL.
  destruct (blk_pop_back_spec L HbL HnL) as (_ & En & _).
  destruct (blk_pop_back_index L HbL HnL) as (Ek & _ & Ev & _).
  destruct (blk_leaf_push_front_spec R L HbR HnR) as (_ & En' & Ek' & Ev' & _).
  unfold in_blk. rewrite En, En'. split.
  - intros [(j & Hj & <- & <-)|(j & Hj & <- & <-)].
    + rewrite Ek, Ev by lia. left. exists j. split; [lia|done].
    + rewrite Ek', Ev' by lia. destruct (decide (j = 0)).
      * left. exists (num_keys L - 1). split; [lia|done].
      * right. exists (j - 1). split; [lia|done].
  - intros [(j & Hj & <- & <-)|(j & Hj & <- & <-)].
    + destruct (decide (j = num_keys L - 1)) as [->|].
      * right. exists 0. split; [lia|]. rewrite Ek', Ev' by lia. done.
      * left. exists j. split; [lia|]. rewrite Ek, Ev by lia. done.
    + right. exists (j + 1). split; [lia|]. rewrite Ek', Ev' by lia.
      rewrite !decide_False by lia. split; f_equal; lia.
Qed.

Lemma in_blk_merge L R x y :
  blk L → blk R → num_keys L + num_keys R ≤ 255 →
  in_blk (blk_merge_leaves L R) x y ↔ in_blk L x y ∨ in_blk R x y.
Proof.
  intros HbL HbR Hn. pose proof (num_keys_range R) as HrgR.
  pose proof (num_keys_range L) as HrgL.
  destruct (blk_merge_leaves_spec L R HbL HbR Hn) as (_ & En & Ek & Ev & _).
  unfold in_blk. rewrite En. split.
  - intros (j & Hj & <- & <-). rewrite Ek, Ev by lia.
    destruct (decide (j < num_keys L)).
    + left. exists j. split; [lia|done].
    + right. exists (j - num_keys L). split; [lia|done].
  - intros [(j & Hj & <- & <-)|(j & Hj & <- & <-)].
    + exists j. split; [lia|]. rewrite Ek, Ev by lia. by rewrite !decide_True by lia.
    + exists (j + num_keys L). split; [lia|]. rewrite Ek, Ev by lia.
      rewrite !decide_False by lia. split; f_equal; lia.
Qed.

(** the records of the tree when two of its leaves have changed *)
Lemma stored_two h h' G G' l r L R :
  h !! l = Some L → h !! r = Some R → G !! l = Some O → G !! r = Some O → l ≠ r →
  (∀ a, a ≠ l → a ≠ r → (G' !! a = Some O ↔ G !! a = Some O)) →
  (∀ a, a ≠ l → a ≠ r → G !! a = Some O → h' !! a = h !! a) →
  (∀ x y, (G' !! l = Some O ∧ ∃ b, h' !! l = Some b ∧ in_blk b x y)
          ∨ (G' !! r = Some O ∧ ∃ b, h' !! r = Some b ∧ in_blk b x y)
          ↔ in_blk L x y ∨ in_blk R x y) →
  ∀ x y, stored h' G' x y ↔ stored h G x y.
Proof.
  intros HL HR Hl Hr Hlr HG Hh Hrec x y. split.
  - intros (a & b & i & Ha & Hb & Hi & Hk & Hv).
    destruct (decide (a = l)) as [->|Hal]; [|destruct (decide (a = r)) as [->|Har]].
    + destruct (proj1 (Hrec x y)) as [(i' & ? & ? & ?)|(i' & ? & ? & ?)].
      { left. split; [done|]. exists b. split; [done|]. by exists i. }
      * by exists l, L, i'.
      * by exists r, R, i'.
    + destruct (proj1 (Hrec x y)) as [(i' & ? & ? & ?)|(i' & ? & ? & ?)].
      { right. split; [done|]. exists b. split; [done|]. by exists i. }
      * by exists l, L, i'.
      * by exists r, R, i'.
    + apply HG in Ha; [|done..]. rewrite Hh in Hb by done. by exists a, b, i.
  - intros (a & b & i & Ha & Hb & Hi & Hk & Hv).
    assert (Hcase : in_blk L x y ∨ in_blk R x y → stored h' G' x y).
    { intros Hin. apply Hrec in Hin as [(? & b' & ? & i' & ? & ? & ?)|(? & b' & ? & i' & ? & ? & ?)].
      - by exists l, b', i'.
      - by exists r, b', i'. }
    destruct (decide (a = l)) as [->|Hal]; [|destruct (decide (a = r)) as [->|Har]].
    + apply Hcase. left. assert (b = L) as -> by congruence. by exists i.
    + apply Hcase. right. assert (b = R) as -> by congruence. by exists i.
    + exists a, b, i. rewrite Hh by done. split; [by apply HG|done].
Qed.

(** ** A leaf with too few records and its peer *)

Section leaf_step.
Context (h : gmap Z block) (rt : Z) (dep : nat) (G : gmap Z nat) (B : gmap Z bounds).
Context (first p : Z) (P : block) (j x : Z) (L R : block).
Hypothesis HT : tree_str h rt dep G.
Hypothesis HM : mins_but [x] h rt dep G.
Hypothesis HO : ord_inv h rt G B first.
Hypothesis Hp : G !! p = Some 1%nat.
Hypothesis HP : h !! p = Some P.
Hypothesis Hj : 0 ≤ j < num_keys P.
Hypothesis Hx : x = get_child P j ∨ x = get_child P (j + 1).
Hypothesis HL : h !! get_child P j = Some L.
Hypothesis HR : h !! get_child P (j + 1) = Some R.
Hypothesis Hnext : next_leaf L = get_child P (j + 1).
Hypothesis Huniq : ∀ z bz, G !! z = Some O → h !! z = Some bz → z ≠ get_child P j →
  next_leaf bz ≠ get_child P (j + 1).

Lemma leaf_step_facts :
  ∃ lo hi, B !! p = Some (lo, hi)
    ∧ blk L ∧ blk R
    ∧ G !! get_child P j = Some O ∧ G !! get_child P (j + 1) = Some O
    ∧ get_child P j ≠ get_child P (j + 1)
    ∧ get_child P j ≠ p ∧ get_child P (j + 1) ≠ p
    ∧ blk_ok G B O L (cbound P lo hi j).1 (Some (get_key P j))
    ∧ blk_ok G B O R (Some (get_key P j)) (cbound P lo hi (j + 1)).2
    ∧ B !! get_child P j = Some ((cbound P lo hi j).1, Some (get_key P j))
    ∧ ∀ (G' : gmap Z nat) (B' : gmap Z bounds),
        (∀ y, y ≠ get_child P j → y ≠ get_child P (j + 1) → B' !! y = B !! y) →
        (∃ hi', B' !! get_child P j = Some ((cbound P lo hi j).1, hi')) →
        (∀ y, y ≠ get_child P (j + 1) → G' !! y = G !! y) →
        ∀ u, (cbound P lo hi (j + 1)).2 = Some u →
          G' !! next_leaf R = Some O ∧ ∃ z, B' !! next_leaf R = Some (Some u, z).
Proof.
  destruct (oi_node _ _ _ _ _ HO p _ Hp) as (lo0 & hi0 & P0 & HBp & HP0 & _).
  exists lo0, hi0. split; [done|].
  destruct (peers_facts h rt dep G B first p O P lo0 hi0 j HT HO Hp HP HBp Hj)
    as (Hblk & HokP & Hl & Hr & Hlr & Hlp & Hrp & Hlrt & Hrrt & HBl & HBr).
  destruct (ts_blk _ _ _ _ HT _ _ Hl) as (L0 & HL0 & HbL).
  assert (L0 = L) as -> by congruence.
  destruct (ts_blk _ _ _ _ HT _ _ Hr) as (R0 & HR0 & HbR).
  assert (R0 = R) as -> by congruence.
  destruct (oi_node _ _ _ _ _ HO _ _ Hl) as (lol & hil & L0 & HBl0 & HL0' & HokL).
  assert (L0 = L) as -> by congruence.
  destruct (oi_node _ _ _ _ _ HO _ _ Hr) as (lor & hir & R0 & HBr0 & HR0' & HokR).
  assert (R0 = R) as -> by congruence.
  assert (lol = (cbound P lo0 hi0 j).1 ∧ hil = Some (get_key P j)) as [-> ->]
    by (split; congruence).
  assert (lor = Some (get_key P j) ∧ hir = (cbound P lo0 hi0 (j + 1)).2) as [-> ->]
    by (split; congruence).
  split; [done|]. split; [done|]. split; [done|]. split; [done|].
  split; [done|]. split; [done|]. split; [done|]. split; [done|]. split; [done|].
  split; [done|].
  intros G' B' HB' (hi' & HBl') HG' u Hu.
  destruct HokR as (Hrg & _ & _ & Hch). rewrite Hu in Hch, Hrg.
  destruct Hch as (Hgn & z & HBn).
  assert (Hnr : next_leaf R ≠ get_child P (j + 1)).
  { intros Heq. rewrite Heq in HBn. rewrite Hu in HBr.
    assert (get_key P j = u) by congruence. simpl in Hrg. lia. }
  split; [by rewrite HG'|].
  destruct (decide (next_leaf R = get_child P j)) as [Heq|Hne].
  - rewrite Heq in HBn |- *. rewrite HBl'.
    assert (E : (cbound P lo0 hi0 j).1 = Some u).
    { assert (Some ((cbound P lo0 hi0 j).1, Some (get_key P j)) = Some (Some u, z))
        as [= E _] by (etrans; [symmetry; exact HBl|exact HBn]).
      exact E. }
    rewrite E. eauto.
  - rewrite HB' by done. eauto.
Qed.

(** the left leaf takes the first record of the right one *)
Lemma leaf_rot_left_ok :
  num_keys L = 127 → 129 ≤ num_keys R →
  tree_inv (<[p := blk_set_key P j (get_key R 1)]>
              (<[get_child P (j + 1) := blk_leaf_pop_front R]>
                 (<[get_child P j := blk_leaf_push_back L R]> h)))
    rt dep G None
  ∧ ∃ B', ord_inv (<[p := blk_set_key P j (get_key R 1)]>
              (<[get_child P (j + 1) := blk_leaf_pop_front R]>
                 (<[get_child P j := blk_leaf_push_back L R]> h)))
            rt G B' first.
Proof.
  intros HnL HnR.
  destruct leaf_step_facts
    as (lo0 & hi0 & HBp & HbL & HbR & Hl & Hr & Hlr & Hlp & Hrp & HokL & HokR & HBl & Hnx).
  destruct (blk_leaf_push_back_spec L R HbL HnL) as (HbL' & EnL & _).
  destruct (blk_leaf_pop_front_spec R HbR ltac:(lia)) as (HbR' & EnR & _).
  set (B' := <[get_child P j := ((cbound P lo0 hi0 j).1, Some (get_key R 1))]>
               (<[get_child P (j + 1)
                  := (Some (get_key R 1), (cbound P lo0 hi0 (j + 1)).2)]> B)).
  destruct (blk_ok_leaf_rot_left G B B' L R _ _ _ (get_child P (j + 1)) HbL HbR HnL
              ltac:(lia) HokL HokR Hnext Hr) as [HokL' HokR'].
  { unfold B'. rewrite lookup_insert_ne by done. rewrite lookup_insert_eq. eauto. }
  { apply Hnx.
    - intros y H1 H2. unfold B'. by rewrite !lookup_insert_ne.
    - unfold B'. rewrite lookup_insert_eq. eauto.
    - done. }
  destruct (rotate_ok h rt dep G B first p O P lo0 hi0 j x HT HM HO Hp HP HBp Hj Hx
              (blk_leaf_push_back L R) (blk_leaf_pop_front R) (get_key R 1))
    as [H1 H2]; try done.
  - simpl. lia.
  - simpl. lia.
  - split; [done|]. by exists B'.
Qed.

(** the right leaf takes the last record of the left one *)
Lemma leaf_rot_right_ok :
  num_keys R = 127 → 129 ≤ num_keys L →
  tree_inv (<[p := blk_set_key P j (get_key L (num_keys L - 1))]>
              (<[get_child P (j + 1) := blk_leaf_push_front R L]>
                 (<[get_child P j := blk_pop_back L]> h)))
    rt dep G None
  ∧ ∃ B', ord_inv (<[p := blk_set_key P j (get_key L (num_keys L - 1))]>
              (<[get_child P (j + 1) := blk_leaf_push_front R L]>
                 (<[get_child P j := blk_pop_back L]> h)))
            rt G B' first.
Proof.
  intros HnR HnL.
  destruct leaf_step_facts
    as (lo0 & hi0 & HBp & HbL & HbR & Hl & Hr & Hlr & Hlp & Hrp & HokL & HokR & HBl & Hnx).
  destruct (blk_leaf_push_front_spec R L HbR ltac:(lia)) as (HbR' & EnR & _).
  destruct (blk_pop_back_spec L HbL ltac:(lia)) as (HbL' & EnL & _).
  set (B' := <[get_child P j
               := ((cbound P lo0 hi0 j).1, Some (get_key L (num_keys L - 1)))]>
               (<[get_child P (j + 1)
                  := (Some (get_key L (num_keys L - 1)), (cbound P lo0 hi0 (j + 1)).2)]> B)).
  destruct (blk_ok_leaf_rot_right G B B' L R _ _ _ (get_child P (j + 1)) HbL HbR
              ltac:(lia) ltac:(lia) HokL HokR Hnext Hr) as [HokL' HokR'].
  { unfold B'. rewrite lookup_insert_ne by done. rewrite lookup_insert_eq. eauto. }
  { apply Hnx.
    - intros y H1 H2. unfold B'. by rewrite !lookup_insert_ne.
    - unfold B'. rewrite lookup_insert_eq. eauto.
    - done. }
  destruct (rotate_ok h rt dep G B first p O P lo0 hi0 j x HT HM HO Hp HP HBp Hj Hx
              (blk_pop_back L) (blk_leaf_push_front R L) (get_key L (num_keys L - 1)))
    as [H1 H2]; try done.
  - simpl. lia.
  - simpl. lia.
  - split; [done|]. by exists B'.
Qed.

(** the right leaf is merged into the left one *)
Lemma leaf_merge_ok :
  num_keys L + num_keys R = 255 →
  tree_str (<[p := blk_index_remove P (j + 1) (num_keys P)]>
              (<[get_child P j := blk_merge_leaves L R]>
                 (base.delete (get_child P (j + 1)) h)))
    rt dep (base.delete (get_child P (j + 1)) G)
  ∧ mins_but [p]
      (<[p := blk_index_remove P (j + 1) (num_keys P)]>
         (<[get_child P j := blk_merge_leaves L R]>
            (base.delete (get_child P (j + 1)) h)))
      rt dep (base.delete (get_child P (j + 1)) G)
  ∧ ∃ B', ord_inv (<[p := blk_index_remove P (j + 1) (num_keys P)]>
              (<[get_child P j := blk_merge_leaves L R]>
                 (base.delete (get_child P (j + 1)) h)))
            rt (base.delete (get_child P (j + 1)) G) B' first.
Proof.
  intros Hn.
  destruct leaf_step_facts
    as (lo0 & hi0 & HBp & HbL & HbR & Hl & Hr & Hlr & Hlp & Hrp & HokL & HokR & HBl & Hnx).
  destruct (blk_merge_leaves_spec L R HbL HbR ltac:(lia)) as (HbL' & EnL & _).
  set (B' := <[get_child P j := ((cbound P lo0 hi0 j).1, (cbound P lo0 hi0 (j + 1)).2)]> B).
  pose proof (blk_ok_leaf_merge G (base.delete (get_child P (j + 1)) G) B B' L R _ _ _
                HbL HbR ltac:(lia) HokL HokR) as HokL'.
  destruct (merge_ok h rt dep G B first p O P lo0 hi0 j x HT HM HO Hp HP HBp Hj Hx
              (blk_merge_leaves L R)) as (H1 & H2 & H3); try done.
  - apply HokL'. apply Hnx.
    + intros y Hy1 Hy2. unfold B'. by rewrite !lookup_insert_ne.
    + unfold B'. rewrite lookup_insert_eq. eauto.
    + intros y Hy. by rewrite lookup_delete_ne.
  - simpl. lia.
  - split; [done|]. split; [done|]. by exists B'.
Qed.
End leaf_step.

(** ** The record has been taken out of its leaf *)

Lemma record_removed_facts w G B k leaf lb cs i :
  located w G k leaf lb → Ord w G B → chain (cursors w) (cursor_list (tree w)) cs →
  0 ≤ i < num_keys lb →
  let h1 := <[leaf := blk_remove_record lb i]> (pages w) in
  tree_str h1 (root (tree w)) (Z.to_nat (depth (tree w))) G
  ∧ mins_but [leaf] h1 (root (tree w)) (Z.to_nat (depth (tree w))) G
  ∧ ord_inv h1 (root (tree w)) G B (leaves (tree w))
  ∧ (∀ x y, stored h1 G x y ↔ x ≠ get_key lb i ∧ stored (pages w) G x y)
  ∧ chain (cursors (record_removed w leaf lb i cs))
      (cursor_list (tree (record_removed w leaf lb i cs))) cs
  ∧ (∀ j, (j < Z.to_nat (depth (tree w)))%nat →
       frame_ok h1 G (Z.to_nat (depth (tree w))) k (cur_path w) leaf j).
Proof.
  intros Hloc HO Hch Hi h1. pose proof Hloc as [HI Hfr Hlb Hblk Hpath].
  destruct (located_descend _ _ _ _ _ Hloc) as [Hdesc HGl].
  pose proof (inv_tree _ _ HI) as HTI.
  pose proof (proj1 (tree_inv_str _ _ _ _) HTI) as [HS HMn].
  destruct (blk_remove_record_spec lb i Hblk Hi) as (Hblk1 & En1 & _).
  destruct (oi_node _ _ _ _ _ HO leaf _ HGl) as (lo & hi & b0 & HBl & Hb0 & Hokl).
  assert (b0 = lb) as -> by congruence.
  split; [|split; [|split; [|split; [|split]]]].
  - eapply str_update; [done..|]. done.
  - eapply (mins_but_insert [] [leaf]); [exact HMn| |].
    + intros x _ _. apply not_elem_of_nil.
    + intros Hin. destruct Hin. by apply list_elem_of_singleton.
  - eapply ord_inv_update_leaf; [exact HO|done|done|].
    intros lo' hi' _ Hok'. by apply blk_ok_remove_record.
  - intros x y. unfold h1.
    rewrite (stored_at_leaf _ G leaf _ x y HGl (lookup_insert_eq _ _ _)).
    rewrite (stored_at_leaf _ G leaf lb x y HGl Hlb).
    rewrite stored_off_insert.
    rewrite (in_blk_remove_record lb i x y Hblk) by (done || apply Hokl).
    split.
    + intros [[? ?]|Hs]; [split; [done|by left]|]. split; [|by right].
      intros ->. destruct Hs as (a & b & j & Hne & Ha & Hb & Hj & Hkj & Hv).
      destruct (stored_found (pages w) _ _ G B _ HTI HO a b j Ha Hb Hj) as [Hd _].
      destruct (stored_found (pages w) _ _ G B _ HTI HO leaf lb i HGl Hlb Hi) as [Hd' _].
      rewrite Hkj in Hd. congruence.
    + intros [Hne [?|?]]; [by left|by right].
  - simpl. apply chain_on_cursors; [apply delete_fix_next|by eapply chain_NoDup|done].
  - intros j Hj. destruct Hfr as (Hfr & _).
    eapply (frame_ok_stable (pages w) _ G G); [by apply Hfr|exact Hj|done|].
    intros a n Ha Hn. split; [|done]. unfold h1. rewrite lookup_insert_ne; [done|].
    intros <-. simplify_eq. lia.
Qed.

(** the records of the leaves are the same when the leaves are *)
Lemma stored_same_leaves h h' G G' :
  (∀ a, G !! a = Some O → G' !! a = Some O ∧ h' !! a = h !! a) →
  (∀ a n, G' !! a = Some n → G !! a = Some n) →
  ∀ x y, stored h' G' x y ↔ stored h G x y.
Proof.
  intros H1 H2 x y. split.
  - intros (a & b & i & Ha & Hb & Hrest). apply H2 in Ha.
    destruct (H1 a Ha) as [_ Hh]. rewrite Hh in Hb. by exists a, b, i.
  - intros (a & b & i & Ha & Hb & Hrest). destruct (H1 a Ha) as [Ha' Hh].
    exists a, b, i. by rewrite Hh.
Qed.

(** two leaves have shared their records anew *)
Lemma stored_rotated h h' G l r L R L' R' :
  h !! l = Some L → h !! r = Some R → G !! l = Some O → G !! r = Some O → l ≠ r →
  h' !! l = Some L' → h' !! r = Some R' →
  (∀ a, a ≠ l → a ≠ r → G !! a = Some O → h' !! a = h !! a) →
  (∀ x y, in_blk L' x y ∨ in_blk R' x y ↔ in_blk L x y ∨ in_blk R x y) →
  ∀ x y, stored h' G x y ↔ stored h G x y.
Proof.
  intros HL HR Hl Hr Hlr HL' HR' Hh Hrec.
  apply (stored_two h h' G G l r L R); try done.
  intros x y. rewrite <- Hrec. split.
  - intros [(_ & b & Hb & ?)|(_ & b & Hb & ?)]; simplify_eq; [by left|by right].
  - intros [?|?]; [left|right]; (split; [done|]); eauto.
Qed.

(** the right one of two leaves has gone into the left one *)
Lemma stored_merged h h' G l r L R L' :
  h !! l = Some L → h !! r = Some R → G !! l = Some O → G !! r = Some O → l ≠ r →
  h' !! l = Some L' →
  (∀ a, a ≠ l → a ≠ r → G !! a = Some O → h' !! a = h !! a) →
  (∀ x y, in_blk L' x y ↔ in_blk L x y ∨ in_blk R x y) →
  ∀ x y, stored h' (base.delete r G) x y ↔ stored h G x y.
Proof.
  intros HL HR Hl Hr Hlr HL' Hh Hrec.
  apply (stored_two h h' G (base.delete r G) l r L R); try done.
  - intros a _ Har. by rewrite lookup_delete_ne.
  - intros x y. rewrite <- Hrec. rewrite lookup_delete_eq. split.
    + intros [(_ & b & Hb & ?)|(? & _)]; simplify_eq. done.
    + intros ?. left. rewrite lookup_delete_ne by done. split; [done|]. eauto.
Qed.

(** ** A leaf that has too few records *)

Lemma leaf_underflow_spec w G B k leaf lb cs i :
  located w G k leaf lb → Ord w G B → chain (cursors w) (cursor_list (tree w)) cs →
  0 ≤ i < num_keys lb → 0 < depth (tree w) → num_keys lb ≤ 128 →
  ∃ w' G' B',
    leaf_underflow (record_removed w leaf lb i cs) leaf = Some w'
    ∧ Inv w' G' ∧ Ord w' G' B'
    ∧ (∀ x y, stored (pages w') G' x y
              ↔ stored (<[leaf := blk_remove_record lb i]> (pages w)) G x y)
    ∧ chain (cursors w') (cursor_list (tree w')) cs
    ∧ next_page w' = next_page w ∧ next_cursor w' = next_cursor w
    ∧ leaves (tree w') = leaves (tree w)
    ∧ num_recs (tree w') = u64 (num_recs (tree w) - 1).
Proof.
  intros Hloc HO Hch Hi Hd0 Hnk128.
  destruct (record_removed_facts w G B k leaf lb cs i Hloc HO Hch Hi)
    as (HS1 & HM1 & HO1 & _ & Hch1 & Hfr1).
  pose proof Hloc as [HI Hfr Hlb Hblk Hpath].
  destruct (located_descend _ _ _ _ _ Hloc) as [_ HGl].
  pose proof (Inv_depth_small w G HI) as Hsmall.
  pose proof (inv_tree _ _ HI) as HTI.
  destruct (blk_remove_record_spec lb i Hblk Hi) as (Hblk1 & En1 & _ & _ & Enx1).
  set (lb1 := blk_remove_record lb i) in *.
  set (h1 := <[leaf := lb1]> (pages w)) in *.
  set (w1 := record_removed w leaf lb i cs) in *.
  set (rt := root (tree w)) in *. set (first := leaves (tree w)) in *.
  set (dep := Z.to_nat (depth (tree w))) in *.
  assert (Hdep : depth (tree w) = Z.of_nat dep) by lia.
  assert (Hdep1 : (0 < dep)%nat) by lia.
  assert (Hsmall' : Z.of_nat dep < 4294967296) by lia.
  assert (Hh1l : h1 !! leaf = Some lb1) by apply lookup_insert_eq.
  assert (Hlrt : leaf ≠ rt).
  { intros Heq. pose proof (ti_root _ _ _ _ _ HTI) as Hr.
    fold rt in Hr. rewrite <- Heq in Hr. simplify_eq. lia. }
  assert (Hnk : num_keys lb = 128).
  { pose proof (ti_min _ _ _ _ _ HTI leaf O lb HGl Hlb Hlrt). simpl in *. lia. }
  assert (Hn1 : num_keys lb1 = 127) by lia.
  (* the path *)
  destruct (path (tree w)) as [l|] eqn:Hl.
  2:{ destruct (inv_path _ _ HI) as [_ Hp]. rewrite Hl in Hp. lia. }
  assert (Hcur : cur_path w = l) by (unfold cur_path; by rewrite Hl).
  rewrite Hcur in Hfr1, Hfr.
  destruct (pnode_frame _ _ _ _ _ _ _ (Hfr1 (dep - 1)%nat ltac:(lia)) ltac:(lia))
    as (pn & P & Hpn & _ & HP & HGp & HnkP & Hpos & Hchild).
  assert (Hchild' : get_child P (pn_pos pn) = leaf).
  { rewrite Hchild. unfold pnode. by rewrite decide_True by lia. }
  clear Hchild.
  destruct (scan_index_keys_spec P k) as (Hppos & _). rewrite <- Hpos in Hppos.
  set (p := pn_node pn) in *. set (ppos := pn_pos pn) in *.
  assert (HGp' : G !! p = Some 1%nat).
  { rewrite HGp. f_equal. lia. }
  assert (Hpl : p ≠ leaf) by (intros Heq; rewrite Heq in HGp'; simplify_eq).
  assert (HPw : pages w !! p = Some P).
  { unfold h1 in HP. by rewrite lookup_insert_ne in HP. }
  pose proof (num_keys_range P) as HrgP.
  assert (HnkP1 : 1 ≤ num_keys P).
  { exact (ti_at_least_two HTI p O P HGp' HPw). }
  assert (HblkP : blk P).
  { destruct (ts_blk _ _ _ _ HS1 p _ HGp') as (P0 & HP0 & ?). congruence. }
  assert (Hpeer : ∀ c, 0 ≤ c ≤ num_keys P →
            G !! get_child P c = Some O
            ∧ ∃ X, h1 !! get_child P c = Some X ∧ blk X
                   ∧ (get_child P c ≠ leaf → 128 ≤ num_keys X)).
  { intros c Hc.
    pose proof (str_child _ _ _ _ p O P c HS1 HGp' HP Hc) as HGc.
    split; [done|]. destruct (ts_blk _ _ _ _ HS1 _ _ HGc) as (X & HX & HbX).
    exists X. split; [done|]. split; [done|]. intros Hne.
    destruct HM1 as [HM1 _].
    assert (min_keys O ≤ num_keys X); [|done].
    eapply HM1; [done..| |].
    - intros Heq. pose proof (ts_root _ _ _ _ HS1) as Hr. rewrite <- Heq in Hr.
      simplify_eq. lia.
    - intros Hin. by apply list_elem_of_singleton in Hin. }
  assert (Hinj : ∀ c, 0 ≤ c ≤ num_keys P → c ≠ ppos → get_child P c ≠ leaf).
  { intros c Hc Hne Heq. rewrite <- Hchild' in Heq.
    apply (str_child_inj _ _ _ _ p O P c ppos HS1 HGp' HP) in Heq; lia. }
  (* the chain of the leaves *)
  assert (Hnz : ∀ a b, pages w !! a = Some b → a ≠ 0).
  { intros a b Hab. apply (inv_pages _ _ HI) in Hab. lia. }
  assert (Hchain : ∀ j Lb, 0 ≤ j < num_keys P → h1 !! get_child P j = Some Lb →
            next_leaf Lb = get_child P (j + 1)
            ∧ ∀ z bz, G !! z = Some O → h1 !! z = Some bz → z ≠ get_child P j →
                next_leaf bz ≠ get_child P (j + 1)).
  { intros j Lb Hj HLb.
    assert (∃ Lb0, pages w !! get_child P j = Some Lb0 ∧ next_leaf Lb = next_leaf Lb0)
      as (Lb0 & HLb0 & Hnx0).
    { destruct (decide (get_child P j = leaf)) as [Heq|Hne].
      - rewrite Heq in HLb |- *. exists lb. split; [done|]. congruence.
      - unfold h1 in HLb. rewrite lookup_insert_ne in HLb by done. eauto. }
    destruct (leaf_chain_peers (pages w) rt dep G B first p P j Lb0 HTI HO Hnz HGp' HPw
                Hj HLb0) as [H1 H2].
    split; [congruence|]. intros z bz Hz Hbz Hne.
    destruct (decide (z = leaf)) as [->|Hzl].
    - assert (bz = lb1) as -> by congruence. rewrite Enx1. by apply (H2 leaf lb).
    - unfold h1 in Hbz. rewrite lookup_insert_ne in Hbz by done. by apply (H2 z bz). }
  (* the world *)
  assert (Hpw1 : path (tree w1) = Some l) by done.
  assert (Hdw1 : 0 < depth (tree w1) < 4294967296) by (unfold w1; simpl; lia).
  assert (Hpn1 : l !! Z.to_nat (depth (tree w1) - 1) = Some pn).
  { unfold w1. simpl. replace (Z.to_nat (depth (tree w) - 1)) with (dep - 1)%nat by lia.
    done. }
  assert (Hsub1 : ∀ a, is_Some (h1 !! a) → is_Some (pages w !! a)).
  { intros a. unfold h1. destruct (decide (a = leaf)) as [->|].
    - intros _. eauto.
    - by rewrite lookup_insert_ne. }
  assert (Hinv : ∀ w' G',
            tree_inv (pages w') (root (tree w')) (Z.to_nat (depth (tree w'))) G' None →
            0 ≤ depth (tree w') → path_ok (tree w') →
            (∀ a, is_Some (pages w' !! a) → is_Some (h1 !! a)) →
            next_page w' = next_page w → Inv w' G').
  { intros w' G' H1 H2 H3 H4 H5. split; try done.
    - intros a b Hab. rewrite H5. destruct (Hsub1 a) as [b' Hb'].
      + apply H4. eauto.
      + by apply (inv_pages _ _ HI a b').
    - rewrite H5. apply HI. }
  (* after a rotation *)
  assert (Hfin : ∀ h' B' f,
            tree_inv h' rt dep G None → ord_inv h' rt G B' first →
            (∀ c, bc_next (f c) = bc_next c) →
            (∀ a, is_Some (h' !! a) → is_Some (h1 !! a)) →
            (∀ x y, stored h' G x y ↔ stored h1 G x y) →
            ∃ w' G' B',
              Some (with_cursors (with_pages w1 h') (on_cursors f cs (cursors w1)))
              = Some w'
              ∧ Inv w' G' ∧ Ord w' G' B'
              ∧ (∀ x y, stored (pages w') G' x y ↔ stored h1 G x y)
              ∧ chain (cursors w') (cursor_list (tree w')) cs
              ∧ next_page w' = next_page w ∧ next_cursor w' = next_cursor w
              ∧ leaves (tree w') = leaves (tree w)
              ∧ num_recs (tree w') = u64 (num_recs (tree w) - 1)).
  { intros h' B' f H1 H2 H3 H4 H5.
    exists (with_cursors (with_pages w1 h') (on_cursors f cs (cursors w1))), G, B'.
    split; [done|]. split.
    { apply Hinv; try done.
      - unfold w1. simpl. lia.
      - apply HI. }
    split; [done|]. split; [done|]. split; [|done].
    simpl. apply chain_on_cursors; [done|by eapply chain_NoDup|exact Hch1]. }
  (* after a merge the parent has to give up a child *)
  assert (Hmerge : ∀ Lx Rx j,
            0 ≤ j < num_keys P →
            h1 !! get_child P j = Some Lx → h1 !! get_child P (j + 1) = Some Rx →
            leaf = get_child P j ∨ leaf = get_child P (j + 1) →
            num_keys Lx + num_keys Rx = 255 →
            ∃ w' G' B',
              shrink_index_ancestors (dep - 1) (j + 1)
                (leaves_merged w1 (get_child P j) (get_child P (j + 1)) Lx Rx cs) = Some w'
              ∧ Inv w' G' ∧ Ord w' G' B'
              ∧ (∀ x y, stored (pages w') G' x y ↔ stored h1 G x y)
              ∧ chain (cursors w') (cursor_list (tree w')) cs
              ∧ next_page w' = next_page w ∧ next_cursor w' = next_cursor w
              ∧ leaves (tree w') = leaves (tree w)
              ∧ num_recs (tree w') = u64 (num_recs (tree w) - 1)).
  { intros Lx Rx j Hj HLx HRx Hx Hsum.
    destruct (Hpeer j ltac:(lia)) as (Hgl & _).
    destruct (Hpeer (j + 1) ltac:(lia)) as (Hgr & _).
    destruct (Hchain j Lx Hj HLx) as [Hnx Hun].
    assert (Hlr : get_child P j ≠ get_child P (j + 1)).
    { intros Heq. apply (str_child_inj _ _ _ _ p O P j (j + 1) HS1 HGp' HP) in Heq; lia. }
    destruct (leaf_merge_ok h1 rt dep G B first p P j leaf Lx Rx HS1 HM1 HO1 HGp' HP Hj Hx
                HLx HRx Hun Hsum) as (H1 & H2 & B2 & H3).
    assert (HbLx : blk Lx).
    { destruct (ts_blk _ _ _ _ HS1 _ _ Hgl) as (X & HX & ?). congruence. }
    assert (HbRx : blk Rx).
    { destruct (ts_blk _ _ _ _ HS1 _ _ Hgr) as (X & HX & ?). congruence. }
    set (lp := get_child P j) in *. set (rp := get_child P (j + 1)) in *.
    assert (Hlpp : lp ≠ p) by (intros Heq; rewrite Heq in Hgl; simplify_eq).
    assert (Hrpp : rp ≠ p) by (intros Heq; rewrite Heq in Hgr; simplify_eq).
    set (w2 := leaves_merged w1 lp rp Lx Rx cs).
    assert (Hpg2 : pages w2 = <[lp := blk_merge_leaves Lx Rx]> (base.delete rp h1)).
    { unfold w2, leaves_merged. simpl. by rewrite delete_insert_ne. }
    assert (HP2 : pages w2 !! p = Some P).
    { rewrite Hpg2. rewrite lookup_insert_ne by done. by rewrite lookup_delete_ne. }
    assert (Hfr2 : ∀ c, (c < dep - 1)%nat →
              frame_ok (pages w2) (base.delete rp G) dep k l leaf c).
    { intros c Hc. eapply (frame_ok_stable h1 _ G); [apply Hfr1; lia|exact Hc|lia|].
      intros a n Ha Hn.
      assert (Hne : ∀ y, G !! y = Some O → y ≠ a).
      { intros y Hy ->. simplify_eq. lia. }
      split.
      - rewrite Hpg2. rewrite lookup_insert_ne by (by apply Hne).
        rewrite lookup_delete_ne by (by apply Hne). done.
      - rewrite lookup_delete_ne by (by apply Hne). done. }
    assert (HGp2 : base.delete rp G !! pn_node pn = Some (dep - (dep - 1))%nat).
    { rewrite lookup_delete_ne by done. exact HGp. }
    assert (HminP : (dep - 1)%nat ≠ O → 127 ≤ num_keys P).
    { intros Hd'. destruct HM1 as [HM1 _].
      assert (min_keys 1 ≤ num_keys P); [|simpl in *; lia].
      eapply HM1; [done..| |].
      + intros Heq. pose proof (ts_root _ _ _ _ HS1) as Hr. rewrite <- Heq in Hr.
        simplify_eq. lia.
      + intros Hin. apply list_elem_of_singleton in Hin. done. }
    rewrite <- Hpg2 in H1, H2, H3.
    destruct (shrink_spec dep k leaf first l Hsmall' (dep - 1) w2 (base.delete rp G) B2
                (j + 1) pn P ltac:(lia) Hdep Hl ltac:(apply HI) Hfr2
                ltac:(apply Hfr) Hpn HP2 HblkP HGp2 HnkP ltac:(lia) HminP H1 H2 H3)
      as (w' & G' & B' & Hrun & HT' & HO' & Hsh).
    destruct Hsh as (S1 & S2 & S3 & S4 & S5 & S6 & S7 & S8 & S9 & S10 & S11).
    exists w', G', B'. split; [done|]. split.
    { apply Hinv; try done.
      intros a Ha. apply S3 in Ha. rewrite Hpg2 in Ha.
      apply lookup_insert_is_Some' in Ha as [<-|Ha]; [eauto|].
      apply lookup_delete_is_Some in Ha. apply Ha. }
    split. { unfold Ord. rewrite S8. exact HO'. }
    split.
    { intros x y.
      rewrite (stored_same_leaves (pages w2) (pages w') (base.delete rp G) G' S10 S11 x y).
      rewrite Hpg2.
      apply (stored_merged h1 _ G lp rp Lx Rx (blk_merge_leaves Lx Rx)
               HLx HRx Hgl Hgr Hlr).
      - apply lookup_insert_eq.
      - intros a Hal Har _. rewrite lookup_insert_ne by done.
        by rewrite lookup_delete_ne.
      - intros x' y'. apply in_blk_merge; [done..|lia]. }
    split.
    { rewrite S5, S7. unfold w2, leaves_merged. simpl.
      apply chain_on_cursors; [apply merge_fix_next|by eapply chain_NoDup|exact Hch1]. }
    rewrite S4, S6, S8, S9. done. }
  assert (Hrest : (ppos < num_keys P →
              ∃ R, h1 !! get_child P (ppos + 1) = Some R ∧ num_keys R ≤ 128) →
            ∃ w' G' B',
              leaf_underflow w1 leaf = Some w'
              ∧ Inv w' G' ∧ Ord w' G' B'
              ∧ (∀ x y, stored (pages w') G' x y ↔ stored h1 G x y)
              ∧ chain (cursors w') (cursor_list (tree w')) cs
              ∧ next_page w' = next_page w ∧ next_cursor w' = next_cursor w
              ∧ leaves (tree w') = leaves (tree w)
              ∧ num_recs (tree w') = u64 (num_recs (tree w) - 1)).
  2:{ destruct (decide (ppos < num_keys P)) as [Hlt|Hge]; [|apply Hrest; lia].
      destruct (Hpeer (ppos + 1) ltac:(lia)) as (Hr & R & HR & HbR & HminR).
      destruct (decide (128 < num_keys R)) as [HnR|HnR];
        [|apply Hrest; intros _; exists R; split; [done|lia]].
      (* rotate from the right peer *)
      assert (Hri : get_child P (ppos + 1) ≠ leaf) by (apply Hinj; lia).
      assert (Hrp : get_child P (ppos + 1) ≠ p).
      { intros Heq. rewrite Heq in Hr. simplify_eq. }
      rewrite (leaf_rotate_left_run w1 leaf l pn lb1 R P cs Hpw1 Hdw1 Hpn1
                 ltac:(rewrite HnkP; exact Hlt) Hh1l HP HR HnR
                 (not_eq_sym Hpl) (not_eq_sym Hri) Hrp Hch1).
      assert (HLc : h1 !! get_child P ppos = Some lb1) by (by rewrite Hchild').
      destruct (Hchain ppos lb1 ltac:(lia) HLc) as [Hnx Hun].
      destruct (leaf_rot_left_ok h1 rt dep G B first p P ppos leaf lb1 R HS1 HM1 HO1 HGp' HP
                  ltac:(lia) ltac:(by left; symmetry) HLc HR Hnx Hun Hn1 ltac:(lia))
        as [H1 (B' & H2)].
      rewrite Hchild' in H1, H2.
      destruct (blk_leaf_pop_front_spec R HbR ltac:(lia)) as (_ & _ & EkR & _).
      assert (Ekey : rd (blk_leaf_pop_front R) KEY_0 = get_key R 1).
      { change (rd (blk_leaf_pop_front R) KEY_0) with (get_key (blk_leaf_pop_front R) 0).
        rewrite EkR by lia. done. }
      rewrite Ekey.
      apply (Hfin _ B' _ H1 H2).
      - apply rotate_left_fix_next.
      - intros a. rewrite !lookup_insert_is_Some'. intros [<-|[<-|[<-|?]]]; eauto.
      - apply (stored_rotated h1 _ G leaf (get_child P (ppos + 1)) lb1 R
                 (blk_leaf_push_back lb1 R) (blk_leaf_pop_front R)
                 Hh1l HR HGl Hr (not_eq_sym Hri)).
        + rewrite lookup_insert_ne by done. rewrite lookup_insert_ne by done.
          apply lookup_insert_eq.
        + rewrite lookup_insert_ne by done. apply lookup_insert_eq.
        + intros a Hal Har Ha. rewrite !lookup_insert_ne; [done|done|done|].
          intros <-. simplify_eq.
        + intros x y. apply in_blk_rot_left; [done..|lia]. }
  intros Hnor.
  assert (Hnor' : pn_pos pn < pn_num_keys pn →
            ∃ R, pages w1 !! get_child P (pn_pos pn + 1) = Some R ∧ num_keys R ≤ 128).
  { rewrite HnkP. exact Hnor. }
  destruct (decide (0 < ppos)) as [Hpp|Hp0].
  - destruct (Hpeer (ppos - 1) ltac:(lia)) as (Hlp & Lp & HLp & HbLp & HminL).
    pose proof (num_keys_range Lp) as HrgLp.
    assert (Hli : get_child P (ppos - 1) ≠ leaf) by (apply Hinj; lia).
    assert (Hlpp : get_child P (ppos - 1) ≠ p).
    { intros Heq. rewrite Heq in Hlp. simplify_eq. }
    assert (HRl : h1 !! get_child P (ppos - 1 + 1) = Some lb1).
    { replace (ppos - 1 + 1) with ppos by lia. by rewrite Hchild'. }
    specialize (HminL Hli).
    destruct (decide (128 < num_keys Lp)) as [HnL|HnL].
    + (* rotate from the left peer *)
      rewrite (leaf_rotate_right_run w1 leaf l pn lb1 Lp P cs Hpw1 Hdw1 Hpn1
                 Hh1l HP Hnor' Hpp HLp HnL
                 (not_eq_sym Hpl) (not_eq_sym Hli) Hlpp Hch1).
      destruct (Hchain (ppos - 1) Lp ltac:(lia) HLp) as [Hnx Hun].
      destruct (leaf_rot_right_ok h1 rt dep G B first p P (ppos - 1) leaf Lp lb1
                  HS1 HM1 HO1 HGp' HP
                  ltac:(lia)
                  ltac:(right; replace (ppos - 1 + 1) with ppos by lia; by symmetry)
                  HLp HRl Hnx Hun Hn1 ltac:(lia))
        as [H1 (B' & H2)].
      replace (ppos - 1 + 1) with ppos in H1, H2 by lia.
      rewrite Hchild' in H1, H2.
      destruct (blk_leaf_push_front_spec lb1 Lp Hblk1 ltac:(lia)) as (_ & _ & EkL & _).
      assert (Ekey : rd (blk_leaf_push_front lb1 Lp) KEY_0 = get_key Lp (num_keys Lp - 1)).
      { change (rd (blk_leaf_push_front lb1 Lp) KEY_0)
          with (get_key (blk_leaf_push_front lb1 Lp) 0).
        rewrite EkL by lia. done. }
      rewrite Ekey.
      rewrite (insert_insert_ne h1) by done.
      apply (Hfin _ B' _ H1 H2).
      * apply rotate_right_fix_next.
      * intros a. rewrite !lookup_insert_is_Some'. intros [<-|[<-|[<-|?]]]; eauto.
      * apply (stored_rotated h1 _ G (get_child P (ppos - 1)) leaf Lp lb1
                 (blk_pop_back Lp) (blk_leaf_push_front lb1 Lp)
                 HLp Hh1l Hlp HGl Hli).
        -- rewrite lookup_insert_ne by done. rewrite lookup_insert_ne by done.
           apply lookup_insert_eq.
        -- rewrite lookup_insert_ne by done. apply lookup_insert_eq.
        -- intros a Hal Har Ha. rewrite !lookup_insert_ne; [done|done|done|].
           intros <-. simplify_eq.
        -- intros x y. apply in_blk_rot_right; [done|done|lia|lia].
    + (* merge into the left peer *)
      rewrite (leaf_merge_left_run w1 leaf l pn lb1 Lp P cs Hpw1 Hdw1 Hpn1
                 Hh1l HP Hnor' Hpp HLp ltac:(lia) (not_eq_sym Hli) Hch1).
      destruct (Hmerge Lp lb1 (ppos - 1) ltac:(lia) HLp HRl
                  ltac:(right; replace (ppos - 1 + 1) with ppos by lia; by symmetry)
                  ltac:(lia))
        as (w' & G' & B'' & Hrun & Hres).
      exists w', G', B''. split; [|done]. rewrite <- Hrun.
      replace (ppos - 1 + 1) with ppos by lia. rewrite Hchild'.
      f_equal. unfold w1. simpl. lia.
  - (* the leaf is the first child: merge the right peer into it *)
    assert (Hp0' : ppos = 0) by lia.
    destruct (Hnor ltac:(lia)) as (R & HR & HnR).
    pose proof (num_keys_range R) as HrgR.
    rewrite Hp0' in HR, Hchild'. change (0 + 1) with 1 in HR.
    assert (Hri : get_child P 1 ≠ leaf) by (apply Hinj; lia).
    destruct (Hpeer 1 ltac:(lia)) as (_ & R' & HR' & _ & HminR).
    assert (R' = R) as -> by congruence. specialize (HminR Hri).
    rewrite (leaf_merge_right_run w1 leaf l pn lb1 R P cs Hpw1 Hdw1 Hpn1
               Hh1l HP Hp0' ltac:(rewrite HnkP; lia) HR HnR (not_eq_sym Hri) Hch1).
    destruct (Hmerge lb1 R 0 ltac:(lia) ltac:(by rewrite Hchild') HR
                ltac:(left; by symmetry) ltac:(lia))
      as (w' & G' & B'' & Hrun & Hres).
    exists w', G', B''. split; [|done]. rewrite <- Hrun.
    change (0 + 1) with 1. rewrite Hchild'.
    f_equal. unfold w1. simpl. lia.
Qed.

(** ** [delete] *)

Lemma delete_spec w G B k cs :
  Inv w G → Ord w G B → chain (cursors w) (cursor_list (tree w)) cs →
  ∃ e w', delete k w = Some (e, w')
    ∧ (e = NOMEM ∧ path_reserved w = (NOMEM, w')
       ∨ e = NOTFOUND ∧ (path_reserved w).1 = OK
           ∧ (∀ v, ¬ stored (pages w) G k v) ∧ same_contents w w'
           ∧ next_page w' = next_page w
       ∨ e = OK ∧ (path_reserved w).1 = OK ∧ (∃ v, stored (pages w) G k v)
           ∧ ∃ G' B', Inv w' G' ∧ Ord w' G' B'
               ∧ (∀ x y, stored (pages w') G' x y ↔ x ≠ k ∧ stored (pages w) G x y)
               ∧ chain (cursors w') (cursor_list (tree w')) cs
               ∧ next_page w' = next_page w
               ∧ leaves (tree w') = leaves (tree w)
               ∧ num_recs (tree w') = u64 (num_recs (tree w) - 1)).
Proof.
  intros HI HO Hch.
  destruct (locate w G k HI)
    as (e & w0 & Hpr & Hs0 & Hnp0
        & [->|(-> & leaf & w1 & lb & Hfl & Hloc & Hs1 & Hnp1)]).
  - exists NOMEM, w0. split; [|by left].
    unfold delete. rewrite Hpr. done.
  - pose proof Hloc as [HI1 Hfr1 Hlb Hblk Hpath].
    pose proof Hs1 as (Hpg & Hcu & Hrt & Hlv & Hdp & Hcl & Hnr & _).
    assert (HO1 : Ord w1 G B) by (by eapply Ord_same).
    assert (Hch1 : chain (cursors w1) (cursor_list (tree w1)) cs).
    { rewrite Hcu, Hcl. done. }
    rewrite (delete_unfold k w w0 leaf w1 lb Hpr Hfl Hlb).
    destruct (located_descend _ _ _ _ _ Hloc) as [Hdesc HGl].
    destruct (scan_leaf_keys_spec lb k) as (Hr & _).
    destruct (decide (scan_leaf_keys lb k < num_keys lb
                      ∧ get_key lb (scan_leaf_keys lb k) = k)) as [[Hlt Hk]|Hnf].
    2:{ rewrite (delete_missing_run w1 k leaf lb Hnf).
        exists NOTFOUND, w1. split; [done|]. right; left.
        split; [done|]. split; [by rewrite Hpr|]. split; [|done].
        intros v (a & b & j & Ha & Hb & Hj & Hkj & Hv).
        destruct (stored_found (pages w) _ _ G B _ (inv_tree _ _ HI) HO a b j Ha Hb Hj)
          as [Hd Hs].
        rewrite Hkj in Hd, Hs. rewrite <- Hpg, <- Hdp, <- Hrt in Hd.
        assert (a = leaf) as -> by congruence.
        rewrite <- Hpg in Hb. assert (b = lb) as -> by congruence.
        apply Hnf. rewrite Hs. split; [lia|done]. }
    rewrite (delete_found_run w1 k leaf lb cs Hlb Hblk Hlt Hk Hch1).
    set (i := scan_leaf_keys lb k) in *.
    assert (Hi : 0 ≤ i < num_keys lb) by lia.
    destruct (record_removed_facts w1 G B k leaf lb cs i Hloc HO1 Hch1 Hi)
      as (HS1 & HM1 & HOr & Hst & Hchr & _).
    assert (Hhas : ∃ v, stored (pages w) G k v).
    { exists (get_value lb i). rewrite <- Hpg. exists leaf, lb, i. done. }
    destruct (blk_remove_record_spec lb i Hblk Hi) as (Hblk1 & En1 & _).
    destruct ((0 <? depth (tree w1)) && (num_keys lb <=? 128)) eqn:E.
    + apply andb_true_iff in E as [E1 E2]. apply Z.ltb_lt in E1. apply Z.leb_le in E2.
      destruct (leaf_underflow_spec w1 G B k leaf lb cs i Hloc HO1 Hch1 Hi E1 E2)
        as (w' & G' & B' & Hrun & HI' & HO' & Hst' & Hch' & N1 & N2 & N3 & N4).
      rewrite Hrun. exists OK, w'. split; [done|]. right; right.
      split; [done|]. split; [by rewrite Hpr|]. split; [done|]. exists G', B'.
      split; [done|]. split; [done|].
      split. { intros x y. rewrite Hst', Hst, Hk, Hpg. done. }
      split; [done|]. rewrite N1, N3, N4, Hnp1, Hlv, Hnr. done.
    + exists OK, (record_removed w1 leaf lb i cs). split; [done|]. right; right.
      split; [done|]. split; [by rewrite Hpr|]. split; [done|]. exists G, B.
      assert (Hbig : depth (tree w1) ≤ 0 ∨ 128 < num_keys lb).
      { apply andb_false_iff in E as [E|E]; [left; by apply Z.ltb_ge|right].
        apply Z.leb_gt in E. done. }
      split.
      { split.
        - simpl. apply tree_inv_str. split; [exact HS1|].
          destruct HM1 as [M1 M2]. split.
          + intros a n ba Ha Hba Hne _. destruct (decide (a = leaf)) as [->|Hal].
            * rewrite lookup_insert_eq in Hba. injection Hba as <-.
              assert (n = O) as -> by congruence. simpl.
              destruct Hbig as [Hd0|?]; [|lia].
              destruct Hne.
              apply (top_is_root _ _ _ G B (leaves (tree w1)) leaf HS1 HOr).
              rewrite HGl. f_equal. pose proof (inv_depth _ _ HI1). lia.
            * apply (M1 a n ba Ha Hba Hne). intros Hin.
              by apply list_elem_of_singleton in Hin.
          + intros ba Hba Hd _. apply (M2 ba Hba Hd). intros Hin.
            apply list_elem_of_singleton in Hin.
            pose proof (ts_root _ _ _ _ HS1) as Hroot. rewrite Hin in Hroot.
            simplify_eq; lia.
        - apply HI1.
        - intros a b. simpl. destruct (decide (a = leaf)) as [->|Hal].
          + intros _. by apply (inv_pages _ _ HI1 leaf lb).
          + rewrite lookup_insert_ne by done. apply (inv_pages _ _ HI1).
        - apply HI1.
        - apply HI1. }
      split; [exact HOr|].
      split. { intros x y. rewrite Hst, Hk, Hpg. done. }
      split; [done|]. simpl. rewrite Hnp1, Hlv, Hnr. done.
Qed.

(** [delete] as the removal of a key from a map: what it answers and
    what the tree holds afterwards *)
Lemma delete_map_step w k cs :
  search_tree w → registry w = Some cs →
  ∃ e w', delete k w = Some (e, w')
    ∧ (e = NOMEM ↔ path_length (tree w) < depth (tree w) ∧ (grant w).1 = false)
    ∧ (e = NOMEM ∧ same_contents w w'
         ∧ path (tree w') = None ∧ path_length (tree w') = depth (tree w)
       ∨ e = NOTFOUND ∧ (∀ v, ¬ holds w k v) ∧ same_contents w w'
       ∨ e = OK ∧ (∃ v, holds w k v) ∧ search_tree w' ∧ registry w' = Some cs
           ∧ (∀ x y, holds w' x y ↔ x ≠ k ∧ holds w x y)
           ∧ num_recs (tree w') = u64 (num_recs (tree w) - 1)
           ∧ next_page w' = next_page w
           ∧ leaves (tree w') = leaves (tree w)).
Proof.
  intros (G & B & HI & HO) Hreg. apply registry_chain in Hreg.
  destruct (delete_spec w G B k cs HI HO Hreg) as (e & w' & Hrun & Hcase).
  exists e, w'. split; [done|].
  assert (Hok : (path_reserved w).1 = OK →
            ¬ (path_length (tree w) < depth (tree w) ∧ (grant w).1 = false)).
  { intros Hp Hc. apply path_reserved_nomem in Hc. congruence. }
  destruct Hcase as [[-> Hpr]|[(-> & Hp & Hno & Hs & _)|(-> & Hp & [v0 Hv0] & G' & B' & HI'
                       & HO' & Hst & Hch & Hnp & Hlv & Hnr)]].
  - destruct (path_reserved_failed w w' Hpr) as (H1 & H2 & H3 & H4 & H5).
    split; [done|]. left. done.
  - split; [split; [done|]; intros Hc; by destruct (Hok Hp)|].
    right; left. split; [done|]. split; [|done].
    intros v Hv. apply (Hno v). by apply (holds_stored w G B).
  - split; [split; [done|]; intros Hc; by destruct (Hok Hp)|].
    right; right. split; [done|].
    split; [exists v0; by apply (holds_stored w G B)|].
    split; [by exists G', B'|]. split; [by apply chain_registry|].
    split; [|done].
    intros x y. rewrite (holds_stored w' G' B' x y HI' HO').
    rewrite (holds_stored w G B x y HI HO). apply Hst.
Qed.

(** ** Trees made by insertions *)

Lemma new_tree_search ans w :
  new_bplus_tree ans = Some w → search_tree w ∧ cursor_list (tree w) = 0.
Proof.
  intros Hnew. split.
  - exists {[1 := 0%nat]}, {[1 := (None, None)]}.
    split; [exact (proj1 (Inv_new ans w Hnew))|exact (Ord_new ans w Hnew)].
  - pose proof (new_bplus_tree_spec ans) as H. rewrite Hnew in H.
    destruct H as (_ & _ & _ & _ & -> & _). done.
Qed.

Lemma insert_all_search_tree kvs : ∀ w w',
  search_tree w → insert_all kvs w = Some w' →
  search_tree w' ∧ cursor_list (tree w') = cursor_list (tree w).
Proof.
  induction kvs as [|[k v] kvs IH]; intros w w' Hs Hrun; simpl in Hrun.
  - by injection Hrun as <-.
  - apply bind_Some in Hrun as ([r w1] & Hins & Hrun). simpl in Hrun.
    destruct (decide (r = OK)) as [->|Hne]; [|done].
    destruct Hs as (G & B & HI & HO).
    destruct (insert_ord w G B k v w1 HI HO Hins) as (G' & B' & HI' & HO' & _).
    destruct (proj2 (insert_spec w G k v HI) OK w1 Hins)
      as [[? _]|(_ & G1 & _ & Hcl & _)]; [done|].
    destruct (IH w1 w' ltac:(by exists G', B') Hrun) as [H1 H2].
    split; [done|]. congruence.
Qed.

Lemma search_tree_refuse w : search_tree w → search_tree (refuse w).
Proof.
  intros (G & B & HI & HO). exists G, B. split; [|done].
  eapply Inv_same; [exact HI|done..|]. apply HI.
Qed.

Lemma registry_none w : cursor_list (tree w) = 0 → registry w = Some [].
Proof. intros H. apply chain_registry. rewrite H. constructor. Qed.

(** * Sequences of operations *)

(** ** [delete] asks the allocator for the path array only *)

(** the answers of the allocator that are left after [m] are [o] *)
Definition keeps {A : Type} (pr : A → world) (o : list bool) (m : option A) : Prop :=
  ∀ a, m = Some a → oracle (pr a) = o.

Lemma keeps_ret {A : Type} (pr : A → world) o a :
  oracle (pr a) = o → keeps pr o (Some a).
Proof. intros H a' [= <-]. done. Qed.

Lemma keeps_bind {A B : Type} (pa : A → world) (pb : B → world) o
    (m : option A) (f : A → option B) :
  keeps pa o m → (∀ a, oracle (pa a) = o → keeps pb o (f a)) → keeps pb o (m ≫= f).
Proof.
  intros Hm Hf b Hb. apply bind_Some in Hb as (a & Ha & Hb).
  exact (Hf a (Hm a Ha) b Hb).
Qed.

Lemma keeps_bind_any {A B : Type} (pb : B → world) o (m : option A) (f : A → option B) :
  (∀ a, keeps pb o (f a)) → keeps pb o (m ≫= f).
Proof.
  intros Hf b Hb. apply bind_Some in Hb as (a & Ha & Hb). exact (Hf a b Hb).
Qed.

Lemma keeps_store w p i v o : oracle w = o → keeps id o (store w p i v).
Proof.
  intros H w' Hw. unfold store in Hw. apply bind_Some in Hw as (b & _ & [= <-]). done.
Qed.

Lemma keeps_store_num_keys w p n o : oracle w = o → keeps id o (store_num_keys w p n).
Proof.
  intros H w' Hw. unfold store_num_keys in Hw.
  apply bind_Some in Hw as (b & _ & [= <-]). done.
Qed.

Lemma keeps_wrdmove w dp d sp s n o : oracle w = o → keeps id o (wrdmove w dp d sp s n).
Proof.
  intros H w' Hw. unfold wrdmove in Hw.
  apply bind_Some in Hw as (b & _ & Hw). apply bind_Some in Hw as (b' & _ & [= <-]). done.
Qed.

Lemma keeps_for_cursors body w o : oracle w = o → keeps id o (for_cursors body w).
Proof.
  intros H w' Hw. apply for_cursors_only in Hw. rewrite Hw. done.
Qed.

Lemma keeps_find_leaf k w o : oracle w = o → keeps snd o (find_leaf k w).
Proof.
  intros H [leaf w'] Hw. unfold find_leaf in Hw.
  apply find_leaf_loop_oracle in Hw. simpl. congruence.
Qed.

Ltac keeps_step :=
  match goal with
  | |- oracle _ = _ =>
      unfold dec_num_blks, free_index_block, free_leaf_block, free_page_for_block;
      simpl; first [assumption | reflexivity]
  | |- keeps _ _ (Some _) => apply keeps_ret
  | |- keeps _ _ (store _ _ _ _) => apply keeps_store
  | |- keeps _ _ (store_num_keys _ _ _) => apply keeps_store_num_keys
  | |- keeps _ _ (wrdmove _ _ _ _ _ _) => apply keeps_wrdmove
  | |- keeps _ _ (for_cursors _ _) => apply keeps_for_cursors
  | |- keeps _ _ (find_leaf _ _) => apply keeps_find_leaf
  | |- keeps _ _ (if ?c then _ else _) => destruct c
  | |- keeps _ _ (match ?x with _ => _ end) => destruct x
  | |- keeps _ _ (_ ≫= _) =>
      first [ eapply (keeps_bind (A:=world) id); [|intros ? ?]
            | eapply (keeps_bind (A:=bool * Z * world) snd); [|intros ? ?]
            | eapply (keeps_bind (A:=Z * world) snd); [|intros ? ?]
            | apply keeps_bind_any; intros ? ]
  end.

Lemma keeps_fix_cursor_rotate_left w leaf rpeer o :
  oracle w = o → keeps id o (fix_cursor_rotate_left w leaf rpeer).
Proof. intros H. unfold fix_cursor_rotate_left. by apply keeps_for_cursors. Qed.

Lemma keeps_fix_cursor_rotate_right w lpeer leaf o :
  oracle w = o → keeps id o (fix_cursor_rotate_right w lpeer leaf).
Proof. intros H. unfold fix_cursor_rotate_right. by apply keeps_for_cursors. Qed.

Lemma keeps_fix_cursor_merge w leaf peer nkl o :
  oracle w = o → keeps id o (fix_cursor_merge w leaf peer nkl).
Proof. intros H. unfold fix_cursor_merge. by apply keeps_for_cursors. Qed.

Lemma keeps_merge_index_nodes w l r s o :
  oracle w = o → keeps id o (merge_index_nodes w l r s).
Proof. intros H. unfold merge_index_nodes. repeat keeps_step. Qed.

Lemma keeps_index_underflow w d inode pos0 o :
  oracle w = o → keeps snd o (index_underflow w d inode pos0).
Proof.
  intros H. unfold index_underflow.
  repeat first [apply keeps_merge_index_nodes | keeps_step].
Qed.

Lemma keeps_delete_root w inode o : oracle w = o → keeps id o (delete_root w inode).
Proof. intros H. unfold delete_root. repeat first [progress cbv zeta | keeps_step]. Qed.

Lemma keeps_shrink_index_ancestors d : ∀ pos w o,
  oracle w = o → keeps id o (shrink_index_ancestors d pos w).
Proof.
  induction d as [|d IH]; intros pos w o H; simpl;
    repeat first [apply IH | apply keeps_delete_root | apply keeps_index_underflow
                 | keeps_step].
Qed.

Lemma keeps_merge_leaf_nodes w l r o :
  oracle w = o → keeps id o (merge_leaf_nodes w l r).
Proof.
  intros H. unfold merge_leaf_nodes.
  repeat first [apply keeps_fix_cursor_merge | keeps_step].
Qed.

Lemma keeps_leaf_underflow w leaf o :
  oracle w = o → keeps id o (leaf_underflow w leaf).
Proof.
  intros H. unfold leaf_underflow.
  repeat first [apply keeps_fix_cursor_rotate_left | apply keeps_fix_cursor_rotate_right
               | apply keeps_merge_leaf_nodes | apply keeps_shrink_index_ancestors
               | progress cbv zeta | keeps_step].
Qed.

Lemma delete_oracle k w e w' :
  delete k w = Some (e, w') → oracle w' = oracle (path_reserved w).2.
Proof.
  intros H.
  assert (Hk : keeps snd (oracle (path_reserved w).2) (delete k w)).
  { unfold delete. destruct (path_reserved w) as [ok w0]. simpl.
    repeat first [apply keeps_leaf_underflow | progress cbv zeta | keeps_step]. }
  exact (Hk (e, w') H).
Qed.

(** ** After a refused path array *)

(** [path_reserved] has set the length of the path before it looks at the
    answer of [malloc]: after a refusal the next operation takes the null
    path for one that is long enough, and the descent writes through it *)
Lemma find_leaf_null_path w k :
  path (tree w) = None → 0 < depth (tree w) → find_leaf k w = None.
Proof.
  intros Hp Hd. unfold find_leaf.
  destruct (Z.to_nat (depth (tree w))) as [|n] eqn:E; [lia|]. simpl.
  destruct (pages w !! root (tree w)) as [nb|]; simpl; [|done].
  unfold path_update. rewrite Hp. done.
Qed.

Lemma perform_null_path o w :
  path (tree w) = None → 0 < depth (tree w) ≤ path_length (tree w) →
  perform o w = None.
Proof.
  intros Hp [Hd Hl].
  assert (Hpr : path_reserved w = (OK, w)).
  { unfold path_reserved. rewrite (proj2 (Z.ltb_ge _ _)) by lia. done. }
  destruct o as [k v|k]; simpl.
  - unfold insert. rewrite Hpr. rewrite decide_True by done.
    rewrite (find_leaf_null_path w k Hp Hd). done.
  - unfold delete. rewrite Hpr. rewrite decide_True by done.
    rewrite (find_leaf_null_path w k Hp Hd). done.
Qed.

(** ** How full the nodes are *)

(** Every node [n] levels below the root, for [n] up to the depth, is a
    mapped page.  One that is not the root has at least 127 keys, and at
    least 128 when it is a leaf.  A node above the leaves with [k] keys
    has [k + 1] children: they are mapped pages, no two of them are the
    same, and there are at least 128 of them when the node is not the
    root and at least 2 when it is. *)
Definition filled (w : world) : Prop :=
  ∀ (n : nat) (x : Z),
    (n ≤ Z.to_nat (depth (tree w)))%nat →
    below (pages w) n (root (tree w)) x →
    ∃ b, pages w !! x = Some b
      ∧ ((0 < n)%nat → 127 ≤ num_keys b)
      ∧ ((0 < n)%nat → n = Z.to_nat (depth (tree w)) → 128 ≤ num_keys b)
      ∧ ((n < Z.to_nat (depth (tree w)))%nat →
           length (kids b) = Z.to_nat (num_keys b + 1)
           ∧ NoDup (kids b)
           ∧ (∀ c, c ∈ kids b → is_Some (pages w !! c))
           ∧ 1 ≤ num_keys b).

Lemma below_height h rt dep G n : ∀ a m x,
  tree_inv h rt dep G None →
  G !! a = Some m → (n ≤ m)%nat → below h n a x → G !! x = Some (m - n)%nat.
Proof.
  induction n as [|n IH]; intros a m x HT Ha Hn; simpl.
  - intros ->. rewrite Ha. f_equal. lia.
  - intros (b & c & Hb & Hc & Hx).
    destruct m as [|m]; [lia|].
    pose proof (ti_kids _ _ _ _ _ HT a m b c Ha Hb Hc) as HGc.
    rewrite (IH c m x HT HGc ltac:(lia) Hx). f_equal.
Qed.

Lemma Inv_filled w G : Inv w G → filled w.
Proof.
  intros HI n x Hn Hx.
  pose proof (inv_tree _ _ HI) as HT.
  pose proof (below_height _ _ _ _ n _ _ x HT (ti_root _ _ _ _ _ HT) Hn Hx) as HGx.
  destruct (ti_blk _ _ _ _ _ HT x _ HGx) as (b & Hb & Hblk).
  exists b. split; [done|].
  assert (Hne : (0 < n)%nat → x ≠ root (tree w)).
  { intros H0 ->. pose proof (ti_root _ _ _ _ _ HT) as Hr. rewrite Hr in HGx.
    injection HGx as HGx. lia. }
  split; [|split].
  - intros H0. pose proof (ti_min _ _ _ _ _ HT x _ b HGx Hb (Hne H0)).
    pose proof (min_keys_pos (Z.to_nat (depth (tree w)) - n)). lia.
  - intros H0 ->. rewrite Nat.sub_diag in HGx.
    exact (ti_min _ _ _ _ _ HT x _ b HGx Hb (Hne H0)).
  - intros Hlt.
    destruct (Z.to_nat (depth (tree w)) - n)%nat as [|m] eqn:E; [lia|].
    pose proof (num_keys_range b) as Hr.
    split; [|split; [|split]].
    + unfold kids. rewrite length_fmap, length_seqZ. done.
    + exact (ti_nodup _ _ _ _ _ HT x m b HGx Hb).
    + intros c Hc. pose proof (ti_kids _ _ _ _ _ HT x m b c HGx Hb Hc) as HGc.
      destruct (ti_blk _ _ _ _ _ HT c _ HGc) as (cb & Hcb & _). by exists cb.
    + exact (ti_at_least_two HT x m b HGx Hb).
Qed.

Lemma filled_same w w' :
  pages w' = pages w → root (tree w') = root (tree w) →
  depth (tree w') = depth (tree w) → filled w → filled w'.
Proof. unfold filled. intros -> -> ->. done. Qed.

(** ** One operation *)

Lemma delete_tail_NOTFOUND k leaf lb w w' :
  delete_tail k leaf lb w = Some (NOTFOUND, w') → w' = w.
Proof.
  unfold delete_tail. case_match.
  - intros Hr. apply bind_Some in Hr as (w1 & _ & Hr).
    apply bind_Some in Hr as (w2 & _ & Hr). cbv zeta in Hr.
    apply bind_Some in Hr as (w3 & _ & Hr).
    apply bind_Some in Hr as (w4 & _ & Hr). done.
  - by intros [= <-].
Qed.

(** what an operation leaves behind, whatever the allocator answers *)
Lemma perform_step o w e w' :
  search_tree w → cursor_list (tree w) = 0 → perform o w = Some (e, w') →
  e = NOMEM ∧ same_contents w w' ∧ path (tree w') = None
    ∧ 0 < depth (tree w') ≤ path_length (tree w')
  ∨ e ≠ NOMEM ∧ search_tree w' ∧ cursor_list (tree w') = 0.
Proof.
  intros (G & B & HI & HO) Hcl Hrun.
  assert (Hfail : ∀ w1, path_reserved w = (NOMEM, w1) →
            same_contents w w1 ∧ path (tree w1) = None
            ∧ 0 < depth (tree w1) ≤ path_length (tree w1)).
  { intros w1 Hpr.
    destruct (path_reserved_failed w w1 Hpr) as (Hlt & _ & Hs & Hp & Hl).
    pose proof Hs as (_ & _ & _ & _ & Hd & _).
    destruct (inv_path _ _ HI) as [H0 _].
    split; [done|]. split; [done|]. lia. }
  destruct o as [k v|k]; simpl in Hrun.
  - destruct (proj2 (insert_spec w G k v HI) e w' Hrun)
      as [[-> Hpr]|(-> & G1 & _ & Hcl1 & _)].
    + left. split; [done|]. by apply Hfail.
    + right. split; [done|].
      destruct (insert_ord w G B k v w' HI HO Hrun) as (G' & B' & HI' & HO' & _).
      split; [by exists G', B'|]. by rewrite Hcl1.
  - assert (Hch : chain (cursors w) (cursor_list (tree w)) []).
    { rewrite Hcl. constructor. }
    destruct (delete_spec w G B k [] HI HO Hch) as (e0 & w0 & Hdel & Hcase).
    rewrite Hrun in Hdel. injection Hdel as <- <-.
    destruct Hcase as [[-> Hpr]|[(-> & _ & _ & Hs & Hnp)
                                |(-> & _ & _ & G' & B' & HI' & HO' & _ & Hch' & _)]].
    + left. split; [done|]. by apply Hfail.
    + right. split; [done|].
      destruct (locate w G k HI)
        as (e1 & w1 & Hpr & _ & _
            & [->|(-> & leaf & w2 & lb & Hfl & Hloc & Hs2 & _)]).
      { unfold delete in Hrun. rewrite Hpr in Hrun.
        rewrite decide_False in Hrun by done. done. }
      rewrite (delete_unfold k w w1 leaf w2 lb Hpr Hfl (lo_leaf _ _ _ _ _ Hloc)) in Hrun.
      apply delete_tail_NOTFOUND in Hrun as ->.
      pose proof Hs2 as (Hpg & _ & Hrt & Hlv & _ & Hcl2 & _).
      split; [|by rewrite Hcl2].
      exists G, B. split; [exact (lo_inv _ _ _ _ _ Hloc)|].
      by apply (Ord_same w).
    + right. split; [done|]. split; [by exists G', B'|].
      inversion Hch'. done.
Qed.

(** with every request granted an operation answers, and not NOMEM *)
Lemma perform_granted o w :
  search_tree w → cursor_list (tree w) = 0 →
  granted w (Z.to_nat (depth (tree w)) + 3) →
  ∃ e w', perform o w = Some (e, w') ∧ e ≠ NOMEM ∧ all_granted w'
    ∧ next_page w' ≤ next_page w + depth (tree w) + 3.
Proof.
  intros (G & B & HI & HO) Hcl Hg.
  pose proof (inv_depth _ _ HI) as Hd0.
  destruct o as [k v|k]; simpl.
  - destruct (proj1 (insert_spec w G k v HI) Hcl Hg) as (w' & Hrun & Hg' & Hnp).
    exists OK, w'. done.
  - assert (Hch : chain (cursors w) (cursor_list (tree w)) []).
    { rewrite Hcl. constructor. }
    destruct (delete_spec w G B k [] HI HO Hch) as (e & w' & Hdel & Hcase).
    destruct (path_reserved_granted w (proj1 Hg)) as [Hok Hg0].
    exists e, w'. split; [done|].
    assert (Hg' : all_granted w').
    { unfold all_granted. rewrite (delete_oracle k w e w' Hdel). exact Hg0. }
    destruct Hcase as [[-> Hpr]|[(-> & _ & _ & _ & Hnp)|(-> & _ & _ & G' & B' & _ & _ & _ & _ & Hnp & _)]].
    + rewrite Hpr in Hok. done.
    + split; [done|]. split; [done|]. lia.
    + split; [done|]. split; [done|]. lia.
Qed.

(** ** Sequences *)

Lemma perform_all_filled os : ∀ w w',
  search_tree w → cursor_list (tree w) = 0 →
  perform_all os w = Some w' → filled w'.
Proof.
  induction os as [|o os IH]; intros w w' Hs Hcl Hrun; simpl in Hrun.
  - injection Hrun as <-. destruct Hs as (G & _ & HI & _). by eapply Inv_filled.
  - apply bind_Some in Hrun as ([e w1] & Hop & Hrun). simpl in Hrun.
    destruct (perform_step o w e w1 Hs Hcl Hop)
      as [(-> & Hsame & Hp & Hd)|(_ & Hs1 & Hcl1)].
    + destruct os as [|o' os]; simpl in Hrun.
      * injection Hrun as <-.
        destruct Hsame as (Hpg & _ & Hrt & _ & Hdp & _).
        destruct Hs as (G & _ & HI & _).
        apply (filled_same w); [done..|]. by eapply Inv_filled.
      * rewrite (perform_null_path o' w1 Hp Hd) in Hrun. done.
    + exact (IH w1 w' Hs1 Hcl1 Hrun).
Qed.

Lemma perform_all_granted os : ∀ w,
  search_tree w → cursor_list (tree w) = 0 → all_granted w →
  next_page w + 54 * Z.of_nat (length os) ≤ 4503599627370496 →
  is_Some (perform_all os w).
Proof.
  induction os as [|o os IH]; intros w Hs Hcl Hg Hroom; simpl.
  - done.
  - pose proof Hs as (G & _ & HI & _).
    pose proof (Inv_depth_small w G HI) as Hsmall.
    pose proof (inv_depth _ _ HI) as Hd0.
    assert (Hgr : granted w (Z.to_nat (depth (tree w)) + 3)).
    { split; [done|]. simpl length in Hroom. lia. }
    destruct (perform_granted o w Hs Hcl Hgr) as (e & w1 & Hop & Hne & Hg1 & Hnp).
    rewrite Hop. simpl.
    destruct (perform_step o w e w1 Hs Hcl Hop) as [[? _]|(_ & Hs1 & Hcl1)]; [done|].
    apply (IH w1 Hs1 Hcl1 Hg1). simpl length in Hroom. lia.
Qed.

(** ** A key inserted again *)

(** [insert] of a key that the tree has is total: it replaces the value,
    unless the path array has to grow and cannot *)
Lemma insert_again w G k v v0 :
  Inv w G → holds w k v0 →
  ∃ e w', insert k v w = Some (e, w')
    ∧ (e = NOMEM ↔ path_length (tree w) < depth (tree w) ∧ (grant w).1 = false)
    ∧ (e = NOMEM
       ∨ e = OK ∧ Inv w' G ∧ holds w' k v
         ∧ num_recs (tree w') = num_recs (tree w)
         ∧ depth (tree w') ≤ path_length (tree w')).
Proof.
  intros HI Hh.
  pose proof (path_reserved_nomem w) as Hnm.
  destruct (locate w G k HI)
    as (e1 & w1 & Hpr & _ & _ & [->|(-> & leaf & w2 & lb & Hfl & Hloc & Hs2 & _)]).
  - exists NOMEM, w1. split.
    { unfold insert. rewrite Hpr. by rewrite decide_False. }
    rewrite Hpr in Hnm. simpl in Hnm. split; [|by left].
    split; [intros _; by apply Hnm|done].
  - rewrite (insert_unfold k v w w1 leaf w2 lb Hpr Hfl (lo_leaf _ _ _ _ _ Hloc)).
    pose proof Hs2 as (Hpg & _ & Hrt & _ & Hdp & _ & Hnr & _).
    assert (Hh2 : holds w2 k v0) by (by apply (holds_same w)).
    apply (located_holds _ _ _ _ _ _ Hloc) in Hh2 as (Hlt & Hk & _).
    destruct (insert_found w2 G k v leaf lb Hloc Hlt Hk)
      as (w' & Hrun & HI' & Hh' & Ht' & _).
    exists OK, w'. split; [done|]. split.
    + rewrite Hpr in Hnm. simpl in Hnm. split; [done|]. intros H. by apply Hnm in H.
    + right. split; [done|]. split; [done|]. split; [done|].
      rewrite Ht'. split; [done|]. exact (lo_path _ _ _ _ _ Hloc).
Qed.

(** * Properties *)

(** ** Lookup *)

(** C1 (fails on the code).  [find] compares the key with the slot the
    leaf scan stops at without checking that the slot is below the key
    count.  On a new, empty tree [find 0] answers OK with the value 0;
    and after [insert 5 50] and [delete 5] the tree is empty again, yet
    [find 5] answers OK with the value 50 of the deleted record. *)
Theorem find_reads_past_the_keys :
  (∃ w w', new_bplus_tree [] = Some w ∧ enumerate w = Some []
           ∧ find 0 w = Some (OK, Some 0, w'))
  ∧ (∃ w0 w1 w2 w3,
        new_bplus_tree [] = Some w0
        ∧ insert 5 50 w0 = Some (OK, w1)
        ∧ delete 5 w1 = Some (OK, w2)
        ∧ enumerate w2 = Some []
        ∧ find 5 w2 = Some (OK, Some 50, w3)).
Proof.
  split.
  - assert (H :
      (w ← new_bplus_tree [];
       l ← enumerate w;
       '(r, v, w') ← find 0 w;
       Some (l, r, v)) = Some ([], OK, Some 0)) by (vm_compute; reflexivity).
    apply bind_Some in H as (w & Hw & H).
    apply bind_Some in H as (l & Hl & H).
    apply bind_Some in H as ([[r v] w'] & Hf & H).
    injection H as -> -> ->.
    exists w, w'. split; [exact Hw|]. split; [exact Hl|exact Hf].
  - assert (H :
      (w0 ← new_bplus_tree [];
       '(r1, w1) ← insert 5 50 w0;
       '(r2, w2) ← delete 5 w1;
       l ← enumerate w2;
       '(r, v, w3) ← find 5 w2;
       Some (r1, r2, l, r, v)) = Some (OK, OK, [], OK, Some 50))
      by (vm_compute; reflexivity).
    apply bind_Some in H as (w0 & Hw & H).
    apply bind_Some in H as ([r1 w1] & Hi & H).
    apply bind_Some in H as ([r2 w2] & Hd & H).
    apply bind_Some in H as (l & Hl & H).
    apply bind_Some in H as ([[r v] w3] & Hf & H).
    injection H as -> -> -> -> ->.
    exists w0, w1, w2, w3.
    split; [exact Hw|]. split; [exact Hi|]. split; [exact Hd|].
    split; [exact Hl|exact Hf].
Qed.

(** ** Insertion and memory *)

(** C2 (fails on the code).  After 256 insertions the root has split:
    the depth is 1 and the path array is still to be grown.  An [insert]
    whose request for the path array is refused answers NOMEM but has
    already recorded the new length with a null array: the next
    [insert], with memory available again, dereferences the null path,
    whereas without the failed call it succeeds. *)
Theorem failed_insert_leaves_null_path :
  ∃ w w1, (w0 ← new_bplus_tree []; insert_all (records 1 256) w0) = Some w
    ∧ depth (tree w) = 1 ∧ path_length (tree w) = 0
    ∧ insert 1000 0 (refuse w) = Some (NOMEM, w1)
    ∧ path_length (tree w1) = 1 ∧ path (tree w1) = None
    ∧ oracle w1 = []
    ∧ insert 1001 0 w1 = None
    ∧ fst <$> insert 1001 0 w = Some OK.
Proof.
  assert (H :
    (w ← (w0 ← new_bplus_tree []; insert_all (records 1 256) w0);
     '(r, w1) ← insert 1000 0 (refuse w);
     Some (depth (tree w), path_length (tree w), r, path_length (tree w1),
           path (tree w1), oracle w1, fst <$> insert 1001 0 w1,
           fst <$> insert 1001 0 w))
    = Some (1, 0, NOMEM, 1, None, [], None, Some OK))
    by (vm_compute; reflexivity).
  apply bind_Some in H as (w & Hw & H).
  apply bind_Some in H as ([r w1] & Hi & H).
  injection H as Hd Hl -> Hl1 Hp Ho Hn Hs.
  exists w, w1.
  split; [exact Hw|]. split; [exact Hd|]. split; [exact Hl|].
  split; [exact Hi|]. split; [exact Hl1|]. split; [exact Hp|].
  split; [exact Ho|]. split; [|exact Hs].
  apply fmap_None in Hn. exact Hn.
Qed.

(** C3 (fails on the code).  A leaf holds the keys 1..255 and a cursor
    stands on key 201, at position 200.  Inserting 256 splits the leaf;
    the fix-up reduces the cursor's position by LHALF but leaves its
    leaf pointer on the old leaf, so the cursor now reads the record of
    key 73, while key 201 lives at position 72 of the new leaf. *)
Theorem split_leaves_cursor_on_old_leaf :
  ∃ w c w1 w2 bc lb,
    (w0 ← new_bplus_tree []; insert_all (records 1 255) w0) = Some w
    ∧ find_record 201 w = Some (c, w1)
    ∧ get_record c w1 = Some (OK, Some (201, 1201))
    ∧ insert 256 1256 w1 = Some (OK, w2)
    ∧ cursors w2 !! c = Some bc
    ∧ bc_leaf bc = root (tree w1) ∧ bc_pos bc = 72
    ∧ get_record c w2 = Some (OK, Some (73, 1073))
    ∧ next_leaf <$> pages w2 !! bc_leaf bc = Some 3
    ∧ pages w2 !! 3 = Some lb
    ∧ get_key lb 72 = 201.
Proof.
  assert (H :
    (w ← (w0 ← new_bplus_tree []; insert_all (records 1 255) w0);
     '(c, w1) ← find_record 201 w;
     r1 ← get_record c w1;
     '(e, w2) ← insert 256 1256 w1;
     bc ← cursors w2 !! c;
     r2 ← get_record c w2;
     nl ← next_leaf <$> pages w2 !! bc_leaf bc;
     lb ← pages w2 !! 3;
     Some (r1, e, bc_leaf bc - root (tree w1), bc_pos bc, r2, nl, get_key lb 72))
    = Some ((OK, Some (201, 1201)), OK, 0, 72, (OK, Some (73, 1073)), 3, 201))
    by (vm_compute; reflexivity).
  apply bind_Some in H as (w & Hw & H).
  apply bind_Some in H as ([c w1] & Hc & H).
  apply bind_Some in H as (r1 & Hr1 & H).
  apply bind_Some in H as ([e w2] & Hi & H).
  apply bind_Some in H as (bc & Hbc & H).
  apply bind_Some in H as (r2 & Hr2 & H).
  apply bind_Some in H as (nl & Hnl & H).
  apply bind_Some in H as (lb & Hlb & H).
  injection H as -> -> Hleaf Hpos -> -> Hkey.
  exists w, c, w1, w2, bc, lb.
  split; [exact Hw|]. split; [exact Hc|]. split; [exact Hr1|].
  split; [exact Hi|]. split; [exact Hbc|]. split; [lia|].
  split; [exact Hpos|]. split; [exact Hr2|]. split; [exact Hnl|].
  split; [exact Hlb|exact Hkey].
Qed.

(** C5 (fails on the code).  In the tree of the keys 1..32895 the three
    counters are exact.  Inserting 32896 splits the full last leaf under
    the full root: [preallocate_splits] allocates the sibling of the
    root twice, once in its loop and once more after it, and counts
    both.  The insert succeeds and leaves a tree of 260 nodes with a
    block count of 261. *)
Theorem root_split_counts_a_block_twice :
  counters_exact full_root_world = true
  ∧ ∃ w, insert 32896 33896 full_root_world = Some (OK, w)
      ∧ depth (tree w) = 2
      ∧ tree_size w = Some 260
      ∧ num_blks (tree w) = 261
      ∧ counters_exact w = false.
Proof.
  split; [vm_compute; reflexivity|].
  assert (H :
    ('(r, w) ← insert 32896 33896 full_root_world;
     Some (r, depth (tree w), tree_size w, num_blks (tree w), counters_exact w))
    = Some (OK, 2, Some 260, 261, false)) by (vm_compute; reflexivity).
  apply bind_Some in H as ([r w] & Hi & H).
  injection H as -> Hd Hs Hb Hc.
  exists w. split; [exact Hi|]. split; [exact Hd|]. split; [exact Hs|].
  split; [exact Hb|exact Hc].
Qed.

(** C6 (fails on the code as stated).  Right after the root has split,
    the path array is shorter than the depth; a [delete] whose request
    for the longer array is refused answers NOMEM. *)
Lemma delete_can_run_out_of_memory :
  ∃ w w', (w0 ← new_bplus_tree []; insert_all (records 1 256) w0) = Some w
    ∧ depth (tree w) = 1 ∧ path_length (tree w) = 0
    ∧ delete 5 (refuse w) = Some (NOMEM, w').
Proof.
  assert (H :
    (w ← (w0 ← new_bplus_tree []; insert_all (records 1 256) w0);
     '(r, w') ← delete 5 (refuse w);
     Some (depth (tree w), path_length (tree w), r)) = Some (1, 0, NOMEM))
    by (vm_compute; reflexivity).
  apply bind_Some in H as (w & Hw & H).
  apply bind_Some in H as ([r w'] & Hd & H).
  injection H as Hdp Hl ->.
  exists w, w'. split; [exact Hw|]. split; [exact Hdp|]. split; [exact Hl|exact Hd].
Qed.

(** C6, amended.  On a search tree with its cursors registered [delete]
    always answers.  It answers NOMEM exactly when the path array is
    shorter than the depth and the request for a longer one is refused;
    NOTFOUND when the tree does not have the key; and OK when it has
    it, and then the key is gone.  After NOMEM and after NOTFOUND the
    nodes, the cursors, the root, the depth and the three counters are
    what they were; the scratch path is not: after NOMEM the path
    pointer is null and the path length is the depth, which is the
    state in which the next call writes through the null pointer. *)
Theorem delete_result (w : world) (k : Z) (cs : list Z) :
  search_tree w → registry w = Some cs →
  ∃ r w', delete k w = Some (r, w')
    ∧ (r = NOMEM ↔ path_length (tree w) < depth (tree w) ∧ (grant w).1 = false)
    ∧ (r = NOMEM ∧ same_contents w w'
         ∧ path (tree w') = None ∧ path_length (tree w') = depth (tree w)
       ∨ r = NOTFOUND ∧ (∀ v, ¬ holds w k v) ∧ same_contents w w'
       ∨ r = OK ∧ (∃ v, holds w k v) ∧ (∀ v, ¬ holds w' k v)).
Proof.
  intros Hs Hreg.
  destruct (delete_map_step w k cs Hs Hreg) as (r & w' & Hrun & Hnm & Hcase).
  exists r, w'. split; [exact Hrun|]. split; [exact Hnm|].
  destruct Hcase as [H|[H|(-> & Hv & _ & _ & Hmap & _)]]; [by left|by right; left|].
  right; right. split; [done|]. split; [done|].
  intros v Hh. apply Hmap in Hh as [Hne _]. done.
Qed.

Lemma delete_result_witness :
  (∃ w w', (w0 ← new_bplus_tree []; insert_all (records 1 256) w0) = Some w
     ∧ delete 5 (refuse w) = Some (NOMEM, w')
     ∧ ∃ r w'', delete 5 (refuse w) = Some (r, w'')
         ∧ (r = NOMEM ↔ path_length (tree (refuse w)) < depth (tree (refuse w))
                          ∧ (grant (refuse w)).1 = false)
         ∧ (r = NOMEM ∧ same_contents (refuse w) w''
              ∧ path (tree w'') = None
              ∧ path_length (tree w'') = depth (tree (refuse w))
            ∨ r = NOTFOUND ∧ (∀ v, ¬ holds (refuse w) 5 v) ∧ same_contents (refuse w) w''
            ∨ r = OK ∧ (∃ v, holds (refuse w) 5 v) ∧ (∀ v, ¬ holds w'' 5 v)))
  ∧ (∃ w w', (w0 ← new_bplus_tree []; insert_all [(1, 10); (2, 20); (3, 30)] w0) = Some w
       ∧ delete 2 w = Some (OK, w')
       ∧ ∃ r w'', delete 2 w = Some (r, w'')
           ∧ (r = NOMEM ↔ path_length (tree w) < depth (tree w) ∧ (grant w).1 = false)
           ∧ (r = NOMEM ∧ same_contents w w''
                ∧ path (tree w'') = None ∧ path_length (tree w'') = depth (tree w)
              ∨ r = NOTFOUND ∧ (∀ v, ¬ holds w 2 v) ∧ same_contents w w''
              ∨ r = OK ∧ (∃ v, holds w 2 v) ∧ (∀ v, ¬ holds w'' 2 v))).
Proof.
  split.
  - assert (H :
      (w ← (w0 ← new_bplus_tree []; insert_all (records 1 256) w0);
       '(r, w') ← delete 5 (refuse w);
       Some r) = Some NOMEM) by (vm_compute; reflexivity).
    apply bind_Some in H as (w & Hw & H).
    apply bind_Some in H as ([r w'] & Hd & H).
    injection H as ->.
    exists w, w'. split; [exact Hw|]. split; [exact Hd|].
    apply bind_Some in Hw as (w0 & Hnew & Hall).
    destruct (new_tree_search [] w0 Hnew) as [Hs0 Hc0].
    destruct (insert_all_search_tree _ w0 w Hs0 Hall) as [Hs Hc].
    apply (delete_result (refuse w) 5 []).
    + apply search_tree_refuse. exact Hs.
    + apply registry_none. simpl. rewrite Hc. exact Hc0.
  - assert (H :
      (w ← (w0 ← new_bplus_tree []; insert_all [(1, 10); (2, 20); (3, 30)] w0);
       '(r, w') ← delete 2 w;
       Some r) = Some OK) by (vm_compute; reflexivity).
    apply bind_Some in H as (w & Hw & H).
    apply bind_Some in H as ([r w'] & Hd & H).
    injection H as ->.
    exists w, w'. split; [exact Hw|]. split; [exact Hd|].
    apply bind_Some in Hw as (w0 & Hnew & Hall).
    destruct (new_tree_search [] w0 Hnew) as [Hs0 Hc0].
    destruct (insert_all_search_tree _ w0 w Hs0 Hall) as [Hs Hc].
    apply (delete_result w 2 []).
    + exact Hs.
    + apply registry_none. rewrite Hc. exact Hc0.
Defined.

(** ** Sequences of operations *)

(** C4.  [insert] and [delete] are called, any number of times and in
    any order, on a tree made by [new_bplus_tree].  When every request
    for memory is granted (and the calls are fewer than 2^46, so that
    the addresses of the pages do not run out), every call returns.
    And whatever the allocator answers, when the calls have returned
    the nodes are filled: every node [n] levels below the root, for [n]
    up to the depth, is a mapped page; one that is not the root has at
    least 127 keys, and at least 128 when it is a leaf; a node above the
    leaves with [k] keys has [k + 1] children, which are mapped pages
    and of which no two are the same, so that a node that is not the
    root has at least 128 children; the root has at least one key when
    it is not a leaf, and may have none when it is. *)
Theorem nodes_stay_filled (answers : list bool) (w0 : world) (os : list operation) :
  new_bplus_tree answers = Some w0 →
  (Forall (λ a, a = true) answers → Z.of_nat (length os) < 2 ^ 46 →
   is_Some (perform_all os w0))
  ∧ ∀ w, perform_all os w0 = Some w →
      ∀ (n : nat) (x : Z),
        (n ≤ Z.to_nat (depth (tree w)))%nat →
        below (pages w) n (root (tree w)) x →
        ∃ b, pages w !! x = Some b
          ∧ ((0 < n)%nat → 127 ≤ num_keys b)
          ∧ ((0 < n)%nat → n = Z.to_nat (depth (tree w)) → 128 ≤ num_keys b)
          ∧ ((n < Z.to_nat (depth (tree w)))%nat →
               length (kids b) = Z.to_nat (num_keys b + 1)
               ∧ NoDup (kids b)
               ∧ (∀ c, c ∈ kids b → is_Some (pages w !! c))
               ∧ 1 ≤ num_keys b).
Proof.
  intros Hnew. destruct (new_tree_search answers w0 Hnew) as [Hs Hcl]. split.
  - intros Hall Hlen.
    pose proof (new_bplus_tree_spec answers) as Hspec. rewrite Hnew in Hspec.
    destruct Hspec as (_ & Hnp & _ & Hor & _).
    apply perform_all_granted; [done|done| |].
    + unfold all_granted. rewrite Hor. by apply Forall_drop.
    + rewrite Hnp. change (2 ^ 46) with 70368744177664 in Hlen. lia.
  - intros w Hrun. exact (perform_all_filled os w0 w Hs Hcl Hrun).
Qed.

Lemma nodes_stay_filled_witness :
  ∃ w0 w,
    new_bplus_tree [] = Some w0
    ∧ perform_all (((λ kv, Insert kv.1 kv.2) <$> records 1 257) ++ [Delete 1]) w0 = Some w
    ∧ depth (tree w) = 1
    ∧ ∀ (n : nat) (x : Z),
        (n ≤ Z.to_nat (depth (tree w)))%nat →
        below (pages w) n (root (tree w)) x →
        ∃ b, pages w !! x = Some b
          ∧ ((0 < n)%nat → 127 ≤ num_keys b)
          ∧ ((0 < n)%nat → n = Z.to_nat (depth (tree w)) → 128 ≤ num_keys b)
          ∧ ((n < Z.to_nat (depth (tree w)))%nat →
               length (kids b) = Z.to_nat (num_keys b + 1)
               ∧ NoDup (kids b)
               ∧ (∀ c, c ∈ kids b → is_Some (pages w !! c))
               ∧ 1 ≤ num_keys b).
Proof.
  assert (H :
    (w0 ← new_bplus_tree [];
     w ← perform_all (((λ kv, Insert kv.1 kv.2) <$> records 1 257) ++ [Delete 1]) w0;
     Some (depth (tree w))) = Some 1) by (vm_compute; reflexivity).
  apply bind_Some in H as (w0 & Hnew & H).
  apply bind_Some in H as (w & Hrun & H).
  injection H as Hd.
  exists w0, w. split; [exact Hnew|]. split; [exact Hrun|]. split; [exact Hd|].
  exact (proj2 (nodes_stay_filled [] w0 _ Hnew) w Hrun).
Defined.

(** C9.  On an ordered tree of the right shape, [insert k v1], [insert
    k v2] and [find k] are called one after the other.  When every
    request for memory is granted the three calls return OK, [find]
    with [v2], and the second [insert] leaves the count of records as
    the first one has left it.  Whatever the allocator answers: when the
    first [insert] has answered OK the second one returns; it answers
    NOMEM exactly when the path array is shorter than the depth (the
    first [insert] has split the root) and the longer array is refused;
    otherwise it answers OK without changing the count of records, and
    [find k] then answers OK with [v2]. *)
Theorem insert_twice_then_find (w : world) (k v1 v2 : Z) :
  ordered w →
  (cursor_list (tree w) = 0 → granted w (Z.to_nat (depth (tree w)) + 3) →
   ∃ w1 w2 w3, insert k v1 w = Some (OK, w1) ∧ insert k v2 w1 = Some (OK, w2)
     ∧ find k w2 = Some (OK, Some v2, w3)
     ∧ num_recs (tree w2) = num_recs (tree w1))
  ∧ ∀ w1, insert k v1 w = Some (OK, w1) →
      ∃ e w2, insert k v2 w1 = Some (e, w2)
        ∧ (e = NOMEM ↔ path_length (tree w1) < depth (tree w1) ∧ (grant w1).1 = false)
        ∧ (e ≠ NOMEM →
           e = OK ∧ num_recs (tree w2) = num_recs (tree w1)
           ∧ ∃ w3, find k w2 = Some (OK, Some v2, w3)).
Proof.
  intros (G & HI & Hso).
  assert (Hsecond : ∀ w1, insert k v1 w = Some (OK, w1) →
            ∃ e w2, insert k v2 w1 = Some (e, w2)
              ∧ (e = NOMEM ↔ path_length (tree w1) < depth (tree w1) ∧ (grant w1).1 = false)
              ∧ (e ≠ NOMEM →
                 e = OK ∧ num_recs (tree w2) = num_recs (tree w1)
                 ∧ ∃ w3, find k w2 = Some (OK, Some v2, w3))).
  { intros w1 H1.
    destruct (proj2 (insert_spec w G k v1 HI) OK w1 H1)
      as [[? _]|(_ & G1 & HI1 & _ & _ & _ & Hh & _)]; [done|].
    destruct (insert_again w1 G1 k v2 v1 HI1 (Hh Hso)) as (e & w2 & H2 & Hnm & Hcase).
    exists e, w2. split; [done|]. split; [done|]. intros Hne.
    destruct Hcase as [?|(-> & HI2 & Hh2 & Hnr & Hpl)]; [done|].
    split; [done|]. split; [done|].
    destruct (find_holds w2 G1 k v2 HI2 Hh2) as (e3 & x & w3 & Hf & _ & Hres).
    destruct Hres as [[-> ->]|(_ & _ & Hlt & _)]; [by exists w3|lia]. }
  split; [|exact Hsecond].
  intros Hcl Hg.
  destruct (proj1 (insert_spec w G k v1 HI) Hcl Hg) as (w1 & H1 & Hg1 & _).
  destruct (Hsecond w1 H1) as (e & w2 & H2 & Hnm & Hok).
  assert (Hne : e ≠ NOMEM).
  { intros He. apply Hnm in He as [_ Hno].
    destruct (grant_granted w1 Hg1) as [Hyes _]. congruence. }
  destruct (Hok Hne) as (-> & Hnr & w3 & Hf).
  by exists w1, w2, w3.
Qed.

Lemma insert_twice_then_find_witness :
  ∃ w0 w1 w2 w3,
    new_bplus_tree [] = Some w0
    ∧ insert 5 50 w0 = Some (OK, w1) ∧ insert 5 51 w1 = Some (OK, w2)
    ∧ find 5 w2 = Some (OK, Some 51, w3)
    ∧ num_recs (tree w2) = num_recs (tree w1).
Proof.
  assert (H : (w0 ← new_bplus_tree [];
               Some (cursor_list (tree w0), oracle w0, next_page w0, depth (tree w0)))
              = Some (0, [], 2, 0)) by (vm_compute; reflexivity).
  apply bind_Some in H as (w0 & Hnew & H). injection H as Hcl Hor Hnp Hd.
  assert (Hord : ordered w0).
  { exists {[1 := 0%nat]}. exact (Inv_new [] w0 Hnew). }
  assert (Hg : granted w0 (Z.to_nat (depth (tree w0)) + 3)).
  { split; [unfold all_granted; rewrite Hor; constructor|]. rewrite Hnp, Hd. simpl. lia. }
  destruct (proj1 (insert_twice_then_find w0 5 50 51 Hord) Hcl Hg)
    as (w1 & w2 & w3 & H1 & H2 & H3 & H4).
  exists w0, w1, w2, w3. split; [exact Hnew|]. split; [exact H1|].
  split; [exact H2|]. split; [exact H3|exact H4].
Defined.

(** ** Cursors *)

(** C7 (fails on the code).  A cursor stands on key 2 of the leaf 1, 2,
    3.  [delete 2] flags it invalid.  [insert 2 99] bumps its position
    like that of any cursor at or after the insertion point and leaves
    the flag set: [get_record] answers NOTFOUND, and [next_record] then
    clears the flag on the record of key 3, so the cursor never reads
    the new record (2, 99). *)
Theorem reinsert_does_not_revalidate_cursor :
  ∃ w c w1 w2 w3 w4 bc,
    (w0 ← new_bplus_tree []; insert_all [(1, 10); (2, 20); (3, 30)] w0) = Some w
    ∧ find_record 2 w = Some (c, w1)
    ∧ get_record c w1 = Some (OK, Some (2, 20))
    ∧ delete 2 w1 = Some (OK, w2)
    ∧ get_record c w2 = Some (NOTFOUND, None)
    ∧ insert 2 99 w2 = Some (OK, w3)
    ∧ cursors w3 !! c = Some bc ∧ bc_invalid bc = 1 ∧ bc_pos bc = 2
    ∧ get_record c w3 = Some (NOTFOUND, None)
    ∧ next_record c w3 = Some (OK, w4)
    ∧ get_record c w4 = Some (OK, Some (3, 30)).
Proof.
  assert (H :
    (w ← (w0 ← new_bplus_tree []; insert_all [(1, 10); (2, 20); (3, 30)] w0);
     '(c, w1) ← find_record 2 w;
     r1 ← get_record c w1;
     '(e2, w2) ← delete 2 w1;
     r2 ← get_record c w2;
     '(e3, w3) ← insert 2 99 w2;
     bc ← cursors w3 !! c;
     r3 ← get_record c w3;
     '(e4, w4) ← next_record c w3;
     r4 ← get_record c w4;
     Some (r1, e2, r2, e3, bc_invalid bc, bc_pos bc, r3, e4, r4))
    = Some ((OK, Some (2, 20)), OK, (NOTFOUND, None), OK, 1, 2,
            (NOTFOUND, None), OK, (OK, Some (3, 30))))
    by (vm_compute; reflexivity).
  apply bind_Some in H as (w & Hw & H).
  apply bind_Some in H as ([c w1] & Hc & H).
  apply bind_Some in H as (r1 & Hr1 & H).
  apply bind_Some in H as ([e2 w2] & Hd & H).
  apply bind_Some in H as (r2 & Hr2 & H).
  apply bind_Some in H as ([e3 w3] & Hi & H).
  apply bind_Some in H as (bc & Hbc & H).
  apply bind_Some in H as (r3 & Hr3 & H).
  apply bind_Some in H as ([e4 w4] & Hn & H).
  apply bind_Some in H as (r4 & Hr4 & H).
  injection H as -> -> -> -> Hinv Hpos -> -> ->.
  exists w, c, w1, w2, w3, w4, bc.
  split; [exact Hw|]. split; [exact Hc|]. split; [exact Hr1|].
  split; [exact Hd|]. split; [exact Hr2|]. split; [exact Hi|].
  split; [exact Hbc|]. split; [exact Hinv|]. split; [exact Hpos|].
  split; [exact Hr3|]. split; [exact Hn|exact Hr4].
Qed.

(** C8 (fails on the code).  A cursor stands on a record and its tree
    is destroyed.  [get_tree] answers null, but [get_record],
    [update_record] and [next_record] never look at the cursor's tree:
    they read the key count through the leaf pointer, into a page that
    is no longer mapped; and [free_cursor] decrements the cursor count
    through the null tree pointer. *)
Theorem cursor_of_destroyed_tree_is_not_inert :
  ∃ w c w1 w2,
    (w0 ← new_bplus_tree []; insert_all [(1, 10); (2, 20); (3, 30)] w0) = Some w
    ∧ find_record 2 w = Some (c, w1)
    ∧ free_bplus_tree w1 = Some w2
    ∧ pages w2 = ∅
    ∧ get_tree c w2 = Some 0
    ∧ get_record c w2 = None
    ∧ update_record c 7 w2 = None
    ∧ next_record c w2 = None
    ∧ free_cursor c w2 = None.
Proof.
  assert (H :
    (w ← (w0 ← new_bplus_tree []; insert_all [(1, 10); (2, 20); (3, 30)] w0);
     '(c, w1) ← find_record 2 w;
     w2 ← free_bplus_tree w1;
     Some (map_to_list (pages w2), get_tree c w2, get_record c w2,
           fst <$> update_record c 7 w2, fst <$> next_record c w2,
           (λ _, ()) <$> free_cursor c w2))
    = Some ([], Some 0, None, None, None, None)) by (vm_compute; reflexivity).
  apply bind_Some in H as (w & Hw & H).
  apply bind_Some in H as ([c w1] & Hc & H).
  apply bind_Some in H as (w2 & Hf & H).
  injection H as Hp Ht Hg Hu Hn Hfc.
  exists w, c, w1, w2.
  split; [exact Hw|]. split; [exact Hc|]. split; [exact Hf|].
  split; [apply map_to_list_empty_iff; exact Hp|].
  split; [exact Ht|]. split; [exact Hg|].
  split; [apply fmap_None in Hu; exact Hu|].
  split; [apply fmap_None in Hn; exact Hn|].
  apply fmap_None in Hfc; exact Hfc.
Qed.

(** C10.  [next_record] reads the key count through the cursor's leaf
    pointer without testing it.  For a cursor whose leaf pointer is
    null or names a mapped page (no page being mapped at the null
    address), the call is defined exactly when the pointer is not null.
    On a mapped leaf it answers NOTFOUND exactly when it steps past the
    last key of a leaf that has no next leaf: it has then put the null
    pointer into the cursor, and a further call is undefined rather
    than NOTFOUND again.  In every other case it answers OK, having
    moved the cursor one slot on in its leaf or to slot 0 of the next
    leaf. *)
Theorem next_record_needs_leaf (w : world) (c : Z) (bc : bplus_cursor) :
  cursors w !! c = Some bc →
  pages w !! 0 = None →
  (bc_leaf bc = 0 ∨ is_Some (pages w !! bc_leaf bc)) →
  (is_Some (next_record c w) ↔ bc_leaf bc ≠ 0)
  ∧ ∀ lb, pages w !! bc_leaf bc = Some lb →
      let pos := if bc_invalid bc =? 0 then u32 (bc_pos bc + 1) else bc_pos bc in
      let over := bool_decide (num_keys lb ≤ pos) in
      let bc' := Cursor (bc_tree bc) (bc_next bc)
                   (if over then next_leaf lb else bc_leaf bc)
                   (if over then 0 else pos) 0 in
      ∃ r, next_record c w = Some (r, with_cursors w (<[c := bc']> (cursors w)))
        ∧ (r = NOTFOUND ↔ num_keys lb ≤ pos ∧ next_leaf lb = 0)
        ∧ (r ≠ NOTFOUND → r = OK)
        ∧ (r = NOTFOUND →
           bc_leaf bc' = 0
           ∧ next_record c (with_cursors w (<[c := bc']> (cursors w))) = None).
Proof.
  intros Hc H0 Hl. split.
  - unfold next_record. rewrite Hc. simpl.
    assert (Hw1 : ∃ bc1, (if negb (bc_invalid bc =? 0)
                   then cursor_update w c (λ bc, set_bc_invalid bc 0)
                   else cursor_update w c (λ bc, set_bc_pos bc (u32 (bc_pos bc + 1))))
                = Some (with_cursors w (<[c := bc1]> (cursors w)))
                ∧ bc_leaf bc1 = bc_leaf bc).
    { unfold cursor_update. rewrite Hc. simpl. case_match; eexists; split; done. }
    destruct Hw1 as (bc1 & -> & Hl1). simpl.
    unfold load_num_keys, load, cursor_update. simpl.
    rewrite lookup_insert_eq. simpl.
    split.
    + intros [x Hx] Hz. rewrite Hz, H0 in Hx. done.
    + intros Hnz. destruct Hl as [|[lb Hlb]]; [done|]. rewrite Hlb. simpl.
      case_match; simpl; eauto.
  - intros lb Hlb pos over bc'.
    assert (Hrun : next_record c w
              = Some (if over then (if next_leaf lb =? 0 then NOTFOUND else OK) else OK,
                      with_cursors w (<[c := bc']> (cursors w)))).
    { unfold next_record, cursor_update, load_num_keys, load. rewrite Hc. simpl.
      unfold bc', over, pos. clear bc' over pos.
      destruct bc as [t n l p i]. simpl in *.
      destruct (i =? 0) eqn:Ei; simpl; rewrite Hlb; simpl;
        rewrite !lookup_insert_eq; simpl.
      - apply Z.eqb_eq in Ei. subst i.
        destruct (num_keys lb <=? u32 (p + 1)) eqn:E.
        + apply Z.leb_le in E. rewrite bool_decide_eq_true_2 by done.
          simpl. rewrite insert_insert_eq.
          unfold next_leaf. destruct (rd lb 511 =? 0); simpl; done.
        + apply Z.leb_gt in E. rewrite bool_decide_eq_false_2 by lia. done.
      - destruct (num_keys lb <=? p) eqn:E.
        + apply Z.leb_le in E. rewrite bool_decide_eq_true_2 by done.
          simpl. rewrite insert_insert_eq.
          unfold next_leaf. destruct (rd lb 511 =? 0); simpl; done.
        + apply Z.leb_gt in E. rewrite bool_decide_eq_false_2 by lia. done. }
    eexists. split; [exact Hrun|].
    unfold over in *. clear Hrun.
    destruct (decide (num_keys lb ≤ pos)) as [Hov|Hov].
    + rewrite bool_decide_eq_true_2 by done.
      destruct (next_leaf lb =? 0) eqn:En.
      * apply Z.eqb_eq in En. split; [done|]. split; [done|]. intros _.
        unfold bc'. rewrite bool_decide_eq_true_2 by done. simpl.
        split; [done|].
        unfold next_record, cursor_update, load_num_keys, load. simpl.
        rewrite lookup_insert_eq. simpl. rewrite lookup_insert_eq. simpl.
        rewrite En, H0. done.
      * apply Z.eqb_neq in En. split; [split; [done|by intros [_ ?]]|].
        split; [done|]. done.
    + rewrite bool_decide_eq_false_2 by done.
      split; [split; [done|by intros [? _]]|]. split; [done|]. done.
Qed.

Lemma next_record_needs_leaf_witness :
  ∃ w c bc lb w',
    (w0 ← new_bplus_tree [];
     w1 ← insert_all [(1, 10); (2, 20)] w0;
     let '(c, w2) := first_record w1 in
     '(r, w3) ← next_record c w2;
     Some (c, w3)) = Some (c, w)
    ∧ cursors w !! c = Some bc ∧ pages w !! bc_leaf bc = Some lb
    ∧ get_record c w = Some (OK, Some (2, 20))
    ∧ next_record c w = Some (NOTFOUND, w')
    ∧ next_record c w' = None
    ∧ (is_Some (next_record c w) ↔ bc_leaf bc ≠ 0)
    ∧ ∃ r, next_record c w
           = Some (r, with_cursors w
                        (<[c := Cursor (bc_tree bc) (bc_next bc)
                                  (if bool_decide
                                        (num_keys lb
                                         ≤ (if bc_invalid bc =? 0
                                            then u32 (bc_pos bc + 1) else bc_pos bc))
                                   then next_leaf lb else bc_leaf bc)
                                  (if bool_decide
                                        (num_keys lb
                                         ≤ (if bc_invalid bc =? 0
                                            then u32 (bc_pos bc + 1) else bc_pos bc))
                                   then 0
                                   else (if bc_invalid bc =? 0
                                         then u32 (bc_pos bc + 1) else bc_pos bc)) 0]>
                           (cursors w)))
        ∧ (r = NOTFOUND
           ↔ num_keys lb ≤ (if bc_invalid bc =? 0 then u32 (bc_pos bc + 1) else bc_pos bc)
             ∧ next_leaf lb = 0).
Proof.
  assert (H :
    ('(c, w) ← (w0 ← new_bplus_tree [];
                w1 ← insert_all [(1, 10); (2, 20)] w0;
                let '(c, w2) := first_record w1 in
                '(r, w3) ← next_record c w2;
                Some (c, w3));
     bc ← cursors w !! c;
     lb ← pages w !! bc_leaf bc;
     g ← get_record c w;
     '(r, w') ← next_record c w;
     Some (pages w !! 0, g, r, next_record c w'))
    = Some (None, (OK, Some (2, 20)), NOTFOUND, None)) by (vm_compute; reflexivity).
  apply bind_Some in H as ([c w] & Hw & H).
  apply bind_Some in H as (bc & Hbc & H).
  apply bind_Some in H as (lb & Hlb & H).
  apply bind_Some in H as (g & Hg & H).
  apply bind_Some in H as ([r w'] & Hn & H).
  injection H as H0 -> -> Hn'.
  exists w, c, bc, lb, w'. split; [exact Hw|]. split; [exact Hbc|].
  split; [exact Hlb|].
  destruct (next_record_needs_leaf w c bc Hbc H0 (or_intror (ex_intro _ lb Hlb)))
    as [Hdef Hstep].
  destruct (Hstep lb Hlb) as (r & Hr & Hnf & _).
  split; [exact Hg|].
  split; [exact Hn|]. split; [exact Hn'|]. split; [exact Hdef|].
  exists r. split; [exact Hr|exact Hnf].
Defined.

(** * Further properties of the code *)

(** the new tree when every request is granted *)
Definition empty_tree : world :=
  World {[1 := wr (set_num_keys zero_block 0) 511 0]} 2 ∅ 1 []
        (Bplus 1 1 0 0 0 1 0 0 None 0).

Lemma empty_tree_new : new_bplus_tree [] = Some empty_tree.
Proof. vm_compute. reflexivity. Qed.

Lemma empty_tree_Inv : Inv empty_tree {[1 := 0%nat]}.
Proof. exact (proj1 (Inv_new [] _ empty_tree_new)). Qed.

Lemma empty_tree_sorted : sorted_nodes empty_tree {[1 := 0%nat]}.
Proof. exact (proj2 (Inv_new [] _ empty_tree_new)). Qed.

(** ** The scans *)

(** X1.  The scan of a leaf for [k] stops at the first of its keys that
    is not below [k]: the slot is between 0 and the key count, every key
    before it is below [k], and the key in it, when it is below the key
    count, is [k] or greater. *)
Theorem scan_leaf_keys_first_not_below (b : block) (k : Z) :
  0 ≤ scan_leaf_keys b k ≤ num_keys b
  ∧ (∀ j, 0 ≤ j < scan_leaf_keys b k → get_key b j < k)
  ∧ (scan_leaf_keys b k < num_keys b → k ≤ get_key b (scan_leaf_keys b k)).
Proof. apply scan_leaf_keys_spec. Qed.

(** X2.  The scan of an index node for [k] stops at the first of its
    keys that is greater than [k]: every key before the slot is [k] or
    less, so the child of that slot is the one for [k]. *)
Theorem scan_index_keys_first_above (b : block) (k : Z) :
  0 ≤ scan_index_keys b k ≤ num_keys b
  ∧ (∀ j, 0 ≤ j < scan_index_keys b k → get_key b j ≤ k)
  ∧ (scan_index_keys b k < num_keys b → k < get_key b (scan_index_keys b k)).
Proof. apply scan_index_keys_spec. Qed.

(** ** Trees of the right shape *)

(** X3.  [new_bplus_tree] makes a tree exactly when the handle and the
    root page are both granted, and the tree it makes is one empty leaf:
    it has the right shape, no record, no cursor, the counters 0, 1, 0,
    and the depth 0.  When the handle is refused it answers null.  When
    the handle is granted and the root page refused, the page pointer is
    the failure mark of [mmap] and not null: the test against null lets
    it pass and the key count is written through it, which is
    undefined. *)
Theorem new_bplus_tree_is_an_empty_leaf (ans : list bool) :
  match new_bplus_tree ans with
  | Some w =>
      ordered w ∧ enumerate w = Some [] ∧ registry w = Some []
      ∧ get_active_storage w = (0, 1, 0) ∧ depth (tree w) = 0
      ∧ ans !! 0%nat ≠ Some false ∧ ans !! 1%nat ≠ Some false
  | None =>
      ans !! 0%nat = Some false
      ∨ ans !! 0%nat ≠ Some false ∧ ans !! 1%nat = Some false
        ∧ let w1 := (grant (World ∅ 1 ∅ 1 ans (Bplus 0 0 0 0 0 0 0 0 None 0))).2 in
          (new_leaf_block w1).1 = -1
          ∧ store_num_keys (new_leaf_block w1).2 (-1) 0 = None
  end.
Proof.
  pose proof (new_bplus_tree_spec ans) as H.
  pose proof (Inv_new ans) as HI.
  destruct (new_bplus_tree ans) as [w|]; [|exact H].
  destruct H as ((rb & Hpg & Hblk & Hnk & Hnl) & Hnp & Hcs & _ & Ht & Ha0 & Ha1).
  split; [exists {[1 := 0%nat]}; by apply HI|].
  split.
  { unfold enumerate. rewrite Hpg, Ht. simpl.
    rewrite map_size_singleton. simpl. rewrite Hpg, lookup_singleton_eq. simpl.
    rewrite Hnl, Hnk. simpl. done. }
  split.
  { unfold registry. rewrite Hcs, Ht. simpl. done. }
  unfold get_active_storage. by rewrite Ht.
Qed.

(** ** Lookup *)

(** X4.  On a tree of the right shape [find] reads mapped pages only and
    changes nothing but the scratch path.  It answers NOMEM exactly when
    the path array is shorter than the depth and the request for a
    longer one is refused (the path pointer is null afterwards and the
    path length is the depth); otherwise it goes down to the leaf of
    [k] and answers by the slot where the scan of that leaf stops: OK
    with the value of the slot when its key is [k], NOTFOUND when
    not. *)
Theorem find_answer (w : world) (k : Z) :
  well_shaped w →
  ∃ e x w', find k w = Some (e, x, w') ∧ same_contents w w'
    ∧ (e = NOMEM ↔ path_length (tree w) < depth (tree w) ∧ (grant w).1 = false)
    ∧ (e = NOMEM ∧ x = None
         ∧ path (tree w') = None ∧ path_length (tree w') = depth (tree w)
       ∨ ∃ leaf lb,
           descend (pages w) (Z.to_nat (depth (tree w))) (root (tree w)) k = Some leaf
           ∧ pages w !! leaf = Some lb
           ∧ (get_key lb (scan_leaf_keys lb k) = k ∧ e = OK
                ∧ x = Some (get_value lb (scan_leaf_keys lb k))
              ∨ get_key lb (scan_leaf_keys lb k) ≠ k ∧ e = NOTFOUND ∧ x = None)).
Proof. intros [G HI]. by apply (find_spec w G). Qed.

Lemma find_answer_witness :
  ∃ w w' w2, (w0 ← new_bplus_tree []; insert_all (records 1 256) w0) = Some w
    ∧ depth (tree w) = 1
    ∧ find 5 (refuse w) = Some (NOMEM, None, w')
    ∧ find 5 w = Some (OK, Some 1005, w2)
    ∧ (∃ e x w'', find 5 (refuse w) = Some (e, x, w'') ∧ same_contents (refuse w) w''
         ∧ (e = NOMEM
            ↔ path_length (tree (refuse w)) < depth (tree (refuse w)) ∧ (grant (refuse w)).1 = false)
         ∧ (e = NOMEM ∧ x = None
              ∧ path (tree w'') = None ∧ path_length (tree w'') = depth (tree (refuse w))
            ∨ ∃ leaf lb,
                descend (pages (refuse w)) (Z.to_nat (depth (tree (refuse w)))) (root (tree (refuse w))) 5
                = Some leaf
                ∧ pages (refuse w) !! leaf = Some lb
                ∧ (get_key lb (scan_leaf_keys lb 5) = 5 ∧ e = OK
                     ∧ x = Some (get_value lb (scan_leaf_keys lb 5))
                   ∨ get_key lb (scan_leaf_keys lb 5) ≠ 5 ∧ e = NOTFOUND
                     ∧ x = None)))
    ∧ (∃ e x w'', find 5 w = Some (e, x, w'') ∧ same_contents w w''
         ∧ (e = NOMEM
            ↔ path_length (tree w) < depth (tree w) ∧ (grant w).1 = false)
         ∧ (e = NOMEM ∧ x = None
              ∧ path (tree w'') = None ∧ path_length (tree w'') = depth (tree w)
            ∨ ∃ leaf lb,
                descend (pages w) (Z.to_nat (depth (tree w))) (root (tree w)) 5
                = Some leaf
                ∧ pages w !! leaf = Some lb
                ∧ (get_key lb (scan_leaf_keys lb 5) = 5 ∧ e = OK
                     ∧ x = Some (get_value lb (scan_leaf_keys lb 5))
                   ∨ get_key lb (scan_leaf_keys lb 5) ≠ 5 ∧ e = NOTFOUND
                     ∧ x = None))).
Proof.
  assert (H :
    (w ← (w0 ← new_bplus_tree []; insert_all (records 1 256) w0);
     '(e, x, w') ← find 5 (refuse w);
     '(e2, x2, w2) ← find 5 w;
     Some (depth (tree w), e, x, e2, x2)) = Some (1, NOMEM, None, OK, Some 1005))
    by (vm_compute; reflexivity).
  apply bind_Some in H as (w & Hw & H).
  apply bind_Some in H as ([[e x] w'] & Hf & H).
  apply bind_Some in H as ([[e2 x2] w2] & Hf2 & H).
  injection H as Hd -> -> -> ->.
  exists w, w', w2. split; [exact Hw|]. split; [exact Hd|].
  split; [exact Hf|]. split; [exact Hf2|].
  apply bind_Some in Hw as (w0 & Hnew & Hall).
  destruct (new_tree_search [] w0 Hnew) as [Hs0 _].
  destruct (insert_all_search_tree _ w0 w Hs0 Hall) as [Hs _].
  split.
  - apply (find_answer (refuse w) 5).
    destruct (search_tree_refuse w Hs) as (G & B & HI & _). exists G. exact HI.
  - apply (find_answer w 5).
    destruct Hs as (G & B & HI & _). exists G. exact HI.
Defined.

(** ** Insertion *)

(** X5.  On a tree of the right shape with no cursor registered: when
    the environment grants every request, and there are addresses left
    for the pages of the splits, [insert] reads and writes mapped pages
    only and answers OK.  Whatever the environment does, when [insert]
    answers at all it answers OK or NOMEM; NOMEM exactly when the path
    array is shorter than the depth and the request for a longer one is
    refused, the nodes being left as they were; and after OK the tree
    has the right shape again (and still no cursor), whatever splits
    the insertion caused, and its depth has grown by one level at most.
    (A page that is refused is not noticed by [insert]: it goes on
    with the failure mark of [mmap] as the address of the page.) *)
Theorem insert_keeps_shape (w : world) (k v : Z) :
  well_shaped w → cursor_list (tree w) = 0 →
  (granted w (Z.to_nat (depth (tree w)) + 3) →
   ∃ w', insert k v w = Some (OK, w'))
  ∧ ∀ e w', insert k v w = Some (e, w') →
      (e = NOMEM ↔ path_length (tree w) < depth (tree w) ∧ (grant w).1 = false)
      ∧ (e = NOMEM ∧ same_contents w w'
         ∨ e = OK ∧ well_shaped w' ∧ cursor_list (tree w') = 0
           ∧ depth (tree w) ≤ depth (tree w') ≤ depth (tree w) + 1).
Proof.
  intros Hw Hcl. destruct (insert_spec_shape w k v Hw Hcl) as [Hsafe Hres].
  split.
  - intros Hg. destruct (Hsafe Hg) as (w' & Hrun & _). by exists w'.
  - intros e w' Hrun. destruct (Hres e w' Hrun) as [Hnm Hcase].
    split; [done|]. destruct Hcase as [(? & ? & _)|?]; [by left|by right].
Qed.

(** the single leaf with the keys 1 to 255, which is full *)
Lemma insert_keeps_shape_witness :
  ∃ w w', (w0 ← new_bplus_tree []; insert_all (records 1 255) w0) = Some w
    ∧ insert 256 0 w = Some (OK, w') ∧ depth (tree w') = 1
    ∧ insert 256 0 (refuse w) = None
    ∧ (granted w (Z.to_nat (depth (tree w)) + 3) →
       ∃ w', insert 256 0 w = Some (OK, w'))
    ∧ ∀ e w', insert 256 0 w = Some (e, w') →
        (e = NOMEM ↔ path_length (tree w) < depth (tree w) ∧ (grant w).1 = false)
        ∧ (e = NOMEM ∧ same_contents w w'
           ∨ e = OK ∧ well_shaped w' ∧ cursor_list (tree w') = 0
             ∧ depth (tree w) ≤ depth (tree w') ≤ depth (tree w) + 1).
Proof.
  assert (H :
    (w ← (w0 ← new_bplus_tree []; insert_all (records 1 255) w0);
     '(e, w') ← insert 256 0 w;
     Some (e, depth (tree w'), insert 256 0 (refuse w)))
    = Some (OK, 1, None)) by (vm_compute; reflexivity).
  apply bind_Some in H as (w & Hw & H).
  apply bind_Some in H as ([e w'] & Hi & H).
  injection H as -> Hd Hr.
  exists w, w'. split; [exact Hw|]. split; [exact Hi|]. split; [exact Hd|].
  split; [exact Hr|].
  apply bind_Some in Hw as (w0 & Hnew & Hall).
  destruct (new_tree_search [] w0 Hnew) as [Hs0 Hc0].
  destruct (insert_all_search_tree _ w0 w Hs0 Hall) as [Hs Hc].
  apply (insert_keeps_shape w 256 0).
  - destruct Hs as (G & B & HI & _). exists G. exact HI.
  - rewrite Hc. exact Hc0.
Defined.

Lemma insert_all_granted kvs : ∀ w,
  well_shaped w → cursor_list (tree w) = 0 → all_granted w →
  next_page w + 54 * Z.of_nat (length kvs) + 54 ≤ 4503599627370496 →
  ∃ w', insert_all kvs w = Some w' ∧ well_shaped w'.
Proof.
  induction kvs as [|[k v] kvs IH]; intros w Hw Hcl Hg Hroom; simpl.
  - by exists w.
  - destruct (insert_spec_shape w k v Hw Hcl) as [Hsafe Hres].
    destruct Hw as [G HI]. pose proof (Inv_depth_small w G HI) as Hsmall.
    pose proof (inv_depth _ _ HI) as Hd0.
    destruct Hsafe as (w1 & Hrun & Hg1 & Hnp1).
    { split; [done|]. simpl in Hroom. lia. }
    rewrite Hrun. simpl.
    destruct (Hres OK w1 Hrun) as [_ [[? _]|(_ & Hw1 & Hcl1 & _)]]; [done|].
    apply IH; try done. simpl in Hroom. lia.
Qed.

Lemma insert_seq_shape kvs : ∀ w e w',
  well_shaped w → cursor_list (tree w) = 0 →
  insert_seq kvs w = Some (e, w') →
  e = NOMEM ∨ e = OK ∧ well_shaped w' ∧ insert_all kvs w = Some w'.
Proof.
  induction kvs as [|[k v] kvs IH]; intros w e w' Hw Hcl Hrun; simpl in *.
  - injection Hrun as <- <-. right. done.
  - apply bind_Some in Hrun as ([r w1] & Hins & Hrun). simpl in Hrun.
    rewrite Hins. simpl.
    destruct (proj2 (insert_spec_shape w k v Hw Hcl) r w1 Hins)
      as [_ [(-> & _)|(-> & Hw1 & Hcl1 & _)]].
    + rewrite decide_False in Hrun by done. injection Hrun as <- _. by left.
    + rewrite decide_True in Hrun by done. by apply (IH w1).
Qed.

(** X6.  Pairs inserted into a new tree one after the other.  When the
    environment grants every request, every [insert] of a list of less
    than 2^46 pairs reads and writes mapped pages only and answers OK,
    and the tree has the right shape at the end.  Whatever the
    environment does, when the insertions run through with the answer
    OK the tree has the right shape; the only other answer is NOMEM. *)
Theorem inserts_into_new_tree (ans : list bool) (w0 : world) (kvs : list (Z * Z)) :
  new_bplus_tree ans = Some w0 →
  (Forall (λ a, a = true) ans → Z.of_nat (length kvs) < 2 ^ 46 →
   ∃ w, insert_all kvs w0 = Some w ∧ well_shaped w)
  ∧ ∀ e w, insert_seq kvs w0 = Some (e, w) →
      e = NOMEM ∨ e = OK ∧ well_shaped w ∧ insert_all kvs w0 = Some w.
Proof.
  intros Hnew.
  assert (Hw0 : well_shaped w0) by (exists {[1 := 0%nat]}; by apply (Inv_new ans)).
  pose proof (new_bplus_tree_spec ans) as H. rewrite Hnew in H.
  destruct H as (_ & Hnp & _ & Hor & Ht & _).
  assert (Hcl : cursor_list (tree w0) = 0) by (by rewrite Ht).
  split.
  - intros Hans Hlen. apply insert_all_granted; try done.
    + unfold all_granted. rewrite Hor. by apply Forall_drop.
    + rewrite Hnp. change (2 ^ 46) with 70368744177664 in Hlen. lia.
  - intros e w. by apply insert_seq_shape.
Qed.

Lemma inserts_into_new_tree_witness :
  (Forall (λ a, a = true) [] → Z.of_nat (length [(5, 50); (3, 30); (9, 90)]) < 2 ^ 46 →
   ∃ w, insert_all [(5, 50); (3, 30); (9, 90)] empty_tree = Some w ∧ well_shaped w)
  ∧ ∀ e w, insert_seq [(5, 50); (3, 30); (9, 90)] empty_tree = Some (e, w) →
      e = NOMEM
      ∨ e = OK ∧ well_shaped w
        ∧ insert_all [(5, 50); (3, 30); (9, 90)] empty_tree = Some w.
Proof.
  exact (inserts_into_new_tree [] empty_tree [(5, 50); (3, 30); (9, 90)]
           empty_tree_new).
Defined.

(** the tree after [insert 5 50] into the new tree *)
Definition tree_5 : world :=
  World {[1 := blk_insert_into_leaf (wr (set_num_keys zero_block 0) 511 0) 0 5 50]}
        2 ∅ 1 [] (Bplus 1 1 0 0 1 1 0 0 None 0).

Lemma tree_5_insert : insert 5 50 empty_tree = Some (OK, tree_5).
Proof. vm_compute. reflexivity. Qed.

Lemma tree_5_holds : holds tree_5 5 50.
Proof.
  exists 1, (blk_insert_into_leaf (wr (set_num_keys zero_block 0) 511 0) 0 5 50).
  vm_compute. repeat split; congruence.
Qed.

Lemma tree_5_Inv : Inv tree_5 {[1 := 0%nat]}.
Proof.
  set (b0 := wr (set_num_keys zero_block 0) 511 0).
  assert (Hb0 : blk b0) by apply blk_wr, blk_set_num_keys, blk_zero.
  assert (H0 : Inv (with_pages empty_tree
                      (<[1 := blk_insert_into_leaf b0 0 5 50]> (pages empty_tree)))
                   {[1 := 0%nat]}).
  { apply Inv_update_leaf with (b := b0); [exact empty_tree_Inv|done|done| |done].
    apply blk_insert_into_leaf_spec; [done|vm_compute; split; congruence|done]. }
  eapply Inv_same; [exact H0| |done|done|done|done].
  simpl. by rewrite insert_singleton_eq.
Qed.

(** X7.  On an ordered tree of the right shape, a key that [insert] has
    put in is found with its value: after [insert k v] has answered OK,
    [find k] answers OK with [v].  The only other answer is NOMEM, when
    the insertion has made the tree deeper and the longer path array is
    refused. *)
Theorem insert_then_find (w : world) (k v : Z) (w1 : world) :
  ordered w → insert k v w = Some (OK, w1) →
  ∃ e x w2, find k w1 = Some (e, x, w2)
    ∧ (e = OK ∧ x = Some v
       ∨ e = NOMEM ∧ x = None ∧ depth (tree w) < depth (tree w1)
         ∧ (grant w1).1 = false).
Proof.
  intros (G & HI & Hs) Hrun.
  destruct (insert_spec w G k v HI) as [_ Hres].
  destruct (Hres OK w1 Hrun) as [[? _]|(_ & G' & HI' & _ & Hpl & Hd & Hh & _)]; [done|].
  destruct (find_holds w1 G' k v HI' (Hh Hs)) as (e & x & w2 & Hf & _ & Hcase).
  exists e, x, w2. split; [done|].
  destruct Hcase as [?|(-> & -> & Hlt & Hg)]; [by left|right].
  split; [done|]. split; [done|]. split; [lia|done].
Qed.

Lemma insert_then_find_witness :
  ∃ e x w2, find 5 tree_5 = Some (e, x, w2)
    ∧ (e = OK ∧ x = Some 50
       ∨ e = NOMEM ∧ x = None ∧ depth (tree empty_tree) < depth (tree tree_5)
         ∧ (grant tree_5).1 = false).
Proof.
  apply (insert_then_find empty_tree 5 50 tree_5).
  - exists {[1 := 0%nat]}. split; [exact empty_tree_Inv|exact empty_tree_sorted].
  - exact tree_5_insert.
Defined.

(** X8.  [insert] of a key the tree has replaces the value of its record
    in place: the answer is OK or NOMEM, and when it is OK the key has
    the new value, every other record is as it was, the shape (with the
    same nodes at the same heights) and the order of the keys are kept,
    and the counts of records and blocks are unchanged. *)
Theorem insert_present_replaces_value (w : world) (G : gmap Z nat) (k v v0 : Z)
    (w1 : world) :
  Inv w G → holds w k v0 → insert k v w = Some (OK, w1) →
  Inv w1 G ∧ holds w1 k v
  ∧ (∀ k' v', k' ≠ k → holds w1 k' v' ↔ holds w k' v')
  ∧ (sorted_nodes w G → sorted_nodes w1 G)
  ∧ num_recs (tree w1) = num_recs (tree w)
  ∧ num_blks (tree w1) = num_blks (tree w)
  ∧ depth (tree w1) = depth (tree w).
Proof.
  intros HI Hh Hrun.
  destruct (insert_spec w G k v HI) as [_ Hres].
  destruct (Hres OK w1 Hrun) as [[? _]|(_ & G' & HI' & _ & _ & Hd & _ & Hp & _)]; [done|].
  destruct (Hp (ex_intro _ v0 Hh)) as (-> & H1 & H2 & H3 & H4 & H5 & H6).
  split; [done|]. split; [done|]. split; [done|]. split; [done|].
  split; [done|]. split; [done|].
  destruct H4 as (l1 & b1 & Hd1 & _). destruct Hh as (l0 & b0 & Hd0 & _).
  destruct (decide (depth (tree w1) = depth (tree w))) as [|Hne]; [done|].
  exfalso.
  pose proof (inv_depth _ _ HI). pose proof (inv_depth _ _ HI').
  pose proof (ti_root _ _ _ _ _ (inv_tree _ _ HI)) as Hr0.
  pose proof (ti_root _ _ _ _ _ (inv_tree _ _ HI')) as Hr1.
  pose proof (ti_top _ _ _ _ _ (inv_tree _ _ HI) _ _ Hr1).
  pose proof (ti_top _ _ _ _ _ (inv_tree _ _ HI') _ _ Hr0).
  lia.
Qed.

Lemma insert_present_replaces_value_witness :
  ∃ w1, insert 5 51 tree_5 = Some (OK, w1)
    ∧ Inv w1 {[1 := 0%nat]} ∧ holds w1 5 51
    ∧ (∀ k' v', k' ≠ 5 → holds w1 k' v' ↔ holds tree_5 k' v')
    ∧ (sorted_nodes tree_5 {[1 := 0%nat]} → sorted_nodes w1 {[1 := 0%nat]})
    ∧ num_recs (tree w1) = num_recs (tree tree_5)
    ∧ num_blks (tree w1) = num_blks (tree tree_5)
    ∧ depth (tree w1) = depth (tree tree_5).
Proof.
  assert (H : (snd <$> insert 5 51 tree_5) ≫= (λ w1, Some (fst <$> insert 5 51 tree_5))
              = Some (Some OK)) by (vm_compute; reflexivity).
  destruct (insert 5 51 tree_5) as [[e w1]|] eqn:E; [|done].
  simpl in H. injection H as ->. exists w1. split; [done|].
  exact (insert_present_replaces_value tree_5 {[1 := 0%nat]} 5 51 50 w1
           tree_5_Inv tree_5_holds E).
Defined.

(** X9.  [insert] of a key the tree does not have adds one record: when
    it answers OK the count of records has grown by one (modulo 2^64),
    and on an ordered tree the key is in the tree with its value. *)
Theorem insert_absent_adds_record (w : world) (G : gmap Z nat) (k v : Z)
    (w1 : world) :
  Inv w G → (∀ v0, ¬ holds w k v0) → insert k v w = Some (OK, w1) →
  num_recs (tree w1) = u64 (num_recs (tree w) + 1)
  ∧ (sorted_nodes w G → holds w1 k v).
Proof.
  intros HI Hno Hrun.
  destruct (insert_spec w G k v HI) as [_ Hres].
  destruct (Hres OK w1 Hrun) as [[? _]|(_ & G' & HI' & _ & _ & _ & Hh & _ & Hn)]; [done|].
  split; [|done]. apply Hn. intros [v0 Hv0]. by apply (Hno v0).
Qed.

Lemma insert_absent_adds_record_witness :
  num_recs (tree tree_5) = u64 (num_recs (tree empty_tree) + 1)
  ∧ (sorted_nodes empty_tree {[1 := 0%nat]} → holds tree_5 5 50).
Proof.
  apply (insert_absent_adds_record empty_tree {[1 := 0%nat]} 5 50 tree_5).
  - exact empty_tree_Inv.
  - intros v0 (leaf & lb & H1 & H2 & H3 & _). vm_compute in H1.
    injection H1 as <-. vm_compute in H2. injection H2 as <-.
    vm_compute in H3. done.
  - exact tree_5_insert.
Defined.

(** ** The operations on single nodes *)

(** a world of two zero-filled pages, the second noted as the new root *)
Definition two_pages : world :=
  World (<[2 := zero_block]> {[1 := zero_block]}) 3 ∅ 1 []
        (Bplus 1 1 0 0 0 1 0 0 None 2).

(** X10.  [insert_split_into_index] puts the key [key] into the slot [i]
    of an index node that has room and the child [child] behind it: the
    node has one key more, the keys and children before the slot stay,
    and those after it have moved up by one. *)
Theorem insert_split_into_index_opens_slot (w : world) (node i key child : Z)
    (b : block) :
  pages w !! node = Some b → blk b → 0 ≤ i ≤ num_keys b → num_keys b < 255 →
  ∃ b', insert_split_into_index w node i key child
        = Some (with_pages w (<[node := b']> (pages w)))
    ∧ blk b' ∧ num_keys b' = num_keys b + 1
    ∧ (∀ j, 0 ≤ j ≤ num_keys b → get_key b' j = with_key b i key j)
    ∧ (∀ j, 0 ≤ j ≤ num_keys b + 1 → get_child b' j = with_child b i child j).
Proof.
  intros Hb Hblk Hi Hnk. exists (blk_insert_split_into_index b i key child).
  split; [by apply insert_split_into_index_run|].
  by apply blk_insert_split_into_index_spec.
Qed.

Lemma insert_split_into_index_opens_slot_witness :
  ∃ b', insert_split_into_index two_pages 1 0 7 2
        = Some (with_pages two_pages (<[1 := b']> (pages two_pages)))
    ∧ blk b' ∧ num_keys b' = num_keys zero_block + 1
    ∧ (∀ j, 0 ≤ j ≤ num_keys zero_block → get_key b' j = with_key zero_block 0 7 j)
    ∧ (∀ j, 0 ≤ j ≤ num_keys zero_block + 1 →
         get_child b' j = with_child zero_block 0 2 j).
Proof.
  apply (insert_split_into_index_opens_slot two_pages 1 0 7 2 zero_block).
  - reflexivity.
  - reflexivity.
  - vm_compute. split; congruence.
  - reflexivity.
Defined.

(** X11.  [split_index] splits the full index node [parent], taking the
    key [k] and the child [new] behind the slot [pos] into account: of
    the 256 keys and 257 children that make the sequence with [k] and
    [new] put in, the first 128 keys and 129 children stay in [parent],
    the key of position 128 is handed back for the level above, and the
    last 127 keys and 128 children go to the new node [newp]. *)
Theorem split_index_halves (w : world) (parent newp pos k new : Z) (P N : block) :
  pages w !! parent = Some P → pages w !! newp = Some N → parent ≠ newp →
  blk P → blk N → 0 ≤ pos ≤ 255 →
  ∃ P' N',
    split_index w parent newp pos k new
    = Some (with_key P pos k 128,
            with_pages w (<[parent := P']> (<[newp := N']> (pages w))))
    ∧ blk P' ∧ blk N' ∧ num_keys P' = 128 ∧ num_keys N' = 127
    ∧ (∀ j, 0 ≤ j < 128 → get_key P' j = with_key P pos k j)
    ∧ (∀ j, 0 ≤ j < 127 → get_key N' j = with_key P pos k (129 + j))
    ∧ (∀ j, 0 ≤ j ≤ 128 → get_child P' j = with_child P pos new j)
    ∧ (∀ j, 0 ≤ j ≤ 127 → get_child N' j = with_child P pos new (129 + j)).
Proof. apply split_index_spec. Qed.

Lemma split_index_halves_witness :
  ∃ P' N',
    split_index two_pages 1 2 200 7 9
    = Some (with_key zero_block 200 7 128,
            with_pages two_pages (<[1 := P']> (<[2 := N']> (pages two_pages))))
    ∧ blk P' ∧ blk N' ∧ num_keys P' = 128 ∧ num_keys N' = 127
    ∧ (∀ j, 0 ≤ j < 128 → get_key P' j = with_key zero_block 200 7 j)
    ∧ (∀ j, 0 ≤ j < 127 → get_key N' j = with_key zero_block 200 7 (129 + j))
    ∧ (∀ j, 0 ≤ j ≤ 128 → get_child P' j = with_child zero_block 200 9 j)
    ∧ (∀ j, 0 ≤ j ≤ 127 → get_child N' j = with_child zero_block 200 9 (129 + j)).
Proof.
  apply (split_index_halves two_pages 1 2 200 7 9 zero_block zero_block).
  - reflexivity.
  - reflexivity.
  - lia.
  - reflexivity.
  - reflexivity.
  - lia.
Defined.

(** X12.  [add_root_block] makes the page set aside for the new root
    the root of the tree: it has the one key [k] between the two
    children given, everything else stays, and the depth is one more. *)
Theorem add_root_block_makes_root (w : world) (left_child k right_child : Z)
    (b : block) :
  pages w !! new_root (tree w) = Some b → blk b →
  ∃ w' b', add_root_block w left_child k right_child = Some w'
    ∧ pages w' = <[new_root (tree w) := b']> (pages w)
    ∧ root (tree w') = new_root (tree w)
    ∧ depth (tree w') = u32 (depth (tree w) + 1)
    ∧ num_keys b' = 1 ∧ get_key b' 0 = k
    ∧ get_child b' 0 = left_child ∧ get_child b' 1 = right_child
    ∧ cursors w' = cursors w ∧ num_recs (tree w') = num_recs (tree w)
    ∧ num_blks (tree w') = num_blks (tree w).
Proof.
  intros Hb Hblk. rewrite (add_root_block_run _ _ _ _ b Hb).
  destruct (blk_root_spec b left_child k right_child Hblk) as (_ & H1 & H2 & H3 & H4).
  eexists _, _. split; [done|]. simpl. done.
Qed.

Lemma add_root_block_makes_root_witness :
  ∃ w' b', add_root_block two_pages 1 7 9 = Some w'
    ∧ pages w' = <[new_root (tree two_pages) := b']> (pages two_pages)
    ∧ root (tree w') = new_root (tree two_pages)
    ∧ depth (tree w') = u32 (depth (tree two_pages) + 1)
    ∧ num_keys b' = 1 ∧ get_key b' 0 = 7
    ∧ get_child b' 0 = 1 ∧ get_child b' 1 = 9
    ∧ cursors w' = cursors two_pages
    ∧ num_recs (tree w') = num_recs (tree two_pages)
    ∧ num_blks (tree w') = num_blks (tree two_pages).
Proof.
  apply (add_root_block_makes_root two_pages 1 7 9 zero_block).
  - reflexivity.
  - reflexivity.
Defined.

(** ** Cursors *)

(** the tree of the record (5, 50) with a cursor on that record *)
Definition tree_5c : world :=
  World {[1 := blk_insert_into_leaf (wr (set_num_keys zero_block 0) 511 0) 0 5 50]}
        2 {[1 := Cursor 1 0 1 0 0]} 2 [] (Bplus 1 1 0 1 1 1 1 0 None 0).

Lemma tree_5_cursors_ok : cursors_ok tree_5.
Proof. split; [done|]. intros c bc H. done. Qed.

Lemma tree_5_find_record : find_record 5 tree_5 = Some (1, tree_5c).
Proof. vm_compute. reflexivity. Qed.

Lemma tree_5c_Inv : Inv tree_5c {[1 := 0%nat]}.
Proof. by apply (Inv_same tree_5 tree_5c _ tree_5_Inv). Qed.

Lemma tree_5c_cursors_ok : cursors_ok tree_5c.
Proof.
  split; [done|]. intros c bc H. simpl in H.
  apply lookup_singleton_Some in H as [<- <-]. simpl. lia.
Qed.

(** X13.  On a well-shaped tree [find_record] dereferences mapped pages
    only and leaves the pages as they are.  It returns null (when the
    path array or the cursor is refused) with the registry unchanged, or
    a new cursor put at the head of the registry, with the cursor count
    one more and every other cursor untouched.  [get_record] through
    the new cursor gives the record of [k] when the tree has [k]; when
    it has not, it gives NOTFOUND or a record with a key above [k]. *)
Theorem find_record_stands_on_key (w : world) (G : gmap Z nat) (k : Z)
    (cs : list Z) :
  Inv w G → cursors_ok w → registry w = Some cs →
  ∃ c w', find_record k w = Some (c, w')
    ∧ pages w' = pages w
    ∧ (c = 0 ∧ cursors w' = cursors w ∧ registry w' = Some cs
       ∨ c ≠ 0 ∧ cursors w !! c = None ∧ registry w' = Some (c :: cs)
         ∧ num_crsrs (tree w') = u64 (num_crsrs (tree w) + 1)
         ∧ Inv w' G ∧ cursors_ok w'
         ∧ (∀ x bx, cursors w !! x = Some bx → cursors w' !! x = Some bx)
         ∧ (∀ v, holds w k v → get_record c w' = Some (OK, Some (k, v)))
         ∧ ((∀ v, ¬ holds w k v) →
            get_record c w' = Some (NOTFOUND, None)
            ∨ ∃ k' v', get_record c w' = Some (OK, Some (k', v')) ∧ k < k')).
Proof. apply find_record_get_record. Qed.

Lemma find_record_stands_on_key_witness :
  ∃ c w', find_record 5 tree_5 = Some (c, w')
    ∧ pages w' = pages tree_5
    ∧ (c = 0 ∧ cursors w' = cursors tree_5 ∧ registry w' = Some []
       ∨ c ≠ 0 ∧ cursors tree_5 !! c = None ∧ registry w' = Some [c]
         ∧ num_crsrs (tree w') = u64 (num_crsrs (tree tree_5) + 1)
         ∧ Inv w' {[1 := 0%nat]} ∧ cursors_ok w'
         ∧ (∀ x bx, cursors tree_5 !! x = Some bx → cursors w' !! x = Some bx)
         ∧ (∀ v, holds tree_5 5 v → get_record c w' = Some (OK, Some (5, v)))
         ∧ ((∀ v, ¬ holds tree_5 5 v) →
            get_record c w' = Some (NOTFOUND, None)
            ∨ ∃ k' v', get_record c w' = Some (OK, Some (k', v')) ∧ 5 < k')).
Proof.
  apply (find_record_stands_on_key tree_5 {[1 := 0%nat]} 5 []).
  - exact tree_5_Inv.
  - exact tree_5_cursors_ok.
  - reflexivity.
Defined.

(** X14.  A value written through the cursor of a key is the value of
    the key: when the tree has [k] and [find_record k] has handed out a
    cursor, [update_record] through it answers OK, [get_record] then
    gives [k] with the new value, the tree has [k] with the new value
    (so [find k] answers it), every other key keeps its value, and the
    shape and the order of the keys are kept. *)
Theorem update_record_through_cursor (w : world) (G : gmap Z nat) (k v v0 : Z)
    (cs : list Z) (c : Z) (w1 : world) :
  Inv w G → cursors_ok w → registry w = Some cs → holds w k v0 →
  find_record k w = Some (c, w1) → c ≠ 0 →
  ∃ w2, update_record c v w1 = Some (OK, w2)
    ∧ get_record c w2 = Some (OK, Some (k, v))
    ∧ cursors w2 = cursors w1 ∧ tree w2 = tree w1
    ∧ Inv w2 G ∧ holds w2 k v
    ∧ (sorted_nodes w G → sorted_nodes w2 G)
    ∧ (∀ k' v', k' ≠ k → holds w2 k' v' ↔ holds w k' v').
Proof. apply update_record_through. Qed.

Lemma update_record_through_cursor_witness :
  ∃ w2, update_record 1 51 tree_5c = Some (OK, w2)
    ∧ get_record 1 w2 = Some (OK, Some (5, 51))
    ∧ cursors w2 = cursors tree_5c ∧ tree w2 = tree tree_5c
    ∧ Inv w2 {[1 := 0%nat]} ∧ holds w2 5 51
    ∧ (sorted_nodes tree_5 {[1 := 0%nat]} → sorted_nodes w2 {[1 := 0%nat]})
    ∧ (∀ k' v', k' ≠ 5 → holds w2 k' v' ↔ holds tree_5 k' v').
Proof.
  apply (update_record_through_cursor tree_5 {[1 := 0%nat]} 5 51 50 [] 1 tree_5c).
  - exact tree_5_Inv.
  - exact tree_5_cursors_ok.
  - reflexivity.
  - exact tree_5_holds.
  - exact tree_5_find_record.
  - lia.
Defined.

(** X15.  [free_cursor] of a registered cursor whose tree exists takes
    the cursor out of the registry, which keeps its other cursors in
    their order, frees it and counts the cursors down by one; the pages
    are untouched and [get_record] through any other cursor answers as
    before. *)
Theorem free_cursor_unregisters (w : world) (cs : list Z) (c : Z) :
  registry w = Some cs → c ∈ cs → get_tree c w = Some 1 →
  ∃ l1 l2 w', cs = l1 ++ c :: l2 ∧ free_cursor c w = Some w'
    ∧ registry w' = Some (l1 ++ l2) ∧ cursors w' !! c = None
    ∧ num_crsrs (tree w') = u64 (num_crsrs (tree w) - 1)
    ∧ pages w' = pages w
    ∧ (∀ x, x ≠ c → get_record x w' = get_record x w).
Proof. apply free_cursor_registry. Qed.

Lemma free_cursor_unregisters_witness :
  ∃ l1 l2 w', [1] = l1 ++ 1 :: l2 ∧ free_cursor 1 tree_5c = Some w'
    ∧ registry w' = Some (l1 ++ l2) ∧ cursors w' !! 1 = None
    ∧ num_crsrs (tree w') = u64 (num_crsrs (tree tree_5c) - 1)
    ∧ pages w' = pages tree_5c
    ∧ (∀ x, x ≠ 1 → get_record x w' = get_record x tree_5c).
Proof.
  apply (free_cursor_unregisters tree_5c [1] 1).
  - reflexivity.
  - apply list_elem_of_singleton. reflexivity.
  - reflexivity.
Defined.

(** X16.  A cursor keeps its record when a key goes into a leaf that
    has room: when [insert k v] answers OK on a well-shaped tree and the
    leaf of [k] has less than 255 keys, [get_record] through a
    registered cursor that stood on a record with another key gives that
    record as before. *)
Theorem insert_keeps_cursor_on_record (w : world) (G : gmap Z nat) (k v : Z)
    (cs : list Z) (leaf : Z) (lb : block) (c k0 v0 : Z) (w' : world) :
  Inv w G → cursors_ok w → registry w = Some cs → c ∈ cs →
  descend (pages w) (Z.to_nat (depth (tree w))) (root (tree w)) k = Some leaf →
  pages w !! leaf = Some lb → num_keys lb < 255 →
  get_record c w = Some (OK, Some (k0, v0)) → k0 ≠ k →
  insert k v w = Some (OK, w') →
  get_record c w' = Some (OK, Some (k0, v0)).
Proof. apply insert_get_record. Qed.

Lemma insert_keeps_cursor_on_record_witness :
  ∃ w', insert 3 30 tree_5c = Some (OK, w')
    ∧ get_record 1 w' = Some (OK, Some (5, 50)).
Proof.
  assert (H : (snd <$> insert 3 30 tree_5c) ≫= (λ w1, Some (fst <$> insert 3 30 tree_5c))
              = Some (Some OK)) by (vm_compute; reflexivity).
  destruct (insert 3 30 tree_5c) as [[e w1]|] eqn:E; [|done].
  simpl in H. injection H as ->. exists w1. split; [done|].
  apply (insert_keeps_cursor_on_record tree_5c {[1 := 0%nat]} 3 30 [1] 1
           (blk_insert_into_leaf (wr (set_num_keys zero_block 0) 511 0) 0 5 50)
           1 5 50 w1).
  - exact tree_5c_Inv.
  - exact tree_5c_cursors_ok.
  - reflexivity.
  - apply list_elem_of_singleton. reflexivity.
  - reflexivity.
  - reflexivity.
  - vm_compute. reflexivity.
  - vm_compute. reflexivity.
  - lia.
  - exact E.
Defined.

(** ** The tree as a map *)

Lemma empty_tree_search : search_tree empty_tree.
Proof.
  exists {[1 := 0%nat]}, {[1 := (None, None)]}.
  split; [exact empty_tree_Inv|exact (Ord_new [] _ empty_tree_new)].
Qed.

(** the map that a list of pairs makes, a later pair replacing an
    earlier one with the same key *)
Definition map_of (kvs : list (Z * Z)) : gmap Z Z :=
  foldl (λ m kv, <[kv.1 := kv.2]> m) ∅ kvs.

Lemma insert_map_step w k v w' :
  search_tree w → insert k v w = Some (OK, w') →
  search_tree w'
  ∧ ∀ x y, holds w' x y ↔ (x = k ∧ y = v) ∨ (x ≠ k ∧ holds w x y).
Proof.
  intros (G & B & HI & HO) Hrun.
  destruct (insert_ord w G B k v w' HI HO Hrun) as (G' & B' & HI' & HO' & Hst).
  split; [by exists G', B'|]. intros x y.
  rewrite (holds_stored w' G' B' x y HI' HO'), (holds_stored w G B x y HI HO).
  apply Hst.
Qed.

(** X17.  [insert] is the update of a map.  On a search tree (a tree of
    the right shape in which every node has the keys of its range, in
    ascending order, and the leaves are chained in the order of their
    ranges), when [insert k v] answers OK the tree is a search tree
    again, it has [k] with [v], and it has every other key with the
    value it had, whether the leaf had room, was split, or the splits
    went up to a new root. *)
Theorem insert_updates_map (w : world) (k v : Z) (w' : world) :
  search_tree w → insert k v w = Some (OK, w') →
  search_tree w'
  ∧ ∀ x y, holds w' x y ↔ (x = k ∧ y = v) ∨ (x ≠ k ∧ holds w x y).
Proof. apply insert_map_step. Qed.

Lemma insert_updates_map_witness :
  search_tree tree_5
  ∧ ∀ x y, holds tree_5 x y ↔ (x = 5 ∧ y = 50) ∨ (x ≠ 5 ∧ holds empty_tree x y).
Proof.
  apply (insert_updates_map empty_tree 5 50 tree_5).
  - exact empty_tree_search.
  - exact tree_5_insert.
Defined.

Lemma insert_seq_map kvs : ∀ w (m : gmap Z Z) w',
  search_tree w → (∀ x y, holds w x y ↔ m !! x = Some y) →
  insert_seq kvs w = Some (OK, w') →
  search_tree w'
  ∧ ∀ x y, holds w' x y ↔ foldl (λ m kv, <[kv.1 := kv.2]> m) m kvs !! x = Some y.
Proof.
  induction kvs as [|[k v] kvs IH]; intros w m w' Hs Hm Hrun; simpl in Hrun.
  - injection Hrun as <-. done.
  - apply bind_Some in Hrun as ([r w1] & Hins & Hrun). simpl in Hrun.
    destruct (decide (r = OK)) as [->|Hne]; [|by injection Hrun as -> _].
    destruct (insert_map_step w k v w1 Hs Hins) as [Hs1 Hh1].
    simpl. apply (IH w1 (<[k := v]> m) w' Hs1); [|done].
    intros x y. rewrite Hh1, Hm. rewrite lookup_insert_Some.
    split; (intros [[? ?]|[? ?]]; [left|right]; split; congruence).
Qed.

(** X18.  A tree built by insertions is the map of the pairs inserted:
    when the pairs of a list have been inserted one after the other
    into a new tree and every [insert] has answered OK, the tree is a
    search tree that has a key with a value exactly when the last pair
    with that key in the list has that value, and [find] of such a key
    answers OK with the value (or NOMEM, when the path array has to
    grow and the allocation is refused). *)
Theorem inserts_make_map (ans : list bool) (w0 : world) (kvs : list (Z * Z))
    (w : world) :
  new_bplus_tree ans = Some w0 → insert_seq kvs w0 = Some (OK, w) →
  search_tree w
  ∧ (∀ x y, holds w x y ↔ map_of kvs !! x = Some y)
  ∧ (∀ x y, map_of kvs !! x = Some y →
       ∃ e r w2, find x w = Some (e, r, w2)
         ∧ (e = OK ∧ r = Some y ∨ e = NOMEM ∧ r = None ∧ (grant w).1 = false)).
Proof.
  intros Hnew Hrun.
  assert (Hs0 : search_tree w0).
  { exists {[1 := 0%nat]}, {[1 := (None, None)]}.
    split; [exact (proj1 (Inv_new ans w0 Hnew))|exact (Ord_new ans w0 Hnew)]. }
  assert (Hm0 : ∀ x y, holds w0 x y ↔ (∅ : gmap Z Z) !! x = Some y).
  { intros x y. rewrite lookup_empty. split; [|done].
    intros (leaf & lb & Hd & Hlb & Hlt & _).
    pose proof (new_bplus_tree_spec ans) as H. rewrite Hnew in H.
    destruct H as ((rb & Hpg & _ & Hnk & _) & _ & _ & _ & Ht & _).
    rewrite Hpg in Hlb. apply lookup_singleton_Some in Hlb as [_ <-].
    destruct (scan_leaf_keys_spec rb x) as (? & _). lia. }
  destruct (insert_seq_map kvs w0 ∅ w Hs0 Hm0 Hrun) as [Hs Hm].
  split; [done|]. split; [exact Hm|].
  intros x y Hxy. apply Hm in Hxy.
  destruct Hs as (G & B & HI & HO).
  destruct (find_holds w G x y HI Hxy) as (e & r & w2 & Hf & _ & Hcase).
  exists e, r, w2. split; [done|].
  destruct Hcase as [?|(-> & -> & _ & Hg)]; [by left|by right].
Qed.

Lemma inserts_make_map_witness :
  search_tree tree_5
  ∧ (∀ x y, holds tree_5 x y ↔ map_of [(5, 50)] !! x = Some y)
  ∧ (∀ x y, map_of [(5, 50)] !! x = Some y →
       ∃ e r w2, find x tree_5 = Some (e, r, w2)
         ∧ (e = OK ∧ r = Some y ∨ e = NOMEM ∧ r = None ∧ (grant tree_5).1 = false)).
Proof.
  apply (inserts_make_map [] empty_tree [(5, 50)] tree_5).
  - exact empty_tree_new.
  - simpl. rewrite tree_5_insert. reflexivity.
Defined.

(** ** Walks over the records *)

Lemma tree_5_search : search_tree tree_5.
Proof. exact (proj1 (insert_map_step empty_tree 5 50 tree_5 empty_tree_search tree_5_insert)). Qed.

(** X19.  [enumerate] visits the records of a search tree in the order
    of their keys: the records the visitor is called with are those the
    tree has, each once, the keys ascending. *)
Theorem enumerate_in_key_order (w : world) :
  search_tree w →
  ∃ l, enumerate w = Some l
    ∧ (∀ k v, (k, v) ∈ l ↔ holds w k v)
    ∧ StronglySorted (λ p q : Z * Z, p.1 < q.1) l.
Proof. intros (G & B & HI & HO). by apply (enumerate_spec w G B). Qed.

Lemma enumerate_in_key_order_witness :
  ∃ l, enumerate tree_5 = Some l
    ∧ (∀ k v, (k, v) ∈ l ↔ holds tree_5 k v)
    ∧ StronglySorted (λ p q : Z * Z, p.1 < q.1) l.
Proof. apply (enumerate_in_key_order tree_5). exact tree_5_search. Defined.

(** X20.  [first_record] hands out a cursor on the least record: on a
    search tree it returns null (when the cursor is refused) or a new
    cursor at the head of the registry; [get_record] through it gives
    NOTFOUND when the tree has no record, and otherwise a record of the
    tree whose key no key of the tree is below. *)
Theorem first_record_is_least (w : world) (G : gmap Z nat)
    (B : gmap Z (option Z * option Z)) (cs : list Z) :
  Inv w G → Ord w G B → cursors_ok w → registry w = Some cs →
  ∃ c w', first_record w = (c, w') ∧ pages w' = pages w
    ∧ (c = 0 ∧ cursors w' = cursors w
       ∨ c ≠ 0 ∧ cursors w !! c = None ∧ registry w' = Some (c :: cs)
         ∧ ((∀ k v, ¬ holds w k v) ∧ get_record c w' = Some (NOTFOUND, None)
            ∨ ∃ k v, get_record c w' = Some (OK, Some (k, v)) ∧ holds w k v
                ∧ ∀ k' v', holds w k' v' → k ≤ k')).
Proof. apply first_record_least. Qed.

Lemma tree_5_Ord : Ord tree_5 {[1 := 0%nat]} {[1 := (None, None)]}.
Proof.
  destruct (insert_ord empty_tree _ _ 5 50 tree_5 empty_tree_Inv
              (Ord_new [] _ empty_tree_new) tree_5_insert)
    as (G' & B' & HI' & HO' & _).
  unfold Ord in *. simpl in *.
  split.
  - by rewrite lookup_singleton_eq.
  - intros a n Ha. apply lookup_singleton_Some in Ha as [<- <-].
    pose proof (ti_root _ _ _ _ _ (inv_tree _ _ HI')) as Hr. simpl in Hr.
    destruct (oi_node _ _ _ _ _ HO' 1 _ Hr) as (lo & hi & b & HB & Hb & Hok).
    pose proof (oi_root _ _ _ _ _ HO') as Hr'.
    assert (lo = None ∧ hi = None) as [-> ->] by (split; congruence).
    exists None, None, b. rewrite lookup_singleton_eq.
    split; [done|]. split; [done|].
    destruct Hok as (H1 & H2 & H3 & H4). split; [done|]. split; [done|].
    split; [done|]. done.
  - intros a n Ha. apply lookup_singleton_Some in Ha as [<- <-]. by left.
  - rewrite !lookup_singleton_eq. eauto.
Qed.

Lemma first_record_is_least_witness :
  ∃ c w', first_record tree_5 = (c, w') ∧ pages w' = pages tree_5
    ∧ (c = 0 ∧ cursors w' = cursors tree_5
       ∨ c ≠ 0 ∧ cursors tree_5 !! c = None ∧ registry w' = Some [c]
         ∧ ((∀ k v, ¬ holds tree_5 k v) ∧ get_record c w' = Some (NOTFOUND, None)
            ∨ ∃ k v, get_record c w' = Some (OK, Some (k, v)) ∧ holds tree_5 k v
                ∧ ∀ k' v', holds tree_5 k' v' → k ≤ k')).
Proof.
  apply (first_record_is_least tree_5 {[1 := 0%nat]} {[1 := (None, None)]} []).
  - exact tree_5_Inv.
  - exact tree_5_Ord.
  - exact tree_5_cursors_ok.
  - reflexivity.
Defined.

Lemma tree_5c_Ord : Ord tree_5c {[1 := 0%nat]} {[1 := (None, None)]}.
Proof. exact tree_5_Ord. Qed.

(** X21.  [next_record] moves a cursor to the record with the next key:
    for a cursor that stands on a record of a leaf of a search tree,
    it changes that cursor only; when it answers OK, [get_record] gives
    a record of the tree with a greater key and the tree has no key
    between the two; when it answers NOTFOUND, the tree has no greater
    key and [get_record] answers NOTFOUND. *)
Theorem next_record_is_successor (w : world) (G : gmap Z nat)
    (B : gmap Z (option Z * option Z)) (c : Z) (bc : bplus_cursor) (k v : Z) :
  Inv w G → Ord w G B →
  cursors w !! c = Some bc → G !! bc_leaf bc = Some O → 0 ≤ bc_pos bc →
  get_record c w = Some (OK, Some (k, v)) →
  ∃ e w', next_record c w = Some (e, w')
    ∧ pages w' = pages w ∧ tree w' = tree w
    ∧ (∀ x, x ≠ c → cursors w' !! x = cursors w !! x)
    ∧ (e = OK
       ∧ (∃ k2 v2, get_record c w' = Some (OK, Some (k2, v2)) ∧ holds w k2 v2
            ∧ k < k2 ∧ ∀ k' v', holds w k' v' → k < k' → k2 ≤ k')
       ∨ e = NOTFOUND ∧ get_record c w' = Some (NOTFOUND, None)
         ∧ ∀ k' v', holds w k' v' → k' ≤ k).
Proof. apply next_record_successor. Qed.

Lemma next_record_is_successor_witness :
  ∃ e w', next_record 1 tree_5c = Some (e, w')
    ∧ pages w' = pages tree_5c ∧ tree w' = tree tree_5c
    ∧ (∀ x, x ≠ 1 → cursors w' !! x = cursors tree_5c !! x)
    ∧ (e = OK
       ∧ (∃ k2 v2, get_record 1 w' = Some (OK, Some (k2, v2)) ∧ holds tree_5c k2 v2
            ∧ 5 < k2 ∧ ∀ k' v', holds tree_5c k' v' → 5 < k' → k2 ≤ k')
       ∨ e = NOTFOUND ∧ get_record 1 w' = Some (NOTFOUND, None)
         ∧ ∀ k' v', holds tree_5c k' v' → k' ≤ 5).
Proof.
  apply (next_record_is_successor tree_5c {[1 := 0%nat]} {[1 := (None, None)]} 1
           (Cursor 1 0 1 0 0) 5 50).
  - exact tree_5c_Inv.
  - exact tree_5c_Ord.
  - reflexivity.
  - reflexivity.
  - simpl. lia.
  - vm_compute. reflexivity.
Defined.

